(* ===== verification/_CoqProject ===== *)
-Q . S2P
Prelude.v
StoreError.v
Database.v
GroupCommit.v
GroupCommitLaws.v
GroupCommitSystem.v
GroupCommitProps.v
StoreKey.v
BlobCipher.v
SealedColumns.v
StoreEncryption.v
Conversion.v
ConversionLaws.v
ConversionProps.v
BatchChunks.v
Refinement.v
Backend.v
SignalStore.v
SignalSpec.v
SignalLaws.v
SignalProps.v
ProtocolStore.v
ProtocolSpec.v
ProtocolLaws.v
ProtocolProps.v
BlobCodec.v
AppSyncStore.v
AppSyncSpec.v
AppSyncProps.v
Events.v
EventStream.v
EventStreamProps.v
AllAccounts.v
Frame.v
Engine.v
EngineLaws.v
EngineProps.v
Errors.v
Wire.v
RequestEnums.v
Jids.v
Messaging.v
MessagingLaws.v
BoundaryProps.v
RelayedEnums.v
EngineServes.v
Connections.v
ConnectionProps.v
Registry.v
Spool.v
MediaStream.v
MediaStreamProps.v
BincodeUpgrade.v
PairingStream.v
AccountService.v
MessageProjection.v
Relays.v
AppStateEvents.v
GroupEvents.v
CallEvents.v
NoticeEvents.v
EventMapping.v
EventFaithful.v
NoticeFaithful.v
EventMappingProps.v
Outgoing.v
Sending.v
SendingProps.v
Groups.v
Contacts.v
ServiceProps.v
Startup.v
Turso.v
TursoSignal.v
TursoProtocol.v
TursoAppSync.v
TursoEngine.v
TursoConversion.v
Migrations.v
Daemon.v
