(* ===== verification/Prelude.v ===== *)
(** * wamux: a verification library for the multiplexer daemon

    wamux keeps many WhatsApp accounts connected in one process and serves them over gRPC on a
    Unix socket.  The protocol is the whatsapp-rust library's; wamux's own logic is the store the
    library's keys live in, the registry of accounts and their connections, the events each
    account publishes and the conversion of requests and library values.  Paths below are under
    src/crates/wamux/src unless they name another crate.

    ** The parts and how they interact

    - [Database] (storage/sql/transaction.rs, macros.rs): a computation runs statements on a
      database; any statement may fail, and a COMMIT may fail after it was applied.  The faults a
      run meets are part of its [World], so a theorem over all worlds covers every failure and
      every crash.
    - [GroupCommit], [GroupCommitSystem] (storage/group_commit.rs, group_commit_reconcile.rs): the
      one connection of SQLite and Turso and the COMMIT its writers share.  The first holds each
      method under the lock, over an arbitrary connection and with futures dropped at any await;
      the second interleaves any number of writers and readers.
    - [StoreKey], [BlobCipher], [SealedColumns] (the files of those names in storage/): the key
      file, one sealed blob, and the place each blob is bound to.
    - [StoreEncryption], [Conversion] (store_encryption.rs, convert.rs, sql/convert.rs,
      sql/rotate.rs, sql/store_encryption_sql.rs): whether a store opens with a key, and the
      turning of a store: sealing, decrypting, rotating, resumed after any interruption.
    - [Backend], [BatchChunks] (storage/sql/mod.rs, batch_chunks.rs): sealed columns of one
      account and the batched read.
    - [SignalStore], [ProtocolStore], [AppSyncStore] with [BlobCodec] (storage/sql/signal_store.rs,
      signal_sql.rs, prekeys_sql.rs; protocol_store.rs, protocol_batch_sql.rs, tc_token_sql.rs,
      msg_secret_store.rs; app_sync_store.rs, app_sync_sql.rs, device_store.rs; blob_codec/): the
      three stores of an account, every call.  [SignalSpec], [ProtocolSpec] and [AppSyncSpec] are
      what each promises, on plain maps; [Refinement] is the interface they meet.
    - [Engine] (storage/engine.rs, sql/accounts.rs): the accounts table and the stores below it,
      with the cascading foreign key.
    - [BincodeUpgrade] (storage/bincode_upgrade.rs, legacy_device.rs, sql/bincode_upgrade.rs,
      blob_format.rs): the re-encoding of a store written by an older release, at every opening.
    - [Registry] (state/account_registry.rs): the handles in memory beside the accounts table.
    - [Connections] (state/account_handle.rs, account_registry.rs): connect, stop and logout calls,
      the supervisors and the bots, one step of one task at a time.
    - [Events] (state/event_ring.rs, event_publisher.rs, event_bridge.rs), [EventStream] and
      [AllAccounts] (services/event_service.rs): the replay ring, the one writer of an account's
      events, a subscription to one account and one to all.
    - [Errors] (error.rs and wamux-types/src/error.rs), [Wire] (wamux-proto/proto), [Jids],
      [RequestEnums], [Messaging], [RelayedEnums] (wamux-types/src): the boundary.  A request is
      converted by [Messaging] and its parsers or refused with an [Errors.WamuxError]; what comes
      back from the library crosses by [RelayedEnums].

    - [Spool], [MediaStream] (spool/, services/media_stream.rs, media_service.rs): media on its way
      through temporary files, their budget, and the streams that fill and read them.

    - [PairingStream], [AccountService] (services/account_service.rs, domain/pairing_update.rs): the
      account calls, and a pairing call with its forwarding task.
    - [MessageProjection], [Relays], [AppStateEvents], [GroupEvents], [CallEvents], [NoticeEvents],
      [EventMapping] (domain/event_mapping.rs and the files it calls): every library event as wire
      events, and what a message shows.
    - [Outgoing] (domain/messaging.rs, media_transfer.rs, interactive_reply.rs, send_rich.rs,
      outgoing_context.rs, wire_defaults.rs) and [Sending] (services/messaging_service.rs,
      domain/chat_actions.rs, polls.rs, status.rs, state/send_echo.rs): the messages this daemon
      builds, and each call of the messaging service with the echo it owes.
    - [Groups] (services/group_service.rs, domain/groups.rs) and [Contacts] (contact_service.rs,
      newsletter_service.rs, call_service.rs, admin_service.rs and their domain files): the services
      that only ask.
    - [Startup] (cli.rs, config.rs, observe.rs, storage/mod.rs, transport/): the command line, the
      engine a DSN opens, the defaults, the labels of a request, who may talk, the binding of the
      socket.
    - [Daemon] (main.rs, daemon_runtime.rs, server.rs, transport/shutdown.rs, storage/mod.rs,
      sql/mod.rs, turso/mod.rs, file_mode.rs): serving and the one-shot commands as sequences of
      actions, each answering as its parameter says; the opening and closing of a store, the modes
      of its files.
    - [Turso], [TursoSignal], [TursoProtocol], [TursoAppSync], [TursoEngine] (storage/turso/,
      storage/statements/): the second driver.  The texts of the statements, their placeholders
      rewritten and bound by position, rows of untyped values decoded; method for method the three
      stores and the accounts.
    - [TursoConversion] (turso/convert.rs, rotate.rs, store_encryption_sql.rs, bincode_upgrade.rs): the
      turning of a store and its bincode upgrade on that driver, with the generated texts of the
      sealed columns.
    - [Migrations] (storage/turso/migrations.rs): the embedded scripts and the table that records
      them, on a connection with its transaction written out.

    A write of the library enters an account's store through [Engine]'s view, is sealed by
    [Backend] with [BlobCipher] and runs as one [Database] transaction; under SQLite or Turso
    that transaction is a job of [GroupCommit].  A request resolves its account in [Registry]; an
    event of a bot goes to the account's publisher ([Events]), which the state of [Connections]
    and every [EventStream] follow.

    Files named ...Laws hold the lemmas of a component, ...Spec what it promises, ...Props its
    properties, each marked [C] and its number; a small component has all of it in one file.
    [Frame] holds the lemmas on what a computation can change, [MessagingLaws] a small logic of
    conversions, [EventFaithful] and [NoticeFaithful] that of relays that lose nothing.

    ** What the theorems show

    - Group commit: a writer told Ok is in a COMMIT that was applied; every writer of a drained
      batch is answered; the batch stays within its cap; a failed writer is undone before the
      COMMIT; a reader finds no transaction open.
    - Encryption at rest: opening inverts sealing and refuses anything else; a blob moved to
      another place does not open; the key file accepts exactly what it documents; a marked store
      opens with its key alone; opening, decrypting and rotating lose no blob whatever statement
      fails; an interrupted conversion ends, and a rotation is whole or not at all.
    - Bincode upgrade: every blob reads back as what it held, and rows and marker change together
      or not at all.
    - Stores: any history of calls of any accounts refines the plain maps, answer by answer;
      calls of one account leave the rows of the others; on a database that does not fail every
      call succeeds; blobs round-trip; the tc-token and message-secret rules.
    - Turso: any history of operations is answered and stored as by the sql family on SQLite, and so
      are opening, decrypting and rotating a store and the bincode upgrade ([TursoConversion]'s
      turso_conversion_is_sql and turso_upgrade_is_sql); migrations are applied whole or not at all, and resumed after any failure.
    - Accounts: no row without its account, whatever the history; the registry shows the store;
      the counter of connections stays in its budget.  [ConnectionProps] and [Registry] end
      with runs on which overlapping calls break what a single one keeps.
    - Events: publishing keeps the order of its jobs, subscriptions deliver in order and lose
      nothing without a gap marker; an all-accounts subscription misses no account without one.
    - Media: the spool's files stay within its budget while their tasks live; an upload is staged
      and a download sent byte for byte, however cut.
    - Boundary: every request let in is well formed, refusals come in a fixed order, no internal
      detail reaches a client.
    - Events of the library: two sequences of events that give the same wire events are the same.
    - Pairing: a paired account is never connected again by a pairing call; its stream relays every
      update in order and ends.
    - Sending: an error of a send is a refusal or the library's own, and an answer means one message
      out and its echo under the answer's key; the echo of a text, a reaction or a media message
      reads as what was asked for.
    - Asking: group, contact, channel and call services ask only the account named, only well
      addressed questions, and stop at the first error; the list of groups is the stable sort.
    - Startup: the socket's path never shows a socket with another mode or group, and a served socket
      is never replaced, whatever file operation fails.  The daemon goes through its stages in
      order, each only after what it rests on; a one-shot command closes the store it opened.

    ** Parameters, widths and fuel

    Libraries are arguments: SHA-256, XChaCha20-Poly1305, prost's bytes, the library's keys,
    jids and addresses, uuid's text, the statements' execution of SQL (each statement is a
    function on tables written from its text in storage/statements/), how the Turso driver binds
    values to a text, what a migration script does, tokio's broadcast channel (a relation).  Their laws are classes named ...Laws, each with an instance that the witnesses
    use.  Integers keep their width where the code lets them wrap ([as_i32], [as_u64] and the like
    below).  The one fuel is the cutting of a batched read into chunks: the length of the list,
    since each chunk takes one value at least ([BatchChunks]).  Other recursion is structural, and
    a run of a concurrent system is the list of its steps.  Time is an argument of every operation
    that reads a clock.

    ** Not modelled

    - sqlx's own migrator.
    - SQL parsing, connection pools, PRAGMAs, VACUUM, the statistics SQLite keeps, the -wal and
      -shm files the drivers create beside a store.
    - domain/bot_factory.rs (the library's builder), the runtime domain/isolate.rs drives a future on.
    - MediaService's download over the library's client beyond the stream it fills.
    - The signals themselves, tokio's runtime, the reading of the configuration, the router's list of
      services.  Logging, the metrics recorder and latencies.
    - stress/, wamux-tools, the tests: mock servers and command-line tools around the daemon. *)

From stdpp Require Export base tactics list gmap strings pretty.
From stdpp Require Export options.
From Stdlib Require Export ZArith Lia.
From Stdlib Require Strings.Byte Strings.String.

#[global] Open Scope Z_scope.

(** ** Results

    Rust's [Result<A, E>].  The stdpp monad notations ([x ← m; k]) give the [?] operator,
    and [mapM] is [collect::<Result<Vec<_>, _>>()]: left to right, first error wins. *)

Inductive result (E A : Type) : Type :=
| Ok (a : A)
| Err (e : E).

Arguments Ok {E A} a.
Arguments Err {E A} e.

#[global] Instance result_ret {E} : MRet (result E) := fun A a => Ok a.

#[global] Instance result_bind {E} : MBind (result E) := fun A B f m =>
  match m with
  | Ok a => f a
  | Err e => Err e
  end.

#[global] Instance result_fmap {E} : FMap (result E) := fun A B f m =>
  match m with
  | Ok a => Ok (f a)
  | Err e => Err e
  end.

#[global] Instance result_eq_dec {E A} `{EqDecision E, EqDecision A} : EqDecision (result E A).
Proof. solve_decision. Defined.

(** [Result::map_err]. *)
Definition map_err {E F A} (f : E -> F) (m : result E A) : result F A :=
  match m with
  | Ok a => Ok a
  | Err e => Err (f e)
  end.

(** [Option::ok_or]. *)
Definition ok_or {E A} (o : option A) (e : E) : result E A :=
  match o with
  | Some a => Ok a
  | None => Err e
  end.

(** [Result::ok]. *)
Definition result_ok {E A} (m : result E A) : option A :=
  match m with
  | Ok a => Some a
  | Err _ => None
  end.

(** [Option<Result<A, E>>::transpose]. *)
Definition transpose {E A} (o : option (result E A)) : result E (option A) :=
  match o with
  | None => Ok None
  | Some (Ok a) => Ok (Some a)
  | Some (Err e) => Err e
  end.

Definition is_ok {E A} (m : result E A) : bool :=
  match m with
  | Ok _ => true
  | Err _ => false
  end.

Lemma result_bind_ok {E A B} (m : result E A) (f : A -> result E B) b :
  m ≫= f = Ok b -> exists a, m = Ok a /\ f a = Ok b.
Proof. destruct m; simpl; [eauto | discriminate]. Qed.

Lemma result_bind_err {E A B} (m : result E A) (f : A -> result E B) e :
  m ≫= f = Err e -> m = Err e \/ exists a, m = Ok a /\ f a = Err e.
Proof. destruct m; simpl; [eauto | intros [= ->]; by left]. Qed.

(** [collect] on success: as many values as inputs, each from its own input. *)
Lemma mapM_result_ok {E A B} (f : A -> result E B) l k :
  mapM f l = Ok k -> Forall2 (fun a b => f a = Ok b) l k.
Proof.
  revert k. induction l as [|a l IH]; intros k; simpl.
  - intros [= <-]. constructor.
  - intros (b & Hb & H)%result_bind_ok.
    apply result_bind_ok in H as (bs & Hbs & H). injection H as <-.
    constructor; auto.
Qed.

Lemma mapM_result_intro {E A B} (f : A -> result E B) l k :
  Forall2 (fun a b => f a = Ok b) l k -> mapM f l = Ok k.
Proof. induction 1 as [|a b l k Hb _ IH]; simpl; [done|]. rewrite Hb. simpl. by rewrite IH. Qed.

Lemma mapM_pure {E A B} (g : A -> B) (l : list A) : mapM (M := result E) (fun x => Ok (g x)) l = Ok (g <$> l).
Proof. induction l as [|a l IH]; cbn; [done|]. by rewrite IH. Qed.

(** [collect] on failure: the error is the one of the first failing input. *)
Lemma mapM_result_err {E A B} (f : A -> result E B) l e :
  mapM f l = Err e <->
  exists pre a post, l = pre ++ a :: post /\ f a = Err e /\ Forall (fun x => is_ok (f x) = true) pre.
Proof.
  split.
  - induction l as [|a l IH]; simpl; [discriminate|].
    intros [H|(b & Hb & H)]%result_bind_err.
    + exists [], a, l. repeat split; auto.
    + apply result_bind_err in H as [H|(? & _ & [=])].
      destruct (IH H) as (pre & x & post & -> & Hx & Hpre).
      exists (a :: pre), x, post. repeat split; auto. constructor; [by rewrite Hb | done].
  - intros (pre & a & post & -> & Ha & Hpre). induction Hpre as [|x pre Hx _ IH]; simpl.
    + by rewrite Ha.
    + destruct (f x); [|discriminate]. simpl. by rewrite IH.
Qed.

(** ** Bytes

    A byte is a [Byte.byte]; [Vec<u8>] and [&[u8]] are lists of them, and a Rust [String] is a
    [string], whose characters are its UTF-8 bytes. *)

Abbreviation byte := Byte.byte.
Abbreviation bytes := (list Byte.byte).

#[global] Instance byte_eq_dec : EqDecision byte := Byte.byte_eq_dec.

#[global] Program Instance byte_countable : Countable byte :=
  inj_countable Byte.to_N Byte.of_N _.
Next Obligation. intros b. apply Byte.of_to_N. Qed.

Definition byte_val (b : byte) : Z := Z.of_N (Byte.to_N b).

(** The low eight bits of [z], as a byte. *)
Definition byte_of_Z (z : Z) : byte := default Byte.x00 (Byte.of_N (Z.to_N (z mod 256))).

Lemma byte_val_range b : 0 <= byte_val b < 256.
Proof. unfold byte_val. pose proof (Byte.to_N_bounded b). lia. Qed.

Lemma byte_val_of_Z z : byte_val (byte_of_Z z) = z mod 256.
Proof.
  unfold byte_val, byte_of_Z.
  pose proof (Z.mod_pos_bound z 256 eq_refl) as Hz.
  destruct (Byte.of_N (Z.to_N (z mod 256))) as [b|] eqn:E; simpl.
  - apply Byte.to_of_N in E. rewrite E. lia.
  - apply Byte.of_N_None_iff in E. lia.
Qed.

Lemma byte_val_inj b c : byte_val b = byte_val c -> b = c.
Proof.
  unfold byte_val. intros H%N2Z.inj.
  pose proof (Byte.of_to_N b) as Hb. pose proof (Byte.of_to_N c) as Hc.
  rewrite H in Hb. congruence.
Qed.

Lemma byte_of_Z_val b : byte_of_Z (byte_val b) = b.
Proof.
  apply byte_val_inj. rewrite byte_val_of_Z. apply Z.mod_small, byte_val_range.
Qed.

(** The order of two lists of bytes, byte by byte: [Ord] of slices, and of strings. *)
Fixpoint bytes_le (a b : bytes) : bool :=
  match a, b with
  | [], _ => true
  | _ :: _, [] => false
  | x :: a, y :: b => (byte_val x <? byte_val y) || (bool_decide (x = y) && bytes_le a b)
  end.

Lemma bytes_le_refl x : bytes_le x x = true.
Proof. induction x as [|c x IH]; cbn; [done|]. rewrite IH, bool_decide_true by done. apply orb_true_r. Qed.

Lemma bytes_le_total x y : bytes_le x y = false -> bytes_le y x = true.
Proof.
  revert y. induction x as [|c x IH]; intros [|e y]; cbn; try done.
  intros [Hlt Hle]%orb_false_iff. apply Z.ltb_ge in Hlt. apply orb_true_iff.
  destruct (decide (byte_val e < byte_val c)) as [?|Hge]; [left; by apply Z.ltb_lt|right].
  assert (c = e) as -> by (apply byte_val_inj; lia). rewrite bool_decide_true in * by done. cbn in *. auto.
Qed.

Lemma bytes_le_trans x y z : bytes_le x y = true -> bytes_le y z = true -> bytes_le x z = true.
Proof.
  revert y z. induction x as [|c x IH]; intros [|e y] [|g z]; cbn; try done.
  rewrite !orb_true_iff, !andb_true_iff, !bool_decide_eq_true, !Z.ltb_lt.
  intros [?|[-> ?]] [?|[-> ?]]; [left; lia|by left|by left|right; eauto].
Qed.

Lemma bytes_le_antisym x y : bytes_le x y = true -> bytes_le y x = true -> x = y.
Proof.
  revert y. induction x as [|c x IH]; intros [|e y]; cbn; try done.
  rewrite !orb_true_iff, !andb_true_iff, !bool_decide_eq_true, !Z.ltb_lt.
  intros [?|[E1 Hxy]] [?|[E2 Hyx]]; subst; try lia. by rewrite (IH y).
Qed.

(** [str::as_bytes]. *)
Definition str_bytes (s : string) : bytes := String.list_byte_of_string s.

Lemma str_bytes_inj s t : str_bytes s = str_bytes t -> s = t.
Proof.
  intros H. rewrite <-(String.string_of_list_byte_of_string s).
  rewrite <-(String.string_of_list_byte_of_string t). unfold str_bytes in H. by rewrite H.
Qed.

Lemma str_bytes_nil s : str_bytes s = [] <-> s = "".
Proof. destruct s; simpl; split; try done; discriminate. Qed.

(** [String::is_empty]. *)
Definition str_is_empty (s : string) : bool := bool_decide (s = "").

(** ** Machine integers

    A [u8]/[u32]/[u64]/[i32]/[i64] is a [Z] in its range; these are Rust's [as] casts. *)

Definition u32_max : Z := 2 ^ 32 - 1.
Definition u64_max : Z := 2 ^ 64 - 1.
Definition as_u32 (z : Z) : Z := z mod 2 ^ 32.
Definition as_u64 (z : Z) : Z := z mod 2 ^ 64.
Definition as_i32 (z : Z) : Z := (z + 2 ^ 31) mod 2 ^ 32 - 2 ^ 31.
Definition as_i64 (z : Z) : Z := (z + 2 ^ 63) mod 2 ^ 64 - 2 ^ 63.
Definition in_u32 (z : Z) : Prop := 0 <= z < 2 ^ 32.
Definition in_u64 (z : Z) : Prop := 0 <= z < 2 ^ 64.
Definition in_i32 (z : Z) : Prop := - 2 ^ 31 <= z < 2 ^ 31.

(** [u64::saturating_add] and [u64::saturating_sub]. *)
Definition sat_add64 (a b : Z) : Z := Z.min (a + b) u64_max.
Definition sat_sub (a b : Z) : Z := Z.max 0 (a - b).

Lemma as_u32_range z : in_u32 (as_u32 z).
Proof. unfold in_u32, as_u32. apply Z.mod_pos_bound. lia. Qed.

Lemma as_u32_small z : in_u32 z -> as_u32 z = z.
Proof. unfold in_u32, as_u32. intros. apply Z.mod_small. lia. Qed.

Lemma as_i32_range z : in_i32 (as_i32 z).
Proof. unfold in_i32, as_i32. pose proof (Z.mod_pos_bound (z + 2 ^ 31) (2 ^ 32)). lia. Qed.

Lemma as_i32_small z : in_i32 z -> as_i32 z = z.
Proof. unfold in_i32, as_i32. intros. rewrite Z.mod_small; lia. Qed.

(** The cast to [i32] loses nothing: casting back gives the [u32]. *)
Lemma as_u32_i32 z : as_u32 (as_i32 z) = as_u32 z.
Proof.
  unfold as_u32, as_i32. rewrite Zminus_mod_idemp_l. f_equal. lia.
Qed.

Lemma as_i32_u32 z : as_i32 (as_u32 z) = as_i32 z.
Proof. unfold as_u32, as_i32. by rewrite Zplus_mod_idemp_l. Qed.

Lemma as_i32_inj a b : in_u32 a -> in_u32 b -> as_i32 a = as_i32 b -> a = b.
Proof.
  intros Ha Hb H. rewrite <-(as_u32_small a), <-(as_u32_small b) by done.
  by rewrite <-(as_u32_i32 a), <-(as_u32_i32 b), H.
Qed.

(** [to_be_bytes] of a [u32] or an [i32]: four bytes, most significant first. *)
Definition be4 (z : Z) : bytes :=
  [byte_of_Z (z / 2 ^ 24); byte_of_Z (z / 2 ^ 16); byte_of_Z (z / 2 ^ 8); byte_of_Z z].

(** [from_be_bytes] of a [u32]. *)
Definition of_be4 (l : bytes) : Z :=
  foldl (fun acc b => acc * 256 + byte_val b) 0 l.

Lemma length_be4 z : length (be4 z) = 4%nat.
Proof. done. Qed.

Lemma of_be4_be4 z : of_be4 (be4 z) = as_u32 z.
Proof.
  unfold of_be4, be4, as_u32. simpl. rewrite !byte_val_of_Z.
  Z.to_euclidean_division_equations. lia.
Qed.

Lemma be4_as_u32 z : be4 (as_u32 z) = be4 z.
Proof.
  assert (Hshift : forall k, (k = 2 ^ 24 \/ k = 2 ^ 16 \/ k = 2 ^ 8 \/ k = 1) ->
    byte_of_Z (as_u32 z / k) = byte_of_Z (z / k)).
  { intros k Hk. apply byte_val_inj. rewrite !byte_val_of_Z. unfold as_u32.
    destruct Hk as [-> | [-> | [-> | ->]]]; Z.to_euclidean_division_equations; lia. }
  pose proof (Hshift 1) as H1. rewrite !Z.div_1_r in H1.
  unfold be4. rewrite !Hshift, H1 by lia. done.
Qed.

Lemma be4_inj a b : be4 a = be4 b -> as_u32 a = as_u32 b.
Proof. intros H. by rewrite <-!of_be4_be4, H. Qed.

(** ** Lists of parts joined by a zero byte *)

(** [[Vec<u8>]::join(&0u8)]. *)
Fixpoint join0 (parts : list bytes) : bytes :=
  match parts with
  | [] => []
  | [p] => p
  | p :: rest => p ++ Byte.x00 :: join0 rest
  end.

(** No zero byte: a SQL text value, an identifier. *)
Definition nul_free (l : bytes) : Prop := Byte.x00 ∉ l.

#[global] Instance nul_free_dec l : Decision (nul_free l).
Proof. unfold nul_free. apply _. Defined.

(** A zero byte splits a list in one way only. *)
Lemma split_at_nul (p q r s : bytes) :
  nul_free p -> nul_free q -> p ++ Byte.x00 :: r = q ++ Byte.x00 :: s -> p = q /\ r = s.
Proof.
  revert q. induction p as [|x p IH]; intros q Hp Hq H.
  - destruct q as [|y q]; simplify_eq/=; [done|]. exfalso. apply Hq. left.
  - destruct q as [|y q]; simplify_eq/=.
    + exfalso. apply Hp. left.
    + destruct (IH q) as [-> ->]; [..|done].
      * intros Hx. apply Hp. by right.
      * intros Hx. apply Hq. by right.
      * done.
Qed.

(** Joined keys of the same number of parts are equal only part by part, as long as no part
    but the last holds a zero byte. *)
Lemma join0_inj (ps qs : list bytes) :
  length ps = length qs ->
  Forall nul_free (removelast ps) -> Forall nul_free (removelast qs) ->
  join0 ps = join0 qs -> ps = qs.
Proof.
  revert qs. induction ps as [|p ps IH]; intros [|q qs] Hlen Hp Hq H; try done.
  injection Hlen as Hlen.
  destruct ps as [|p' ps], qs as [|q' qs]; try done.
  - simpl in H. by subst.
  - simpl removelast in Hp, Hq. apply Forall_cons in Hp as [Hp Hps]. apply Forall_cons in Hq as [Hq Hqs].
    assert (p = q /\ join0 (p' :: ps) = join0 (q' :: qs)) as [-> Heq]
      by (apply split_at_nul; auto).
    f_equal. by apply IH.
Qed.

(** ** Automation *)

Create HintDb wamux.

(** Case analysis on the result or option being bound in the hypothesis [H]. *)
Ltac bind_in H :=
  repeat match type of H with
  | _ ≫= _ = Ok _ => let a := fresh "a" in let Ha := fresh "Ha" in
      apply result_bind_ok in H as (a & Ha & H)
  end.

(** Break every [match] and [if] of the goal, closing what the equations refute. *)
Ltac break_match :=
  repeat (case_match; simplify_eq/=; try done).

#[export] Hint Resolve as_u32_range as_i32_range byte_val_range : wamux.
#[export] Hint Rewrite @as_u32_i32 @as_i32_u32 @be4_as_u32 : wamux.

(** ** Totals

    The sum of [f] over the values of a map. *)

Definition total {A} (f : A -> Z) (m : gmap nat A) : Z := map_fold (fun _ x acc => f x + acc) 0 m.

Lemma total_insert {A} (f : A -> Z) (m : gmap nat A) i x :
  total f (<[i := x]> m) = total f m + f x - from_option f 0 (m !! i).
Proof.
  assert (Hnew : forall m' : gmap nat A, m' !! i = None -> total f (<[i := x]> m') = f x + total f m').
  { intros m' Hm'. apply (map_fold_insert_L (fun _ x acc => f x + acc)); [|done]. intros. lia. }
  assert (Hold : forall y, m !! i = Some y -> total f m = f y + total f (delete i m)).
  { intros y Hy. apply (map_fold_delete_L (fun _ x acc => f x + acc)); [|done]. intros. lia. }
  destruct (m !! i) as [y|] eqn:E; cbn.
  - rewrite <-insert_delete_eq, Hnew by apply lookup_delete_eq. rewrite (Hold y) by done. lia.
  - rewrite Hnew by done. lia.
Qed.

Lemma total_nonneg_in {A} (f : A -> Z) (m : gmap nat A) :
  (forall i x, m !! i = Some x -> 0 <= f x) -> 0 <= total f m.
Proof.
  intros Hf. induction m as [|i x m Hi IH] using map_ind; [done|]. rewrite total_insert, Hi. cbn.
  assert (Hx : 0 <= f x) by (apply (Hf i), lookup_insert_eq).
  assert (IHm : 0 <= total f m); [|lia].
  apply IH. intros j y Hj. apply (Hf j). rewrite lookup_insert_ne; [done|congruence].
Qed.

Lemma total_le_at {A} (f : A -> Z) (m : gmap nat A) i x :
  (forall j y, m !! j = Some y -> 0 <= f y) -> m !! i = Some x -> f x <= total f m.
Proof.
  intros Hf Hx. pose proof (total_insert f (delete i m) i x) as H.
  rewrite lookup_delete_eq, insert_delete_eq, insert_id in H by done. cbn in H.
  assert (Hd : 0 <= total f (delete i m)); [|lia].
  apply total_nonneg_in. intros j y [_ Hj]%lookup_delete_Some. by eapply Hf.
Qed.

Lemma total_nonneg {A} (f : A -> Z) (m : gmap nat A) : (forall x, 0 <= f x) -> 0 <= total f m.
Proof. intros Hf. apply total_nonneg_in. done. Qed.

Lemma total_at {A} (f : A -> Z) (m : gmap nat A) i x :
  (forall x, 0 <= f x) -> m !! i = Some x -> f x <= total f m.
Proof. intros Hf. by apply total_le_at. Qed.

Lemma total_mono {A} (f g : A -> Z) (m : gmap nat A) :
  (forall i x, m !! i = Some x -> f x <= g x) -> total f m <= total g m.
Proof.
  intros Hfg. induction m as [|i x m Hi IH] using map_ind; [done|]. rewrite !total_insert, Hi. cbn.
  assert (Hx : f x <= g x) by (apply (Hfg i), lookup_insert_eq).
  assert (IHm : total f m <= total g m); [|lia].
  apply IH. intros j y Hj. apply (Hfg j). rewrite lookup_insert_ne; [done|congruence].
Qed.

(** ** Computations with a state and an error

    The state is passed along, and kept on an error as it is. *)

Definition StErr (S E A : Type) : Type := S -> result E A * S.

#[global] Instance sterr_ret {S E} : MRet (StErr S E) := fun A a s => (Ok a, s).
#[global] Instance sterr_bind {S E} : MBind (StErr S E) := fun A B f m s =>
  match m s with
  | (Ok a, s') => f a s'
  | (Err e, s') => (Err e, s')
  end.

Section sterr.
Context {S E F A : Type}.
Definition lift (r : result E A) : StErr S E A := fun s => (r, s).
Definition err_as (f : E -> F) (m : StErr S E A) : StErr S F A := fun s => let '(r, s') := m s in (map_err f r, s').
(** The result as a value: what is done next is done on an error too. *)
Definition settled (m : StErr S E A) : StErr S F (result E A) := fun s => let '(r, s') := m s in (Ok r, s').
End sterr.
