(* ===== verification/StoreError.v ===== *)
(** * wacore's [StoreError], as this code builds it

    The storage layer answers with the library's [StoreError].  Only the variants that the code
    under [src/crates/wamux/src/storage] constructs are listed, each with the text the code gives
    it; how the library prints one is a parameter of the definitions that print it. *)

From S2P Require Import Prelude.

Inductive StoreError : Type :=
| Connection (message : string)
| Validation (message : string)
| InvalidConfig (message : string)
| Serialization (message : string)
| Database (message : string)
| Migration (message : string)
| Io (message : string).

#[global] Instance StoreError_eq_dec : EqDecision StoreError.
Proof. solve_decision. Defined.

Abbreviation StoreResult := (result StoreError).
