(* ===== verification/Database.v ===== *)
(** * Statements and transactions (storage/sql/transaction.rs, macros.rs, sqlite_conn.rs)

    A computation of the storage layer runs statements against a database of type [D].  The
    database is the server's or SQLite's: what one statement does is a function on [D] given by
    the component that issues it, and what this file fixes is how statements compose.  Every
    statement may fail, and a COMMIT may fail after it was applied; the process dying at a
    statement leaves the same database as that statement failing, since a transaction that is
    not committed is rolled back.  Which statements fail is part of the world a computation
    starts in, so a theorem over all worlds is one over every failure and every interruption. *)

From S2P Require Import Prelude StoreError.

Inductive Fault : Type :=
| Fine
| Fails (e : StoreError)       (* the statement did nothing *)
| FailsAfter (e : StoreError). (* a COMMIT that was applied and then failed *)

Record World (D : Type) : Type := MkWorld {
  db : D;
  faults : list Fault;
}.

Arguments MkWorld {D} _ _.
Arguments db {D} _.
Arguments faults {D} _.

Definition Run (D A : Type) : Type := World D -> StoreResult A * World D.

#[global] Instance run_ret {D} : MRet (Run D) := fun A a w => (Ok a, w).

#[global] Instance run_bind {D} : MBind (Run D) := fun A B f m w =>
  match m w with
  | (Ok a, w') => f a w'
  | (Err e, w') => (Err e, w')
  end.

Section run.
Context {D : Type}.

Definition of_result {A} (r : StoreResult A) : Run D A := fun w => (r, w).

(** [for x in l { f(x).await?; }] *)
Fixpoint each {A} (f : A -> Run D unit) (l : list A) : Run D unit :=
  match l with
  | [] => mret tt
  | a :: rest => f a ≫= fun _ => each f rest
  end.

(** One statement, inside a transaction or read on the pool. *)
Definition stmt {A} (f : D -> StoreResult A * D) : Run D A := fun w =>
  match faults w with
  | Fails e :: rest | FailsAfter e :: rest => (Err e, MkWorld (db w) rest)
  | Fine :: rest => let '(r, d) := f (db w) in (r, MkWorld d rest)
  | [] => let '(r, d) := f (db w) in (r, MkWorld d [])
  end.

(** A statement that only reads. *)
Definition query {A} (f : D -> A) : Run D A := stmt (fun d => (Ok (f d), d)).

(** [SqlTx::begin] to [SqlTx::commit]: on an error of the body, or of the COMMIT, the dropped
    transaction is rolled back. *)
Definition transaction {A} (body : Run D A) : Run D A := fun w =>
  match stmt (fun d => (Ok tt, d)) w with
  | (Err e, w0) => (Err e, w0)
  | (Ok _, w0) =>
      match body w0 with
      | (Err e, w1) => (Err e, MkWorld (db w) (faults w1))
      | (Ok a, w1) =>
          match faults w1 with
          | Fails e :: rest => (Err e, MkWorld (db w) rest)
          | FailsAfter e :: rest => (Err e, MkWorld (db w1) rest)
          | Fine :: rest => (Ok a, MkWorld (db w1) rest)
          | [] => (Ok a, w1)
          end
      end
  end.

(** [execute_sql!] on the pool: one statement in a transaction of its own. *)
Definition execute {A} (f : D -> StoreResult A * D) : Run D A := transaction (stmt f).
End run.

#[global] Arguments stmt : simpl never.
#[global] Arguments query : simpl never.
#[global] Arguments transaction : simpl never.
#[global] Arguments execute : simpl never.
#[global] Arguments mbind {_ _ _ _} _ !_ /.

(** ** Reasoning about runs

    [run_post calm P m Q X]: from a database that satisfies [P], [m] ends with a value and [Q], or
    with an error and [X].  With [calm] set, only the worlds where no statement fails are looked
    at, so [X := fun _ => False] says that [m] then succeeds. *)
Definition run_post {D A} (calm : bool) (P : D -> Prop) (m : Run D A) (Q : A -> D -> Prop)
    (X : D -> Prop) : Prop :=
  forall w, (calm = true -> faults w = []) -> P (db w) ->
    match m w with
    | (Ok a, w') => Q a (db w') /\ (calm = true -> faults w' = [])
    | (Err _, w') => X (db w')
    end.

Section posts.
Context {D : Type} (calm : bool).
Implicit Types (P X : D -> Prop).

Lemma post_ret {A} (a : A) P (Q : A -> D -> Prop) X :
  (forall d, P d -> Q a d) -> run_post calm P (mret a) Q X.
Proof using Type. intros H w Hf Hw. split; [by apply H|done]. Qed.

Lemma post_bind {A B} P (m : Run D A) (R : A -> D -> Prop) (f : A -> Run D B) Q X :
  run_post calm P m R X -> (forall a, run_post calm (R a) (f a) Q X) ->
  run_post calm P (m ≫= f) Q X.
Proof using Type.
  intros Hm Hf w Hfl Hw. unfold mbind, run_bind. specialize (Hm w Hfl Hw).
  destruct (m w) as [[a|e] w']; [|done]. destruct Hm. by apply Hf.
Qed.

Lemma post_stmt {A} P (f : D -> StoreResult A * D) (Q : A -> D -> Prop) X :
  (calm = false -> forall d, P d -> X d) ->
  (forall d, P d -> match f d with (Ok a, d') => Q a d' | (Err _, d') => X d' end) ->
  run_post calm P (stmt f) Q X.
Proof using Type.
  intros HX HQ w Hfl Hw. unfold stmt. specialize (HQ _ Hw).
  destruct calm.
  - rewrite Hfl by done. by destruct (f (db w)) as [[] ?].
  - destruct (faults w) as [|[] rest]; cbn; auto; by destruct (f (db w)) as [[] ?].
Qed.

Lemma post_query {A} P (f : D -> A) (Q : A -> D -> Prop) X :
  (calm = false -> forall d, P d -> X d) -> (forall d, P d -> Q (f d) d) ->
  run_post calm P (query f) Q X.
Proof using Type. intros HX HQ. by apply post_stmt. Qed.

Lemma post_of_result {A} P (r : StoreResult A) (Q : A -> D -> Prop) X :
  (forall a d, r = Ok a -> P d -> Q a d) -> (forall e d, r = Err e -> P d -> X d) ->
  run_post calm P (of_result r) Q X.
Proof using Type. intros HQ HX w Hf Hw. destruct r; cbn; eauto. Qed.

Lemma post_conseq {A} P P' (m : Run D A) (Q Q' : A -> D -> Prop) X X' :
  run_post calm P' m Q' X' -> (forall d, P d -> P' d) -> (forall a d, Q' a d -> Q a d) ->
  (forall d, X' d -> X d) -> run_post calm P m Q X.
Proof using Type.
  intros Hm HP HQ HX w Hf Hw. specialize (Hm w Hf (HP _ Hw)).
  destruct (m w) as [[a|e] w']; [|auto]. destruct Hm; auto.
Qed.

(** Start from one database at a time. *)
Lemma post_at {A} P (m : Run D A) (Q : A -> D -> Prop) X :
  (forall d0, P d0 -> run_post calm (fun d => d = d0) m Q X) -> run_post calm P m Q X.
Proof using Type. intros H w Hf Hw. by apply (H (db w)). Qed.

(** A transaction either leaves the database as it found it, or as its whole body left it. *)
Lemma post_transaction {A} P (body : Run D A) (Q : A -> D -> Prop) X :
  (forall d0, P d0 -> run_post calm (fun d => d = d0) body Q (fun _ => X d0)) ->
  (calm = false -> forall d, P d -> X d) -> (calm = false -> forall a d, Q a d -> X d) ->
  run_post calm P (transaction body) Q X.
Proof using Type.
  intros Hb HX HQX w Hfl Hw. unfold transaction.
  pose proof (post_stmt (fun d => d = db w) (fun d => (Ok tt, d)) (fun _ d => d = db w) X) as Hs.
  specialize (Hs ltac:(intros ? ? ->; auto) ltac:(done) w Hfl eq_refl).
  destruct (stmt (fun d => (Ok tt, d)) w) as [[[]|e] w0]; [|done].
  destruct Hs as [Hw0 Hfl0]. specialize (Hb _ Hw w0 Hfl0 Hw0).
  destruct (body w0) as [[v|e] w1]; [|done]. destruct Hb as [HQ Hfl1].
  destruct (faults w1) as [|[] rest] eqn:E; cbn; try done.
  - split; [done|]. intros Hc. by specialize (Hfl1 Hc).
  - apply HX; [|done]. destruct calm; [|done]. by specialize (Hfl1 eq_refl).
  - eapply HQX; [|done]. destruct calm; [|done]. by specialize (Hfl1 eq_refl).
Qed.

Lemma post_execute {A} (f : D -> StoreResult A * D) d0 (Q : A -> D -> Prop) X :
  (calm = false -> X d0) ->
  match f d0 with (Ok a, d') => Q a d' /\ (calm = false -> X d') | (Err _, _) => X d0 end ->
  run_post calm (fun d => d = d0) (execute f) Q X.
Proof using Type.
  intros HX Hf. unfold execute.
  eapply (post_conseq _ (fun d => d = d0) _ _ (fun a d => Q a d /\ (calm = false -> X d)) X X);
    [apply post_transaction|done|tauto|done].
  - intros d ->. apply (post_stmt (fun d => d = d0)); [by intros Hc _ _; apply HX|]. intros d ->.
    by destruct (f d0) as [[a|e] d'].
  - by intros Hc d ->; apply HX.
  - by intros Hc a d [_ H]; apply H.
Qed.

Lemma post_each {A} (I : list A -> D -> Prop) (f : A -> Run D unit) l X :
  (forall a rest, run_post calm (I (a :: rest)) (f a) (fun _ => I rest) X) ->
  run_post calm (I l) (each f l) (fun _ => I []) X.
Proof using Type.
  intros Hf. induction l as [|a rest IH]; cbn; [by apply post_ret|].
  eapply post_bind; [apply Hf|]. intros ?. apply IH.
Qed.
End posts.

Ltac run_step R := eapply (post_bind _ _ _ R); [|intros ?].
