(* ===== verification/GroupCommit.v ===== *)
(** * Group commit (storage/group_commit.rs, storage/group_commit_reconcile.rs)

    One connection, shared by every account, with a batch of jobs open on it.  This file holds
    what runs under the batch's lock: the methods of [BatchState], the reconciliation of a
    dropped control statement, and the body of each [GroupCommit] and [JobGuard] operation once
    the lock is granted.  [GroupCommitSystem] interleaves them.

    An [async] body is a computation [M A]: it runs on the shared state and either ends with a
    value or stops at an [.await] because its future was dropped there.  The connection decides,
    for each control statement, what it returns, or that the caller went away while it was
    awaited, in which case the statement may have run or not: [BatchConn] is any function of the
    connection's own state, so a theorem about it is a theorem about every driver, every failure
    and every cancellation. *)

From S2P Require Import Prelude StoreError.

Inductive ControlStatement : Type :=
| Begin
| Savepoint
| Release
| RollbackToSavepoint
| Commit
| Rollback.

#[global] Instance ControlStatement_eq_dec : EqDecision ControlStatement.
Proof. solve_decision. Defined.

(** [ControlStatement::sql]. *)
Definition sql (statement : ControlStatement) : string :=
  match statement with
  | Begin => "BEGIN"
  | Savepoint => "SAVEPOINT wamux_job"
  | Release => "RELEASE wamux_job"
  | RollbackToSavepoint => "ROLLBACK TO wamux_job"
  | Commit => "COMMIT"
  | Rollback => "ROLLBACK"
  end.

(** How an awaited control statement ends for the caller. *)
Inductive outcome : Type :=
| Returned (r : StoreResult unit)
| Dropped.

#[global] Instance outcome_eq_dec : EqDecision outcome.
Proof. solve_decision. Defined.

(** The [BatchConn] trait: [control] on a connection, with how it ended. *)
Class BatchConn (C : Type) : Type :=
  control : ControlStatement -> C -> outcome * C.

Definition DEFAULT_BATCH_CAP : Z := 128.

(** What a waiting job is told: the COMMIT's message on failure. *)
Abbreviation BatchAnswer := (result string unit).

(** The jobs that ran in the open transaction and the callers waiting for its COMMIT.  A
    [oneshot::Sender] is named by the writer it answers. *)
Record OpenBatch : Type := MkOpenBatch {
  jobs : Z;
  waiters : list nat;
}.

(** [OpenBatch::default]. *)
Definition open_default : OpenBatch := MkOpenBatch 0 [].

(** What the lock protects. *)
Record BatchState (C : Type) : Type := MkBatchState {
  conn : C;
  open : option OpenBatch;
  job_open : bool;
  in_flight : option ControlStatement;
}.

Arguments MkBatchState {C} _ _ _ _.
Arguments conn {C} _.
Arguments open {C} _.
Arguments job_open {C} _.
Arguments in_flight {C} _.

(** One entry of the history of the connection: a control statement and how it ended. *)
Abbreviation event := (ControlStatement * outcome)%type.

(** The state the operations share: the batch state, the two counters, and the oneshot channels
    ([answers] holds what was sent on each).  [log] and [released] are history variables: every
    control statement awaited so far, and for each job that was released, the length of the log
    right after its RELEASE. *)
Record Shared (C : Type) : Type := MkShared {
  state : BatchState C;
  commits : Z;
  jobs_total : Z;
  answers : gmap nat BatchAnswer;
  log : list event;
  released : gmap nat nat;
}.

Arguments MkShared {C} _ _ _ _ _ _.
Arguments state {C} _.
Arguments commits {C} _.
Arguments jobs_total {C} _.
Arguments answers {C} _.
Arguments log {C} _.
Arguments released {C} _.

(** [GroupCommit::new]: the cap is at least one, nothing is open. *)
Definition new_cap (cap : Z) : Z := Z.max cap 1.

Definition new_shared {C} (c : C) : Shared C :=
  MkShared (MkBatchState c None false None) 0 0 ∅ [] ∅.

(** ** Computations that may be dropped at an await *)

Definition M (C A : Type) : Type := Shared C -> option A * Shared C.

Section monad.
Context {C : Type}.

Definition ret {A} (a : A) : M C A := fun s => (Some a, s).

Definition bind {A B} (m : M C A) (f : A -> M C B) : M C B := fun s =>
  match m s with
  | (Some a, s') => f a s'
  | (None, s') => (None, s')
  end.

(** [?]: go on with the value, or return the error. *)
Definition bind_try {A B} (m : M C (StoreResult A)) (f : A -> M C (StoreResult B)) :
    M C (StoreResult B) :=
  bind m (fun r => match r with Ok a => f a | Err e => ret (Err e) end).

Definition get : M C (Shared C) := fun s => (Some s, s).
Definition put_state (f : BatchState C -> BatchState C) : M C unit := fun s =>
  (Some tt, MkShared (f (state s)) (commits s) (jobs_total s) (answers s) (log s) (released s)).

Definition set_open (o : option OpenBatch) : M C unit :=
  put_state (fun b => MkBatchState (conn b) o (job_open b) (in_flight b)).
Definition set_job_open (j : bool) : M C unit :=
  put_state (fun b => MkBatchState (conn b) (open b) j (in_flight b)).
Definition set_in_flight (i : option ControlStatement) : M C unit :=
  put_state (fun b => MkBatchState (conn b) (open b) (job_open b) i).
End monad.

Declare Scope group_scope.
Delimit Scope group_scope with group.
Notation "x <- m ; k" := (bind m (fun x => k))
  (at level 20, m at level 100, k at level 200) : group_scope.
Notation "m ;; k" := (bind m (fun _ => k))
  (at level 100, k at level 200) : group_scope.
Notation "x <-? m ; k" := (bind_try m (fun x => k))
  (at level 20, m at level 100, k at level 200) : group_scope.

Definition UNKNOWN_OUTCOME : string :=
  "the batch's COMMIT was interrupted and its outcome is unknown; check the write before retrying".

Definition TRANSACTION_LOST : string :=
  "the database rolled the batch's transaction back on its own (an I/O error or a full disk); the batch's writes were not committed".

(** [batch_answer]: [None] is a sender dropped without an answer. *)
Definition batch_answer (received : option BatchAnswer) : StoreResult unit :=
  match received with
  | Some (Ok _) => Ok tt
  | Some (Err message) => Err (Connection message)
  | None => Err (Connection "the group commit was dropped before this job's COMMIT")
  end.

(** What [JobGuard::finish] does once the lock-protected part is over. *)
Inductive finish_end : Type :=
| Answered (r : StoreResult unit)
| MustWait.

Section batch.
Context {C : Type} `{BatchConn C}.
(** [StoreError]'s [Display], the library's. *)
Context (to_string : StoreError -> string).

Local Open Scope group_scope.
Implicit Types s : Shared C.

(** ** [BatchState] *)

(** Run one control statement, marking it in flight while it is awaited.  An [Err] also means
    the statement finished, so the mark is cleared; a drop leaves it. *)
Definition run_control (statement : ControlStatement) : M C (StoreResult unit) := fun s =>
  let b := state s in
  let '(o, c) := control statement (conn b) in
  let b' i := MkBatchState c (open b) (job_open b) i in
  let s' i := MkShared (b' i) (commits s) (jobs_total s) (answers s)
                (log s ++ [(statement, o)]) (released s) in
  match o with
  | Returned r => (Some r, s' None)
  | Dropped => (None, s' (Some statement))
  end.

Definition begin_batch : M C (StoreResult unit) :=
  _ <-? run_control Begin;
  set_open (Some open_default);;
  ret (Ok tt).

(** [answer_waiters]: tell every job of a finished batch how it ended. *)
Definition answer_waiters (batch : OpenBatch) (answer : BatchAnswer) : M C unit := fun s =>
  (Some tt, MkShared (state s) (commits s) (jobs_total s)
     (foldl (fun m w => <[w := answer]> m) (answers s) (waiters batch)) (log s) (released s)).

(** [discard_batch], [discard_transaction], [discard_after_lost_savepoint]. *)
Definition discard_batch (message : string) : M C unit :=
  run_control Rollback;;
  s <- get;
  (match open (state s) with
   | Some batch => set_open None;; answer_waiters batch (Err message)
   | None => ret tt
   end);;
  set_job_open false.

Definition discard_transaction : M C unit := discard_batch UNKNOWN_OUTCOME.
Definition discard_after_lost_savepoint : M C unit := discard_batch TRANSACTION_LOST.

Definition rollback_job : M C (StoreResult unit) :=
  _ <-? run_control RollbackToSavepoint;
  _ <-? run_control Release;
  set_job_open false;;
  ret (Ok tt).

(** [false] when the batch was discarded. *)
Definition rollback_job_or_discard : M C bool :=
  r <- rollback_job;
  match r with
  | Ok _ => ret true
  | Err _ => discard_after_lost_savepoint;; ret false
  end.

Definition settle_abandoned : M C (StoreResult unit) :=
  s <- get;
  if negb (job_open (state s)) then ret (Ok tt)
  else rollback_job_or_discard;; ret (Ok tt).

Definition start_job : M C (StoreResult unit) :=
  _ <-? settle_abandoned;
  s <- get;
  _ <-? (match open (state s) with None => begin_batch | Some _ => ret (Ok tt) end);
  _ <-? run_control Savepoint;
  set_job_open true;;
  ret (Ok tt).

(** Release the savepoint and count the job; the jobs of the batch so far. *)
Definition end_job : M C (StoreResult Z) :=
  r <- run_control Release;
  match r with
  | Err error => rollback_job_or_discard;; ret (Err error)
  | Ok _ =>
      set_job_open false;;
      s <- get;
      let batch := default open_default (open (state s)) in
      let batch := MkOpenBatch (jobs batch + 1) (waiters batch) in
      set_open (Some batch);;
      ret (Ok (jobs batch))
  end.

(** COMMIT the open batch and answer its waiters; the jobs it carried. *)
Definition commit_batch : M C (StoreResult Z) :=
  s <- get;
  match open (state s) with
  | None => ret (Ok 0)
  | Some _ =>
      committed <- run_control Commit;
      (if is_ok committed then ret tt else run_control Rollback;; ret tt);;
      s <- get;
      let batch := default open_default (open (state s)) in
      set_open None;;
      answer_waiters batch (map_err to_string committed);;
      ret ((fun _ => jobs batch) <$> committed)
  end.

(** ** [GroupCommit] *)

Definition count_commit (n : Z) : M C unit := fun s =>
  if 0 <? n then
    (Some tt, MkShared (state s) (as_u64 (commits s + 1)) (as_u64 (jobs_total s + n))
                (answers s) (log s) (released s))
  else (Some tt, s).

Definition close_batch : M C (StoreResult unit) :=
  n <-? commit_batch;
  count_commit n;;
  ret (Ok tt).

Definition settle_unknown_commit : M C unit :=
  s <- get;
  match open (state s) with
  | None => set_in_flight None
  | Some _ =>
      probe <- run_control Commit;
      if is_ok probe then
        s <- get;
        let batch := default open_default (open (state s)) in
        set_open None;;
        count_commit (jobs batch);;
        answer_waiters batch (Ok tt)
      else discard_transaction
  end.

Definition undo_savepoint : M C unit :=
  rollback_job;;
  set_job_open false.

(** Settle the statement a dropped future left in flight, if any. *)
Definition reconcile : M C unit :=
  s <- get;
  match in_flight (state s) with
  | None => ret tt
  | Some Begin | Some Rollback => discard_transaction
  | Some Commit => settle_unknown_commit
  | Some Savepoint | Some Release | Some RollbackToSavepoint => undo_savepoint
  end.

(** [begin_job] once the lock is granted. *)
Definition begin_job_locked : M C (StoreResult unit) :=
  reconcile;;
  start_job.

(** [lock] once the lock is granted; [pending] is what [pending_writers] reads. *)
Definition lock_locked (pending : nat) : M C unit :=
  reconcile;;
  settle_abandoned;;
  if (pending =? 0)%nat then close_batch;; ret tt else ret tt.

Definition lock_autocommit_locked : M C (StoreResult unit) :=
  reconcile;;
  _ <-? settle_abandoned;
  _ <-? close_batch;
  ret (Ok tt).

(** History: job [me] was released at this point of the log. *)
Definition note_released (me : nat) : M C unit := fun s =>
  (Some tt, MkShared (state s) (commits s) (jobs_total s) (answers s) (log s)
              (<[me := length (log s)]> (released s))).

(** [JobGuard::finish] up to the release of the slot and the lock. *)
Definition finish_locked (cap : Z) (pending : nat) (me : nat) : M C finish_end :=
  r <- end_job;
  match r with
  | Err e => ret (Answered (Err e))
  | Ok n =>
      note_released me;;
      let others := Nat.pred pending in
      if (others =? 0)%nat || (cap <=? n) then
        closed <- close_batch;
        ret (Answered closed)
      else
        s <- get;
        (match open (state s) with
         | Some batch => set_open (Some (MkOpenBatch (jobs batch) (waiters batch ++ [me])))
         | None => ret tt
         end);;
        ret MustWait
  end.

(** [JobGuard::fail]. *)
Definition fail_locked (pending : nat) : M C unit :=
  kept <- rollback_job_or_discard;
  if kept then
    if (Nat.pred pending =? 0)%nat then close_batch;; ret tt else ret tt
  else ret tt.

(** What [oneshot::Receiver::try_recv] finds for [me]: [None] is [TryRecvError::Empty], and
    [Some None] is [TryRecvError::Closed] (its sender is in no open batch). *)
Definition try_recv (me : nat) : M C (option (option BatchAnswer)) := fun s =>
  (Some match answers s !! me with
        | Some a => Some (Some a)
        | None =>
            match open (state s) with
            | Some batch => if decide (me ∈ waiters batch) then None else Some None
            | None => Some None
            end
        end, s).

(** [commit_if_drained] from the moment its own lock is granted. *)
Definition commit_if_drained_locked (pending : nat) (me : nat) : M C (option (StoreResult unit)) :=
  reconcile;;
  (if (pending =? 0)%nat then settle_abandoned;; close_batch;; ret tt else ret tt);;
  received <- try_recv me;
  ret (batch_answer <$> received).
End batch.
