(* ===== verification/GroupCommitLaws.v ===== *)
(** * Laws of the group commit under its lock

    The invariant of the shared state and, for each operation of [GroupCommit], a triple that
    says what holds when the operation ends and what holds when its future is dropped at an
    await.  The theorems are over an arbitrary [BatchConn]: nothing is assumed of the driver. *)

From S2P Require Import Prelude StoreError GroupCommit.

(** ** The history of the connection *)

(** The statements that end or begin a transaction.  A failed COMMIT and a COMMIT nobody saw the
    end of are not boundaries by themselves. *)
Definition boundary (e : event) : bool :=
  match e with
  | (Begin, _) | (Rollback, _) | (Commit, Returned (Ok _)) => true
  | _ => false
  end.

Definition calm (e : event) : Prop := boundary e = false.

(** No transaction began or ended from position [n] of the log on. *)
Definition quiet (n : nat) (l : list event) : Prop := Forall calm (drop n l).

(** The transaction open at position [n] of the log was committed: a COMMIT that returned [Ok],
    with no transaction begun, rolled back or committed in between. *)
Definition committed_at (l : list event) (n : nat) : Prop :=
  exists before during after,
    l = before ++ during ++ (Commit, Returned (Ok tt)) :: after /\
    length before = n /\ Forall calm during.

Lemma committed_at_app l l' n : committed_at l n -> committed_at (l ++ l') n.
Proof.
  intros (b & d & a & -> & Hn & Hd). exists b, d, (a ++ l').
  by rewrite <-!app_assoc.
Qed.

Lemma committed_now l n :
  (n <= length l)%nat -> quiet n l -> committed_at (l ++ [(Commit, Returned (Ok tt))]) n.
Proof.
  intros Hn Hq. exists (take n l), (drop n l), []. split_and!; [|apply length_take_le, Hn|done].
  by rewrite app_assoc, take_drop.
Qed.

Lemma quiet_snoc n l e : (n <= length l)%nat -> quiet n l -> calm e -> quiet n (l ++ [e]).
Proof.
  intros Hn Hq He. unfold quiet. rewrite drop_app_le by done.
  apply Forall_app; split; [done|]. by constructor.
Qed.

Lemma quiet_end l : quiet (length l) l.
Proof. unfold quiet. by rewrite drop_all. Qed.

(** ** The invariant

    [W] is the set of writers that were left waiting for a COMMIT somebody else runs, [T] the
    set of writers whose own [finish] ran the COMMIT and returned [Ok]. *)
Section invariant.
Context {C : Type} (cap : Z).
Implicit Types (s : Shared C) (W T : gset nat).

Definition released_committed s (w : nat) : Prop :=
  exists n, released s !! w = Some n /\ committed_at (log s) n.

Record Weak W T s : Prop := {
  wk_told : forall w, answers s !! w = Some (Ok tt) -> released_committed s w;
  wk_direct : forall w, w ∈ T -> released_committed s w;
  wk_known : forall w a, answers s !! w = Some a -> w ∈ W;
  wk_waiting : forall b w, open (state s) = Some b -> w ∈ waiters b ->
    w ∈ W /\ answers s !! w = None /\
    exists n, released s !! w = Some n /\ (n <= length (log s))%nat;
  wk_kept : forall w, w ∈ W ->
    is_Some (answers s !! w) \/ exists b, open (state s) = Some b /\ w ∈ waiters b;
  wk_jobs : forall b, open (state s) = Some b -> Z.of_nat (length (waiters b)) <= jobs b <= cap;
}.

(** Every waiter's job is in the transaction that is still open. *)
Definition good s : Prop :=
  forall b w n, open (state s) = Some b -> w ∈ waiters b -> released s !! w = Some n ->
  quiet n (log s).

(** The batch has room for one more job. *)
Definition room s : Prop := forall b, open (state s) = Some b -> jobs b < cap.

Definition Clean W T s : Prop := Weak W T s /\ good s /\ room s.

(** What the next user of the lock finds once it reconciled. *)
Definition Ready W T s : Prop := Clean W T s /\ in_flight (state s) = None.

(** What the next user of the lock finds, whatever happened to the previous one: a dropped
    ROLLBACK leaves a batch it will discard, a dropped COMMIT or ROLLBACK a full one. *)
Definition J W T s : Prop :=
  Weak W T s /\
  (in_flight (state s) = Some Rollback \/ good s) /\
  (in_flight (state s) = Some Rollback \/ in_flight (state s) = Some Commit \/ room s).

Lemma Ready_J W T s : Ready W T s -> J W T s.
Proof. intros [(? & ? & ?) ?]. split_and!; auto. Qed.

Lemma no_batch_good s : open (state s) = None -> good s.
Proof. intros E b w n E'. congruence. Qed.

Lemma no_batch_room s : open (state s) = None -> room s.
Proof. intros E b E'. congruence. Qed.

Lemma Ready_no_batch W T s :
  Weak W T s -> open (state s) = None -> in_flight (state s) = None -> Ready W T s.
Proof. intros. split; [|done]. split_and!; auto using no_batch_good, no_batch_room. Qed.
End invariant.

#[export] Hint Resolve Ready_J no_batch_good no_batch_room Ready_no_batch : wamux.

(** ** Triples for computations that may be dropped *)

Definition triple {C A} (P : Shared C -> Prop) (m : M C A) (Q : A -> Shared C -> Prop)
    (D : Shared C -> Prop) : Prop :=
  forall s, P s ->
    match m s with
    | (Some a, s') => Q a s'
    | (None, s') => D s'
    end.

Section triples.
Context {C : Type}.
Implicit Types (P D : Shared C -> Prop).

Lemma triple_bind {A B} P (m : M C A) (R : A -> Shared C -> Prop) (f : A -> M C B) Q D :
  triple P m R D -> (forall a, triple (R a) (f a) Q D) -> triple P (bind m f) Q D.
Proof.
  intros Hm Hf s Hs. unfold bind. specialize (Hm s Hs).
  destruct (m s) as [[a|] s']; [|done]. by apply Hf.
Qed.

Lemma triple_assoc {A A' B} P (m : M C A) (f : A -> M C A') (g : A' -> M C B) Q D :
  triple P (bind (bind m f) g) Q D -> triple P (bind m (fun a => bind (f a) g)) Q D.
Proof.
  intros H s Hs. specialize (H s Hs). unfold bind in *.
  by destruct (m s) as [[a|] s'].
Qed.

Lemma triple_try {A B} P (m : M C (StoreResult A)) (R : A -> Shared C -> Prop)
    (f : A -> M C (StoreResult B)) (Q : StoreResult B -> Shared C -> Prop) D :
  triple P m (fun r s => match r with Ok a => R a s | Err e => Q (Err e) s end) D ->
  (forall a, triple (R a) (f a) Q D) -> triple P (bind_try m f) Q D.
Proof.
  intros Hm Hf. eapply triple_bind; [apply Hm|]. intros [a|e]; [apply Hf|].
  intros s Hs. done.
Qed.

Lemma triple_ret {A} (a : A) P (Q : A -> Shared C -> Prop) D :
  (forall s, P s -> Q a s) -> triple P (ret a) Q D.
Proof. intros H s Hs. by apply H. Qed.

Lemma triple_get {A} P (f : Shared C -> M C A) Q D :
  (forall s, P s -> triple (fun s' => s' = s) (f s) Q D) ->
  triple P (bind get f) Q D.
Proof. intros H s Hs. by apply (H s Hs). Qed.

Lemma triple_conseq {A} P P' (m : M C A) (Q Q' : A -> Shared C -> Prop) D :
  triple P' m Q' D -> (forall s, P s -> P' s) -> (forall a s, Q' a s -> Q a s) ->
  triple P m Q D.
Proof.
  intros Hm HP HQ s Hs. specialize (Hm s (HP s Hs)).
  destruct (m s) as [[a|] s']; auto.
Qed.

Lemma triple_state P (f : BatchState C -> BatchState C) (Q : unit -> Shared C -> Prop) D :
  (forall s, P s -> Q tt (MkShared (f (state s)) (commits s) (jobs_total s) (answers s)
                            (log s) (released s))) ->
  triple P (put_state f) Q D.
Proof. intros H s Hs. by apply H. Qed.
End triples.

(** Step into the first statement of a sequence, naming what holds after it. *)
Ltac step_with R := eapply (triple_bind _ _ R); [|intros ?].
Ltac try_with R := eapply (triple_try _ _ R); [|intros ?].

(** ** What each operation does *)

Section laws.
Context {C : Type} `{BatchConn C} (to_string : StoreError -> string).
Context (cap : Z) (Hcap : 1 <= cap).
Implicit Types (s : Shared C) (W T L : gset nat).

(** [s'] differs from [s] in the connection, the flags and the counters only, and its log is
    the log of [s] followed by [l]. *)
Definition extends s (l : list event) s' : Prop :=
  open (state s') = open (state s) /\ answers s' = answers s /\
  released s' = released s /\ log s' = log s ++ l.

Lemma Weak_extends W T s l s' : Weak cap W T s -> extends s l s' -> Weak cap W T s'.
Proof using Type.
  intros [] (Ho & Ha & Hr & Hl).
  assert (Hmono : forall w, released_committed s w -> released_committed s' w).
  { intros w (n & Hn & Hc). exists n. rewrite Hr, Hl. split; [done|]. by apply committed_at_app. }
  constructor; rewrite ?Ho, ?Ha; auto.
  intros b w Hb Hw. destruct (wk_waiting0 b w Hb Hw) as (? & ? & n & Hn & Hlen).
  split_and!; [done..|]. exists n. rewrite Hr, Hl, length_app. split; [done|lia].
Qed.

Lemma good_extends W T s l s' :
  Weak cap W T s -> good s -> extends s l s' -> Forall calm l -> good s'.
Proof using Type.
  intros Hwk Hg (Ho & Ha & Hr & Hl) Hc b w n Hb Hw Hn. rewrite Ho in Hb. rewrite Hr in Hn.
  destruct (wk_waiting _ _ _ _ Hwk b w Hb Hw) as (_ & _ & n' & Hn' & Hlen).
  simplify_eq. pose proof (Hg b w n Hb Hw Hn) as Hq. unfold quiet in *.
  rewrite Hl, drop_app_le by done. by apply Forall_app.
Qed.

Lemma room_extends s l s' : room cap s -> extends s l s' -> room cap s'.
Proof using Type. intros Hr (Ho & _) b Hb. rewrite Ho in Hb. by apply Hr. Qed.

(** The flags are no part of the invariant. *)
Lemma Clean_extends W T s l s' :
  Clean cap W T s -> extends s l s' -> Forall calm l -> Clean cap W T s'.
Proof using Type.
  intros (Hw & Hg & Hr) He Hl. split_and!;
    eauto using Weak_extends, good_extends, room_extends.
Qed.

(** What one control statement does to the state. *)
Definition ran (statement : ControlStatement) s (o : outcome) s' : Prop :=
  extends s [(statement, o)] s' /\ job_open (state s') = job_open (state s) /\
  in_flight (state s') = (match o with Returned _ => None | Dropped => Some statement end).

Lemma triple_control statement P (Q : StoreResult unit -> Shared C -> Prop) D :
  (forall s r s', P s -> ran statement s (Returned r) s' -> Q r s') ->
  (forall s s', P s -> ran statement s Dropped s' -> D s') ->
  triple P (run_control statement) Q D.
Proof using Type.
  intros HQ HD s Hs. unfold run_control.
  destruct (control statement (conn (state s))) as [[r|] c].
  - eapply HQ; [done|]. by split_and!.
  - eapply HD; [done|]. by split_and!.
Qed.

(** SAVEPOINT, RELEASE and ROLLBACK TO keep the invariant, and leave the batch as it was. *)
Lemma triple_savepoint_statement W T statement (F : option OpenBatch -> bool -> Prop) :
  match statement with Savepoint | Release | RollbackToSavepoint => True | _ => False end ->
  triple (fun s => Clean cap W T s /\ F (open (state s)) (job_open (state s)))
    (run_control statement)
    (fun _ s => Ready cap W T s /\ F (open (state s)) (job_open (state s)))
    (J cap W T).
Proof using Type.
  intros Hst. apply triple_control.
  - intros s r s' [Hc HF] (He & Hj & Hi). destruct He as (Ho & He). rewrite Ho, Hj.
    split; [|done]. split; [|done].
    apply (Clean_extends W T s [(statement, Returned r)]); [done|by split|].
    constructor; [by destruct statement|constructor].
  - intros s s' [Hc HF] (He & Hj & Hi).
    assert (Clean cap W T s') as (? & ? & ?).
    { apply (Clean_extends W T s [(statement, Dropped)]); [done..|].
      constructor; [by destruct statement|constructor]. }
    split_and!; auto.
Qed.

(** Dropping the batch with an answer for every waiter keeps the invariant, as long as nobody
    is told [Ok] whose job was not committed. *)
Lemma foldl_answer_lookup (a : BatchAnswer) (m : gmap nat BatchAnswer) l w :
  foldl (fun m w => <[w := a]> m) m l !! w = if decide (w ∈ l) then Some a else m !! w.
Proof using Type.
  revert m. induction l as [|x l IH]; intros m; cbn [foldl].
  - rewrite decide_False; [done|]. apply not_elem_of_nil.
  - rewrite IH. destruct (decide (w = x)) as [->|Hne].
    + rewrite lookup_insert_eq. rewrite (decide_True (P := x ∈ x :: l)) by (by left).
      by case_decide.
    + rewrite lookup_insert_ne by done.
      destruct (decide (w ∈ l)) as [Hl|Hl].
      * rewrite decide_True; [done|]. by right.
      * rewrite decide_False; [done|]. intros [|]%elem_of_cons; done.
Qed.

Lemma Weak_answered W T s b a s' :
  Weak cap W T s -> open (state s) = Some b ->
  (a = Ok tt -> forall w, w ∈ waiters b -> released_committed s w) ->
  open (state s') = None ->
  answers s' = foldl (fun m w => <[w := a]> m) (answers s) (waiters b) ->
  released s' = released s -> log s' = log s ->
  Weak cap W T s'.
Proof using Type.
  intros [] Hb Hok Ho Ha Hr Hl.
  assert (Hrc : forall w, released_committed s w -> released_committed s' w).
  { intros w (n & ? & ?). exists n. by rewrite Hr, Hl. }
  assert (Hlk : forall w, answers s' !! w = if decide (w ∈ waiters b) then Some a else answers s !! w).
  { intros w. rewrite Ha. apply foldl_answer_lookup. }
  constructor; rewrite ?Ho; try discriminate; auto.
  - intros w Hw. rewrite Hlk in Hw. case_decide; simplify_eq; auto.
  - intros w a' Hw. rewrite Hlk in Hw. case_decide; [|eauto].
    destruct (wk_waiting0 b w) as (? & _); done.
  - intros w Hw. left. rewrite Hlk. case_decide; [eauto|].
    destruct (wk_kept0 w Hw) as [|(b' & Hb' & ?)]; [done|]. congruence.
Qed.

(** [answer_waiters] after the batch was taken: the state has no batch, every waiter of it
    is answered. *)
Lemma triple_take_answer W T b a P (Q : unit -> Shared C -> Prop) D :
  (forall s, P s -> open (state s) = Some b /\ Weak cap W T s /\ in_flight (state s) = None /\
     (a = Ok tt -> forall w, w ∈ waiters b -> released_committed s w)) ->
  (forall s s', P s -> log s' = log s -> released s' = released s ->
     job_open (state s') = job_open (state s) ->
     Ready cap W T s' -> open (state s') = None -> Q tt s') ->
  triple P (bind (set_open None) (fun _ => answer_waiters b a)) Q D.
Proof using Type.
  intros HP HQ s Hs. destruct (HP s Hs) as (Hb & Hw & Hi & Hok). simpl.
  apply (HQ s); try done.
  split; [|done]. split_and!; [|by apply no_batch_good|by apply no_batch_room].
  eapply Weak_answered; done.
Qed.

Lemma triple_set_job_open W T j (F : option OpenBatch -> Prop) D :
  triple (fun s => Ready cap W T s /\ F (open (state s))) (set_job_open j)
    (fun _ s => Ready cap W T s /\ F (open (state s)) /\ job_open (state s) = j) D.
Proof using Type.
  apply triple_state. intros s [[Hc Hi] HF]. split; [|done]. split; [|done].
  eapply (Clean_extends W T s []); [done| |done].
  unfold extends. simpl. by rewrite app_nil_r.
Qed.

(** [discard_batch]: whatever was open is gone, its waiters are told, the state is ready. *)
Lemma triple_discard W T message :
  triple (Weak cap W T) (discard_batch message)
    (fun _ s => Ready cap W T s /\ open (state s) = None /\ job_open (state s) = false)
    (J cap W T).
Proof using Type.
  step_with (fun (_ : StoreResult unit) s => Weak cap W T s /\ in_flight (state s) = None).
  { apply triple_control.
    - intros s r s' Hw (He & _ & Hi). split; [by eapply Weak_extends|done].
    - intros s s' Hw (He & _ & Hi). split_and!; [by eapply Weak_extends|by left..]. }
  apply triple_get. intros s [Hw Hi].
  step_with (fun (_ : unit) s => Ready cap W T s /\ open (state s) = None).
  - destruct (open (state s)) as [b|] eqn:Hb.
    + apply (triple_take_answer W T b (Err message)).
      * intros s' ->. split_and!; done.
      * by intros; split.
    + apply triple_ret. intros s' ->. auto with wamux.
  - apply (triple_set_job_open W T false (fun o => o = None)).
Qed.

(** [rollback_job] keeps the batch, and ends the job unless it reports an error. *)
Lemma triple_rollback_job W T o :
  triple (fun s => Clean cap W T s /\ open (state s) = o) rollback_job
    (fun r s => (Ready cap W T s /\ open (state s) = o) /\
                (r = Ok tt -> job_open (state s) = false))
    (J cap W T).
Proof using Type.
  unfold rollback_job.
  try_with (fun (_ : unit) s => Clean cap W T s /\ open (state s) = o).
  { eapply triple_conseq;
      [apply (triple_savepoint_statement W T _ (fun o' _ => o' = o)); done|done|].
    intros [[]|e] s [[]]; split_and!; done. }
  try_with (fun (_ : unit) s => Ready cap W T s /\ open (state s) = o).
  { eapply triple_conseq;
      [apply (triple_savepoint_statement W T _ (fun o' _ => o' = o)); done|done|].
    intros [[]|e] s [[]]; split_and!; done. }
  step_with (fun (_ : unit) s => Ready cap W T s /\ open (state s) = o /\ job_open (state s) = false).
  { apply (triple_set_job_open W T false (fun o' => o' = o)). }
  apply triple_ret. intros s (? & ? & ?). by split_and!.
Qed.

Lemma triple_rollback_or_discard W T o :
  triple (fun s => Clean cap W T s /\ open (state s) = o) rollback_job_or_discard
    (fun kept s => Ready cap W T s /\ job_open (state s) = false /\
                   open (state s) = if kept then o else None)
    (J cap W T).
Proof using Type.
  unfold rollback_job_or_discard.
  eapply triple_bind; [apply triple_rollback_job|]. intros [[]|e].
  - apply triple_ret. intros s [[? ?] ?]. by split_and!; auto.
  - step_with (fun (_ : unit) s =>
      Ready cap W T s /\ open (state s) = None /\ job_open (state s) = false).
    + eapply triple_conseq; [apply (triple_discard W T)| |done].
      intros s [[[(? & ? & ?) ?] ?] ?]. done.
    + apply triple_ret. intros s (? & ? & ?). by split_and!.
Qed.

Lemma triple_settle_abandoned W T :
  triple (Ready cap W T) settle_abandoned
    (fun r s => r = Ok tt /\ Ready cap W T s /\ job_open (state s) = false)
    (J cap W T).
Proof using Type.
  apply triple_get. intros s Hs. destruct (job_open (state s)) eqn:Hj; simpl.
  - step_with (fun (kept : bool) s => Ready cap W T s /\ job_open (state s) = false).
    + eapply triple_conseq; [apply (triple_rollback_or_discard W T (open (state s)))| |].
      * intros s' ->. by destruct Hs.
      * intros kept s' (? & ? & _). done.
    + apply triple_ret. intros s' [? ?]. by split_and!.
  - apply triple_ret. intros s' ->. by split_and!.
Qed.

Lemma triple_begin_batch W T :
  triple (fun s => Ready cap W T s /\ open (state s) = None) begin_batch
    (fun r s => Ready cap W T s /\
       (r = Ok tt -> open (state s) = Some open_default))
    (J cap W T).
Proof using Hcap.
  try_with (fun (_ : unit) s => Ready cap W T s /\ open (state s) = None).
  { apply triple_control.
    - intros s r s' [[(Hw & _) _] Ho] (He & _ & Hi).
      assert (Ready cap W T s') as HR.
      { destruct He as (Ho' & He). rewrite Ho in Ho'. apply Ready_no_batch; [|done..].
        eapply Weak_extends; [done|]. split; [congruence|done]. }
      destruct r as [[]|e]; split; try done.
      destruct He as (Ho' & _). congruence.
    - intros s s' [[(Hw & _) _] Ho] (He & _ & Hi).
      pose proof He as (Ho' & _). rewrite Ho in Ho'.
      split_and!; [by eapply Weak_extends| |]; auto with wamux. }
  step_with (fun (_ : unit) s => Ready cap W T s /\ open (state s) = Some open_default).
  { apply triple_state. intros s [[([] & Hg & Hr) Hi] Ho]. split; [|done].
    split; [|done]. split_and!.
    - constructor; simpl; auto.
      + intros b w [= <-]. intros []%not_elem_of_nil.
      + intros w Hw. destruct (wk_kept0 w Hw) as [|(b & Hb & ?)]; [by left|congruence].
      + intros b [= <-]. simpl. lia.
    - intros b w n [= <-]. intros []%not_elem_of_nil.
    - intros b [= <-]. simpl. lia. }
  apply triple_ret. intros s [? ?]. by split.
Qed.

(** [start_job]: on success a SAVEPOINT is open inside an open batch. *)
Lemma triple_start_job W T :
  triple (Ready cap W T) start_job
    (fun r s => Ready cap W T s /\
       (r = Ok tt -> job_open (state s) = true /\ is_Some (open (state s))))
    (J cap W T).
Proof using Hcap.
  unfold start_job.
  try_with (fun (_ : unit) s => Ready cap W T s).
  { eapply triple_conseq; [apply triple_settle_abandoned|done|].
    intros r s (-> & ? & ?). done. }
  apply triple_get. intros s Hs.
  try_with (fun (_ : unit) s => Ready cap W T s /\ is_Some (open (state s))).
  { destruct (open (state s)) as [b|] eqn:Hb.
    - apply triple_ret. intros s' ->. rewrite Hb. eauto.
    - eapply triple_conseq; [apply (triple_begin_batch W T)| |].
      + by intros s' ->.
      + intros [[]|e] s' [? Ho]; [|done]. rewrite Ho by done. eauto. }
  try_with (fun (_ : unit) s => Ready cap W T s /\ is_Some (open (state s))).
  { eapply triple_conseq;
      [apply (triple_savepoint_statement W T _ (fun o' _ => is_Some o')); done| |].
    - intros s' [[? ?] ?]. done.
    - intros [[]|e] s' [? ?]; [done|]. split; [done|discriminate]. }
  step_with (fun (_ : unit) s =>
    Ready cap W T s /\ is_Some (open (state s)) /\ job_open (state s) = true).
  { apply (triple_set_job_open W T true (fun o => is_Some o)). }
  apply triple_ret. intros s' (? & ? & ?). done.
Qed.

(** [end_job]: on success the job is counted in the open batch; on failure its savepoint is
    gone, with the batch if it could not be rolled back alone. *)
Lemma triple_end_job W T :
  triple (Ready cap W T) end_job
    (fun r s => job_open (state s) = false /\
       match r with
       | Ok n => Weak cap W T s /\ good s /\ in_flight (state s) = None /\
           exists b, open (state s) = Some b /\ jobs b = n /\ Z.of_nat (length (waiters b)) < n <= cap
       | Err _ => Ready cap W T s
       end)
    (J cap W T).
Proof using Hcap.
  step_with (fun (_ : StoreResult unit) s => Ready cap W T s).
  { eapply triple_conseq;
      [apply (triple_savepoint_statement W T _ (fun _ _ => True)); done| |].
    - by intros s [? ?].
    - by intros r s [? ?]. }
  destruct a as [[]|e].
  - step_with (fun (_ : unit) s => Ready cap W T s /\ True /\ job_open (state s) = false).
    { eapply triple_conseq; [apply (triple_set_job_open W T false (fun _ => True))| |done].
      by intros. }
    apply triple_get. intros s (Hs & _ & Hj).
    eapply triple_bind; [|intros; apply triple_ret; intros s' Hs'; exact Hs'].
    apply triple_state. intros s' ->. split; [done|]. cbn [state open jobs].
    destruct Hs as [([] & Hg & Hr) Hi].
    set (b := default open_default (open (state s))).
    assert (Hb : forall w, w ∈ waiters b -> open (state s) = Some b).
    { subst b. destruct (open (state s)); [done|]. intros w []%not_elem_of_nil. }
    assert (Hlen : Z.of_nat (length (waiters b)) <= jobs b < cap).
    { subst b. destruct (open (state s)) as [b|] eqn:E; simpl; [|lia].
      pose proof (wk_jobs0 b eq_refl). pose proof (Hr b E). lia. }
    split_and!; [|..|done|eexists; split_and!; [done..|simpl; lia|simpl; lia]].
    + constructor; cbn [state open answers released log]; auto.
      * intros b' w [= <-] Hw. by apply (wk_waiting0 b w); [apply (Hb w)|].
      * intros w Hw. destruct (wk_kept0 w Hw) as [|(b' & Hb' & Hw')]; [by left|right].
        eexists; split; [done|]. subst b. by rewrite Hb'.
      * intros b' [= <-]. simpl. lia.
    + intros b' w n [= <-] Hw Hn. by apply (Hg b w n); [apply (Hb w)|..].
  - step_with (fun (_ : bool) s => Ready cap W T s /\ job_open (state s) = false).
    { intros s Hs. pose proof (triple_rollback_or_discard W T (open (state s)) s) as Ht.
      destruct (rollback_job_or_discard s) as [[kept|] s'];
        destruct Hs as [Hc Hi]; [destruct Ht as (? & ? & _)|apply Ht]; done. }
    apply triple_ret. by intros s [? ?].
Qed.

(** The job of [me] is in the open transaction. *)
Definition live s (me : nat) : Prop :=
  exists n, released s !! me = Some n /\ (n <= length (log s))%nat /\ quiet n (log s).

Lemma live_committed s s' me :
  live s me -> released s' = released s ->
  log s' = log s ++ [(Commit, Returned (Ok tt))] -> released_committed s' me.
Proof using Type.
  intros (n & Hn & Hlen & Hq) Hr Hl. exists n. rewrite Hr, Hl. split; [done|].
  by apply committed_now.
Qed.

(** What [commit_batch] finds before the COMMIT. *)
Definition Closing W T (L : gset nat) s : Prop :=
  Weak cap W T s /\ good s /\ in_flight (state s) = None /\
  (L ≠ ∅ -> is_Some (open (state s))) /\ forall me, me ∈ L -> live s me.

Lemma Ready_Closing W T s : Ready cap W T s -> Closing W T ∅ s.
Proof using Type.
  intros [(? & ? & ?) ?]. split_and!; [done..| |]; clear Hcap; set_solver.
Qed.

(** The COMMIT of an open batch: on [Ok] every job in it is committed, on [Err] the batch is as
    it was, and a drop leaves the mark [reconcile] acts on. *)
Lemma triple_commit_statement W T L b :
  triple (fun s => Weak cap W T s /\ good s /\ open (state s) = Some b /\
            forall me, me ∈ L -> live s me)
    (run_control Commit)
    (fun r s => Weak cap W T s /\ in_flight (state s) = None /\ open (state s) = Some b /\
       match r with
       | Ok _ => (forall w, w ∈ waiters b -> released_committed s w) /\
                 forall me, me ∈ L -> released_committed s me
       | Err _ => good s
       end)
    (J cap W T).
Proof using Type.
  apply triple_control.
  - intros s [[]|e] s' (Hw & Hg & Hb & HL) (He & _ & Hi); pose proof He as (Ho & _ & Hr & Hl);
      (split; [by eapply Weak_extends|split; [done|split; [congruence|]]]).
    + split; [|by intros; eapply live_committed; auto].
      intros w Hin. destruct (wk_waiting _ _ _ _ Hw b w Hb Hin) as (_ & _ & n & Hn & Hlen).
      apply (live_committed s); [|done..]. exists n. eauto.
    + eapply good_extends; [done..|]. by repeat constructor.
  - intros s s' (Hw & Hg & Hb & HL) (He & _ & Hi).
    split_and!; [by eapply Weak_extends| |by right; left].
    right. eapply good_extends; [done..|]. by repeat constructor.
Qed.

Lemma triple_commit_batch W T L :
  triple (Closing W T L) (commit_batch to_string)
    (fun r s => Ready cap W T s /\ open (state s) = None /\
       (is_ok r = true -> forall me, me ∈ L -> released_committed s me))
    (J cap W T).
Proof using Hcap.
  apply triple_get. intros s0 (Hw & Hg & Hi & HL & Hlive).
  destruct (open (state s0)) as [b|] eqn:Hb.
  2:{ apply triple_ret. intros s ->. split_and!; auto with wamux.
      intros _ me Hme. exfalso. destruct HL as [? [=]]. set_solver. }
  eapply triple_bind.
  { eapply triple_conseq; [apply (triple_commit_statement W T L b)| |done].
    by intros s ->. }
  intros committed.
  step_with (fun (_ : unit) s => Weak cap W T s /\ in_flight (state s) = None /\
    open (state s) = Some b /\
    (is_ok committed = true -> (forall w, w ∈ waiters b -> released_committed s w) /\
       forall me, me ∈ L -> released_committed s me)).
  { destruct committed as [[]|e]; simpl.
    - apply triple_ret. by intros s (? & ? & ? & ?).
    - step_with (fun (_ : StoreResult unit) s =>
        Weak cap W T s /\ in_flight (state s) = None /\ open (state s) = Some b).
      + apply triple_control.
        * intros s r s' (Hw' & _ & Hb' & _) (He & _ & Hi').
          split_and!; [by eapply Weak_extends|done|destruct He as (-> & _); done].
        * intros s s' (Hw' & _ & Hb' & _) (He & _ & Hi').
          split_and!; [by eapply Weak_extends|by left..].
      + apply triple_ret. by intros s (? & ? & ?). }
  apply triple_get. intros s (Hw' & Hi' & Hb' & Hok). rewrite Hb'. simpl.
  apply triple_assoc.
  step_with (fun (_ : unit) s' => open (state s') = None /\ Ready cap W T s' /\
    released s' = released s /\ log s' = log s); last first.
  { apply triple_ret. intros s' (Ho & HR & Hr & Hl). split_and!; [done..|].
    intros Hc me Hme. destruct committed; [|done].
    destruct (Hok eq_refl) as [_ Hd]. destruct (Hd me Hme) as (n & ? & ?).
    exists n. by rewrite Hr, Hl. }
  apply (triple_take_answer W T b (map_err to_string committed)).
  - intros s' ->. split_and!; [done..|]. intros Ha. destruct committed as [[]|]; [|done].
    by destruct (Hok eq_refl).
  - by intros s1 s' -> Hl Hr _ HR Ho.
Qed.

(** [close_batch]: afterwards no batch is open, so every waiter has its answer. *)
Lemma triple_close_batch W T L :
  triple (Closing W T L) (close_batch to_string)
    (fun r s => Ready cap W T s /\ open (state s) = None /\
       (r = Ok tt -> forall me, me ∈ L -> released_committed s me))
    (J cap W T).
Proof using Hcap.
  try_with (fun (_ : Z) s => Ready cap W T s /\ open (state s) = None /\
    forall me, me ∈ L -> released_committed s me).
  { eapply triple_conseq; [apply triple_commit_batch|done|].
    intros [n|e] s (? & ? & Hok); [|done]. eauto. }
  step_with (fun (_ : unit) s => Ready cap W T s /\ open (state s) = None /\
    forall me, me ∈ L -> released_committed s me); [|by apply triple_ret; intros s (? & ? & ?)].
  intros s ([(Hw & _) Hi] & Ho & HL). unfold count_commit.
  destruct (0 <? _); split_and!; auto with wamux.
  apply Ready_no_batch; [|done..]. eapply (Weak_extends W T s []); [done|].
  unfold extends. simpl. by rewrite app_nil_r.
Qed.

(** ** Reconciliation and the operations, once the lock is granted *)

Lemma triple_settle_unknown W T :
  triple (fun s => J cap W T s /\ in_flight (state s) = Some Commit) settle_unknown_commit
    (fun _ s => Ready cap W T s) (J cap W T).
Proof using Hcap.
  apply triple_get. intros s0 [(Hw & Hg & _) Hi].
  assert (good s0) as Hg0 by (destruct Hg; [congruence|done]). clear Hg.
  destruct (open (state s0)) as [b|] eqn:Hb.
  2:{ apply triple_state. intros s ->. apply Ready_no_batch; [|done..].
      eapply (Weak_extends W T s0 []); [done|]. unfold extends. simpl. by rewrite app_nil_r. }
  eapply triple_bind.
  { eapply triple_conseq; [apply (triple_commit_statement W T ∅ b)| |done].
    intros s ->. split_and!; [done..|set_solver]. }
  intros [[]|e]; simpl.
  - apply triple_get. intros s (Hw' & Hi' & Hb' & Hok & _). rewrite Hb'. simpl.
    intros s1 ->. unfold bind, set_open, put_state, count_commit, answer_waiters; simpl.
    destruct (0 <? jobs b); simpl.
    all: apply Ready_no_batch; [|done..].
    all: by eapply (Weak_answered W T s b (Ok tt)).
  - eapply triple_conseq; [apply (triple_discard W T)| |].
    + by intros s (? & _).
    + by intros [] s (? & _).
Qed.

Lemma triple_undo_savepoint W T :
  triple (Clean cap W T) undo_savepoint (fun _ s => Ready cap W T s) (J cap W T).
Proof using Hcap.
  step_with (fun (_ : StoreResult unit) s => Ready cap W T s /\ True).
  { intros s Hs. pose proof (triple_rollback_job W T (open (state s)) s) as Ht.
    destruct (rollback_job s) as [[r|] s']; [destruct Ht as [[? _] _]|apply Ht]; done. }
  eapply triple_conseq; [apply (triple_set_job_open W T false (fun _ => True))|done|].
  by intros [] s (? & _).
Qed.

(** [reconcile] brings the state back to one nothing is in flight on, whatever was. *)
Lemma triple_reconcile W T :
  triple (J cap W T) reconcile (fun _ s => Ready cap W T s) (J cap W T).
Proof using Hcap.
  apply triple_get. intros s0 HJ. pose proof HJ as (Hw & Hg & Hr).
  assert (Hdiscard : triple (fun s => s = s0) discard_transaction
    (fun _ s => Ready cap W T s) (J cap W T)).
  { eapply triple_conseq; [apply (triple_discard W T)| |].
    - by intros s ->.
    - by intros [] s (? & _). }
  assert (Hundo : in_flight (state s0) ≠ Some Rollback -> in_flight (state s0) ≠ Some Commit ->
    triple (fun s => s = s0) undo_savepoint (fun _ s => Ready cap W T s) (J cap W T)).
  { intros H1 H2. eapply triple_conseq; [apply (triple_undo_savepoint W T)| |done].
    intros s ->. split_and!; [done|by destruct Hg|by destruct Hr as [|[|]]]. }
  destruct (in_flight (state s0)) as [[]|] eqn:Hi; auto.
  - eapply triple_conseq; [apply (triple_settle_unknown W T)| |done]. by intros s ->.
  - apply triple_ret. intros s ->. split; [|done].
    split_and!; [done|by destruct Hg|by destruct Hr as [|[|]]].
Qed.

Lemma triple_begin_job W T :
  triple (J cap W T) begin_job_locked
    (fun r s => Ready cap W T s /\
       (r = Ok tt -> job_open (state s) = true /\ is_Some (open (state s))))
    (J cap W T).
Proof using Hcap.
  step_with (fun (_ : unit) s => Ready cap W T s); [apply triple_reconcile|apply triple_start_job].
Qed.

(** Commit what is open when nobody else will. *)
Lemma triple_settle_and_close W T :
  triple (Ready cap W T)
    (bind settle_abandoned (fun _ => bind (close_batch to_string) (fun _ => ret tt)))
    (fun _ s => Ready cap W T s /\ open (state s) = None) (J cap W T).
Proof using Hcap.
  step_with (fun (_ : StoreResult unit) s => Ready cap W T s).
  { eapply triple_conseq; [apply triple_settle_abandoned|done|]. by intros r s (_ & ? & _). }
  step_with (fun (_ : StoreResult unit) s => Ready cap W T s /\ open (state s) = None).
  { eapply triple_conseq; [apply (triple_close_batch W T ∅)|apply Ready_Closing|].
    by intros r s (? & ? & _). }
  by apply triple_ret.
Qed.

Lemma triple_lock W T pending :
  triple (J cap W T) (lock_locked to_string pending)
    (fun _ s => Ready cap W T s /\ (pending = 0%nat -> open (state s) = None)) (J cap W T).
Proof using Hcap.
  step_with (fun (_ : unit) s => Ready cap W T s); [apply triple_reconcile|].
  step_with (fun (_ : StoreResult unit) s => Ready cap W T s).
  { eapply triple_conseq; [apply triple_settle_abandoned|done|]. by intros r s (_ & ? & _). }
  destruct (Nat.eqb_spec pending 0) as [->|Hp].
  - step_with (fun (_ : StoreResult unit) s => Ready cap W T s /\ open (state s) = None).
    { eapply triple_conseq; [apply (triple_close_batch W T ∅)|apply Ready_Closing|].
      by intros r s (? & ? & _). }
    apply triple_ret. by intros s [? ?].
  - apply triple_ret. by intros s ?.
Qed.

Lemma triple_lock_autocommit W T :
  triple (J cap W T) (lock_autocommit_locked to_string)
    (fun r s => Ready cap W T s /\ (r = Ok tt -> open (state s) = None)) (J cap W T).
Proof using Hcap.
  step_with (fun (_ : unit) s => Ready cap W T s); [apply triple_reconcile|].
  try_with (fun (_ : unit) s => Ready cap W T s).
  { eapply triple_conseq; [apply triple_settle_abandoned|done|]. by intros r s (-> & ? & _). }
  try_with (fun (_ : unit) s => Ready cap W T s /\ open (state s) = None).
  { eapply triple_conseq; [apply (triple_close_batch W T ∅)|apply Ready_Closing|].
    intros [[]|e] s (? & ? & _); [done|]. split; [done|discriminate]. }
  apply triple_ret. by intros s [? ?].
Qed.

Lemma triple_fail W T pending :
  triple (Ready cap W T) (fail_locked to_string pending) (fun _ s => Ready cap W T s) (J cap W T).
Proof using Hcap.
  step_with (fun (_ : bool) s => Ready cap W T s).
  { intros s Hs. pose proof (triple_rollback_or_discard W T (open (state s)) s) as Ht.
    destruct (rollback_job_or_discard s) as [[kept|] s'];
      destruct Hs as [Hc Hi]; [destruct Ht as (? & ? & _)|apply Ht]; done. }
  destruct a; [|by apply triple_ret].
  destruct (Nat.pred pending =? 0)%nat; [|by apply triple_ret].
  step_with (fun (_ : StoreResult unit) s => Ready cap W T s); [|by apply triple_ret].
  eapply triple_conseq; [apply (triple_close_batch W T ∅)|apply Ready_Closing|].
  by intros r s (? & _).
Qed.

(** A new release is noted for a writer nobody waits for yet. *)
Lemma Weak_note W T me s :
  Weak cap W T s -> me ∉ W -> me ∉ T ->
  Weak cap W T (MkShared (state s) (commits s) (jobs_total s) (answers s) (log s)
                  (<[me := length (log s)]> (released s))).
Proof using Type.
  intros [] HW HT.
  assert (Hrc : forall w n, w ≠ me -> released s !! w = Some n ->
    <[me := length (log s)]> (released s) !! w = Some n).
  { intros w n Hne Hn. by rewrite lookup_insert_ne. }
  assert (Hc : forall w, w ≠ me -> released_committed s w -> released_committed
    (MkShared (state s) (commits s) (jobs_total s) (answers s) (log s)
       (<[me := length (log s)]> (released s))) w).
  { intros w Hne (n & Hn & Hcm). exists n. eauto. }
  constructor; cbn [state answers log released]; auto.
  - intros w Hw. apply Hc; [|auto]. intros ->. eauto.
  - intros w Hw. apply Hc; [|auto]. intros ->. eauto.
  - intros b w Hb Hw. destruct (wk_waiting0 b w Hb Hw) as (? & ? & n & ? & ?).
    split_and!; [done..|]. exists n. split; [|done]. apply Hrc; [|done]. intros ->. eauto.
Qed.

Lemma good_note W T me s :
  Weak cap W T s -> me ∉ W -> good s ->
  good (MkShared (state s) (commits s) (jobs_total s) (answers s) (log s)
          (<[me := length (log s)]> (released s))).
Proof using Type.
  intros Hw HW Hg b w n Hb Hin Hn. cbn [state log released] in *.
  rewrite lookup_insert_ne in Hn; [by eapply Hg|].
  intros ->. by destruct (wk_waiting _ _ _ _ Hw b w Hb Hin).
Qed.

Lemma Ready_direct W T me s :
  Ready cap W T s -> released_committed s me -> Ready cap W ({[me]} ∪ T) s.
Proof using Type.
  intros [([] & Hg & Hr) Hi] Hc. split; [|done]. split_and!; [|done..]. constructor; auto.
  intros w [->%elem_of_singleton|Hw]%elem_of_union; auto.
Qed.

(** [me] joins the waiters of the batch its job ran in. *)
Lemma triple_push W T me b :
  triple (fun s => Weak cap W T s /\ good s /\ in_flight (state s) = None /\
            open (state s) = Some b /\ Z.of_nat (length (waiters b)) < jobs b < cap /\
            me ∉ W /\ live s me)
    (set_open (Some (MkOpenBatch (jobs b) (waiters b ++ [me]))))
    (fun _ s => Ready cap ({[me]} ∪ W) T s) (J cap W T).
Proof using Hcap.
  apply triple_state. intros s (Hwk & Hg & Hi & Hb & Hlen & HW & n & Hn & Hnl & Hq).
  pose proof Hwk as []. split; [|done]. split_and!.
  - constructor; cbn [state open answers released log]; auto.
    + intros w a Ha. apply elem_of_union_r. eauto.
    + intros b' w [= <-]. cbn [waiters].
      intros [Hin| ->%list_elem_of_singleton]%elem_of_app.
      * destruct (wk_waiting0 b w Hb Hin) as (? & ? & ?). split_and!; [set_solver|done..].
      * split_and!; [set_solver| |by exists n].
        destruct (answers s !! me) eqn:E; [|done]. exfalso. eauto.
    + intros w [->%elem_of_singleton|Hw]%elem_of_union.
      * right. eexists; split; [done|]. cbn [waiters]. apply elem_of_app. right. by left.
      * destruct (wk_kept0 w Hw) as [|(b' & Hb' & ?)]; [by left|right].
        simplify_eq. eexists; split; [done|]. cbn [waiters]. apply elem_of_app. by left.
    + intros b' [= <-]. cbn [waiters jobs]. rewrite length_app. simpl. lia.
  - intros b' w n' [= <-]. cbn [state log released waiters].
    intros [Hin| ->%list_elem_of_singleton]%elem_of_app Hn'; [by eapply Hg|congruence].
  - intros b' [= <-]. cbn [jobs]. lia.
Qed.

(** [finish]: answered now, or left waiting in the open batch.  An [Ok] answer means the
    transaction the job ran in was committed. *)
Lemma triple_finish W T pending me :
  me ∉ W -> me ∉ T ->
  triple (Ready cap W T)
    (finish_locked to_string cap pending me)
    (fun e s =>
       match e with
       | Answered (Ok _) => Ready cap W ({[me]} ∪ T) s
       | Answered (Err _) => Ready cap W T s
       | MustWait => Ready cap ({[me]} ∪ W) T s
       end)
    (J cap W T).
Proof using Hcap.
  intros HW HT.
  step_with (fun (r : StoreResult Z) s =>
    match r with
    | Ok n => Weak cap W T s /\ good s /\ in_flight (state s) = None /\
              exists b, open (state s) = Some b /\ jobs b = n /\
                        Z.of_nat (length (waiters b)) < n <= cap
    | Err _ => Ready cap W T s
    end).
  { eapply triple_conseq; [apply triple_end_job|done|]. by intros r s [_ ?]. }
  destruct a as [n|e]; [|by apply triple_ret].
  step_with (fun (_ : unit) s => Weak cap W T s /\ good s /\ in_flight (state s) = None /\
    live s me /\ exists b, open (state s) = Some b /\ jobs b = n /\
                        Z.of_nat (length (waiters b)) < n <= cap).
  { intros s (Hw & Hg & Hi & b & Hb & Hn & Hlen). split_and!; eauto using Weak_note, good_note.
    exists (length (log s)). split_and!; [apply lookup_insert_eq|done|apply quiet_end]. }
  cbv zeta. destruct ((Nat.pred pending =? 0)%nat || (cap <=? n)) eqn:Hcond.
  - step_with (fun (r : StoreResult unit) s => Ready cap W T s /\
      (r = Ok tt -> released_committed s me)).
    { eapply triple_conseq; [apply (triple_close_batch W T {[me]})| |].
      - intros s (? & ? & ? & ? & b & ? & ? & ?). split_and!; [done..|eauto|set_solver].
      - intros r s (? & _ & Hok). split; [done|]. intros ->. apply Hok; set_solver. }
    apply triple_ret. intros s [? Hok]. destruct a0 as [[]|]; auto using Ready_direct.
  - apply orb_false_iff in Hcond as [_ Hroom]. apply Z.leb_gt in Hroom.
    apply triple_get. intros s (Hw & Hg & Hi & Hlive & b & Hb & Hn & Hlen). rewrite Hb.
    eapply triple_bind; [eapply triple_conseq; [apply (triple_push W T me b)| |done]|].
    + intros s' ->. subst n. split_and!; done || lia.
    + intros []. by apply triple_ret.
Qed.

(** [commit_if_drained]: with no writer pending it always ends with an answer. *)
Lemma triple_commit_if_drained W T pending me :
  me ∈ W ->
  triple (J cap W T) (commit_if_drained_locked to_string pending me)
    (fun r s => Ready cap W T s /\ (r = None -> pending ≠ 0%nat) /\
       (r = Some (Ok tt) -> released_committed s me))
    (J cap W T).
Proof using Hcap.
  intros Hme.
  step_with (fun (_ : unit) s => Ready cap W T s); [apply triple_reconcile|].
  step_with (fun (_ : unit) s => Ready cap W T s /\ (pending = 0%nat -> open (state s) = None)).
  { destruct (Nat.eqb_spec pending 0) as [->|Hp].
    - eapply triple_conseq; [apply triple_settle_and_close|done|]. by intros [] s [? ?].
    - by apply triple_ret. }
  intros s [HR Hp]. unfold bind, try_recv, ret.
  pose proof HR as [([] & _ & _) _]. split; [done|].
  destruct (answers s !! me) as [[[]|m]|] eqn:Ha; simpl; [by eauto|done|].
  destruct (open (state s)) as [b|] eqn:Hb; simpl; [|done].
  case_decide; simpl; split; try done. intros _ ->. by specialize (Hp eq_refl).
Qed.
End laws.

Arguments extends {C} s l s' /.
