(* ===== verification/GroupCommitSystem.v ===== *)
(** * Writers sharing one group commit

    The interleavings of [GroupCommit]'s operations: any number of writers queue, run a job,
    finish or fail it, wait for a COMMIT, or go away at any point, while readers take the lock in
    between.  A lock-protected body is one step, taken at the moment it reads the number of
    pending writers; what the atomics and the [Notify] do outside the lock are steps of their
    own, so a wake-up sent between a waiter's registration and its check is kept as in the
    code. *)

From S2P Require Import Prelude StoreError GroupCommit GroupCommitLaws.

(** Where a writer's future is.  The booleans say whether its registered [Notified] was
    signalled. *)
Inductive phase : Type :=
| Queued                          (* its slot is counted, it waits for the lock *)
| Running                         (* its job is open, it holds the lock *)
| LoopHead                        (* left waiting; about to register on [drained] *)
| Registered (woken : bool)       (* registered, about to read the pending count *)
| Checked (woken : bool)          (* read zero pending writers, waits for the lock *)
| Sleeping (woken : bool)         (* in the [select!] *)
| Finished (r : StoreResult unit)
| Over.                           (* [fail] returned, or the future was dropped *)

#[global] Instance phase_eq_dec : EqDecision phase.
Proof. solve_decision. Defined.

(** The future waits for a COMMIT somebody runs. *)
Definition waiting (p : phase) : bool :=
  match p with
  | LoopHead | Registered _ | Checked _ | Sleeping _ => true
  | _ => false
  end.

(** The phases a [PendingSlot] lives through. *)
Definition pending_phase (p : phase) : bool :=
  match p with Queued | Running => true | _ => false end.

(** [Notify::notify_waiters]: every registered waiter is signalled. *)
Definition wake (p : phase) : phase :=
  match p with
  | Registered _ => Registered true
  | Checked _ => Checked true
  | Sleeping _ => Sleeping true
  | p => p
  end.

Record Sys (C : Type) : Type := MkSys {
  shared : Shared C;
  phases : gmap nat phase;
  lock : option nat;
  slots : gset nat;
}.

Arguments MkSys {C} _ _ _ _.
Arguments shared {C} _.
Arguments phases {C} _.
Arguments lock {C} _.
Arguments slots {C} _.

Section system.
Context {C : Type} `{BatchConn C} (to_string : StoreError -> string) (cap : Z).
Implicit Types (σ : Sys C) (w : nat) (W T : gset nat).

Definition pending_writers σ : nat := size (slots σ).

(** [PendingSlot::drop]: give the place back, and signal [drained] when it was the last. *)
Definition leave (w : nat) (sl : gset nat) (ph : gmap nat phase) : gset nat * gmap nat phase :=
  let sl' := sl ∖ {[w]} in
  (sl', if decide (w ∈ sl /\ sl' = ∅) then wake <$> ph else ph).

(** The state after [w] released its slot and the lock and moved to phase [p]. *)
Definition depart w (p : phase) (s : Shared C) σ : Sys C :=
  let '(sl, ph) := leave w (slots σ) (phases σ) in
  MkSys s (<[w := p]> ph) (if decide (lock σ = Some w) then None else lock σ) sl.

(** [Queue::enter]. *)
Definition enter w σ : Sys C :=
  MkSys (shared σ) (<[w := Queued]> (phases σ)) (lock σ) ({[w]} ∪ slots σ).

(** [w] moves to phase [p]; nothing else changes but the shared state. *)
Definition move w (p : phase) (s : Shared C) σ : Sys C :=
  MkSys s (<[w := p]> (phases σ)) (lock σ) (slots σ).

(** [begin_job] from the moment the lock is granted to [w]. *)
Definition do_begin w σ : Sys C :=
  match begin_job_locked (shared σ) with
  | (Some (Ok _), s) => MkSys s (<[w := Running]> (phases σ)) (Some w) (slots σ)
  | (Some (Err e), s) => depart w (Finished (Err e)) s σ
  | (None, s) => depart w Over s σ
  end.

(** [finish], by the writer that holds the lock. *)
Definition do_finish w σ : Sys C :=
  match finish_locked to_string cap (pending_writers σ) w (shared σ) with
  | (Some (Answered r), s) => depart w (Finished r) s σ
  | (Some MustWait, s) => depart w LoopHead s σ
  | (None, s) => depart w Over s σ
  end.

Definition do_fail w σ : Sys C :=
  let '(_, s) := fail_locked to_string (pending_writers σ) (shared σ) in depart w Over s σ.

(** [commit_if_drained] from the moment its own lock is granted. *)
Definition do_commit w (woken : bool) σ : Sys C :=
  match commit_if_drained_locked to_string (pending_writers σ) w (shared σ) with
  | (Some (Some r), s) => move w (Finished r) s σ
  | (Some None, s) => move w (Sleeping woken) s σ
  | (None, s) => move w Over s σ
  end.

(** A step of the future of [w], other than being dropped. *)
Inductive wstep w : Sys C -> Sys C -> Prop :=
| w_enter σ : phases σ !! w = None -> wstep w σ (enter w σ)
| w_begin σ : phases σ !! w = Some Queued -> lock σ = None -> wstep w σ (do_begin w σ)
| w_use σ c : phases σ !! w = Some Running -> lock σ = Some w ->
    (* the job's own statements, on the guarded connection *)
    let s := shared σ in let b := state s in
    wstep w σ (move w Running
      (MkShared (MkBatchState c (open b) (job_open b) (in_flight b))
         (commits s) (jobs_total s) (answers s) (log s) (released s)) σ)
| w_finish σ : phases σ !! w = Some Running -> lock σ = Some w -> wstep w σ (do_finish w σ)
| w_fail σ : phases σ !! w = Some Running -> lock σ = Some w -> wstep w σ (do_fail w σ)
| w_register σ : phases σ !! w = Some LoopHead ->
    wstep w σ (move w (Registered false) (shared σ) σ)
| w_check σ b : phases σ !! w = Some (Registered b) ->
    wstep w σ (move w (if (pending_writers σ =? 0)%nat then Checked b else Sleeping b) (shared σ) σ)
| w_commit σ b : phases σ !! w = Some (Checked b) -> lock σ = None -> wstep w σ (do_commit w b σ)
| w_answer σ b a : phases σ !! w = Some (Sleeping b) -> answers (shared σ) !! w = Some a ->
    wstep w σ (move w (Finished (batch_answer (Some a))) (shared σ) σ)
| w_drained σ : phases σ !! w = Some (Sleeping true) ->
    wstep w σ (move w LoopHead (shared σ) σ).

Inductive step : Sys C -> Sys C -> Prop :=
| step_writer w σ σ' : wstep w σ σ' -> step σ σ'
| step_drop w p σ :
    (* the caller goes away; a job it had open is left to the next user of the lock *)
    phases σ !! w = Some p -> pending_phase p || waiting p = true ->
    step σ (depart w Over (shared σ) σ)
| step_read σ : lock σ = None ->
    step σ (MkSys (snd (lock_locked to_string (pending_writers σ) (shared σ)))
              (phases σ) (lock σ) (slots σ))
| step_guarded σ c : lock σ = None ->
    (* what a reader runs on the connection while it holds its guard *)
    let s := shared σ in let b := state s in
    step σ (MkSys (MkShared (MkBatchState c (open b) (job_open b) (in_flight b))
         (commits s) (jobs_total s) (answers s) (log s) (released s))
              (phases σ) (lock σ) (slots σ))
| step_autocommit σ : lock σ = None ->
    step σ (MkSys (snd (lock_autocommit_locked to_string (shared σ)))
              (phases σ) (lock σ) (slots σ)).

Definition initial (c : C) : Sys C := MkSys (new_shared c) ∅ None ∅.

Inductive reachable (c : C) : Sys C -> Prop :=
| reach_initial : reachable c (initial c)
| reach_step σ σ' : reachable c σ -> step σ σ' -> reachable c σ'.

(** ** The invariant of the system *)

Record Inv (W T : gset nat) σ : Prop := {
  inv_shared : J cap W T (shared σ);
  inv_locked : is_Some (lock σ) -> Ready cap W T (shared σ);
  inv_fresh : forall w, phases σ !! w = None \/ (exists p, phases σ !! w = Some p /\ pending_phase p = true) ->
    w ∉ W /\ w ∉ T;
  inv_waiting : forall w p, phases σ !! w = Some p -> waiting p = true -> w ∈ W;
  inv_told : forall w, phases σ !! w = Some (Finished (Ok tt)) -> w ∈ T;
  inv_slots : forall w, w ∈ slots σ <-> exists p, phases σ !! w = Some p /\ pending_phase p = true;
  inv_lock : forall w, lock σ = Some w <-> phases σ !! w = Some Running;
  inv_awake : forall w, phases σ !! w = Some (Sleeping false) -> slots σ ≠ ∅;
}.

Lemma leave_awake w sl ph x :
  (leave w sl ph).2 !! x = Some (Sleeping false) -> ph !! x = Some (Sleeping false) /\
  (sl ≠ ∅ -> (leave w sl ph).1 ≠ ∅).
Proof using Type.
  unfold leave. simpl. case_decide as Hd.
  - rewrite lookup_fmap. destruct (ph !! x) as [[]|]; discriminate.
  - intros Hx. split; [done|]. intros Hne He. apply Hd. split; [|done]. set_solver.
Qed.

Lemma leave_lookup w sl ph x p :
  (leave w sl ph).2 !! x = Some p ->
  exists q, ph !! x = Some q /\ pending_phase q = pending_phase p /\ waiting q = waiting p /\
    (q = p \/ waiting q = true).
Proof using Type.
  unfold leave. simpl. case_decide as Hd.
  - rewrite lookup_fmap. destruct (ph !! x) as [q|]; [|discriminate]. intros [= <-].
    exists q. destruct q; simpl; auto.
  - intros Hx. exists p. auto.
Qed.

Lemma leave_lookup_None w sl ph x : (leave w sl ph).2 !! x = None <-> ph !! x = None.
Proof using Type.
  unfold leave. simpl. case_decide; [|done]. rewrite lookup_fmap.
  destruct (ph !! x); simpl; naive_solver.
Qed.

Lemma leave_pending w sl ph x :
  (exists p, (leave w sl ph).2 !! x = Some p /\ pending_phase p = true) <->
  (exists p, ph !! x = Some p /\ pending_phase p = true).
Proof using Type.
  split.
  - intros (p & Hp & Hpp). destruct (leave_lookup _ _ _ _ _ Hp) as (q & ? & ? & _).
    exists q. split; congruence.
  - intros (p & Hp & Hpp). unfold leave. simpl. case_decide; [|eauto].
    exists (wake p). rewrite lookup_fmap, Hp. by destruct p.
Qed.

Lemma leave_running w sl ph x :
  (leave w sl ph).2 !! x = Some Running <-> ph !! x = Some Running.
Proof using Type.
  unfold leave. simpl. case_decide; [|done]. rewrite lookup_fmap.
  destruct (ph !! x) as [[]|]; simpl; naive_solver.
Qed.

(** A writer leaves: it moves to a phase without a slot, and releases the lock if it held it. *)
Lemma Inv_depart W T W' T' w q p s σ :
  Inv W T σ -> phases σ !! w = Some q -> pending_phase q || waiting q = true ->
  J cap W' T' s ->
  (is_Some (lock σ) -> lock σ = Some w \/ Ready cap W' T' s) ->
  W ⊆ W' -> W' ⊆ {[w]} ∪ W -> T ⊆ T' -> T' ⊆ {[w]} ∪ T ->
  pending_phase p = false -> p ≠ Sleeping false ->
  (waiting p = true -> w ∈ W') -> (p = Finished (Ok tt) -> w ∈ T') ->
  Inv W' T' (depart w p s σ).
Proof using Type.
  intros [] Hq Hlive HJ HR HW1 HW2 HT1 HT2 Hpp Hns Hpw Hpt.
  unfold depart. destruct (leave w (slots σ) (phases σ)) as [sl ph] eqn:El.
  assert (Esl : sl = slots σ ∖ {[w]}) by (unfold leave in El; congruence).
  assert (Eph : ph = (leave w (slots σ) (phases σ)).2) by (by rewrite El).
  constructor; cbn [shared phases lock slots].
  - done.
  - case_decide; [by intros [? [=]]|]. intros Hl. by destruct (HR Hl).
  - intros x Hx. destruct (decide (x = w)) as [->|Hne].
    + rewrite lookup_insert_eq in Hx. destruct Hx as [[=]|(p' & [= <-] & ?)]. congruence.
    + rewrite lookup_insert_ne in Hx by done.
      destruct (inv_fresh0 x) as [? ?]; [|set_solver].
      subst ph. destruct Hx as [Hx|Hx]; [left; by apply leave_lookup_None in Hx|right].
      by apply leave_pending in Hx.
  - intros x p'. destruct (decide (x = w)) as [->|Hne].
    + rewrite lookup_insert_eq. intros [= <-]. auto.
    + rewrite lookup_insert_ne by done. subst ph. intros Hx Hw.
      destruct (leave_lookup _ _ _ _ _ Hx) as (q' & Hq' & _ & Hww & _).
      apply HW1. eapply inv_waiting0; [done|congruence].
  - intros x. destruct (decide (x = w)) as [->|Hne].
    + rewrite lookup_insert_eq. intros [= ->]. auto.
    + rewrite lookup_insert_ne by done. subst ph. intros Hx.
      destruct (leave_lookup _ _ _ _ _ Hx) as (q' & Hq' & _ & Hww & [->|Hwq]).
      * auto.
      * simpl in Hww. congruence.
  - intros x. subst sl ph. destruct (decide (x = w)) as [->|Hne].
    + rewrite lookup_insert_eq. split; [set_solver|]. intros (p' & [= <-] & ?). congruence.
    + rewrite lookup_insert_ne, leave_pending, <-inv_slots0 by done. set_solver.
  - intros x. subst ph. destruct (decide (x = w)) as [->|Hne].
    + rewrite lookup_insert_eq. case_decide; split; intros; simplify_eq; done.
    + rewrite lookup_insert_ne, leave_running, <-inv_lock0 by done.
      case_decide; split; intros; simplify_eq; done.
  - intros x. subst sl ph. destruct (decide (x = w)) as [->|Hne].
    + rewrite lookup_insert_eq. intros [= ->]. done.
    + rewrite lookup_insert_ne by done. intros Hx.
      destruct (leave_awake _ _ _ _ Hx) as [Hx' Hsl]. by apply Hsl, (inv_awake0 x).
Qed.

(** A writer that waits moves on; it has no slot and no lock. *)
Lemma Inv_move W T T' w q p s σ :
  Inv W T σ -> phases σ !! w = Some q -> waiting q = true ->
  J cap W T' s -> (is_Some (lock σ) -> Ready cap W T' s) ->
  T ⊆ T' -> T' ⊆ {[w]} ∪ T ->
  pending_phase p = false -> (p = Sleeping false -> slots σ ≠ ∅) ->
  (p = Finished (Ok tt) -> w ∈ T') ->
  Inv W T' (move w p s σ).
Proof using Type.
  intros [] Hq Hlive HJ HR HT1 HT2 Hpp Hns Hpt.
  assert (HwW : w ∈ W) by eauto.
  constructor; cbn [move shared phases lock slots]; try done.
  - intros x Hx. destruct (decide (x = w)) as [->|Hne].
    + rewrite lookup_insert_eq in Hx. destruct Hx as [[=]|(p' & [= <-] & ?)]. congruence.
    + rewrite lookup_insert_ne in Hx by done. destruct (inv_fresh0 x Hx). set_solver.
  - intros x p'. destruct (decide (x = w)) as [->|Hne]; [by intros|].
    rewrite lookup_insert_ne by done. eauto.
  - intros x. destruct (decide (x = w)) as [->|Hne].
    + rewrite lookup_insert_eq. intros [= ->]. auto.
    + rewrite lookup_insert_ne by done. auto.
  - intros x. destruct (decide (x = w)) as [->|Hne].
    + rewrite lookup_insert_eq, inv_slots0, Hq.
      split; intros (p' & [= <-] & ?); [destruct q; simpl in *; congruence|congruence].
    + rewrite lookup_insert_ne by done. auto.
  - intros x. destruct (decide (x = w)) as [->|Hne].
    + rewrite lookup_insert_eq, inv_lock0, Hq. split; intros; simplify_eq; done.
    + rewrite lookup_insert_ne by done. auto.
  - intros x. destruct (decide (x = w)) as [->|Hne].
    + rewrite lookup_insert_eq. intros [= ->]. auto.
    + rewrite lookup_insert_ne by done. eauto.
Qed.

(** A step that changes no phase and leaves the lock free. *)
Lemma Inv_shared W T s σ :
  Inv W T σ -> J cap W T s -> (is_Some (lock σ) -> Ready cap W T s) ->
  Inv W T (MkSys s (phases σ) (lock σ) (slots σ)).
Proof using Type. intros [] ? ?. by constructor. Qed.

Lemma Inv_enter W T w σ : Inv W T σ -> phases σ !! w = None -> Inv W T (enter w σ).
Proof using Type.
  intros [] Hw. constructor; cbn [enter shared phases lock slots]; auto.
  - intros x Hx. destruct (decide (x = w)) as [->|Hne]; [auto|].
    rewrite lookup_insert_ne in Hx by done. auto.
  - intros x p. destruct (decide (x = w)) as [->|Hne].
    + rewrite lookup_insert_eq. by intros [= <-].
    + rewrite lookup_insert_ne by done. eauto.
  - intros x. destruct (decide (x = w)) as [->|Hne].
    + by rewrite lookup_insert_eq.
    + rewrite lookup_insert_ne by done. auto.
  - intros x. destruct (decide (x = w)) as [->|Hne].
    + rewrite lookup_insert_eq. split; [eauto|set_solver].
    + rewrite lookup_insert_ne, <-inv_slots0 by done. set_solver.
  - intros x. destruct (decide (x = w)) as [->|Hne].
    + rewrite lookup_insert_eq, inv_lock0, Hw. by split.
    + rewrite lookup_insert_ne by done. auto.
  - intros x. destruct (decide (x = w)) as [->|Hne].
    + by rewrite lookup_insert_eq.
    + rewrite lookup_insert_ne by done. intros _. set_solver.
Qed.

(** The lock is granted to a queued writer and its job began. *)
Lemma Inv_granted W T w s σ :
  Inv W T σ -> phases σ !! w = Some Queued -> lock σ = None -> Ready cap W T s ->
  Inv W T (MkSys s (<[w := Running]> (phases σ)) (Some w) (slots σ)).
Proof using Type.
  intros [] Hw Hl HR. constructor; cbn [shared phases lock slots]; auto with wamux.
  - intros x Hx. apply inv_fresh0. destruct (decide (x = w)) as [->|Hne]; [eauto|].
    by rewrite lookup_insert_ne in Hx.
  - intros x p. destruct (decide (x = w)) as [->|Hne].
    + rewrite lookup_insert_eq. by intros [= <-].
    + rewrite lookup_insert_ne by done. eauto.
  - intros x. destruct (decide (x = w)) as [->|Hne].
    + by rewrite lookup_insert_eq.
    + rewrite lookup_insert_ne by done. auto.
  - intros x. rewrite inv_slots0. destruct (decide (x = w)) as [->|Hne].
    + rewrite lookup_insert_eq, Hw. naive_solver.
    + by rewrite lookup_insert_ne.
  - intros x. destruct (decide (x = w)) as [->|Hne].
    + by rewrite lookup_insert_eq.
    + rewrite lookup_insert_ne, <-inv_lock0 by done. rewrite Hl. split; congruence.
  - intros x. destruct (decide (x = w)) as [->|Hne].
    + by rewrite lookup_insert_eq.
    + rewrite lookup_insert_ne by done. eauto.
Qed.

(** The connection is no part of the invariant. *)
Lemma Ready_conn W T (s : Shared C) (c : C) :
  Ready cap W T s ->
  let b := state s in
  Ready cap W T (MkShared (MkBatchState c (open b) (job_open b) (in_flight b))
     (commits s) (jobs_total s) (answers s) (log s) (released s)).
Proof using Type.
  intros [(Hw & Hg & Hr) Hi]. split; [|done]. split_and!; [|done..].
  destruct Hw. by constructor.
Qed.

Lemma J_conn W T (s : Shared C) (c : C) :
  J cap W T s ->
  let b := state s in
  J cap W T (MkShared (MkBatchState c (open b) (job_open b) (in_flight b))
     (commits s) (jobs_total s) (answers s) (log s) (released s)).
Proof using Type.
  intros (Hw & Hg & Hr). split_and!; [|done..]. destruct Hw. by constructor.
Qed.

Lemma J_direct W T w (s : Shared C) :
  J cap W T s -> released_committed s w -> J cap W ({[w]} ∪ T) s.
Proof using Type.
  intros ([] & ? & ?) Hc. split_and!; [|done..]. constructor; auto.
  intros x [->%elem_of_singleton|Hx]%elem_of_union; auto.
Qed.

Lemma triple_run {A} P (m : M C A) Q D (s : Shared C) :
  triple P m Q D -> P s ->
  match m s with (Some a, s') => Q a s' | (None, s') => D s' end.
Proof using Type. intros Hm Hs. by apply Hm. Qed.

Context (Hcap : 1 <= cap).

Lemma Inv_wstep W T w σ σ' :
  Inv W T σ -> wstep w σ σ' -> exists W' T', Inv W' T' σ'.
Proof using Hcap.
  intros HI Hstep. pose proof HI as [].
  destruct Hstep as [σ Hp|σ Hp Hl|σ c Hp Hl|σ Hp Hl|σ Hp Hl|σ Hp|σ b Hp|σ b Hp Hl|σ b a Hp Ha|σ Hp].
  - exists W, T. by apply Inv_enter.
  - exists W, T. unfold do_begin.
    assert (Hnl : ~ is_Some (lock σ)) by (by rewrite Hl; intros [? [=]]).
    pose proof (triple_run _ _ _ _ _ (triple_begin_job cap Hcap W T) inv_shared0) as Ht.
    destruct (begin_job_locked (shared σ)) as [[[u|e]|] s].
    + apply Inv_granted; try done. apply Ht.
    + destruct Ht. eapply Inv_depart; try done; auto with wamux; try tauto; set_solver.
    + eapply Inv_depart; try done; try tauto; set_solver.
  - exists W, T. constructor; cbn [move shared phases lock slots]; auto;
      try (rewrite insert_id by done; done); eauto using J_conn, Ready_conn.
  - unfold do_finish. assert (w ∉ W /\ w ∉ T) as [HwW HwT] by eauto.
    pose proof (triple_run _ _ _ _ _
      (triple_finish to_string cap Hcap W T (pending_writers σ) w HwW HwT)
      (inv_locked0 (ex_intro _ w Hl))) as Ht.
    destruct (finish_locked to_string cap (pending_writers σ) w (shared σ)) as [[[[u|e]|]|] s].
    + exists W, ({[w]} ∪ T). eapply Inv_depart; try done; auto with wamux; set_solver.
    + exists W, T. eapply Inv_depart; try done; auto with wamux; set_solver.
    + exists ({[w]} ∪ W), T. eapply Inv_depart; try done; auto with wamux; set_solver.
    + exists W, T. eapply Inv_depart; try done; auto with wamux; set_solver.
  - exists W, T. unfold do_fail.
    pose proof (triple_run _ _ _ _ _
      (triple_fail to_string cap Hcap W T (pending_writers σ)) (inv_locked0 (ex_intro _ w Hl))) as Ht.
    destruct (fail_locked to_string (pending_writers σ) (shared σ)) as [[u|] s];
      eapply Inv_depart; try done; auto with wamux; set_solver.
  - exists W, T. eapply Inv_move; try done; set_solver.
  - exists W, T. unfold pending_writers. destruct (Nat.eqb_spec (size (slots σ)) 0) as [E|E].
    + eapply Inv_move; try done; set_solver.
    + eapply Inv_move; try done; [set_solver|]. intros _ He. by rewrite He, size_empty in E.
  - unfold do_commit. assert (HwW : w ∈ W) by eauto.
    pose proof (triple_run _ _ _ _ _
      (triple_commit_if_drained to_string cap Hcap W T (pending_writers σ) w HwW) inv_shared0) as Ht.
    assert (Hnl : ~ is_Some (lock σ)) by (by rewrite Hl; intros [? [=]]).
    destruct (commit_if_drained_locked to_string (pending_writers σ) w (shared σ)) as [[[[u|e]|]|] s].
    + destruct u. destruct Ht as (HR & _ & Hc). exists W, ({[w]} ∪ T).
      eapply Inv_move; try done; [apply J_direct; auto with wamux|set_solver..].
    + exists W, T. destruct Ht as (HR & _ & _). eapply Inv_move; try done; auto with wamux; set_solver.
    + exists W, T. destruct Ht as (HR & Hn & _).
      eapply Inv_move; try done; auto with wamux; [set_solver|].
      intros _ He. apply (Hn eq_refl). unfold pending_writers. by rewrite He, size_empty.
    + exists W, T. eapply Inv_move; try done; set_solver.
  - destruct a as [[]|m].
    + pose proof inv_shared0 as ([] & _ & _).
      exists W, ({[w]} ∪ T). eapply Inv_move; try done; [apply J_direct; auto| |set_solver..].
      intros HL. destruct (inv_locked0 HL) as [(Hw & Hg & Hr) Hi].
      split; [|done]. split_and!; [|done..]. apply J_direct; auto.
    + exists W, T. eapply Inv_move; try done; set_solver.
  - exists W, T. eapply Inv_move; try done; set_solver.
Qed.

Lemma lock_free σ : lock σ = None -> ~ is_Some (lock σ).
Proof using Type. intros ->. by intros [? [=]]. Qed.

(** The shared part of a step a reader takes: whatever its body does, the invariant holds. *)
Lemma Inv_reader {A} W T (m : M C A) (Q : A -> Shared C -> Prop) σ :
  Inv W T σ -> lock σ = None -> triple (J cap W T) m Q (J cap W T) ->
  (forall a s, Q a s -> J cap W T s) ->
  Inv W T (MkSys (snd (m (shared σ))) (phases σ) (lock σ) (slots σ)).
Proof using Type.
  intros HI Hl Hm HQ. apply Inv_shared; [done| |by intros ?%(lock_free σ Hl)].
  specialize (Hm _ (inv_shared _ _ _ HI)). destruct (m (shared σ)) as [[a|] s]; eauto.
Qed.

Lemma Inv_step W T σ σ' : Inv W T σ -> step σ σ' -> exists W' T', Inv W' T' σ'.
Proof using Hcap.
  intros HI. destruct 1 as [w σ σ' Hw|w p σ Hp Hlive|σ Hl|σ c Hl|σ Hl].
  - by eapply Inv_wstep.
  - exists W, T. pose proof HI as [].
    eapply (Inv_depart W T W T w p Over); try done; try tauto; set_solver.
  - exists W, T. eapply Inv_reader; [done..|by apply triple_lock|].
    intros a s [HR _]. by apply Ready_J.
  - exists W, T. apply Inv_shared; [done| |by intros ?%(lock_free σ Hl)].
    apply J_conn, HI.
  - exists W, T. eapply Inv_reader; [done..|by apply triple_lock_autocommit|].
    intros r s [HR _]. by apply Ready_J.
Qed.

Lemma initial_Inv c : Inv ∅ ∅ (initial c).
Proof using Hcap.
  constructor; cbn [initial shared phases lock slots]; try set_solver.
  split_and!; [|right; by apply no_batch_good|do 2 right; by apply no_batch_room].
  constructor; cbn; set_solver.
Qed.

Lemma reachable_Inv c σ : reachable c σ -> exists W T, Inv W T σ.
Proof using Hcap.
  induction 1 as [|σ σ' _ (W & T & HI) Hs]; [exists ∅, ∅; apply initial_Inv|].
  by eapply Inv_step.
Qed.
End system.
