(* ===== verification/GroupCommitProps.v ===== *)
(** * What a group commit promises its callers

    The theorems about every reachable state of [GroupCommitSystem], over any [BatchConn], and
    about the operations of [GroupCommit] on a state of their own.  Each has a run on a small
    connection at the end of the file. *)

From S2P Require Import Prelude StoreError GroupCommit GroupCommitLaws GroupCommitSystem.

(** A writer whose future is over. *)
Definition ended (p : phase) : bool :=
  match p with Finished _ | Over => true | _ => false end.

(** How many steps of its own a waiting writer is from its answer once no slot is held. *)
Definition rank (p : phase) : nat :=
  match p with
  | Sleeping _ => 4
  | LoopHead => 3
  | Registered _ => 2
  | Checked _ => 1
  | _ => 0
  end.

(** A connection that remembers nothing and runs every statement as the script says; a script
    that ran out answers [Ok]. *)
Definition script_control (statement : ControlStatement) (script : list outcome) :
    outcome * list outcome :=
  match script with
  | [] => (Returned (Ok tt), [])
  | o :: rest => (o, rest)
  end.

#[global] Instance script_conn : BatchConn (list outcome) := script_control.

Section lemmas.
Context {C : Type} `{BatchConn C} (to_string : StoreError -> string) (cap : Z).
Context (Hcap : 1 <= cap).
Implicit Types (σ : Sys C) (w : nat) (s : Shared C).

(** With no slot held, a step of a waiting writer brings it nearer to its answer. *)
Lemma drained_step W T w p σ σ' :
  Inv cap W T σ -> phases σ !! w = Some p -> waiting p = true -> slots σ = ∅ ->
  wstep to_string cap w σ σ' ->
  exists p', phases σ' !! w = Some p' /\ (rank p' < rank p)%nat /\
    (waiting p' || ended p') = true /\ slots σ' = ∅.
Proof using Hcap.
  intros HI Hp Hwait Hsl Hstep.
  destruct Hstep as [σ Hq|σ Hq Hl|σ c Hq Hl|σ Hq Hl|σ Hq Hl|σ Hq|σ b Hq|σ b Hq Hl|σ b a Hq Ha|σ Hq];
    simplify_eq; cbn [move phases slots]; try (rewrite lookup_insert_eq); try (eexists; split_and!; [done|simpl; lia|done..]).
  - assert (pending_writers σ = 0%nat) as -> by (unfold pending_writers; by rewrite Hsl, size_empty).
    eexists; split_and!; [done|simpl; lia|done..].
  - unfold do_commit. assert (HwW : w ∈ W) by (by eapply inv_waiting).
    pose proof (triple_run _ _ _ _ _
      (triple_commit_if_drained to_string cap Hcap W T (pending_writers σ) w HwW) (inv_shared _ _ _ _ HI)) as Ht.
    assert (pending_writers σ = 0%nat) as Hz by (unfold pending_writers; by rewrite Hsl, size_empty).
    destruct (commit_if_drained_locked to_string (pending_writers σ) w (shared σ)) as [[[r|]|] s];
      cbn [move phases slots]; rewrite ?lookup_insert_eq.
    + eexists; split_and!; [done|simpl; lia|done..].
    + destruct Ht as (_ & Hn & _). by destruct (Hn eq_refl).
    + eexists; split_and!; [done|simpl; lia|done..].
Qed.

Lemma drained_can_step W T w p σ :
  Inv cap W T σ -> phases σ !! w = Some p -> waiting p = true -> slots σ = ∅ ->
  exists σ', wstep to_string cap w σ σ'.
Proof using Hcap.
  intros HI Hp Hwait Hsl.
  destruct p as [| | |b|b|[]| |]; try discriminate.
  - eexists. by apply w_register.
  - eexists. by eapply w_check.
  - eexists. eapply w_commit; [done|].
    destruct (lock σ) as [x|] eqn:Hl; [|done]. exfalso.
    assert (Hx : x ∈ slots σ).
    { apply (inv_slots _ _ _ _ HI). exists Running. split; [by apply (inv_lock _ _ _ _ HI)|done]. }
    set_solver.
  - eexists. by apply w_drained.
  - by destruct (inv_awake _ _ _ _ HI w).
Qed.

Lemma ended_no_step w p σ σ' :
  phases σ !! w = Some p -> ended p = true -> ~ wstep to_string cap w σ σ'.
Proof using Type. intros Hp He Hs. destruct Hs; simplify_eq; discriminate. Qed.

Lemma drained_run W T w p n σ σ' :
  Inv cap W T σ -> phases σ !! w = Some p -> waiting p || ended p = true -> slots σ = ∅ ->
  nsteps (wstep to_string cap w) n σ σ' ->
  (n <= rank p)%nat /\ exists p', phases σ' !! w = Some p' /\
    (ended p' = true \/ exists σ'', wstep to_string cap w σ' σ'').
Proof using Hcap.
  intros HI Hp Hlive Hsl Hrun. revert W T p HI Hp Hlive Hsl.
  induction Hrun as [σ|n σ σ1 σ' Hs Hrun IH]; intros W T p HI Hp Hlive Hsl.
  - split; [lia|]. exists p. split; [done|].
    apply orb_true_iff in Hlive as [Hw|He]; [right; by eapply drained_can_step|by left].
  - assert (Hw : waiting p = true).
    { apply orb_true_iff in Hlive as [|He]; [done|]. by destruct (ended_no_step w p σ σ1). }
    destruct (drained_step W T w p σ σ1) as (p' & Hp' & Hr & Hl' & Hsl'); [done..|].
    destruct (Inv_wstep to_string cap Hcap W T w σ σ1 HI Hs) as (W' & T' & HI').
    destruct (IH W' T' p') as [Hn ?]; [done..|]. split; [lia|done].
Qed.
End lemmas.

(** ** Every reachable state *)

Section reachable_states.
Context {C : Type} `{BatchConn C} (to_string : StoreError -> string) (cap : Z) (c0 : C).
Implicit Types (σ : Sys C) (w : nat) (s : Shared C).

(** C1.  A writer is told [Ok] only when its job is on disk: the history of the connection
    has, after that job's RELEASE, a COMMIT that returned [Ok] with no BEGIN, ROLLBACK or
    other successful COMMIT in between.  Whatever the driver returns, in whatever order the
    writers run, and wherever a caller goes away. *)
Theorem finish_ok_is_committed σ w :
  1 <= cap -> reachable to_string cap c0 σ -> phases σ !! w = Some (Finished (Ok tt)) ->
  released_committed (shared σ) w.
Proof.
  intros Hcap Hr Hw. destruct (reachable_Inv to_string cap Hcap c0 σ Hr) as (W & T & HI).
  apply (wk_direct cap W T); [apply HI|]. by eapply inv_told.
Qed.

(** C2.  No wake-up is lost: once no [PendingSlot] is held, a writer that waits for its COMMIT
    has its answer after at most four steps of its own, whatever the driver does, and is never
    stuck before. *)
Theorem drained_writer_is_answered σ w p n σ' :
  1 <= cap -> reachable to_string cap c0 σ -> phases σ !! w = Some p -> waiting p = true ->
  slots σ = ∅ -> nsteps (wstep to_string cap w) n σ σ' ->
  (n <= 4)%nat /\ exists p', phases σ' !! w = Some p' /\
    (ended p' = true \/ exists σ'', wstep to_string cap w σ' σ'').
Proof.
  intros Hcap Hr Hp Hw Hsl Hrun.
  destruct (reachable_Inv to_string cap Hcap c0 σ Hr) as (W & T & HI).
  destruct (drained_run to_string cap Hcap W T w p n σ σ') as [Hn ?]; try done.
  - by rewrite Hw.
  - split; [|done]. destruct p; simpl in *; lia.
Qed.

(** The batch is bounded: it never holds more jobs than its cap nor more waiters than
    jobs, and when the lock is free with nothing left in flight there is room for one more. *)
Theorem batch_never_over_cap σ b :
  1 <= cap -> reachable to_string cap c0 σ -> open (state (shared σ)) = Some b ->
  Z.of_nat (length (waiters b)) <= jobs b <= cap /\
  (in_flight (state (shared σ)) = None -> jobs b < cap).
Proof.
  intros Hcap Hr Hb. destruct (reachable_Inv to_string cap Hcap c0 σ Hr) as (W & T & HI).
  destruct (inv_shared _ _ _ _ HI) as (Hw & _ & Hroom). split; [by apply Hw|].
  intros Hi. destruct Hroom as [|[|Hroom]]; [congruence..|by apply Hroom].
Qed.

(** A reader that takes the lock while no writer is pending, and a caller of
    [lock_autocommit] that got its guard, hold a connection with no transaction of the batch
    open on it, whatever was left there. *)
Theorem reader_finds_no_transaction σ s :
  1 <= cap -> reachable to_string cap c0 σ ->
  lock_locked to_string 0 (shared σ) = (Some tt, s) \/
  lock_autocommit_locked to_string (shared σ) = (Some (Ok tt), s) ->
  open (state s) = None /\ in_flight (state s) = None.
Proof.
  intros Hcap Hr Hrun. destruct (reachable_Inv to_string cap Hcap c0 σ Hr) as (W & T & HI).
  pose proof (inv_shared _ _ _ _ HI) as HJ. destruct Hrun as [Hrun|Hrun].
  - pose proof (triple_run _ _ _ _ _ (triple_lock to_string cap Hcap W T 0) HJ) as Ht.
    rewrite Hrun in Ht. destruct Ht as [[_ ?] Ho]. split; [by apply Ho|done].
  - pose proof (triple_run _ _ _ _ _ (triple_lock_autocommit to_string cap Hcap W T) HJ) as Ht.
    rewrite Hrun in Ht. destruct Ht as [[_ ?] Ho]. split; [by apply Ho|done].
Qed.
End reachable_states.

(** ** One operation *)

Section operations.
Context {C : Type} `{BatchConn C} (to_string : StoreError -> string).
Implicit Types (s : Shared C).

(** The history of the connection only grows. *)
Lemma log_grows_control statement s :
  exists o, log (run_control statement s).2 = log s ++ [(statement, o)] /\
    ((run_control statement s).1 = match o with Returned r => Some r | Dropped => None end).
Proof using Type.
  unfold run_control. destruct (control statement (conn (state s))) as [[r|] c]; by eexists.
Qed.

Lemma log_discard message s :
  exists o, log (discard_batch message s).2 = log s ++ [(Rollback, o)].
Proof using Type.
  unfold discard_batch, bind at 1, run_control.
  destruct (control Rollback (conn (state s))) as [[r|] c]; [|by eexists].
  exists (Returned r). unfold bind, get. simpl. by destruct (open (state s)).
Qed.

Lemma log_close s : exists l, log (close_batch to_string s).2 = log s ++ l.
Proof using Type.
  unfold close_batch, bind_try, commit_batch, bind, get, count_commit.
  destruct (open (state s)) as [b|]; cbn; [|exists []; by rewrite app_nil_r].
  destruct (log_grows_control Commit s) as (o & Hl & Hr).
  destruct (run_control Commit s) as [r1 s1]. cbn in Hl, Hr. subst r1.
  destruct o as [[[]|e]|]; cbn.
  - destruct (0 <? _); by exists [(Commit, Returned (Ok tt))].
  - destruct (log_grows_control Rollback s1) as (o' & Hl' & Hr').
    destruct (run_control Rollback s1) as [r2 s2]. cbn in Hl', Hr'. subst r2.
    exists [(Commit, Returned (Err e)); (Rollback, o')].
    destruct o'; cbn; rewrite Hl', Hl; by rewrite <-app_assoc.
  - by exists [(Commit, Dropped)].
Qed.

(** [fail] never commits the failed job: every COMMIT it runs comes after the job's
    savepoint was rolled back and released, both with [Ok]; otherwise it runs none. *)
Theorem fail_undoes_before_commit pending s r s' :
  fail_locked to_string pending s = (r, s') ->
  exists l, log s' = log s ++ l /\
    ((forall o, (Commit, o) ∉ l) \/
     exists rest, l = (RollbackToSavepoint, Returned (Ok tt)) :: (Release, Returned (Ok tt)) :: rest).
Proof.
  unfold fail_locked, rollback_job_or_discard, rollback_job, bind_try, bind.
  destruct (log_grows_control RollbackToSavepoint s) as (o1 & Hl1 & Hr1).
  destruct (run_control RollbackToSavepoint s) as [r1 s1]. cbn in Hl1, Hr1. subst r1.
  assert (Hdiscard : forall s0 l0, log s0 = log s ++ l0 -> (forall o, (Commit, o) ∉ l0) ->
    let s1 := (discard_after_lost_savepoint s0).2 in
    exists l, log s1 = log s ++ l /\
    ((forall o, (Commit, o) ∉ l) \/ exists rest,
     l = (RollbackToSavepoint, Returned (Ok tt)) :: (Release, Returned (Ok tt)) :: rest)).
  { intros s0 l0 Hs0 Hl0. destruct (log_discard TRANSACTION_LOST s0) as (o & Ho).
    exists (l0 ++ [(Rollback, o)]). unfold discard_after_lost_savepoint. rewrite Ho, Hs0.
    rewrite <-app_assoc. split; [done|]. left. set_solver. }
  destruct o1 as [[[]|e]|]; cbn.
  - destruct (log_grows_control Release s1) as (o2 & Hl2 & Hr2).
    destruct (run_control Release s1) as [r2 s2]. cbn in Hl2, Hr2. subst r2.
    rewrite Hl1, <-app_assoc in Hl2. cbn in Hl2.
    destruct o2 as [[[]|e]|]; cbn.
    + destruct (Nat.pred pending =? 0)%nat.
      * match goal with |- context [close_batch to_string ?x] => destruct (log_close x) as (l & Hl);
          destruct (close_batch to_string x) as [r3 s3] end.
        cbn in Hl. rewrite Hl2, <-app_assoc in Hl. intros Hs. exists ([
          (RollbackToSavepoint, Returned (Ok tt)); (Release, Returned (Ok tt))] ++ l).
        unfold ret in Hs. destruct r3; simplify_eq; (split; [done|right; by eexists]).
      * intros [= <- <-]. cbn. eexists; split; [done|]. right. by eexists.
    + specialize (Hdiscard _ _ Hl2 ltac:(set_solver)).
      destruct (discard_after_lost_savepoint s2) as [[]]; unfold ret; intros; by simplify_eq.
    + intros [= <- <-]. eexists; split; [done|]. left. set_solver.
  - specialize (Hdiscard _ _ Hl1 ltac:(set_solver)).
    destruct (discard_after_lost_savepoint s1) as [[]]; unfold ret; intros; by simplify_eq.
  - intros [= <- <-]. eexists; split; [done|]. left. set_solver.
Qed.

(** Every waiter of a batch gets the same answer, its COMMIT's own result, and nobody
    else's changes; the batch is gone whether the COMMIT failed or not. *)
Theorem commit_batch_answers_all s b r s' :
  open (state s) = Some b -> commit_batch to_string s = (Some r, s') ->
  open (state s') = None /\
  forall w, answers s' !! w =
    if decide (w ∈ waiters b) then Some (map_err to_string ((fun _ => tt) <$> r))
    else answers s !! w.
Proof.
  intros Hb. unfold commit_batch, bind, get. rewrite Hb. unfold run_control at 1.
  destruct (control Commit (conn (state s))) as [[[[]|e]|] c]; cbn; rewrite ?Hb; [| |discriminate].
  - intros [= <- <-]. cbn. split; [done|]. intros w. by rewrite foldl_answer_lookup.
  - unfold run_control. cbn. destruct (control Rollback c) as [[x|] c']; cbn; rewrite ?Hb; [|discriminate].
    intros [= <- <-]. cbn. split; [done|]. intros w. by rewrite foldl_answer_lookup.
Qed.
End operations.

(** ** Two writers on a scripted connection *)

Definition plain (e : StoreError) : string := "error".

(** Writer 0 finishes while writer 1 is queued, so it is left waiting; writer 1's [finish] runs
    the COMMIT for both. *)
Definition two_queued : Sys (list outcome) := enter 1 (enter 0 (initial [])).
Definition first_done : Sys (list outcome) :=
  do_finish plain 128 0 (do_begin 0 two_queued).
Definition both_done : Sys (list outcome) :=
  do_finish plain 128 1 (do_begin 1 first_done).

Lemma two_queued_reachable : reachable plain 128 [] two_queued.
Proof.
  eapply reach_step; [eapply reach_step; [apply reach_initial|]|];
    eapply step_writer, w_enter; vm_compute; reflexivity.
Qed.

Lemma first_done_reachable : reachable plain 128 [] first_done.
Proof.
  eapply reach_step; [eapply reach_step; [apply two_queued_reachable|]|];
    eapply step_writer; [apply w_begin|apply w_finish]; vm_compute; reflexivity.
Qed.

Lemma both_done_reachable : reachable plain 128 [] both_done.
Proof.
  eapply reach_step; [eapply reach_step; [apply first_done_reachable|]|];
    eapply step_writer; [apply w_begin|apply w_finish]; vm_compute; reflexivity.
Qed.

Lemma finish_ok_is_committed_witness :
  phases both_done !! 1%nat = Some (Finished (Ok tt)) /\
  released_committed (shared both_done) 1.
Proof.
  split; [vm_compute; reflexivity|].
  apply (finish_ok_is_committed plain 128 [] both_done 1);
    [lia|apply both_done_reachable|vm_compute; reflexivity].
Defined.

Lemma drained_writer_is_answered_witness :
  phases both_done !! 0%nat = Some LoopHead /\ slots both_done = ∅ /\
  exists p', phases (move 0 (Registered false) (shared both_done) both_done) !! 0%nat = Some p' /\
    (ended p' = true \/ exists σ'', wstep plain 128 0
       (move 0 (Registered false) (shared both_done) both_done) σ'').
Proof.
  split_and!; [vm_compute; reflexivity|vm_compute; reflexivity|].
  eapply (drained_writer_is_answered plain 128 [] both_done 0 LoopHead 1);
    [lia|apply both_done_reachable|vm_compute; reflexivity..|].
  eapply nsteps_l; [|apply nsteps_O]. apply w_register. vm_compute; reflexivity.
Defined.

Lemma batch_never_over_cap_witness :
  open (state (shared first_done)) = Some (MkOpenBatch 1 [0%nat]) /\
  (1 <= 1 <= 128 /\ (None (A := ControlStatement) = None -> 1 < 128)).
Proof.
  split; [vm_compute; reflexivity|].
  apply (batch_never_over_cap plain 128 [] first_done (MkOpenBatch 1 [0%nat]));
    [lia|apply first_done_reachable|vm_compute; reflexivity].
Defined.

(** A reader after writer 0's caller went away while it was waiting: the lock commits. *)
Lemma reader_finds_no_transaction_witness :
  open (state (snd (lock_locked plain 0 (shared first_done)))) = None /\
  in_flight (state (snd (lock_locked plain 0 (shared first_done)))) = None.
Proof.
  apply (reader_finds_no_transaction plain 128 [] first_done);
    [lia|apply first_done_reachable|left; vm_compute; reflexivity].
Defined.

(** A job that fails with writer 0 waiting: its savepoint is rolled back, then the batch is
    committed. *)
Lemma fail_undoes_before_commit_witness :
  exists l, log (snd (fail_locked plain 1 (shared (do_begin 1 first_done)))) =
      log (shared (do_begin 1 first_done)) ++ l /\
    ((forall o, (Commit, o) ∉ l) \/
     exists rest, l = (RollbackToSavepoint, Returned (Ok tt)) :: (Release, Returned (Ok tt)) :: rest).
Proof.
  apply (fail_undoes_before_commit plain 1 (shared (do_begin 1 first_done)) (Some tt)).
  vm_compute; reflexivity.
Defined.

Lemma commit_batch_answers_all_witness :
  open (state (snd (commit_batch plain (shared first_done)))) = None /\
  forall w, answers (snd (commit_batch plain (shared first_done))) !! w =
    if decide (w ∈ [0%nat]) then Some (Ok tt) else answers (shared first_done) !! w.
Proof.
  apply (commit_batch_answers_all plain (shared first_done) (MkOpenBatch 1 [0%nat]) (Ok 1));
    vm_compute; reflexivity.
Defined.
