(* ===== verification/StoreKey.v ===== *)
(** * The store key (storage/store_key.rs)

    64 hex characters in a file only its owner can read.  The parser works on the text's bytes;
    the file is given by what its handle answers (mode, content); SHA-256 is the library's and a
    parameter. *)

From S2P Require Import Prelude.

(** What [std::io::Error] is to this code: it asks for one kind only. *)
Inductive IoError : Type :=
| InvalidData
| OtherIo (code : Z).

Inductive StoreKeyError : Type :=
| Unreadable (path : string) (source : IoError)
| LooseMode (path : string) (mode : Z)
| BadFormat.

#[global] Instance IoError_eq_dec : EqDecision IoError.
Proof. solve_decision. Defined.

#[global] Instance StoreKeyError_eq_dec : EqDecision StoreKeyError.
Proof. solve_decision. Defined.

Record StoreKey : Type := MkStoreKey { key_bytes : bytes }.

#[global] Instance StoreKey_eq_dec : EqDecision StoreKey.
Proof. solve_decision. Defined.

(** One lowercase hex digit of a value below 16. *)
Definition hex_digit (v : Z) : byte :=
  byte_of_Z (if v <? 10 then v + 48 else v + 87).

(** [format!("{b:02x}")]. *)
Definition hex_pair (b : byte) : bytes :=
  [hex_digit (byte_val b / 16); hex_digit (byte_val b mod 16)].

(** [key_id_hex], and [hex_of] of storage/store_encryption.rs: as the bytes of the string. *)
Definition hex_bytes (id : bytes) : bytes := id ≫= hex_pair.

Definition key_id_hex (id : bytes) : string :=
  String.string_of_list_byte (hex_bytes id).

(** [hex_nibble]: the digit's own value, either case. *)
Definition hex_nibble (digit : byte) : result StoreKeyError Z :=
  let d := byte_val digit in
  if (48 <=? d) && (d <=? 57) then Ok (d - 48)
  else if (97 <=? d) && (d <=? 102) then Ok (d - 97 + 10)
  else if (65 <=? d) && (d <=? 70) then Ok (d - 65 + 10)
  else Err BadFormat.

(** [str::strip_suffix]. *)
Definition strip_suffix (suffix l : bytes) : option bytes :=
  let n := (length l - length suffix)%nat in
  if decide (drop n l = suffix) then Some (take n l) else None.

(** The loop over [raw.chunks_exact(2)]. *)
Fixpoint parse_pairs (raw : bytes) : result StoreKeyError bytes :=
  match raw with
  | a :: b :: rest =>
      hi ← hex_nibble a;
      lo ← hex_nibble b;
      slots ← parse_pairs rest;
      Ok (byte_of_Z (Z.lor (Z.shiftl hi 4) lo) :: slots)
  | _ => Ok []
  end.

Definition strip_newline (text : bytes) : bytes :=
  match strip_suffix [Byte.x0d; Byte.x0a] text with
  | Some l => l
  | None => default text (strip_suffix [Byte.x0a] text)
  end.

(** [StoreKey::parse_hex]. *)
Definition parse_hex (text : bytes) : result StoreKeyError StoreKey :=
  let raw := strip_newline text in
  if negb (length raw =? 64)%nat then Err BadFormat
  else MkStoreKey <$> parse_pairs raw.

(** An opened key file: what [metadata] and [read_to_string] answer on its handle. *)
Record KeyFile : Type := MkKeyFile {
  file_mode : result IoError Z;
  file_text : result IoError bytes;
}.

(** [StoreKey::from_file]; [opened] is what [File::open] answers. *)
Definition from_file (path : string) (opened : result IoError KeyFile) :
    result StoreKeyError StoreKey :=
  file ← map_err (Unreadable path) opened;
  mode ← map_err (Unreadable path) (file_mode file);
  if negb (Z.land mode 0x3f =? 0) then Err (LooseMode path (Z.land mode 0xfff))
  else
    text ← map_err (fun source =>
             match source with InvalidData => BadFormat | _ => Unreadable path source end)
             (file_text file);
    parse_hex text.

(** [StoreKey::id]: the first four bytes of SHA-256 of the key. *)
Definition key_id (sha256 : bytes -> bytes) (key : StoreKey) : bytes :=
  take 4 (sha256 (key_bytes key)).

(** ** Hex digits *)

(** A lowercase ASCII letter for an uppercase one. *)
Definition lower (b : byte) : byte :=
  if (65 <=? byte_val b) && (byte_val b <=? 90) then byte_of_Z (byte_val b + 32) else b.

Lemma hex_pair_parses b :
  exists hi lo, hex_nibble (hex_digit (byte_val b / 16)) = Ok hi /\
    hex_nibble (hex_digit (byte_val b mod 16)) = Ok lo /\
    byte_of_Z (Z.lor (Z.shiftl hi 4) lo) = b.
Proof.
  exists (byte_val b / 16), (byte_val b mod 16). destruct b; split_and!; vm_compute; reflexivity.
Qed.

Lemma hex_nibble_ok d v : hex_nibble d = Ok v -> 0 <= v < 16 /\ hex_digit v = lower d.
Proof.
  destruct d; cbv -[Z.le Z.lt]; intros H; try discriminate H; injection H as <-;
    (split; [lia|reflexivity]).
Qed.

Lemma hex_pair_joined hi lo :
  0 <= hi < 16 -> 0 <= lo < 16 ->
  hex_pair (byte_of_Z (Z.lor (Z.shiftl hi 4) lo)) = [hex_digit hi; hex_digit lo].
Proof.
  intros Hhi Hlo.
  assert (Hall : forallb (fun hi => forallb (fun lo => bool_decide
    (hex_pair (byte_of_Z (Z.lor (Z.shiftl hi 4) lo)) = [hex_digit hi; hex_digit lo]))
    (seqZ 0 16)) (seqZ 0 16) = true) by (vm_compute; reflexivity).
  rewrite forallb_forall in Hall. specialize (Hall hi).
  rewrite forallb_forall in Hall. specialize (Hall ltac:(apply list_elem_of_In, elem_of_seqZ; lia) lo).
  apply (bool_decide_eq_true_1 _), Hall. apply list_elem_of_In, elem_of_seqZ. lia.
Qed.

(** Every byte list is what its hex digits parse to. *)
Lemma parse_pairs_hex l : parse_pairs (hex_bytes l) = Ok l.
Proof.
  induction l as [|b l IH]; [done|]. unfold hex_bytes in *. cbn.
  destruct (hex_pair_parses b) as (hi & lo & Hhi & Hlo & Hb).
  rewrite Hhi. cbn. rewrite Hlo. cbn. unfold hex_bytes in IH. cbn in IH. rewrite IH. cbn.
  by rewrite Hb.
Qed.

Lemma parse_pairs_ok raw l :
  Nat.Even (length raw) -> parse_pairs raw = Ok l -> hex_bytes l = lower <$> raw.
Proof.
  revert l. induction raw as [[|a [|b raw]] IH] using (induction_ltof1 _ length);
    intros l Hev; cbn [parse_pairs].
  - intros [= <-]. done.
  - intros _. destruct Hev as [k Hk]. cbn in Hk. lia.
  - intros (hi & Hhi & H)%result_bind_ok. apply result_bind_ok in H as (lo & Hlo & H).
    apply result_bind_ok in H as (slots & Hslots & H). injection H as <-.
    apply hex_nibble_ok in Hhi as [? Hhi], Hlo as [? Hlo].
    unfold hex_bytes. cbn [mbind list_bind]. rewrite hex_pair_joined by done. cbn.
    rewrite Hhi, Hlo. do 2 f_equal. apply (IH raw); [unfold ltof; cbn; lia| |done].
    destruct Hev as [k Hk]. exists (k - 1)%nat. cbn in Hk. lia.
Qed.

Lemma parse_pairs_length raw l :
  parse_pairs raw = Ok l -> length l = Nat.div2 (length raw).
Proof.
  revert l. induction raw as [[|a [|b raw]] IH] using (induction_ltof1 _ length);
    intros l; cbn [parse_pairs]; [by intros [= <-]..|].
  intros (hi & Hhi & H)%result_bind_ok. apply result_bind_ok in H as (lo & Hlo & H).
  apply result_bind_ok in H as (slots & Hslots & H). injection H as <-.
  cbn. f_equal. apply IH; [unfold ltof; cbn; lia|done].
Qed.

Lemma length_hex_bytes l : length (hex_bytes l) = (2 * length l)%nat.
Proof. induction l as [|b l IH]; [done|]. unfold hex_bytes in *. cbn. cbn in IH. lia. Qed.

(** No hex digit is a newline, so a text of digits and at most one line end loses that only. *)
Lemma hex_bytes_last l x : last (hex_bytes l) = Some x -> x ≠ Byte.x0a /\ x ≠ Byte.x0d.
Proof.
  intros H%last_Some_elem_of. unfold hex_bytes in H.
  apply list_elem_of_bind in H as (b & Hx & _). revert Hx. unfold hex_pair.
  rewrite !elem_of_cons. intros [-> | [-> |[]%not_elem_of_nil]]; destruct b; vm_compute; split; discriminate.
Qed.

Lemma hex_nibble_lower d v : 0 <= v < 16 -> lower d = hex_digit v -> hex_nibble d = Ok v.
Proof.
  intros Hv Hd.
  assert (Hall : forallb (fun v => bool_decide (lower d = hex_digit v -> hex_nibble d = Ok v))
    (seqZ 0 16) = true) by (destruct d; vm_compute; reflexivity).
  rewrite forallb_forall in Hall.
  specialize (Hall v ltac:(apply list_elem_of_In, elem_of_seqZ; lia)).
  by apply (bool_decide_eq_true_1 _ Hall).
Qed.

(** Digits of either case parse to the bytes their lowercase form writes. *)
Lemma parse_pairs_lower raw l : lower <$> raw = hex_bytes l -> parse_pairs raw = Ok l.
Proof.
  revert raw. induction l as [|b l IH]; intros raw.
  - by intros ->%fmap_nil_inv.
  - unfold hex_bytes. cbn [mbind list_bind hex_pair app].
    destruct raw as [|a1 [|a2 raw]]; cbn; [discriminate..|]. intros [= H1 H2 Hr].
    pose proof (byte_val_range b) as Hb.
    rewrite (hex_nibble_lower a1 (byte_val b / 16)), (hex_nibble_lower a2 (byte_val b mod 16));
      [|Z.to_euclidean_division_equations; lia|done|Z.to_euclidean_division_equations; lia|done].
    cbn. rewrite (IH raw Hr). cbn. do 2 f_equal. destruct b; vm_compute; reflexivity.
Qed.

Lemma strip_suffix_some suffix l r :
  strip_suffix suffix l = Some r -> l = r ++ suffix.
Proof. unfold strip_suffix. case_decide as E; [|done]. intros [= <-].
  etrans; [symmetry; apply (take_drop (length l - length suffix))|]. by rewrite E.
Qed.

Lemma strip_suffix_app suffix l : strip_suffix suffix (l ++ suffix) = Some l.
Proof.
  unfold strip_suffix. rewrite length_app, Nat.add_sub.
  rewrite drop_app_length, take_app_length. by rewrite decide_True.
Qed.

Lemma strip_newline_cases text :
  text = strip_newline text \/ text = strip_newline text ++ [Byte.x0a] \/
  text = strip_newline text ++ [Byte.x0d; Byte.x0a].
Proof.
  unfold strip_newline. destruct (strip_suffix [Byte.x0d; Byte.x0a] text) as [l|] eqn:E1;
    [apply strip_suffix_some in E1; auto|].
  destruct (strip_suffix [Byte.x0a] text) as [l|] eqn:E2; [apply strip_suffix_some in E2|]; auto.
Qed.

(** [digits] ends in no line break. *)
Definition ends_plain (digits : bytes) : Prop :=
  forall x, last digits = Some x -> x ≠ Byte.x0a /\ x ≠ Byte.x0d.

Lemma strip_other suffix x digits :
  suffix ≠ [] -> last suffix = Some x -> (forall y, last digits = Some y -> y ≠ x) ->
  strip_suffix suffix digits = None.
Proof.
  intros Hne Hs Hd. unfold strip_suffix. case_decide as E; [|done]. exfalso.
  rewrite <-(take_drop (length digits - length suffix) digits), E in Hd.
  eapply Hd; [|done]. by rewrite last_app, Hs.
Qed.

Lemma strip_newline_plain digits : ends_plain digits -> strip_newline digits = digits.
Proof.
  intros H. unfold strip_newline.
  rewrite !(strip_other _ Byte.x0a) by (done || (intros y Hy; by apply H)). done.
Qed.

Lemma strip_newline_lf digits : ends_plain digits -> strip_newline (digits ++ [Byte.x0a]) = digits.
Proof.
  intros H. unfold strip_newline. rewrite strip_suffix_app.
  destruct (strip_suffix [Byte.x0d; Byte.x0a] _) as [l|] eqn:E; [|done]. exfalso.
  apply strip_suffix_some in E. change [Byte.x0d; Byte.x0a] with ([Byte.x0d] ++ [Byte.x0a]) in E.
  rewrite app_assoc in E. apply app_inj_tail in E as [E _].
  eapply (H Byte.x0d); [|done]. by rewrite E, last_snoc.
Qed.

Lemma strip_newline_crlf digits : strip_newline (digits ++ [Byte.x0d; Byte.x0a]) = digits.
Proof. unfold strip_newline. by rewrite strip_suffix_app. Qed.

Lemma hex_ends_plain digits l : lower <$> digits = hex_bytes l -> ends_plain digits.
Proof.
  intros H x Hx. pose proof (hex_bytes_last l (lower x)) as Hl.
  rewrite <-H, fmap_last, Hx in Hl. destruct (Hl eq_refl) as [Ha Hb].
  split; intros ->; [by apply Ha|by apply Hb].
Qed.

(** ** Properties *)

(** [parse_hex] accepts exactly 64 hex digits of either case with at most one line end
    after them, and gives the 32 bytes those digits write. *)
Lemma parse_hex_iff text l :
  parse_hex text = Ok (MkStoreKey l) <->
  length l = 32%nat /\ exists digits, lower <$> digits = hex_bytes l /\
    (text = digits \/ text = digits ++ [Byte.x0a] \/ text = digits ++ [Byte.x0d; Byte.x0a]).
Proof.
  unfold parse_hex. split.
  - destruct (Nat.eqb_spec (length (strip_newline text)) 64) as [Hlen|]; [|discriminate].
    simpl negb. cbv iota. destruct (parse_pairs (strip_newline text)) as [l'|e] eqn:E; [|discriminate].
    intros [= <-]. split; [by rewrite (parse_pairs_length _ _ E), Hlen|].
    exists (strip_newline text). split; [|apply strip_newline_cases].
    symmetry. apply parse_pairs_ok; [|done]. rewrite Hlen. by exists 32%nat.
  - intros (Hlen & digits & Hd & Ht). assert (strip_newline text = digits) as ->.
    { destruct Ht as [-> | [-> | ->]].
      - by eapply strip_newline_plain, hex_ends_plain.
      - by eapply strip_newline_lf, hex_ends_plain.
      - apply strip_newline_crlf. }
    rewrite <-(length_fmap lower digits), Hd, length_hex_bytes, Hlen. simpl negb. cbv iota.
    by rewrite (parse_pairs_lower digits l Hd).
Qed.

(** A key file gives a key exactly when no group or other bit of its mode is set and its text
    is 64 hex digits of either case with at most one line end after them, and then it is the key
    those digits write.  A file with a loose mode is refused with that mode, whatever it holds: its
    text is never read. *)
Theorem from_file_accepts_exactly path mode text l :
  (from_file path (Ok (MkKeyFile (Ok mode) text)) = Ok (MkStoreKey l) <->
   Z.land mode 0x3f = 0 /\ length l = 32%nat /\
   exists t digits, text = Ok t /\ lower <$> digits = hex_bytes l /\
     (t = digits \/ t = digits ++ [Byte.x0a] \/ t = digits ++ [Byte.x0d; Byte.x0a])) /\
  (Z.land mode 0x3f <> 0 ->
   from_file path (Ok (MkKeyFile (Ok mode) text)) = Err (LooseMode path (Z.land mode 0xfff))).
Proof.
  unfold from_file. cbn [map_err mbind result_bind file_mode file_text].
  destruct (Z.eqb_spec (Z.land mode 0x3f) 0) as [Hm|Hm]; simpl negb; cbv iota; (split; [|done]).
  - destruct text as [t|e]; cbn.
    + rewrite parse_hex_iff. split; [intros (Hl & digits & Hd & Ht); eauto 8|].
      intros (_ & Hl & t' & digits & [= <-] & Hd & Ht). eauto.
    + split; [by destruct e|]. by intros (_ & _ & t & digits & [=] & _).
  - split; [done|]. by intros [? _].
Qed.
