(* ===== verification/BlobCipher.v ===== *)
(** * Sealing and opening one blob (storage/blob_cipher.rs)

    A sealed blob is [version 1B][key id 4B][nonce 24B][ciphertext and 16B tag].  The AEAD
    (XChaCha20-Poly1305) and SHA-256 are the libraries' and parameters, with their documented
    laws in [CryptoLaws]; the random nonce a seal draws is an argument of the operation that seals,
    a function of the place; an operation that may seal one place twice takes one such function for
    each of its items. *)

From S2P Require Import Prelude StoreError StoreKey.

Definition BLOB_VERSION : byte := Byte.x01.
Definition HEADER_LEN : nat := 29. (* 1 + 4 + 24 *)
Definition TAG_LEN : nat := 16.

(** Where a blob lives. *)
Record BlobContext : Type := MkBlobContext {
  device_id : Z;
  table : string;
  column : string;
  row : bytes;
}.

(** [joined_row]. *)
Definition joined_row (parts : list bytes) : bytes := join0 parts.

(** [BlobCipher]: no key is a passthrough. *)
Record BlobCipher : Type := MkBlobCipher { cipher_key : option StoreKey }.

Definition passthrough : BlobCipher := MkBlobCipher None.
Definition sealing (key : StoreKey) : BlobCipher := MkBlobCipher (Some key).
Definition is_sealing (cipher : BlobCipher) : bool := bool_decide (is_Some (cipher_key cipher)).

(** The libraries: [Aead::encrypt]/[decrypt] of a key, a nonce, the associated data and the
    message, and [Sha256::digest]. *)
Class Crypto : Type := MkCrypto {
  encrypt : bytes -> bytes -> bytes -> bytes -> option bytes;
  decrypt : bytes -> bytes -> bytes -> bytes -> option bytes;
  sha256 : bytes -> bytes;
}.

(** What the code relies on: decryption accepts exactly what encryption made, the tag is 16
    bytes, a digest is 32 bytes. *)
Class CryptoLaws (crypto : Crypto) : Prop := {
  decrypt_encrypt key nonce aad msg ct :
    encrypt key nonce aad msg = Some ct <-> decrypt key nonce aad ct = Some msg;
  encrypt_length key nonce aad msg ct :
    encrypt key nonce aad msg = Some ct -> length ct = (length msg + TAG_LEN)%nat;
  sha256_length l : length (sha256 l) = 32%nat;
}.

(** The draw of [XNonce::try_generate] for each place an operation seals. *)
Abbreviation Draws := (BlobContext -> result string bytes).

(** [XNonce] is an array of 24 bytes. *)
Definition draws_ok (draws : Draws) : Prop :=
  forall c nonce, draws c = Ok nonce -> length nonce = 24%nat.

(** device (4B big-endian) | table | 0 | column | 0 | row. *)
Definition context_aad (c : BlobContext) : bytes :=
  be4 (device_id c) ++ str_bytes (table c) ++ [Byte.x00] ++ str_bytes (column c) ++ [Byte.x00] ++ row c.

Definition describe (c : BlobContext) : string :=
  table c +:+ "." +:+ column c +:+ " of device " +:+ pretty (device_id c).

#[global] Arguments context_aad : simpl never.
#[global] Arguments describe : simpl never.

Section cipher.
Context `{crypto : Crypto}.

Definition id (key : StoreKey) : bytes := key_id sha256 key.

(** [aead_for]: the library takes a 32-byte key. *)
Definition aead_for (key : StoreKey) : StoreResult bytes :=
  if (length (key_bytes key) =? 32)%nat then Ok (key_bytes key)
  else Err (InvalidConfig "store key has the wrong length").

Definition seal (cipher : BlobCipher) (draws : Draws) (c : BlobContext) (plaintext : bytes) :
    StoreResult bytes :=
  match cipher_key cipher with
  | None => Ok plaintext
  | Some key =>
      if bool_decide (plaintext = []) then Ok []
      else
        nonce ← map_err (fun e => Validation ("no randomness for a nonce: " +:+ e)) (draws c);
        aead ← aead_for key;
        sealed ← ok_or (encrypt aead nonce (context_aad c) plaintext)
                   (Validation ("cannot seal " +:+ describe c));
        Ok ([BLOB_VERSION] ++ id key ++ nonce ++ sealed)
  end.

Definition split_blob (key : StoreKey) (c : BlobContext) (stored : bytes) :
    StoreResult (bytes * bytes) :=
  if (length stored <? HEADER_LEN + TAG_LEN)%nat then
    Err (Validation (describe c +:+ " is " +:+ pretty (length stored)
      +:+ " bytes, shorter than a sealed blob (" +:+ pretty (HEADER_LEN + TAG_LEN)%nat
      +:+ " at least)"))
  else if negb (bool_decide (take 1 stored = [BLOB_VERSION])) then
    Err (Validation (describe c +:+ " has sealed-blob version "
      +:+ pretty (byte_val (nth 0 stored Byte.x00)) +:+ ", this build reads version 1"))
  else if negb (bool_decide (take 4 (drop 1 stored) = id key)) then
    Err (Validation (describe c +:+ " was sealed with key id "
      +:+ key_id_hex (take 4 (drop 1 stored)) +:+ ", the configured key is "
      +:+ key_id_hex (id key)))
  else
    let nonce := take 24 (drop 5 stored) in
    if (length nonce =? 24)%nat then Ok (nonce, drop HEADER_LEN stored)
    else Err (Validation "sealed blob nonce has the wrong size").

(** [BlobCipher::open]. *)
Definition open_blob (cipher : BlobCipher) (c : BlobContext) (stored : bytes) :
    StoreResult bytes :=
  match cipher_key cipher with
  | None => Ok stored
  | Some key =>
      if bool_decide (stored = []) then Ok []
      else
        '(nonce, sealed) ← split_blob key c stored;
        aead ← aead_for key;
        ok_or (decrypt aead nonce (context_aad c) sealed)
          (Validation (describe c
             +:+ " did not authenticate: moved to another row or account, or corrupted"))
  end.

Definition seal_at cipher draws (d : Z) (t col : string) (r : bytes) (plaintext : bytes) :
    StoreResult bytes :=
  seal cipher draws (MkBlobContext d t col r) plaintext.

Definition open_at cipher (d : Z) (t col : string) (r : bytes) (stored : bytes) :
    StoreResult bytes :=
  open_blob cipher (MkBlobContext d t col r) stored.
End cipher.

#[global] Arguments seal : simpl never.
#[global] Arguments open_blob : simpl never.
#[global] Arguments seal_at : simpl never.
#[global] Arguments open_at : simpl never.

(** ** The header *)

Section laws.
Context `{crypto : Crypto} `{!CryptoLaws crypto}.

Lemma length_id key : length (id key) = 4%nat.
Proof using All. unfold id, key_id. rewrite length_take, sha256_length. done. Qed.

(** A well-formed blob splits into the nonce and the ciphertext it was made of. *)
Lemma split_blob_made key c nonce sealed :
  length nonce = 24%nat -> (TAG_LEN <= length sealed)%nat ->
  split_blob key c ([BLOB_VERSION] ++ id key ++ nonce ++ sealed) = Ok (nonce, sealed).
Proof using All.
  intros Hn Hs. pose proof (length_id key) as Hid. unfold split_blob.
  set (stored := [BLOB_VERSION] ++ id key ++ nonce ++ sealed).
  assert (Hlen : length stored = (29 + length sealed)%nat)
    by (unfold stored; rewrite !length_app, Hid, Hn; simpl; lia).
  destruct (Nat.ltb_spec (length stored) (HEADER_LEN + TAG_LEN)) as [Hlt|_];
    [unfold HEADER_LEN in Hlt; lia|].
  rewrite bool_decide_true by done. cbn [negb].
  assert (Hd1 : drop 1 stored = id key ++ nonce ++ sealed) by done.
  rewrite Hd1, take_app_length' by lia.
  rewrite bool_decide_true by done. cbn [negb]; cbv zeta.
  assert (Hd5 : drop 5 stored = nonce ++ sealed).
  { change 5%nat with (1 + 4)%nat. rewrite <-drop_drop, Hd1. rewrite drop_app_length'; [done|lia]. }
  assert (Hd29 : drop HEADER_LEN stored = sealed).
  { change HEADER_LEN with (5 + 24)%nat. rewrite <-drop_drop, Hd5. rewrite drop_app_length'; [done|lia]. }
  rewrite Hd5, Hd29, take_app_length' by lia. by rewrite Hn.
Qed.

(** Only such a blob splits. *)
Lemma split_blob_ok key c stored nonce sealed :
  split_blob key c stored = Ok (nonce, sealed) ->
  stored = [BLOB_VERSION] ++ id key ++ nonce ++ sealed /\ length nonce = 24%nat /\
  (TAG_LEN <= length sealed)%nat.
Proof using Type.
  unfold split_blob.
  destruct (Nat.ltb_spec (length stored) (HEADER_LEN + TAG_LEN)) as [|Hlen]; [discriminate|].
  case_bool_decide as Hv; [|discriminate]. cbn [negb].
  case_bool_decide as Hk; [|discriminate]. cbn [negb]; cbv zeta.
  destruct (Nat.eqb_spec (length (take 24 (drop 5 stored))) 24) as [Hn|]; [|discriminate].
  intros [= <- <-]. split_and!; [|done|rewrite length_drop; unfold HEADER_LEN in *; lia].
  rewrite <-Hv, <-Hk. change HEADER_LEN with (5 + 24)%nat.
  rewrite <-(drop_drop stored 24 5), take_drop.
  change 5%nat with (1 + 4)%nat. rewrite <-(drop_drop stored 4 1), take_drop. by rewrite take_drop.
Qed.

(** A blob sealed with a key is its header and ciphertext. *)
Lemma seal_sealing_ok key draws c plaintext blob :
  plaintext ≠ [] -> seal (sealing key) draws c plaintext = Ok blob ->
  exists nonce sealed, draws c = Ok nonce /\ length (key_bytes key) = 32%nat /\
    encrypt (key_bytes key) nonce (context_aad c) plaintext = Some sealed /\
    blob = [BLOB_VERSION] ++ id key ++ nonce ++ sealed.
Proof using Type.
  intros Hne. unfold seal. cbn [cipher_key sealing]. rewrite bool_decide_false by done.
  destruct (draws c) as [nonce|]; [|discriminate]. cbn. unfold aead_for.
  destruct (Nat.eqb_spec (length (key_bytes key)) 32); [|discriminate]. cbn.
  destruct (encrypt _ _ _ _) as [sealed|] eqn:E; [|discriminate]. cbn.
  intros [= <-]. eauto 10.
Qed.

Lemma open_sealing_ok key c stored plaintext :
  stored ≠ [] ->
  open_blob (sealing key) c stored = Ok plaintext <->
  exists nonce sealed, stored = [BLOB_VERSION] ++ id key ++ nonce ++ sealed /\
    length nonce = 24%nat /\ (TAG_LEN <= length sealed)%nat /\ length (key_bytes key) = 32%nat /\
    decrypt (key_bytes key) nonce (context_aad c) sealed = Some plaintext.
Proof using All.
  intros Hne. unfold open_blob. cbn [cipher_key sealing]. rewrite bool_decide_false by done. split.
  - intros ([nonce sealed] & (-> & Hn & Hs)%split_blob_ok & H)%result_bind_ok. revert H.
    unfold aead_for. destruct (Nat.eqb_spec (length (key_bytes key)) 32); [|discriminate]. cbn.
    destruct (decrypt _ _ _ _) eqn:E; [|discriminate]. intros [= <-]. eauto 10.
  - intros (nonce & sealed & -> & Hn & Hs & Hk & Hd).
    rewrite split_blob_made by done. cbn. unfold aead_for. rewrite Hk. cbn. by rewrite Hd.
Qed.

Lemma open_seal cipher draws c plaintext blob :
  draws_ok draws -> seal cipher draws c plaintext = Ok blob -> open_blob cipher c blob = Ok plaintext.
Proof using All.
  intros Hdraws. destruct cipher as [[key|]]; [|by intros [= <-]].
  change (MkBlobCipher (Some key)) with (sealing key).
  destruct (decide (plaintext = [])) as [->|Hne]; [by intros [= <-]|].
  intros (nonce & sealed & Hn & Hk & He & ->)%seal_sealing_ok; [|done].
  apply open_sealing_ok; [done|]. exists nonce, sealed. split_and!; [done|by eapply Hdraws| |done|].
  - rewrite (encrypt_length _ _ _ _ _ He). lia.
  - by apply decrypt_encrypt.
Qed.

(** Whether a blob opens, in terms of [seal]: it is what sealing its plaintext with some nonce
    makes, or both are empty. *)
Lemma open_is_sealed key c stored plaintext :
  plaintext ≠ [] -> open_blob (sealing key) c stored = Ok plaintext ->
  exists nonce, length nonce = 24%nat /\ seal (sealing key) (fun _ => Ok nonce) c plaintext = Ok stored.
Proof using All.
  intros Hne Ho. destruct (decide (stored = [])) as [->|Hs]; [by injection Ho as <-|].
  apply open_sealing_ok in Ho as (nonce & sealed & -> & Hn & _ & Hk & Hd); [|done].
  exists nonce. split; [done|]. unfold seal. cbn [cipher_key sealing].
  rewrite bool_decide_false by done. cbn. unfold aead_for. rewrite Hk. cbn.
  apply decrypt_encrypt in Hd. by rewrite Hd.
Qed.
End laws.

(** A library that seals whatever it is given, and a random source that answers. *)
Definition seals_always `{Crypto} (draws : Draws) (key : StoreKey) : Prop :=
  length (key_bytes key) = 32%nat /\ (forall c, exists nonce, draws c = Ok nonce) /\
  forall k n a m, is_Some (encrypt k n a m).

(** A cipher that can seal: a passthrough, or one with such a key. *)
Definition can_seal `{Crypto} (cipher : BlobCipher) (draws : Draws) : Prop :=
  match cipher_key cipher with
  | None => True
  | Some key => seals_always draws key
  end.

Lemma seal_total `{Crypto} draws key c plaintext :
  seals_always draws key -> exists blob, seal (sealing key) draws c plaintext = Ok blob.
Proof.
  intros (Hk & Hd & He). unfold seal. cbn [cipher_key sealing].
  case_bool_decide; [by eexists|]. destruct (Hd c) as [nonce ->]. cbn. unfold aead_for. rewrite Hk. cbn.
  destruct (He (key_bytes key) nonce (context_aad c) plaintext) as [ct ->]. by eexists.
Qed.

Lemma can_seal_total `{Crypto} cipher draws c plaintext :
  can_seal cipher draws -> exists blob, seal cipher draws c plaintext = Ok blob.
Proof. destruct cipher as [[key|]]; [apply seal_total|by eexists]. Qed.

(** ** The associated data *)

Lemma context_aad_inj c1 c2 :
  in_i32 (device_id c1) -> in_i32 (device_id c2) ->
  nul_free (str_bytes (table c1)) -> nul_free (str_bytes (column c1)) ->
  nul_free (str_bytes (table c2)) -> nul_free (str_bytes (column c2)) ->
  context_aad c1 = context_aad c2 -> c1 = c2.
Proof.
  destruct c1 as [d1 t1 k1 r1], c2 as [d2 t2 k2 r2]. unfold context_aad. cbn [device_id table column row].
  intros Hd1 Hd2 Ht1 Hk1 Ht2 Hk2 H. apply app_inj_1 in H as [Hd H]; [|done].
  apply be4_inj in Hd. assert (d1 = d2) as ->.
  { rewrite <-(as_i32_small d1), <-(as_i32_small d2) by done.
    by rewrite <-(as_i32_u32 d1), Hd, as_i32_u32. }
  apply split_at_nul in H as [Ht H]; [|done..]. apply split_at_nul in H as [Hk ->]; [|done..].
  apply str_bytes_inj in Ht as ->. by apply str_bytes_inj in Hk as ->.
Qed.

(** ** Properties *)

(** Sealing and opening are inverse.  What [seal] makes, [open] gives back: with the same cipher
    and for the same place, an empty value included, whatever nonce was drawn.  And a sealing
    cipher opens nothing else: a stored blob that opens to a non-empty plaintext is the version
    byte, the id of this very key, a nonce, and what sealing that plaintext for this place under
    that nonce makes; and an empty stored value opens to the empty one. *)
Theorem open_inverts_seal `{crypto : Crypto} `{!CryptoLaws crypto} :
  (forall cipher draws c plaintext blob, draws_ok draws ->
     seal cipher draws c plaintext = Ok blob -> open_blob cipher c blob = Ok plaintext) /\
  (forall key c stored plaintext, open_blob (sealing key) c stored = Ok plaintext ->
     (stored = [] /\ plaintext = []) \/
     exists nonce sealed, length nonce = 24%nat /\
       stored = [BLOB_VERSION] ++ id key ++ nonce ++ sealed /\
       length sealed = (length plaintext + TAG_LEN)%nat /\
       (plaintext ≠ [] -> seal (sealing key) (fun _ => Ok nonce) c plaintext = Ok stored)).
Proof.
  split; [intros; by eapply open_seal|]. intros key c stored plaintext Ho.
  destruct (decide (stored = [])) as [->|Hs]; [left; by injection Ho as <-|right].
  pose proof Ho as (nonce & sealed & -> & Hn & _ & Hk & Hd)%open_sealing_ok; [|done].
  apply decrypt_encrypt in Hd. exists nonce, sealed.
  split_and!; [done|done|by eapply encrypt_length|].
  intros Hne. unfold seal. cbn [cipher_key sealing]. rewrite bool_decide_false by done. cbn.
  unfold aead_for. rewrite Hk. cbn. by rewrite Hd.
Qed.

(** ** A concrete library, for the witnesses

    The tag is a checksum of the key, the nonce, the associated data and the message. *)

Definition checksum (l : bytes) : Z := foldl (fun acc b => as_u32 (acc * 31 + byte_val b + 1)) 7 l.

Definition toy_tag (key nonce aad msg : bytes) : bytes :=
  let t := be4 (checksum (key ++ nonce ++ aad ++ msg)) in t ++ t ++ t ++ t.

#[global] Instance toy_crypto : Crypto := MkCrypto
  (fun key nonce aad msg => Some (msg ++ toy_tag key nonce aad msg))
  (fun key nonce aad ct =>
     let n := (length ct - 16)%nat in
     if decide (drop n ct = toy_tag key nonce aad (take n ct)) then Some (take n ct) else None)
  (fun l => be4 (checksum l) ++ repeat Byte.x00 28).

#[global] Instance toy_laws : CryptoLaws toy_crypto.
Proof.
  constructor.
  - intros key nonce aad msg ct. cbn [encrypt decrypt toy_crypto]. cbv zeta. split.
    + intros [= <-]. rewrite length_app. change (length (toy_tag _ _ _ _)) with 16%nat.
      rewrite Nat.add_sub, take_app_length, drop_app_length. by rewrite decide_True.
    + case_decide as E; [|done]. intros [= <-]. rewrite <-E. by rewrite take_drop.
  - intros key nonce aad msg ct [= <-]. by rewrite length_app.
  - done.
Qed.

Definition toy_key : StoreKey := MkStoreKey (repeat Byte.xab 32).
Definition other_key : StoreKey := MkStoreKey (repeat Byte.xcd 32).
Definition toy_draws : Draws := fun _ => Ok (repeat Byte.x05 24).
Definition toy_place : BlobContext := MkBlobContext 4 "identities" "key" (str_bytes "alice").
Definition toy_blob : bytes :=
  default [] (result_ok (seal (sealing toy_key) toy_draws toy_place (str_bytes "secret"))).

Lemma toy_draws_ok : draws_ok toy_draws.
Proof. by intros c n [= <-]. Qed.

Lemma open_inverts_seal_witness :
  open_blob (sealing toy_key) toy_place toy_blob = Ok (str_bytes "secret") /\
  ((toy_blob = [] /\ str_bytes "secret" = []) \/
   exists nonce sealed, length nonce = 24%nat /\
    toy_blob = [BLOB_VERSION] ++ id toy_key ++ nonce ++ sealed /\
    length sealed = (length (str_bytes "secret") + TAG_LEN)%nat /\
    (str_bytes "secret" ≠ [] ->
     seal (sealing toy_key) (fun _ => Ok nonce) toy_place (str_bytes "secret") = Ok toy_blob)).
Proof.
  destruct (open_inverts_seal (crypto := toy_crypto)) as [Hopen Honly]. split.
  - apply (Hopen _ toy_draws); [apply toy_draws_ok|vm_compute; reflexivity].
  - apply Honly. vm_compute; reflexivity.
Defined.
