(* ===== verification/SealedColumns.v ===== *)
(** * The sealed columns and their rows (storage/sealed_columns.rs)

    The 13 columns that hold sealed blobs, and the row key each row is bound to. *)

From S2P Require Import Prelude StoreError StoreKey BlobCipher.

(** How one key column of a row contributes to the row key. *)
Inductive KeyColumn : Type :=
| KText (name : string)
| KId (name : string)
| KBytes (name : string).

(** One value read from a key column. *)
Inductive RowPart : Type :=
| PText (text : string)
| PInt (id : Z)
| PBytes (l : bytes).

Record SealedColumn : Type := MkSealedColumn {
  sc_table : string;
  sc_column : string;
  sc_key : list KeyColumn;
}.

#[global] Instance KeyColumn_eq_dec : EqDecision KeyColumn.
Proof. solve_decision. Defined.
#[global] Instance RowPart_eq_dec : EqDecision RowPart.
Proof. solve_decision. Defined.
#[global] Instance SealedColumn_eq_dec : EqDecision SealedColumn.
Proof. solve_decision. Defined.

(** [sealed_columns]. *)
Definition SEALED_COLUMNS : list SealedColumn := [
  MkSealedColumn "device" "data" [];
  MkSealedColumn "identities" "key" [KText "address"];
  MkSealedColumn "sessions" "record" [KText "address"];
  MkSealedColumn "prekeys" "key" [KId "id"];
  MkSealedColumn "signed_prekeys" "record" [KId "id"];
  MkSealedColumn "sender_keys" "record" [KText "address"];
  MkSealedColumn "app_state_keys" "key_data" [KBytes "key_id"];
  MkSealedColumn "app_state_versions" "state_data" [KText "name"];
  MkSealedColumn "app_state_mutation_macs" "value_mac" [KText "name"; KBytes "index_mac"];
  MkSealedColumn "base_keys" "base_key" [KText "address"; KText "message_id"];
  MkSealedColumn "tc_tokens" "token" [KText "jid"];
  MkSealedColumn "msg_secrets" "secret" [KText "chat"; KText "sender"; KText "msg_id"];
  MkSealedColumn "sent_messages" "payload" [KText "chat_jid"; KText "message_id"]
].

Definition part_bytes (part : RowPart) : bytes :=
  match part with
  | PText text => str_bytes text
  | PInt id => be4 (as_u32 id)
  | PBytes l => l
  end.

Definition row_key (parts : list RowPart) : bytes := join0 (part_bytes <$> parts).

(** Where the blob of [column] lives, for the row that [parts] name. *)
Definition place (device : Z) (column : SealedColumn) (parts : list RowPart) : BlobContext :=
  MkBlobContext device (sc_table column) (sc_column column) (row_key parts).

(** A value of the type of its column; a text without a zero byte, an id in the [u32] range the
    schema keeps. *)
Definition part_fits (k : KeyColumn) (p : RowPart) : Prop :=
  match k, p with
  | KText _, PText t => nul_free (str_bytes t)
  | KId _, PInt i => in_u32 i
  | KBytes _, PBytes _ => True
  | _, _ => False
  end.

Definition parts_fit (column : SealedColumn) (parts : list RowPart) : Prop :=
  Forall2 part_fits (sc_key column) parts.

(** A column whose row key can be read back: only its last part may hold a zero byte. *)
Definition key_text_but_last (column : SealedColumn) : Prop :=
  Forall (fun k => match k with KText _ => True | _ => False end) (removelast (sc_key column)).

Lemma part_bytes_inj k p q :
  part_fits k p -> part_fits k q -> part_bytes p = part_bytes q -> p = q.
Proof.
  destruct k, p as [t|i|l], q as [t'|i'|l']; cbn; try done.
  - by intros _ _ ->%str_bytes_inj.
  - intros Hi Hi' H%be4_inj. rewrite !as_u32_small in H by auto using as_u32_range. by subst.
  - by intros _ _ ->.
Qed.

Lemma parts_bytes_inj ks ps qs :
  Forall2 part_fits ks ps -> Forall2 part_fits ks qs ->
  part_bytes <$> ps = part_bytes <$> qs -> ps = qs.
Proof.
  intros Hp. revert qs. induction Hp as [|k p ks ps Hkp _ IH]; intros qs Hq H.
  - by inversion Hq.
  - inversion Hq as [|? q ? qs' Hkq Hq']; subst. cbn in H. injection H as H1 H2.
    f_equal; [by eapply part_bytes_inj|by apply IH].
Qed.

Lemma leading_parts_nul_free ks ps :
  Forall (fun k => match k with KText _ => True | _ => False end) (removelast ks) ->
  Forall2 part_fits ks ps -> Forall nul_free (removelast (part_bytes <$> ps)).
Proof.
  intros Hk Hp. revert Hk. induction Hp as [|k p ks ps Hkp Hp IH]; [by constructor|].
  destruct Hp as [|k' p' ks ps Hkp' Hp]; [constructor|].
  intros [Hk Hks]%Forall_cons. cbn [fmap list_fmap removelast]. constructor.
  - by destruct k, p.
  - by apply IH.
Qed.

Lemma row_key_inj column ps qs :
  key_text_but_last column -> parts_fit column ps -> parts_fit column qs ->
  row_key ps = row_key qs -> ps = qs.
Proof.
  intros Hc Hp Hq H. eapply parts_bytes_inj; [done..|].
  apply join0_inj; [|by eapply leading_parts_nul_free..|done].
  rewrite !length_fmap. by rewrite <-(Forall2_length _ _ _ Hp), <-(Forall2_length _ _ _ Hq).
Qed.

(** What holds of each of the 13 columns. *)
Definition column_ok (column : SealedColumn) : Prop :=
  key_text_but_last column /\ nul_free (str_bytes (sc_table column)) /\
  nul_free (str_bytes (sc_column column)).

Lemma sealed_columns_ok column : column ∈ SEALED_COLUMNS -> column_ok column.
Proof.
  revert column. apply Forall_forall. repeat constructor; apply (bool_decide_eq_true_1 _); reflexivity.
Qed.

(** The table names the column: no two of the 13 are in one table. *)
Lemma sealed_columns_by_table a b :
  a ∈ SEALED_COLUMNS -> b ∈ SEALED_COLUMNS -> sc_table a = sc_table b -> a = b.
Proof.
  assert (Hall : Forall (fun a => Forall (fun b => sc_table a = sc_table b -> a = b) SEALED_COLUMNS)
    SEALED_COLUMNS) by (apply (bool_decide_eq_true_1 _); vm_compute; reflexivity).
  intros Ha Hb. rewrite Forall_forall in Hall. specialize (Hall a Ha).
  rewrite Forall_forall in Hall. by apply Hall.
Qed.

Lemma place_aad_inj d1 d2 a b ps qs :
  in_i32 d1 -> in_i32 d2 -> a ∈ SEALED_COLUMNS -> b ∈ SEALED_COLUMNS ->
  parts_fit a ps -> parts_fit b qs ->
  context_aad (place d1 a ps) = context_aad (place d2 b qs) -> d1 = d2 /\ a = b /\ ps = qs.
Proof.
  intros Hd1 Hd2 Ha Hb Hps Hqs H.
  destruct (sealed_columns_ok a Ha) as (? & ? & ?), (sealed_columns_ok b Hb) as (? & ? & ?).
  apply context_aad_inj in H; [|done..]. injection H as -> Ht _ Hr.
  apply sealed_columns_by_table in Ht as ->; [|done..].
  split_and!; [done..|]. by apply (row_key_inj b).
Qed.

(** ** Properties *)

(** C7.  A blob sealed for one row opens for no other row: two places that differ in the
    account, the column or any key column have different associated data, so a blob moved to
    another row or account is refused, as long as its ciphertext authenticates under its own
    associated data only. *)
Theorem moved_blob_refused `{crypto : Crypto} `{!CryptoLaws crypto} key draws d1 a ps d2 b qs
    plaintext blob :
  in_i32 d1 -> in_i32 d2 -> a ∈ SEALED_COLUMNS -> b ∈ SEALED_COLUMNS ->
  parts_fit a ps -> parts_fit b qs -> (d1, a, ps) ≠ (d2, b, qs) ->
  plaintext ≠ [] -> draws_ok draws ->
  seal (sealing key) draws (place d1 a ps) plaintext = Ok blob ->
  (forall nonce sealed aad, blob = [BLOB_VERSION] ++ id key ++ nonce ++ sealed ->
     length nonce = 24%nat -> aad ≠ context_aad (place d1 a ps) ->
     aad = context_aad (place d2 b qs) -> decrypt (key_bytes key) nonce aad sealed = None) ->
  open_blob (sealing key) (place d2 b qs) blob = Err (Validation (describe (place d2 b qs)
    +:+ " did not authenticate: moved to another row or account, or corrupted")).
Proof.
  intros Hd1 Hd2 Ha Hb Hps Hqs Hne Hpl Hdraws Hs Hauth.
  apply seal_sealing_ok in Hs as (nonce & sealed & Hn & Hk & He & ->); [|done].
  apply Hdraws in Hn.
  assert (Haad : context_aad (place d2 b qs) ≠ context_aad (place d1 a ps)).
  { intros H. by destruct (place_aad_inj d2 d1 b a qs ps) as (-> & -> & ->). }
  unfold open_blob. cbn [cipher_key sealing]. rewrite bool_decide_false by done.
  rewrite split_blob_made; [|done|rewrite (encrypt_length _ _ _ _ _ He); lia].
  cbn. unfold aead_for. rewrite Hk. cbn. by rewrite (Hauth nonce sealed _ eq_refl Hn Haad eq_refl).
Qed.

(** The row key names the row: within a column, rows whose key columns differ have
    different row keys, for texts without a zero byte and ids in the [u32] range; and the 13
    columns are in 13 tables, so the associated data names the cell. *)
Theorem sealed_place_injective d1 d2 a b ps qs :
  in_i32 d1 -> in_i32 d2 -> a ∈ SEALED_COLUMNS -> b ∈ SEALED_COLUMNS ->
  parts_fit a ps -> parts_fit b qs ->
  context_aad (place d1 a ps) = context_aad (place d2 b qs) -> d1 = d2 /\ a = b /\ ps = qs.
Proof. apply place_aad_inj. Qed.

Definition identities : SealedColumn := MkSealedColumn "identities" "key" [KText "address"].
Definition sent_messages : SealedColumn :=
  MkSealedColumn "sent_messages" "payload" [KText "chat_jid"; KText "message_id"].

Lemma identities_sealed : identities ∈ SEALED_COLUMNS.
Proof. apply (bool_decide_eq_true_1 _). vm_compute. reflexivity. Qed.

Lemma sent_messages_sealed : sent_messages ∈ SEALED_COLUMNS.
Proof. apply (bool_decide_eq_true_1 _). vm_compute. reflexivity. Qed.

Lemma alice_fits name : nul_free (str_bytes name) -> parts_fit identities [PText name].
Proof. intros H. by repeat constructor. Qed.

Lemma str_nul_free (s : string) :
  bool_decide (nul_free (str_bytes s)) = true -> nul_free (str_bytes s).
Proof. apply bool_decide_eq_true_1. Qed.

(** The same account's blob, moved from [alice] to [bob]. *)
Lemma moved_blob_refused_witness :
  exists blob, seal (sealing toy_key) toy_draws (place 4 identities [PText "alice"])
      (str_bytes "secret") = Ok blob /\
    open_blob (sealing toy_key) (place 4 identities [PText "bob"]) blob =
      Err (Validation (describe (place 4 identities [PText "bob"])
        +:+ " did not authenticate: moved to another row or account, or corrupted")).
Proof.
  eexists. split; [vm_compute; reflexivity|].
  eapply (moved_blob_refused toy_key toy_draws 4 identities [PText "alice"] 4 identities [PText "bob"]
    (str_bytes "secret"));
    [unfold in_i32; lia..|apply identities_sealed|apply identities_sealed
    |apply alice_fits, str_nul_free; reflexivity|apply alice_fits, str_nul_free; reflexivity
    |discriminate|discriminate|apply toy_draws_ok|vm_compute; reflexivity|].
  intros nonce sealed aad Hblob Hn _ ->.
  assert (H : (nonce, sealed) = (repeat Byte.x05 24,
    str_bytes "secret" ++ toy_tag (key_bytes toy_key) (repeat Byte.x05 24)
      (context_aad (place 4 identities [PText "alice"])) (str_bytes "secret"))).
  { change (id toy_key) with (take 4 (sha256 (key_bytes toy_key))) in Hblob.
    apply (f_equal (drop 5)) in Hblob. vm_compute in Hblob.
    do 24 (destruct nonce as [|? nonce]; [discriminate Hn|]).
    destruct nonce; [|discriminate Hn]. inversion Hblob. vm_compute. reflexivity. }
  injection H as -> ->. vm_compute. reflexivity.
Defined.

Lemma sealed_place_injective_witness :
  context_aad (place 4 sent_messages [PText "a"; PText "bc"]) =
    context_aad (place 4 sent_messages [PText "a"; PText "bc"]) /\
  4 = 4 /\ sent_messages = sent_messages /\ [PText "a"; PText "bc"] = [PText "a"; PText "bc"].
Proof.
  split; [reflexivity|].
  apply sealed_place_injective; [unfold in_i32; lia..|apply sent_messages_sealed|apply sent_messages_sealed
    |repeat constructor; apply str_nul_free; reflexivity
    |repeat constructor; apply str_nul_free; reflexivity|reflexivity].
Defined.
