(* ===== verification/StoreEncryption.v ===== *)
(** * What a store opens with (storage/store_encryption.rs)

    From the [store_encryption] row, whether the store has accounts and conversion progress, and
    the configured key: the cipher the backends use, the mark to write, and whether a conversion
    has to run first. *)

From S2P Require Import Prelude StoreError StoreKey BlobCipher.

Definition VERIFIER_PLAINTEXT : bytes := str_bytes "wamux store encryption verifier v1".
Definition VERIFIER_CONTEXT : BlobContext := MkBlobContext 0 "store_encryption" "verifier" [].

#[global] Arguments VERIFIER_PLAINTEXT : simpl never.
#[global] Arguments VERIFIER_CONTEXT : simpl never.

(** The [store_encryption] row as stored. *)
Record StoredEncryption : Type := MkStoredEncryption {
  encrypted : bool;
  stored_key_id : option bytes;
  verifier : option bytes;
}.

Record NewMark : Type := MkNewMark {
  mark_key_id : bytes;
  mark_verifier : bytes;
}.

Record Resolution : Type := MkResolution {
  cipher : BlobCipher;
  mark : option NewMark;
  convert : bool;
}.

Record Rotation : Type := MkRotation {
  rotate_from : BlobCipher;
  rotate_to : BlobCipher;
  rotate_mark : NewMark;
}.

(** [StoredEncryption::from_row]. *)
Definition from_row (state : string) (key_id verifier : option bytes) :
    StoreResult StoredEncryption :=
  if decide (state = "plaintext") then Ok (MkStoredEncryption false key_id verifier)
  else if decide (state = "encrypted") then Ok (MkStoredEncryption true key_id verifier)
  else Err (InvalidConfig ("store_encryption.state is '" +:+ state
                           +:+ "', expected 'plaintext' or 'encrypted'")).

Definition ENCRYPTED_KEYLESS : string :=
  "this store is encrypted: set store_key_file (WAMUX_STORE_KEY_FILE) to the key file it was created with".

Definition DECRYPT_INTERRUPTED : string :=
  "this store was being decrypted and the run was interrupted, so it is half plaintext: finish it with `wamux store decrypt --yes` (with the same store_key_file) before starting the daemon".

Definition CONVERSION_INTERRUPTED : string :=
  "this store was being converted to encrypted and the run was interrupted, so it is half sealed: set store_key_file (WAMUX_STORE_KEY_FILE) to the key the conversion started with to finish it".

Definition NOT_ENCRYPTED_DECRYPT : string :=
  "this store is not encrypted, there is nothing to decrypt (if a conversion to encrypted was interrupted, finish it by starting the daemon with its store_key_file)".

Definition NOT_ENCRYPTED_ROTATE : string :=
  "this store is not encrypted, there is nothing to rotate (if a conversion to encrypted was interrupted, finish it by starting the daemon with its store_key_file)".

Section resolution.
Context `{crypto : Crypto} (draws : Draws).

Definition decrypt_interrupted : StoreError := InvalidConfig DECRYPT_INTERRUPTED.

Definition mismatch (stored : StoredEncryption) (key : StoreKey) : StoreError :=
  InvalidConfig ("the store key (id " +:+ key_id_hex (id key)
    +:+ ") does not match the key this store was encrypted with (id "
    +:+ from_option key_id_hex "unknown" (stored_key_id stored) +:+ ")").

Definition verify_key (stored : StoredEncryption) (key : StoreKey) : StoreResult Resolution :=
  let cipher := sealing key in
  let opened := open_blob cipher VERIFIER_CONTEXT <$> verifier stored in
  match opened with
  | Some (Ok plain) =>
      if decide (plain = VERIFIER_PLAINTEXT) then Ok (MkResolution cipher None false)
      else Err (mismatch stored key)
  | _ => Err (mismatch stored key)
  end.

(** [passthrough] of this file: no key, nothing to write. *)
Definition passthrough_store : Resolution := MkResolution passthrough None false.

Definition new_encrypted_store (key : StoreKey) : StoreResult Resolution :=
  let cipher := sealing key in
  verifier ← seal cipher draws VERIFIER_CONTEXT VERIFIER_PLAINTEXT;
  Ok (MkResolution cipher (Some (MkNewMark (id key) verifier)) false).

Definition begin_conversion (key : StoreKey) : StoreResult Resolution :=
  resolution ← new_encrypted_store key;
  Ok (MkResolution (cipher resolution) (mark resolution) true).

Definition resume_conversion (stored : StoredEncryption) (key : option StoreKey) :
    StoreResult Resolution :=
  match key with
  | None => Err (InvalidConfig CONVERSION_INTERRUPTED)
  | Some key =>
      resolution ← verify_key stored key;
      Ok (MkResolution (cipher resolution) (mark resolution) true)
  end.

Definition resolve (stored : StoredEncryption) (has_accounts has_progress : bool)
    (key : option StoreKey) : StoreResult Resolution :=
  match encrypted stored, key with
  | true, None =>
      if has_progress then Err decrypt_interrupted else Err (InvalidConfig ENCRYPTED_KEYLESS)
  | true, Some key =>
      if has_progress then Err decrypt_interrupted else verify_key stored key
  | false, key =>
      if bool_decide (is_Some (verifier stored)) then resume_conversion stored key
      else
        match key with
        | None => Ok passthrough_store
        | Some key => if has_accounts then begin_conversion key else new_encrypted_store key
        end
  end.

Definition cipher_for_decrypt (stored : StoredEncryption) (key : StoreKey) :
    StoreResult BlobCipher :=
  if negb (encrypted stored) then Err (InvalidConfig NOT_ENCRYPTED_DECRYPT)
  else cipher <$> verify_key stored key.

Definition plan_rotation (stored : StoredEncryption) (has_progress : bool) (old new : StoreKey) :
    StoreResult Rotation :=
  if negb (encrypted stored) then Err (InvalidConfig NOT_ENCRYPTED_ROTATE)
  else if has_progress then Err decrypt_interrupted
  else
    from ← cipher <$> verify_key stored old;
    if decide (id old = id new) then
      Err (InvalidConfig ("the new store key (id " +:+ key_id_hex (id new)
        +:+ ") is already the key this store is encrypted with"))
    else
      fresh ← new_encrypted_store new;
      mark ← ok_or (mark fresh) (InvalidConfig "the new key produced no mark");
      Ok (MkRotation from (sealing new) mark).
End resolution.

#[global] Arguments verify_key : simpl never.
#[global] Arguments new_encrypted_store : simpl never.

(** The store is marked as one that [key] seals. *)
Definition marked_with `{Crypto} (key : StoreKey) (stored : StoredEncryption) : Prop :=
  exists v, verifier stored = Some v /\
    open_blob (sealing key) VERIFIER_CONTEXT v = Ok VERIFIER_PLAINTEXT.

(** ** The key check *)

Section laws.
Context `{crypto : Crypto}.

Lemma verify_key_ok stored key r :
  verify_key stored key = Ok r <->
  marked_with key stored /\ r = MkResolution (sealing key) None false.
Proof.
  unfold verify_key, marked_with. destruct (verifier stored) as [v|]; cbn.
  - destruct (open_blob (sealing key) VERIFIER_CONTEXT v) as [plain|e] eqn:E.
    + case_decide as Hp; split.
      * intros [= <-]. subst plain. split; [by exists v|done].
      * by intros (_ & ->).
      * discriminate.
      * intros ((v' & [= <-] & Hv) & _). congruence.
    + split; [discriminate|]. intros ((v' & [= <-] & Hv) & _). congruence.
  - split; [discriminate|]. by intros ((v' & [=] & _) & _).
Qed.


(** Only one key passes: the verifier carries the key id in its header. *)
Lemma marked_with_id `{!CryptoLaws crypto} k1 k2 stored :
  marked_with k1 stored -> marked_with k2 stored -> id k1 = id k2.
Proof.
  intros (v & Hv & Ho1) (v' & Hv' & Ho2). rewrite Hv in Hv'. injection Hv' as <-.
  assert (Hne : v ≠ []) by (by intros ->).
  apply open_sealing_ok in Ho1 as (n1 & s1 & E1 & _); [|done].
  apply open_sealing_ok in Ho2 as (n2 & s2 & E2 & _); [|done].
  rewrite E1 in E2. apply app_inv_head in E2.
  apply app_inj_1 in E2 as [Hid _]; [done|]. by rewrite !length_id.
Qed.

Lemma new_mark_verifies `{!CryptoLaws crypto} draws key r :
  draws_ok draws -> new_encrypted_store draws key = Ok r ->
  cipher r = sealing key /\ convert r = false /\
  exists m, mark r = Some m /\ mark_key_id m = id key /\
    forall e, marked_with key (MkStoredEncryption e (Some (mark_key_id m)) (Some (mark_verifier m))).
Proof.
  intros Hd (v & Hv & H)%result_bind_ok. injection H as <-. split_and!; [done..|].
  eexists. split; [done|]. split; [done|]. intros e. exists v. split; [done|].
  by eapply open_seal.
Qed.
Lemma plan_rotation_ok `{!CryptoLaws crypto} draws stored has_progress old new rot :
  draws_ok draws -> plan_rotation draws stored has_progress old new = Ok rot ->
  encrypted stored = true /\ has_progress = false /\ marked_with old stored /\
  id old ≠ id new /\ rotate_from rot = sealing old /\ rotate_to rot = sealing new /\
  marked_with new (MkStoredEncryption true (Some (mark_key_id (rotate_mark rot)))
                     (Some (mark_verifier (rotate_mark rot)))).
Proof.
  intros Hd. unfold plan_rotation. destruct (encrypted stored); [|discriminate].
  destruct has_progress; [discriminate|]. cbn [negb].
  destruct (verify_key stored old) as [r|] eqn:Hv; [|discriminate]. cbn.
  apply verify_key_ok in Hv as [Hmark ->]. case_decide as Hid; [discriminate|].
  intros (fresh & Hf & H)%result_bind_ok. apply result_bind_ok in H as (m & Hm & H).
  injection H as <-. apply (new_mark_verifies draws) in Hf as (_ & _ & m' & Hm' & Hk & Hnew); [|done].
  rewrite Hm' in Hm. injection Hm as ->. by split_and!.
Qed.

Lemma plan_rotation_total draws stored old new :
  encrypted stored = true -> marked_with old stored -> id old ≠ id new ->
  (exists v, seal (sealing new) draws VERIFIER_CONTEXT VERIFIER_PLAINTEXT = Ok v) ->
  is_ok (plan_rotation draws stored false old new) = true.
Proof.
  intros He Hm Hid [v Hv]. unfold plan_rotation. rewrite He.
  rewrite (proj2 (verify_key_ok stored old _) (conj Hm eq_refl)). cbn.
  rewrite decide_False by done. unfold new_encrypted_store. by rewrite Hv.
Qed.
End laws.

(** ** Properties *)

(** The decision table of [resolve], row by row: which store opens with what cipher, which
    mark is written first, when a conversion runs, and which openings are refused. *)
Theorem resolve_table `{crypto : Crypto} draws stored has_accounts has_progress key r :
  resolve draws stored has_accounts has_progress key = Ok r <->
  match encrypted stored, verifier stored, key with
  | true, _, Some k =>
      has_progress = false /\ marked_with k stored /\ r = MkResolution (sealing k) None false
  | true, _, None => False
  | false, Some _, Some k => marked_with k stored /\ r = MkResolution (sealing k) None true
  | false, Some _, None => False
  | false, None, None => r = MkResolution passthrough None false
  | false, None, Some k =>
      exists v, seal (sealing k) draws VERIFIER_CONTEXT VERIFIER_PLAINTEXT = Ok v /\
        r = MkResolution (sealing k) (Some (MkNewMark (id k) v)) has_accounts
  end.
Proof.
  unfold resolve. destruct (encrypted stored).
  - destruct key as [k|], has_progress; try (split; [discriminate|tauto]).
    + split; [discriminate|]. by intros [[=] _].
    + rewrite verify_key_ok. tauto.
  - destruct (verifier stored) as [v|] eqn:Hv.
    + rewrite bool_decide_true by eauto. destruct key as [k|]; cbn; [|split; [discriminate|done]].
      split.
      * intros (r' & Hr & H)%result_bind_ok. apply verify_key_ok in Hr as [Hm ->].
        by injection H as <-.
      * intros [Hm ->]. by rewrite (proj2 (verify_key_ok stored k _) (conj Hm eq_refl)).
    + rewrite bool_decide_false by (by intros [? [=]]).
      destruct key as [k|]; [|cbn; split; by intros; simplify_eq].
      unfold begin_conversion, new_encrypted_store.
      destruct (seal (sealing k) draws VERIFIER_CONTEXT VERIFIER_PLAINTEXT) as [v|e];
        destruct has_accounts; cbn; split; try discriminate; try (by intros (? & [=] & _));
        intros H; first [injection H as <-; eauto | destruct H as (? & [= <-] & ->); done].
Qed.


(** A rotation is planned only over a whole encrypted store, from the key that opens its
    verifier to a key with another id, and the mark it will write is one the new key opens: the
    rotated store reopens with the new key, and no longer with the old one. *)
Theorem plan_rotation_hands_over `{crypto : Crypto} `{!CryptoLaws crypto} draws stored
    has_progress old new rot :
  draws_ok draws -> plan_rotation draws stored has_progress old new = Ok rot ->
  encrypted stored = true /\ has_progress = false /\ marked_with old stored /\
  rotate_from rot = sealing old /\ rotate_to rot = sealing new /\
  let rotated := MkStoredEncryption true (Some (mark_key_id (rotate_mark rot)))
                   (Some (mark_verifier (rotate_mark rot))) in
  marked_with new rotated /\ ~ marked_with old rotated.
Proof.
  intros Hd Hr. apply (plan_rotation_ok draws) in Hr as (? & ? & ? & Hid & ? & ? & Hnew); [|done].
  split_and!; try done. intros rotated. split; [done|]. intros Hold. by apply Hid, (marked_with_id old new _ Hold).
Qed.

Definition fresh_mark : NewMark :=
  default (MkNewMark [] []) (result_ok (new_encrypted_store toy_draws toy_key) ≫= mark).

Definition toy_stored : StoredEncryption :=
  MkStoredEncryption true (Some (mark_key_id fresh_mark)) (Some (mark_verifier fresh_mark)).

Lemma resolve_table_witness :
  resolve toy_draws (MkStoredEncryption false None None) false false None =
    Ok (MkResolution passthrough None false) /\
  MkResolution passthrough None false = MkResolution passthrough None false.
Proof.
  split; [reflexivity|].
  apply (resolve_table toy_draws (MkStoredEncryption false None None) false false None). reflexivity.
Defined.


Lemma plan_rotation_hands_over_witness :
  exists rot, plan_rotation toy_draws toy_stored false toy_key other_key = Ok rot /\
  (encrypted toy_stored = true /\ false = false /\ marked_with toy_key toy_stored /\
  rotate_from rot = sealing toy_key /\ rotate_to rot = sealing other_key /\
  let rotated := MkStoredEncryption true (Some (mark_key_id (rotate_mark rot)))
                   (Some (mark_verifier (rotate_mark rot))) in
  marked_with other_key rotated /\ ~ marked_with toy_key rotated).
Proof.
  eexists. split; [vm_compute; reflexivity|].
  eapply (plan_rotation_hands_over toy_draws toy_stored false toy_key other_key);
    [apply toy_draws_ok|vm_compute; reflexivity].
Defined.
