(* ===== verification/Conversion.v ===== *)
(** * Turning a store's secret columns (storage/convert.rs, sql/convert.rs, sql/rotate.rs,
    sql/store_encryption_sql.rs)

    Sealing a plaintext store account by account, opening it again, and rotating its key, on a
    database that holds the accounts, the blobs of the sealed columns, the progress table and
    the [store_encryption] row.  The laws are in [ConversionLaws]. *)

From stdpp Require Import sorting.
From S2P Require Import Prelude StoreError Database StoreKey BlobCipher SealedColumns StoreEncryption.

Inductive Direction : Type :=
| DSeal
| DOpen.

(** How one blob is turned. *)
Inductive Turn : Type :=
| TSeal (cipher : BlobCipher)
| TOpen (cipher : BlobCipher)
| TRotate (from to : BlobCipher).

(** [Turn::of]. *)
Definition turn_of (direction : Direction) (cipher : BlobCipher) : Turn :=
  match direction with
  | DSeal => TSeal cipher
  | DOpen => TOpen cipher
  end.

(** [turn_blob]. *)
Definition turn_blob `{Crypto} (draws : Draws) (turn : Turn) (device : Z) (column : SealedColumn)
    (parts : list RowPart) (blob : bytes) : StoreResult bytes :=
  let row := row_key parts in
  let table := sc_table column in
  let name := sc_column column in
  match turn with
  | TSeal cipher => seal_at cipher draws device table name row blob
  | TOpen cipher => open_at cipher device table name row blob
  | TRotate from to =>
      plain ← open_at from device table name row blob;
      seal_at to draws device table name row plain
  end.

(** [accounts_left]: every account minus the done ones, in order. *)
Definition accounts_left (all done : list Z) : list Z :=
  base.filter (fun device => device ∉ done) (merge_sort Z.le all).

(** ** The database *)

#[global] Instance RowPart_countable : Countable RowPart.
Proof.
  refine (inj_countable'
    (fun p => match p with PText t => inl (inl t) | PInt i => inl (inr i) | PBytes l => inr l end)
    (fun x => match x with inl (inl t) => PText t | inl (inr i) => PInt i | inr l => PBytes l end) _).
  by intros [].
Defined.

(** A row of a sealed column: the account, the table, the values of its key columns. *)
Abbreviation CellKey := (Z * string * list RowPart)%type.

Record Db : Type := MkDb {
  accounts : gset Z;
  cells : gmap CellKey bytes;
  progress : gset Z;                 (* store_conversion_progress *)
  enc_row : option (string * option bytes * option bytes); (* the store_encryption row *)
  old_bytes : gset string;           (* tables whose storage keeps blobs an UPDATE replaced *)
}.

Definition set_cells (c : gmap CellKey bytes) (o : gset string) (d : Db) : Db :=
  MkDb (accounts d) c (progress d) (enc_row d) o.
Definition set_progress (p : gset Z) (d : Db) : Db :=
  MkDb (accounts d) (cells d) p (enc_row d) (old_bytes d).
Definition set_enc_row (r : option (string * option bytes * option bytes)) (d : Db) : Db :=
  MkDb (accounts d) (cells d) (progress d) r (old_bytes d).
Definition set_old_bytes (o : gset string) (d : Db) : Db :=
  MkDb (accounts d) (cells d) (progress d) (enc_row d) o.

Inductive Pool : Type := Pg | Sqlite.

Section conversion.
Context `{crypto : Crypto} (draws : Draws).
(** What the driver answers when a constraint refuses a row. *)
Context (constraint : StoreError).

(** ** Statements (statements/convert.rs, statements/store_encryption.rs) *)

Definition SELECT_ACCOUNT_IDS (d : Db) : list Z := merge_sort Z.le (elements (accounts d)).
Definition SELECT_PROGRESS (d : Db) : list Z := elements (progress d).

Definition INSERT_PROGRESS (device : Z) (d : Db) : StoreResult unit * Db :=
  if decide (device ∈ progress d \/ device ∉ accounts d) then (Err constraint, d)
  else (Ok tt, set_progress ({[device]} ∪ progress d) d).

Definition CLEAR_PROGRESS (d : Db) : StoreResult unit * Db := (Ok tt, set_progress ∅ d).

(** [FINISH_SEALING] and [FINISH_OPENING], by what they make of the row. *)
Definition flipped (direction : Direction) (row : option (string * option bytes * option bytes)) :
    option (string * option bytes * option bytes) :=
  '(state, key_id, verifier) ← row;
  match direction with
  | DSeal => Some (if decide (state = "plaintext") then "encrypted" else state, key_id, verifier)
  | DOpen =>
      if decide (state = "encrypted") then Some ("plaintext", None, None)
      else Some (state, key_id, verifier)
  end.

Definition finish_statement (direction : Direction) (d : Db) : StoreResult unit * Db :=
  (Ok tt, set_enc_row (flipped direction (enc_row d)) d).

(** [select_rows]: every row of one account in this column. *)
Definition select_rows (device : Z) (column : SealedColumn) (d : Db) : list (list RowPart * bytes) :=
  omap (fun '(key, blob) =>
          let '(device', table, parts) := key in
          if decide (device' = device /\ table = sc_table column) then Some (parts, blob) else None)
       (map_to_list (cells d)).

(** [update_row], for the row its binds name. *)
Definition update_row (device : Z) (column : SealedColumn) (parts : list RowPart) (turned : bytes)
    (d : Db) : StoreResult unit * Db :=
  let key := (device, sc_table column, parts) in
  (Ok tt,
   match cells d !! key with
   | Some _ => set_cells (<[key := turned]> (cells d)) ({[sc_table column]} ∪ old_bytes d) d
   | None => d
   end).

Definition HAS_ACCOUNTS (d : Db) : bool := bool_decide (accounts d ≠ ∅).
Definition HAS_PROGRESS (d : Db) : bool := bool_decide (progress d ≠ ∅).

(** The three marks answer the rows they affected. *)
Definition mark_row (state : string) (m : NewMark) (d : Db) : Z * Db :=
  (1, set_enc_row (Some (state, Some (mark_key_id m), Some (mark_verifier m))) d).

Definition MARK_ENCRYPTED (m : NewMark) (d : Db) : Z * Db :=
  match enc_row d with
  | Some (state, _, _) =>
      if decide (state = "plaintext" /\ accounts d = ∅) then mark_row "encrypted" m d else (0, d)
  | None => (0, d)
  end.

Definition MARK_CONVERTING (m : NewMark) (d : Db) : Z * Db :=
  match enc_row d with
  | Some (state, _, verifier) =>
      if decide (state = "plaintext" /\ verifier = None) then mark_row "plaintext" m d else (0, d)
  | None => (0, d)
  end.

Definition ROTATE_MARK (m : NewMark) (d : Db) : Z * Db :=
  match enc_row d with
  | Some (state, _, _) =>
      if decide (state = "encrypted") then mark_row "encrypted" m d else (0, d)
  | None => (0, d)
  end.

(** ** One account *)

Definition convert_column (turn : Turn) (device : Z) (column : SealedColumn) : Run Db unit :=
  rows ← query (select_rows device column);
  each (fun '(parts, blob) =>
          turned ← of_result (turn_blob draws turn device column parts blob);
          stmt (update_row device column parts turned)) rows.

(** The walk over the 13 columns of one account. *)
Definition convert_columns (turn : Turn) (device : Z) : Run Db unit :=
  each (convert_column turn device) SEALED_COLUMNS.

Definition finish (direction : Direction) : Run Db unit :=
  _ ← stmt (finish_statement direction);
  stmt CLEAR_PROGRESS.

Definition convert_account (cipher : BlobCipher) (direction : Direction) (device : Z)
    (is_last : bool) : Run Db unit :=
  transaction (
    _ ← convert_columns (turn_of direction cipher) device;
    _ ← stmt (INSERT_PROGRESS device);
    if is_last then finish direction else mret tt).

Definition finish_alone (direction : Direction) : Run Db unit := transaction (finish direction).

(** The loop of [run]; the last account also finishes. *)
Fixpoint convert_accounts (cipher : BlobCipher) (direction : Direction) (left : list Z) :
    Run Db unit :=
  match left with
  | [] => mret tt
  | device :: rest =>
      _ ← convert_account cipher direction device (bool_decide (rest = []));
      convert_accounts cipher direction rest
  end.

(** [run]: turn every account that is not done yet. *)
Definition run (cipher : BlobCipher) (direction : Direction) : Run Db nat :=
  all ← query SELECT_ACCOUNT_IDS;
  done ← query SELECT_PROGRESS;
  let left := accounts_left all done in
  _ ← convert_accounts cipher direction left;
  _ ← (if bool_decide (left = []) then finish_alone direction else mret tt);
  mret (length left).

(** ** Getting the old bytes out of the storage *)

Definition vacuum_full (column : SealedColumn) (d : Db) : StoreResult unit * Db :=
  (Ok tt, set_old_bytes (old_bytes d ∖ {[sc_table column]}) d).

Definition WAL_BUSY : string :=
  "the WAL could not be truncated after the secret columns were rewritten, so their old bytes may still be in the -wal file: stop whatever else has the store open and run again".

(** [scrub_sqlite]; [busy] is what the checkpoint answers.  Only VACUUM and then a truncating
    checkpoint drop the old bytes. *)
Definition scrub_sqlite (busy : bool) : Run Db unit :=
  _ ← stmt (fun d => (Ok tt, d)); (* lock_autocommit *)
  _ ← stmt (fun d => (Ok tt, d)); (* VACUUM *)
  busy ← stmt (fun d => (Ok busy, if busy then d else set_old_bytes ∅ d));
  if busy : bool then of_result (Err (Connection WAL_BUSY)) else mret tt.

Definition scrub_old_plaintext (pool : Pool) (busy : bool) : Run Db unit :=
  match pool with
  | Pg => each (fun column => stmt (vacuum_full column)) SEALED_COLUMNS
  | Sqlite => scrub_sqlite busy
  end.

(** ** Opening, decrypting and rotating a store *)

Definition read_stored : Run Db StoredEncryption :=
  row ← query enc_row;
  '(state, key_id, verifier) ← of_result
    (ok_or row (InvalidConfig "store_encryption has no row"));
  of_result (from_row state key_id verifier).

Definition write_mark (resolution : Resolution) : Run Db unit :=
  match mark resolution with
  | None => mret tt
  | Some m =>
      marked ← execute (fun d =>
        let '(n, d') := (if convert resolution then MARK_CONVERTING else MARK_ENCRYPTED) m d in
        (Ok n, d'));
      if marked =? 1 then mret tt
      else of_result (Err (InvalidConfig
             "the store changed while it was being marked for encryption"))
  end.

Definition open_cipher (pool : Pool) (busy : bool) (key : option StoreKey) : Run Db BlobCipher :=
  stored ← read_stored;
  has_accounts ← query HAS_ACCOUNTS;
  has_progress ← query HAS_PROGRESS;
  resolution ← of_result (resolve draws stored has_accounts has_progress key);
  _ ← write_mark resolution;
  _ ← (if convert resolution then
         _ ← run (cipher resolution) DSeal;
         scrub_old_plaintext pool busy
       else mret tt);
  mret (cipher resolution).

Definition decrypt_store (key : StoreKey) : Run Db nat :=
  stored ← read_stored;
  cipher ← of_result (cipher_for_decrypt stored key);
  run cipher DOpen.

Definition swap_mark (rotation : Rotation) : Run Db unit :=
  swapped ← stmt (fun d => let '(n, d') := ROTATE_MARK (rotate_mark rotation) d in (Ok n, d'));
  if swapped =? 1 then mret tt
  else of_result (Err (InvalidConfig
         "the store stopped being encrypted while its key was being rotated")).

(** [rotate::run]: every account and the mark in one transaction. *)
Definition rotate_run (pool : Pool) (busy : bool) (rotation : Rotation) : Run Db nat :=
  ids ← query SELECT_ACCOUNT_IDS;
  let device_ids := merge_sort Z.le ids in
  let turn := TRotate (rotate_from rotation) (rotate_to rotation) in
  _ ← transaction (
    _ ← each (convert_columns turn) device_ids;
    swap_mark rotation);
  _ ← scrub_old_plaintext pool busy;
  mret (length device_ids).

Definition rotate_store (pool : Pool) (busy : bool) (old new : StoreKey) : Run Db nat :=
  stored ← read_stored;
  has_progress ← query HAS_PROGRESS;
  rotation ← of_result (plan_rotation draws stored has_progress old new);
  rotate_run pool busy rotation.
End conversion.
