(* ===== verification/ConversionLaws.v ===== *)
(** * Laws of the conversion

    What one column, one account and a whole run do to the blobs, whatever statement fails; and
    that nothing is lost on the way: every blob opens, under the cipher of the form its account
    is in, to the same content as before. *)

From stdpp Require Import sorting.
From S2P Require Import Prelude StoreError Database StoreKey BlobCipher SealedColumns StoreEncryption Conversion.

(** The same store but for its blobs. *)
Definition same_books (d0 d : Db) : Prop :=
  accounts d = accounts d0 /\ progress d = progress d0 /\ enc_row d = enc_row d0.

(** The content [P] of a store: each blob of a sealed column opens, under the cipher of its
    account, to its plaintext. *)
Definition holds `{Crypto} (ciphers : Z -> BlobCipher) (P : gmap CellKey bytes) (d : Db) : Prop :=
  dom (cells d) = dom P /\
  forall device column parts blob plain, column ∈ SEALED_COLUMNS ->
    cells d !! (device, sc_table column, parts) = Some blob ->
    P !! (device, sc_table column, parts) = Some plain ->
    open_blob (ciphers device) (place device column parts) blob = Ok plain.

(** The foreign keys of the schema: a row belongs to an account. *)
Definition owned (P : gmap CellKey bytes) (ids : gset Z) : Prop :=
  forall device table parts, (device, table, parts) ∈ dom P -> device ∈ ids.

(** The form a turn reads, and the one it writes. *)
Definition turn_source (turn : Turn) : BlobCipher :=
  match turn with TSeal _ => passthrough | TOpen c => c | TRotate from _ => from end.
Definition turn_target (turn : Turn) : BlobCipher :=
  match turn with TSeal c => c | TOpen _ => passthrough | TRotate _ to => to end.

Section laws.
Context `{crypto : Crypto} (draws : Draws) (constraint : StoreError) (calm : bool).

(** A turned blob has the same content. *)
Lemma turn_blob_keeps `{!CryptoLaws crypto} turn device column parts blob turned plain :
  draws_ok draws -> turn_blob draws turn device column parts blob = Ok turned ->
  open_blob (turn_source turn) (place device column parts) blob = Ok plain ->
  open_blob (turn_target turn) (place device column parts) turned = Ok plain.
Proof using Type.
  intros Hdraws. unfold turn_blob. destruct turn as [c|c|from to]; cbn [turn_source turn_target].
  - intros Hs [= <-]. by eapply open_seal.
  - intros Ho Ho'. unfold open_at in Ho. fold (place device column parts) in Ho.
    rewrite Ho in Ho'. by injection Ho' as <-.
  - intros (p & Ho & Hs)%result_bind_ok Ho'. unfold open_at in Ho.
    fold (place device column parts) in Ho. rewrite Ho in Ho'. injection Ho' as <-.
    by eapply open_seal.
Qed.

(** The cells of [device] in the tables [tables] are turned, the others are as in [d0]. *)
Definition turned (turn : Turn) (device : Z) (columns : list SealedColumn) (d0 d : Db) : Prop :=
  same_books d0 d /\ dom (cells d) = dom (cells d0) /\
  forall device' table parts blob, cells d0 !! (device', table, parts) = Some blob ->
    match list_find (fun c => device' = device /\ sc_table c = table) columns with
    | Some (_, column) => exists blob', cells d !! (device', table, parts) = Some blob' /\
        turn_blob draws turn device column parts blob = Ok blob'
    | None => cells d !! (device', table, parts) = Some blob
    end.

Lemma turned_nil turn device d0 : turned turn device [] d0 d0.
Proof using Type. split_and!; by intros. Qed.

Lemma select_rows_spec device column d parts blob :
  (parts, blob) ∈ select_rows device column d <->
  cells d !! (device, sc_table column, parts) = Some blob.
Proof using Type.
  unfold select_rows. rewrite list_elem_of_omap. split.
  - intros ([[[device' table] parts'] blob'] & Hin & H). apply elem_of_map_to_list in Hin.
    case_decide as Hd; [|discriminate]. destruct Hd as [-> ->]. by injection H as -> ->.
  - intros Hk. exists ((device, sc_table column, parts), blob).
    split; [by apply elem_of_map_to_list|]. by rewrite decide_True.
Qed.

Lemma select_rows_nodup device column d : NoDup (select_rows device column d).*1.
Proof using Type.
  unfold select_rows. pose proof (NoDup_fst_map_to_list (cells d)) as Hnd.
  induction (map_to_list (cells d)) as [|[[[device' table] parts] blob] l IH]; cbn; [constructor|].
  cbn in Hnd. apply NoDup_cons in Hnd as [Hni Hnd]. specialize (IH Hnd).
  case_decide as Hd; [|done]. destruct Hd as [-> ->]. cbn. apply NoDup_cons. split; [|done].
  intros Hin. apply Hni. apply list_elem_of_fmap in Hin as ([p b] & Hp & Hin). cbn in Hp. subst p.
  apply list_elem_of_omap in Hin as ([[[device' table'] parts'] blob'] & Hin & H).
  case_decide as Hd; [|discriminate]. destruct Hd as [-> ->]. injection H as -> ->.
  apply list_elem_of_fmap. by exists ((device, sc_table column, parts), b).
Qed.

(** The rows still to turn are as they were, the ones before them are turned. *)
Definition mid_column (turn : Turn) (device : Z) (column : SealedColumn) (d0 : Db)
    (rest : list (list RowPart * bytes)) (d : Db) : Prop :=
  same_books d0 d /\ dom (cells d) = dom (cells d0) /\ NoDup rest.*1 /\
  (forall parts blob, (parts, blob) ∈ rest ->
     cells d0 !! (device, sc_table column, parts) = Some blob) /\
  forall device' table parts blob, cells d0 !! (device', table, parts) = Some blob ->
    if decide (device' = device /\ table = sc_table column /\ parts ∉ rest.*1)
    then exists blob', cells d !! (device', table, parts) = Some blob' /\
           turn_blob draws turn device column parts blob = Ok blob'
    else cells d !! (device', table, parts) = Some blob.

Lemma mid_column_step turn device column d0 parts blob rest d blob' :
  mid_column turn device column d0 ((parts, blob) :: rest) d ->
  turn_blob draws turn device column parts blob = Ok blob' ->
  mid_column turn device column d0 rest (update_row device column parts blob' d).2.
Proof using Type.
  intros (Hb & Hdom & Hnd & Hrest & Hcells) Ht. cbn in Hnd. apply NoDup_cons in Hnd as [Hni Hnd].
  pose proof (Hrest parts blob ltac:(by left)) as Hp0.
  assert (Hp : cells d !! (device, sc_table column, parts) = Some blob).
  { specialize (Hcells _ _ _ _ Hp0). rewrite decide_False in Hcells; [done|].
    intros (_ & _ & Hn). apply Hn. by left. }
  unfold update_row. cbn [snd]. rewrite Hp. split_and!.
  - done.
  - cbn. rewrite dom_insert_L, Hdom. apply (elem_of_dom_2 (M := gmap _)) in Hp0. set_solver.
  - done.
  - intros p b Hin. apply Hrest. by right.
  - intros device' table p b Hk. cbn [cells set_cells].
    destruct (decide ((device', table, p) = (device, sc_table column, parts))) as [E|Hne].
    + injection E as -> -> ->. rewrite decide_True by done. rewrite lookup_insert_eq.
      exists blob'. split; [done|]. congruence.
    + rewrite lookup_insert_ne by done. specialize (Hcells _ _ _ _ Hk).
      case_decide as H1; case_decide as H2; try done.
      * exfalso. apply H2. destruct H1 as (-> & -> & Hn). split_and!; [done..|].
        intros Hin. apply Hn. by right.
      * exfalso. apply H1. destruct H2 as (-> & -> & Hn). split_and!; [done..|].
        cbn. intros [->|]%elem_of_cons; [|done]. by apply Hne.
Qed.

Lemma post_convert_column turn device column d0 (X : Prop) :
  (calm = false -> X) ->
  (forall parts blob e, cells d0 !! (device, sc_table column, parts) = Some blob ->
     turn_blob draws turn device column parts blob = Err e -> X) ->
  run_post calm (fun d => d = d0) (convert_column draws turn device column)
    (fun _ d => turned turn device [column] d0 d) (fun _ => X).
Proof using Type.
  intros HX Hturn. unfold convert_column.
  run_step (fun rows d => rows = select_rows device column d0 /\ d = d0).
  { apply post_query; [auto|]. by intros d ->. }
  eapply (post_conseq _ _ (mid_column turn device column d0 a) _ _
    (fun _ => mid_column turn device column d0 []) _ (fun _ => X)); [| | |done].
  - apply post_each. intros [parts blob] rest.
    run_step (fun t d => mid_column turn device column d0 ((parts, blob) :: rest) d /\
      turn_blob draws turn device column parts blob = Ok t).
    { apply post_of_result; [by split|]. intros e d He (_ & _ & _ & Hrest & _).
      eapply Hturn; [|done]. apply Hrest. by left. }
    apply post_stmt; [auto|]. intros d [Hmid Ht].
    by apply (mid_column_step _ _ _ _ _ _ _ _ _ Hmid Ht).
  - intros d [-> ->]. split_and!; try done.
    + apply select_rows_nodup.
    + intros p b. apply select_rows_spec.
    + intros device' table p b Hk. rewrite decide_False; [done|]. intros (-> & -> & Hn).
      apply Hn, list_elem_of_fmap. exists (p, b). split; [done|]. by apply select_rows_spec.
  - intros _ d (Hb & Hdom & _ & _ & Hcells). split_and!; try done.
    intros device' table p b Hk. specialize (Hcells _ _ _ _ Hk). cbn.
    destruct (decide (device' = device /\ sc_table column = table)) as [[-> <-]|Hn].
    + rewrite decide_True in Hcells; [done|]. split_and!; [done..|]. apply not_elem_of_nil.
    + rewrite decide_False in Hcells; [done|]. naive_solver.
Qed.

(** The cell's column, when one of [columns] has its table. *)
Lemma list_find_table (device' device : Z) (table : string) columns :
  match list_find (fun c => device' = device /\ sc_table c = table) columns with
  | Some (_, column) => device' = device /\ sc_table column = table /\ column ∈ columns
  | None => forall c, c ∈ columns -> ~ (device' = device /\ sc_table c = table)
  end.
Proof using Type.
  destruct (list_find _ columns) as [[i column]|] eqn:E.
  - apply list_find_Some in E as (Hi & [-> Ht] & _). split_and!; [done..|].
    by eapply list_elem_of_lookup_2.
  - apply list_find_None in E. by rewrite Forall_forall in E.
Qed.

Lemma turned_snoc turn device columns column d0 d1 d2 :
  sc_table column ∉ (sc_table <$> columns) ->
  turned turn device columns d0 d1 -> turned turn device [column] d1 d2 ->
  turned turn device (columns ++ [column]) d0 d2.
Proof using Type.
  intros Hn (Hb1 & Hd1 & Hc1) (Hb2 & Hd2 & Hc2). split_and!.
  - destruct Hb1 as (? & ? & ?), Hb2 as (? & ? & ?). split_and!; congruence.
  - congruence.
  - intros device' table parts blob Hk. specialize (Hc1 _ _ _ _ Hk).
    pose proof (list_find_table device' device table columns) as Hlf.
    destruct (list_find _ columns) as [[i c]|] eqn:E.
    + rewrite (list_find_app_l _ _ _ _ _ E).
      destruct Hlf as (-> & Ht & Hin). destruct Hc1 as (blob' & Hk1 & Hturn).
      exists blob'. split; [|done]. specialize (Hc2 _ _ _ _ Hk1). cbn in Hc2.
      rewrite decide_False in Hc2; [done|]. intros [_ Ht']. apply Hn.
      apply list_elem_of_fmap. exists c. split; [congruence|done].
    + rewrite list_find_app_r by done.
      specialize (Hc2 _ _ _ _ Hc1). cbn in *. by case_decide.
Qed.

Lemma sealed_tables_nodup : NoDup (sc_table <$> SEALED_COLUMNS).
Proof using Type. apply (bool_decide_eq_true_1 _). vm_compute. reflexivity. Qed.

Lemma post_convert_columns turn device d0 (X : Prop) :
  (calm = false -> X) ->
  (forall column parts blob e, column ∈ SEALED_COLUMNS ->
     cells d0 !! (device, sc_table column, parts) = Some blob ->
     turn_blob draws turn device column parts blob = Err e -> X) ->
  run_post calm (fun d => d = d0) (convert_columns draws turn device)
    (fun _ d => turned turn device SEALED_COLUMNS d0 d) (fun _ => X).
Proof using Type.
  intros HX Hturn. unfold convert_columns.
  eapply (post_conseq _ _ (fun d => exists columns, SEALED_COLUMNS = columns ++ SEALED_COLUMNS /\
    turned turn device columns d0 d) _ _ (fun _ d => exists columns,
    SEALED_COLUMNS = columns ++ [] /\ turned turn device columns d0 d) _ (fun _ => X)); [| | |done].
  - apply (post_each calm (fun rest d => exists columns, SEALED_COLUMNS = columns ++ rest /\
      turned turn device columns d0 d)).
    intros column rest. apply post_at. intros d1 (columns & Hcols & Ht).
    pose proof sealed_tables_nodup as Hnd. rewrite Hcols, fmap_app in Hnd. cbn in Hnd.
    apply NoDup_app in Hnd as (_ & Hnd & _).
    assert (Hn : sc_table column ∉ (sc_table <$> columns)) by (intros Hin; apply (Hnd _ Hin); by left).
    eapply post_conseq; [apply (post_convert_column turn device column d1 X)| | |]; try done.
    + intros parts blob e Hk He. destruct Ht as (_ & Hdom & Hcells).
      assert (Hk0 : is_Some (cells d0 !! (device, sc_table column, parts))).
      { apply elem_of_dom. rewrite <-Hdom. by eapply (elem_of_dom_2 (M := gmap _)). }
      destruct Hk0 as [b Hk0]. specialize (Hcells _ _ _ _ Hk0).
      pose proof (list_find_table device device (sc_table column) columns) as Hlf.
      destruct (list_find _ columns) as [[i c]|].
      * destruct Hlf as (_ & Htab & Hin). destruct Hn. apply list_elem_of_fmap. by exists c.
      * rewrite Hk in Hcells. injection Hcells as <-. eapply (Hturn column parts blob e); try done.
        rewrite Hcols. apply elem_of_app. right. by left.
    + intros ? d Ht2. exists (columns ++ [column]). split; [by rewrite <-app_assoc|].
      by eapply turned_snoc.
  - intros d ->. exists []. split; [done|]. apply turned_nil.
  - intros ? d (columns & Hc & Ht). rewrite app_nil_r in Hc. subst columns. done.
Qed.

(** Turning an account keeps its content, in the other form. *)
Lemma turned_holds `{!CryptoLaws crypto} turn device ciphers P d0 d :
  draws_ok draws -> ciphers device = turn_source turn -> holds ciphers P d0 ->
  turned turn device SEALED_COLUMNS d0 d ->
  holds (fun device' => if decide (device' = device) then turn_target turn else ciphers device') P d.
Proof using Type.
  intros Hdraws Hsrc [HdomP Hopen] (_ & Hdom & Hcells). split; [congruence|].
  intros device' column parts blob plain Hcol Hk HP.
  assert (Hk0 : is_Some (cells d0 !! (device', sc_table column, parts))).
  { apply elem_of_dom. rewrite <-Hdom. by eapply (elem_of_dom_2 (M := gmap _)). }
  destruct Hk0 as [b Hk0]. specialize (Hcells _ _ _ _ Hk0).
  pose proof (Hopen _ _ _ _ _ Hcol Hk0 HP) as Ho.
  pose proof (list_find_table device' device (sc_table column) SEALED_COLUMNS) as Hlf.
  destruct (list_find _ SEALED_COLUMNS) as [[i c]|].
  - destruct Hlf as (-> & Htab & Hin). rewrite decide_True by done.
    assert (c = column) as -> by (by apply sealed_columns_by_table).
    destruct Hcells as (blob' & Hk' & Hturn). rewrite Hk in Hk'. injection Hk' as ->.
    eapply turn_blob_keeps; [done..|]. by rewrite <-Hsrc.
  - rewrite Hk in Hcells. injection Hcells as ->. case_decide as Hd; [|done].
    subst. by destruct (Hlf column Hcol).
Qed.
End laws.

(** ** Which accounts are left *)

Lemma elem_of_accounts_left all done x : x ∈ accounts_left all done <-> x ∈ all /\ x ∉ done.
Proof. unfold accounts_left. rewrite list_elem_of_filter, merge_sort_Permutation. tauto. Qed.

Lemma accounts_left_nodup all done : NoDup all -> NoDup (accounts_left all done).
Proof. intros H. unfold accounts_left. apply NoDup_filter. by rewrite merge_sort_Permutation. Qed.

(** Case analysis on a set with one more element. *)
Lemma decide_union_singleton {A} (x device : Z) (prog : gset Z) (a b : A) :
  (if decide (x ∈ {[device]} ∪ prog) then a else b) =
  if decide (x = device) then a else if decide (x ∈ prog) then a else b.
Proof. repeat case_decide; set_solver. Qed.

(** Only the ciphers of the accounts matter. *)
Lemma holds_ext `{Crypto} ids P c1 c2 d :
  owned P ids -> (forall device, device ∈ ids -> c1 device = c2 device) -> holds c1 P d -> holds c2 P d.
Proof.
  intros Howned Hc [Hdom Ho]. split; [done|]. intros device column parts blob plain Hcol Hk HP.
  rewrite <-Hc; [by eapply Ho|]. eapply Howned. by eapply (elem_of_dom_2 (M := gmap _)).
Qed.

(** ** A run *)

Section run.
Context `{crypto : Crypto} `{!CryptoLaws crypto} (draws : Draws) (constraint : StoreError).
Context (Hdraws : draws_ok draws) (calm : bool).
Context (direction : Direction) (cipher : BlobCipher).
Context (ids : gset Z) (row0 : option (string * option bytes * option bytes)).
Context (P : gmap CellKey bytes) (Howned : owned P ids).
Let src := turn_source (turn_of direction cipher).
Let dst := turn_target (turn_of direction cipher).

(** A blob that has a content can be turned; needed only when no statement fails. *)
Context (Hturns : calm = true -> forall device column parts blob plain e,
  column ∈ SEALED_COLUMNS -> P !! (device, sc_table column, parts) = Some plain ->
  open_blob src (place device column parts) blob = Ok plain ->
  turn_blob draws (turn_of direction cipher) device column parts blob ≠ Err e).

(** The form of each account's blobs while [prog] are done. *)
Definition form (prog : gset Z) (device : Z) : BlobCipher :=
  if decide (device ∈ prog) then dst else src.

(** Half way: the accounts of the progress table are in the new form, the others in the old. *)
Definition Mid (d : Db) : Prop :=
  accounts d = ids /\ progress d ⊆ ids /\ enc_row d = row0 /\ holds (form (progress d)) P d.

Definition Done (d : Db) : Prop :=
  accounts d = ids /\ progress d = ∅ /\ enc_row d = flipped direction row0 /\
  holds (fun _ => dst) P d.

(** What an error leaves. *)
Definition Broken (d : Db) : Prop := calm = false /\ (Mid d \/ Done d).

Lemma post_finish d0 X :
  (calm = false -> X) ->
  accounts d0 = ids -> enc_row d0 = row0 -> holds (fun _ => dst) P d0 ->
  run_post calm (fun d => d = d0) (finish direction) (fun _ => Done) (fun _ => X).
Proof using All.
  intros HX Ha He Hh. unfold finish.
  run_step (fun (_ : unit) d => accounts d = ids /\ enc_row d = flipped direction row0 /\
    holds (fun _ => dst) P d).
  { apply post_stmt; [auto|]. intros d ->. cbn. split_and!; [done|by rewrite He|done]. }
  apply post_stmt; [auto|]. intros d (? & ? & ?). by split_and!.
Qed.

(** One account in its transaction: its cells turned and its progress row, and the flip when
    it is the last one. *)
Lemma post_convert_account device (last : bool) prog :
  device ∈ ids -> device ∉ prog -> (last = true -> {[device]} ∪ prog = ids) ->
  run_post calm (fun d => Mid d /\ progress d = prog)
    (convert_account draws constraint cipher direction device last)
    (fun _ d => if last then Done d else Mid d /\ progress d = {[device]} ∪ prog) Broken.
Proof using All.
  intros Hin Hni Hlast. unfold convert_account. apply post_transaction.
  - intros d0 [(Ha & Hp & He & Hh) Hprog].
    assert (Hbad : calm = false -> Broken d0) by (intros; split; [done|left; by split_and!]).
    run_step (fun (_ : unit) d =>
      turned draws (turn_of direction cipher) device SEALED_COLUMNS d0 d).
    { apply post_convert_columns; [done|].
      intros column parts blob e Hcol Hk Het.
      assert (Hpl : is_Some (P !! (device, sc_table column, parts))).
      { apply elem_of_dom. rewrite <-(proj1 Hh). by eapply (elem_of_dom_2 (M := gmap _)). }
      destruct Hpl as [plain Hpl]. destruct (decide (calm = true)) as [Hc|Hc].
      - exfalso. eapply (Hturns Hc); [done|done| |done].
        pose proof (proj2 Hh device column parts blob plain Hcol Hk Hpl) as Ho.
        unfold form in Ho. rewrite decide_False in Ho by (by rewrite Hprog). done.
      - apply Hbad. by destruct calm. }
    apply post_at. intros d1 Ht.
    pose proof Ht as ((Ha1 & Hp1 & He1) & _).
    assert (Hh1 : holds (form ({[device]} ∪ prog)) P d1).
    { eapply holds_ext; [exact Howned| |eapply (turned_holds draws (turn_of direction cipher) device); [done| |done|done]].
      - intros x _. cbn. unfold form. by rewrite Hprog, decide_union_singleton.
      - unfold form. rewrite decide_False; [done|]. by rewrite Hprog. }
    run_step (fun (_ : unit) d => d = set_progress ({[device]} ∪ prog) d1).
    { apply post_stmt; [auto|]. intros d ->. unfold INSERT_PROGRESS.
      rewrite decide_False; [by rewrite Hp1, Hprog|].
      rewrite Hp1, Hprog, Ha1, Ha. tauto. }
    destruct last.
    + eapply (post_conseq _ _ (fun d => d = set_progress ({[device]} ∪ prog) d1));
        [apply (post_finish _ (Broken d0))|by intros ? ->|done|done]; cbn; [done|congruence..|].
      eapply holds_ext; [exact Howned| |apply Hh1].
      intros x Hx. unfold form. rewrite decide_True; [done|]. by rewrite Hlast.
    + apply post_ret. intros d ->. split; [|done].
      split_and!; [cbn; congruence| |cbn; congruence|by apply Hh1].
      cbn. apply union_subseteq. split; [by apply singleton_subseteq_l|by rewrite <-Hprog].
  - intros Hc d [HM _]. split; auto.
  - intros Hc _ d Hd. split; [done|]. destruct last; [by right|left; tauto].
Qed.

Lemma post_convert_accounts left :
  NoDup left -> left ≠ [] ->
  run_post calm (fun d => Mid d /\ forall x, x ∈ left <-> x ∈ ids /\ x ∉ progress d)
    (convert_accounts draws constraint cipher direction left) (fun _ => Done) Broken.
Proof using All.
  induction left as [|device rest IH]; [done|]. intros [Hni Hnd]%NoDup_cons _. cbn.
  apply post_at. intros d0 [HM Hleft].
  assert (Hdev : device ∈ ids /\ device ∉ progress d0) by (apply Hleft; by left).
  run_step (fun (_ : unit) d => if bool_decide (rest = []) then Done d
    else Mid d /\ progress d = {[device]} ∪ progress d0).
  { eapply post_conseq; [apply (post_convert_account device _ (progress d0))| |done|done].
    - tauto.
    - tauto.
    - intros ->%bool_decide_eq_true. apply set_eq. intros x.
      destruct HM as (_ & Hsub & _). specialize (Hleft x). specialize (Hsub x).
      rewrite list_elem_of_singleton in Hleft. rewrite elem_of_union, elem_of_singleton.
      destruct (decide (x ∈ progress d0)); tauto.
    - by intros d ->. }
  destruct (decide (rest = [])) as [->|Hne].
  - rewrite bool_decide_true by done. by apply post_ret.
  - rewrite bool_decide_false by done.
    eapply post_conseq; [apply (IH Hnd Hne)| |done|done].
    intros d [HM' Hp]. split; [done|]. intros x. rewrite Hp.
    specialize (Hleft x). rewrite elem_of_cons in Hleft.
    rewrite not_elem_of_union, not_elem_of_singleton.
    destruct (decide (x = device)) as [->|]; tauto.
Qed.

Lemma post_run :
  run_post calm Mid (run draws constraint cipher direction) (fun _ => Done) Broken.
Proof using All.
  unfold run. apply post_at. intros d0 HM.
  assert (HB : calm = false -> forall d, d = d0 -> Broken d) by (intros Hc d ->; split; auto).
  run_step (fun all d => all = SELECT_ACCOUNT_IDS d0 /\ d = d0).
  { apply post_query; [done|]. by intros d ->. }
  run_step (fun dn d => a = SELECT_ACCOUNT_IDS d0 /\ dn = SELECT_PROGRESS d0 /\ d = d0).
  { apply post_query; [intros Hc d [_ ->]; by apply HB|]. by intros d [-> ->]. }
  apply post_at. intros d (-> & -> & ->). cbv zeta.
  set (left := accounts_left _ _).
  assert (Hnd : NoDup left).
  { apply accounts_left_nodup. unfold SELECT_ACCOUNT_IDS. rewrite merge_sort_Permutation.
    apply NoDup_elements. }
  assert (Hin : forall x, x ∈ left <-> x ∈ ids /\ x ∉ progress d0).
  { intros x. unfold left. rewrite elem_of_accounts_left. unfold SELECT_ACCOUNT_IDS, SELECT_PROGRESS.
    rewrite merge_sort_Permutation, !elem_of_elements. by destruct HM as (-> & _). }
  destruct (decide (left = [])) as [E|Hne].
  - rewrite E. cbn [convert_accounts]. rewrite bool_decide_true by done.
    run_step (fun (_ : unit) d => d = d0); [by apply post_ret|].
    run_step (fun (_ : unit) => Done); [|by apply post_ret].
    apply post_transaction; [|done|intros Hc _ d Hd; split; auto].
    intros d ->. destruct HM as (Ha & Hp & He & Hh). apply post_finish; try done.
    + intros Hc. by apply HB.
    + eapply holds_ext; [exact Howned| |done]. intros x Hx. unfold form.
      destruct (decide (x ∈ progress d0)) as [|Hn]; [done|]. exfalso.
      assert (Hx' : x ∈ left) by (by apply Hin). rewrite E in Hx'. by apply not_elem_of_nil in Hx'.
  - rewrite bool_decide_false by done.
    run_step (fun (_ : unit) => Done).
    { eapply post_conseq; [apply (post_convert_accounts left Hnd Hne)|by intros ? ->|done|done]. }
    run_step (fun (_ : unit) => Done); by apply post_ret.
Qed.
End run.
