(* ===== verification/ConversionProps.v ===== *)
(** * What opening, decrypting and rotating a store promise

    The states a store can be in while its columns are turned, and that every command keeps the
    content of every blob from one of them to another, whatever statement fails and wherever the
    process dies. *)

From stdpp Require Import sorting.
From S2P Require Import Prelude StoreError Database StoreKey BlobCipher SealedColumns StoreEncryption Conversion ConversionLaws.

Section states.
Context `{crypto : Crypto} (key : StoreKey) (ids : gset Z) (P : gmap CellKey bytes).

(** The row names [key]: its verifier opens under it. *)
Definition names_key (row : option (string * option bytes * option bytes)) (state : string) : Prop :=
  exists k v, row = Some (state, k, Some v) /\
    open_blob (sealing key) VERIFIER_CONTEXT v = Ok VERIFIER_PLAINTEXT.

(** The four states of a store with content [P]. *)
Definition Plain (d : Db) : Prop :=
  accounts d = ids /\ (exists k, enc_row d = Some ("plaintext", k, None)) /\ progress d = ∅ /\
  holds (fun _ => passthrough) P d.
Definition Converting (d : Db) : Prop :=
  names_key (enc_row d) "plaintext" /\ Mid DSeal (sealing key) ids (enc_row d) P d.
Definition Encrypted (d : Db) : Prop :=
  accounts d = ids /\ names_key (enc_row d) "encrypted" /\ progress d = ∅ /\
  holds (fun _ => sealing key) P d.
Definition Decrypting (d : Db) : Prop :=
  names_key (enc_row d) "encrypted" /\ progress d ≠ ∅ /\
  Mid DOpen (sealing key) ids (enc_row d) P d.

Definition Sound (d : Db) : Prop :=
  Plain d \/ Converting d \/ Encrypted d \/ Decrypting d.
End states.

Section laws.
Context `{crypto : Crypto} `{!CryptoLaws crypto} (draws : Draws) (constraint : StoreError).
Context (Hdraws : draws_ok draws) (calm : bool) (key : StoreKey).
Context (ids : gset Z) (P : gmap CellKey bytes) (Howned : owned P ids).
Context (Hcalm : calm = true -> seals_always draws key).

Lemma post_run_seal row :
  run_post calm (Mid DSeal (sealing key) ids row P) (run draws constraint (sealing key) DSeal)
    (fun _ => Done DSeal (sealing key) ids row P) (Broken calm DSeal (sealing key) ids row P).
Proof using All.
  apply post_run; [done..|]. intros Hc device column parts blob plain e _ _ _ He.
  destruct (seal_total draws key (place device column parts) blob (Hcalm Hc)) as [b Hb].
  assert (Habs : Err e = Ok b) by (etrans; [symmetry; exact He|exact Hb]). discriminate.
Qed.

Lemma post_run_open row :
  run_post calm (Mid DOpen (sealing key) ids row P) (run draws constraint (sealing key) DOpen)
    (fun _ => Done DOpen (sealing key) ids row P) (Broken calm DOpen (sealing key) ids row P).
Proof using All.
  apply post_run; [done..|]. intros Hc device column parts blob plain e _ _ Ho He.
  assert (Habs : Err e = Ok plain) by (etrans; [symmetry; exact He|exact Ho]). discriminate.
Qed.

Lemma post_read_stored d0 state k v stored (X : Db -> Prop) :
  (calm = false -> X d0) -> enc_row d0 = Some (state, k, v) -> from_row state k v = Ok stored ->
  run_post calm (fun d => d = d0) read_stored (fun s d => s = stored /\ d = d0) X.
Proof using Type.
  intros HX Hrow Hst. unfold read_stored.
  run_step (fun row d => row = enc_row d0 /\ d = d0);
    [apply post_query; [by intros Hc ? ->; apply HX|by intros d ->]|].
  run_step (fun x d => x = (state, k, v) /\ d = d0).
  { apply post_of_result; [|intros e d Hr [-> ->]; by rewrite Hrow in Hr].
    intros x d Hx [-> ->]. rewrite Hrow in Hx. by injection Hx as <-. }
  apply post_at. intros d [-> ->]. apply post_of_result; [|congruence].
  intros s d Hs ->. split; [congruence|done].
Qed.

Lemma post_scrub (E : Db -> Prop) pool busy :
  (forall o d, E d -> E (set_old_bytes o d)) -> (calm = true -> busy = false) ->
  run_post calm E (scrub_old_plaintext pool busy) (fun _ => E) (fun d => calm = false /\ E d).
Proof using Type.
  intros HE Hbusy. destruct pool; cbn [scrub_old_plaintext].
  - apply (post_each calm (fun _ => E)). intros column rest.
    apply post_stmt; [by split|]. intros d Hd. by apply HE.
  - unfold scrub_sqlite.
    run_step (fun (_ : unit) => E); [by apply post_stmt|].
    run_step (fun (_ : unit) => E); [by apply post_stmt|].
    run_step (fun b d => E d /\ b = busy).
    { apply post_stmt; [by split|]. intros d Hd. split; [|done]. destruct busy; [done|by apply HE]. }
    apply post_at. intros d [Hd ->]. destruct busy.
    + apply post_of_result; [done|]. intros _ ? _ ->. split; [|done]. apply not_true_is_false.
      intros Hc. by specialize (Hbusy Hc).
    + apply post_ret. by intros ? ->.
Qed.

Definition Bad (d : Db) : Prop := calm = false /\ Sound key ids P d.

(** A conversion that begins or resumes ends with the store encrypted. *)
Lemma post_conversion pool busy :
  (calm = true -> busy = false) ->
  run_post calm (Converting key ids P)
    (run draws constraint (sealing key) DSeal ≫= fun _ => scrub_old_plaintext pool busy)
    (fun _ => Encrypted key ids P) Bad.
Proof using All.
  intros Hbusy. apply post_at. intros d0 ((k & v & Hrow & Ho) & HM).
  assert (HE : forall d, Done DSeal (sealing key) ids (enc_row d0) P d -> Encrypted key ids P d).
  { intros d (Ha & Hp & He & Hh). split_and!; [done| |done|done]. exists k, v.
    split; [|done]. by rewrite He, Hrow. }
  run_step (fun (_ : nat) => Encrypted key ids P).
  - eapply (post_conseq _ _ (Mid DSeal (sealing key) ids (enc_row d0) P));
      [apply post_run_seal|by intros ? ->|by intros ? ?; apply HE|].
    intros d [Hc [HM'|HD]]; (split; [done|]).
    + right; left. pose proof HM' as (_ & _ & He & _). split; [|by rewrite He].
      exists k, v. by rewrite He.
    + do 2 right; left. by apply HE.
  - eapply post_conseq; [apply (post_scrub (Encrypted key ids P) pool busy); try done|done..|].
    intros d [Hc Hd]. split; [done|]. by do 2 right; left.
Qed.

Lemma Plain_empty_Encrypted m d :
  Plain ids P d -> accounts d = ∅ ->
  open_blob (sealing key) VERIFIER_CONTEXT (mark_verifier m) = Ok VERIFIER_PLAINTEXT ->
  Encrypted key ids P (mark_row "encrypted" m d).2.
Proof using All.
  intros (Ha & _ & Hp & Hdom & _) He Hv. split_and!; [done|by exists (Some (mark_key_id m)), (mark_verifier m)|done|].
  split; [done|]. intros device column parts blob plain _ Hk HP. exfalso.
  apply (elem_of_dom_2 (M := gmap _)) in HP. apply Howned in HP. rewrite <-Ha, He in HP. set_solver.
Qed.

Lemma Plain_Converting m d :
  Plain ids P d ->
  open_blob (sealing key) VERIFIER_CONTEXT (mark_verifier m) = Ok VERIFIER_PLAINTEXT ->
  Converting key ids P (mark_row "plaintext" m d).2.
Proof using All.
  intros (Ha & _ & Hp & Hh) Hv. split; [by exists (Some (mark_key_id m)), (mark_verifier m)|].
  split_and!; [done|cbn; rewrite Hp; set_solver|done|].
  destruct Hh as [Hdom Ho]. split; [done|]. intros device column parts blob plain Hcol Hk HP.
  unfold form. cbn. rewrite Hp, decide_False by set_solver. by eapply Ho.
Qed.

(** What [open_cipher] does once the decision is made. *)
Definition act_on (pool : Pool) (busy : bool) (resolution : Resolution) : Run Db BlobCipher :=
  _ ← write_mark resolution;
  _ ← (if convert resolution then
         _ ← run draws constraint (cipher resolution) DSeal;
         scrub_old_plaintext pool busy
       else mret tt);
  mret (cipher resolution).

(** A resolution that writes no mark. *)
Lemma post_act_unmarked pool busy (conv : bool) :
  (calm = true -> busy = false) ->
  run_post calm (fun d => if conv then Converting key ids P d else Encrypted key ids P d)
    (act_on pool busy (MkResolution (sealing key) None conv))
    (fun c d => c = sealing key /\ Encrypted key ids P d) Bad.
Proof using All.
  intros Hbusy. unfold act_on. cbn [write_mark mark convert cipher].
  run_step (fun (_ : unit) d => if conv then Converting key ids P d else Encrypted key ids P d);
    [by apply post_ret|].
  run_step (fun (_ : unit) => Encrypted key ids P).
  - destruct conv; [by apply post_conversion|by apply post_ret].
  - by apply post_ret.
Qed.

(** A resolution over a plaintext store. *)
Lemma post_act_marked pool busy m d0 :
  (calm = true -> busy = false) -> Plain ids P d0 ->
  open_blob (sealing key) VERIFIER_CONTEXT (mark_verifier m) = Ok VERIFIER_PLAINTEXT ->
  run_post calm (fun d => d = d0)
    (act_on pool busy (MkResolution (sealing key) (Some m) (HAS_ACCOUNTS d0)))
    (fun c d => c = sealing key /\ Encrypted key ids P d) Bad.
Proof using All.
  intros Hbusy HP Hv. unfold act_on. cbn [write_mark mark convert cipher].
  pose proof HP as (_ & [k Hrow] & _).
  assert (HB : calm = false -> Bad d0) by (intros; split; [done|by left]).
  run_step (fun (_ : unit) d => if HAS_ACCOUNTS d0 then Converting key ids P d else Encrypted key ids P d).
  { eapply (post_bind _ _ _ (fun n d => n = 1 /\
      if HAS_ACCOUNTS d0 then Converting key ids P d else Encrypted key ids P d)).
    - apply (post_execute _ _ d0); [done|]. unfold HAS_ACCOUNTS. case_bool_decide as Hacc.
      + unfold MARK_CONVERTING. rewrite Hrow, decide_True by done. cbn [mark_row].
        pose proof (Plain_Converting m d0 HP Hv) as HC. split; [by split|]. intros Hc.
        split; [done|right; by left].
      + assert (Hacc' : accounts d0 = ∅).
        { destruct (decide (accounts d0 = ∅)); [done|by destruct Hacc]. }
        unfold MARK_ENCRYPTED. rewrite Hrow, decide_True by done. cbn [mark_row].
        pose proof (Plain_empty_Encrypted m d0 HP Hacc' Hv) as HE. split; [by split|]. intros Hc.
        split; [done|do 2 right; by left].
    - intros n. apply post_at. intros d [-> Hd]. rewrite Z.eqb_refl. by apply post_ret; intros ? ->. }
  run_step (fun (_ : unit) => Encrypted key ids P).
  - destruct (HAS_ACCOUNTS d0); [by apply post_conversion|by apply post_ret].
  - by apply post_ret.
Qed.

Lemma post_open_cipher pool busy :
  (calm = true -> busy = false) ->
  run_post calm (fun d => Sound key ids P d /\ (calm = true -> ~ Decrypting key ids P d))
    (open_cipher draws constraint pool busy (Some key))
    (fun c d => c = sealing key /\ Encrypted key ids P d) Bad.
Proof using All.
  intros Hbusy. apply post_at. intros d0 [HS Hnd].
  assert (HB : calm = false -> Bad d0) by (intros; by split).
  assert (Hcut : forall state k v e, enc_row d0 = Some (state, k, v) ->
    from_row state k v = Ok (MkStoredEncryption e k v) ->
    (forall r, resolve draws (MkStoredEncryption e k v) (HAS_ACCOUNTS d0) (HAS_PROGRESS d0) (Some key) = Ok r ->
       run_post calm (fun d => d = d0) (act_on pool busy r)
         (fun c d => c = sealing key /\ Encrypted key ids P d) Bad) ->
    (forall err, resolve draws (MkStoredEncryption e k v) (HAS_ACCOUNTS d0) (HAS_PROGRESS d0) (Some key) = Err err ->
       calm = false) ->
    run_post calm (fun d => d = d0) (open_cipher draws constraint pool busy (Some key))
      (fun c d => c = sealing key /\ Encrypted key ids P d) Bad).
  { intros state k v e Hrow Hst Hact Herr. unfold open_cipher.
    run_step (fun s d => s = MkStoredEncryption e k v /\ d = d0);
      [by apply (post_read_stored d0 state k v _ Bad)|].
    apply post_at. intros d [-> ->].
    run_step (fun b d => b = HAS_ACCOUNTS d0 /\ d = d0);
      [apply post_query; [by intros Hc d ->; apply HB|by intros d ->]|].
    apply post_at. intros d [-> ->].
    run_step (fun b d => b = HAS_PROGRESS d0 /\ d = d0);
      [apply post_query; [by intros Hc d ->; apply HB|by intros d ->]|].
    apply post_at. intros d [-> ->].
    run_step (fun r d => d = d0 /\
      resolve draws (MkStoredEncryption e k v) (HAS_ACCOUNTS d0) (HAS_PROGRESS d0) (Some key) = Ok r).
    { apply post_of_result; [by intros r d Hr ->|]. intros err d He ->. by eapply HB, Herr. }
    apply post_at. intros d [-> Hr]. by apply Hact. }
  destruct HS as [HP|[HC|[HE|HD]]].
  - pose proof HP as (_ & [k Hrow] & _). eapply (Hcut _ _ _ false); [done|done|..].
    + unfold resolve. cbn. unfold begin_conversion, new_encrypted_store.
      destruct (seal (sealing key) draws VERIFIER_CONTEXT VERIFIER_PLAINTEXT) as [v|] eqn:Hs;
        [|by destruct (HAS_ACCOUNTS d0)].
      apply open_seal in Hs; [|done].
      intros r Hr. assert (r = MkResolution (sealing key) (Some (MkNewMark (id key) v)) (HAS_ACCOUNTS d0))
        as -> by (by destruct (HAS_ACCOUNTS d0); injection Hr as <-).
      by apply post_act_marked.
    + intros err He. destruct (decide (calm = true)) as [Hc|Hc]; [|by apply not_true_is_false].
      destruct (seal_total draws key VERIFIER_CONTEXT VERIFIER_PLAINTEXT (Hcalm Hc)) as [v Hv]. exfalso. revert He.
      unfold resolve, begin_conversion, new_encrypted_store. cbn. rewrite Hv.
      by destruct (HAS_ACCOUNTS d0).
  - pose proof HC as ((k & v & Hrow & Hv) & _).
    assert (Hok : verify_key (MkStoredEncryption false k (Some v)) key = Ok (MkResolution (sealing key) None false)).
    { apply verify_key_ok. split; [by exists v|done]. }
    eapply (Hcut _ _ _ false); [done|done|..]; unfold resolve; cbn; rewrite Hok; cbn; [|done].
    intros r [= <-]. eapply post_conseq; [by apply (post_act_unmarked pool busy true)|by intros ? ->|done..].
  - pose proof HE as (_ & (k & v & Hrow & Hv) & Hp & _).
    assert (Hok : verify_key (MkStoredEncryption true k (Some v)) key = Ok (MkResolution (sealing key) None false)).
    { apply verify_key_ok. split; [by exists v|done]. }
    eapply (Hcut _ _ _ true); [done|done|..]; unfold resolve; cbn;
      (replace (HAS_PROGRESS d0) with false by (unfold HAS_PROGRESS; by rewrite bool_decide_false by auto));
      rewrite Hok; cbn; [|done].
    intros r [= <-]. eapply post_conseq; [by apply (post_act_unmarked pool busy false)|by intros ? ->|done..].
  - pose proof HD as ((k & v & Hrow & Hv) & Hp & _).
    eapply (Hcut _ _ _ true); [done|done|..]; unfold resolve; cbn;
      (replace (HAS_PROGRESS d0) with true by (unfold HAS_PROGRESS; by rewrite bool_decide_true));
      [done|].
    intros _ _. apply not_true_is_false. intros Hc. by apply (Hnd Hc).
Qed.


(** ** Decrypting *)

Lemma post_decrypt_store :
  run_post calm (fun d => Encrypted key ids P d \/ Decrypting key ids P d)
    (decrypt_store draws constraint key) (fun _ => Plain ids P) Bad.
Proof using All.
  apply post_at. intros d0 HS.
  assert (HB : calm = false -> Bad d0) by (intros; split; [done|by do 2 right]).
  assert (HM : names_key key (enc_row d0) "encrypted" /\ Mid DOpen (sealing key) ids (enc_row d0) P d0).
  { destruct HS as [(Ha & Hk & Hp & Hh)|(Hk & _ & HM)]; [|done]. split; [done|].
    split_and!; [done|by rewrite Hp; apply empty_subseteq|done|].
    eapply holds_ext; [exact Howned| |done]. intros x _. unfold form. rewrite Hp, decide_False; [done|].
    apply not_elem_of_empty. }
  destruct HM as [(k & v & Hrow & Hv) HM].
  assert (Hok : verify_key (MkStoredEncryption true k (Some v)) key = Ok (MkResolution (sealing key) None false)).
  { apply verify_key_ok. split; [by exists v|done]. }
  unfold decrypt_store.
  run_step (fun s d => s = MkStoredEncryption true k (Some v) /\ d = d0);
    [by apply (post_read_stored d0 "encrypted" k (Some v) _ Bad)|].
  apply post_at. intros d [-> ->].
  run_step (fun c d => c = sealing key /\ d = d0).
  { unfold cipher_for_decrypt. cbn [encrypted negb]. rewrite Hok. cbn.
    apply post_of_result; [by intros c d [= <-] ->|done]. }
  apply post_at. intros d [-> ->].
  eapply post_conseq; [apply (post_run_open (enc_row d0))|by intros ? ->| |].
  - intros _ d (Ha & Hp & He & Hh). split_and!; [done|exists None; by rewrite He, Hrow|done|done].
  - intros d [Hc [HM'|(Ha & Hp & He & Hh)]]; (split; [done|]).
    + pose proof HM' as (Ha & Hsub & He & Hh).
      assert (Hk : names_key key (enc_row d) "encrypted") by (exists k, v; by rewrite He).
      destruct (decide (progress d = ∅)) as [Hp|Hp].
      * do 2 right; left. split_and!; [done..|]. eapply holds_ext; [exact Howned| |done].
        intros x _. unfold form. rewrite Hp, decide_False; [done|]. apply not_elem_of_empty.
      * do 3 right. split_and!; [done..|by rewrite He].
    + left. split_and!; [done|exists None; by rewrite He, Hrow|done|done].
Qed.
End laws.

(** ** Rotating *)

Section rotation.
Context `{crypto : Crypto} `{!CryptoLaws crypto} (draws : Draws).
Context (Hdraws : draws_ok draws) (calm : bool) (old new : StoreKey).
Context (ids : gset Z) (P : gmap CellKey bytes) (Howned : owned P ids).
Context (Hcalm : calm = true -> seals_always draws new).

Let turn := TRotate (sealing old) (sealing new).

(** The accounts of [rest] are still under the old key. *)
Definition Rotating (row : option (string * option bytes * option bytes)) (rest : list Z) (d : Db) : Prop :=
  accounts d = ids /\ progress d = ∅ /\ enc_row d = row /\ NoDup rest /\
  holds (fun device => if decide (device ∈ rest) then sealing old else sealing new) P d.

Lemma post_rotate_accounts row l (X : Prop) :
  (calm = false -> X) ->
  run_post calm (Rotating row l) (each (convert_columns draws turn) l)
    (fun _ => Rotating row []) (fun _ => X).
Proof using All.
  intros HX. apply (post_each calm (Rotating row)). intros device rest.
  apply post_at. intros d0 (Ha & Hp & He & [Hni Hnd]%NoDup_cons & Hh).
  eapply post_conseq; [apply (post_convert_columns draws calm turn device d0 X HX)|done| |done].
  - intros column parts blob e Hcol Hk Ht. apply HX. apply not_true_is_false. intros Hc.
    assert (Hpl : is_Some (P !! (device, sc_table column, parts))).
    { apply elem_of_dom. rewrite <-(proj1 Hh). by eapply (elem_of_dom_2 (M := gmap _)). }
    destruct Hpl as [plain Hpl].
    pose proof (proj2 Hh device column parts blob plain Hcol Hk Hpl) as Ho.
    cbn in Ho. rewrite decide_True in Ho by (by left).
    destruct (seal_total draws new (place device column parts) plain (Hcalm Hc)) as [b Hb].
    revert Ht. unfold turn_blob, turn, open_at, seal_at. fold (place device column parts).
    rewrite Ho. cbn. by rewrite Hb.
  - intros ? d Ht. pose proof Ht as ((Ha1 & Hp1 & He1) & _). split_and!; try congruence.
    eapply holds_ext; [exact Howned| |eapply (turned_holds draws turn device); [done| |exact Hh|done]].
    + intros x _. cbn. destruct (decide (x = device)) as [->|Hne].
      * by rewrite decide_False.
      * destruct (decide (x ∈ rest)) as [Hx|Hx].
        -- rewrite decide_True; [done|]. by right.
        -- rewrite decide_False; [done|]. by intros [|]%elem_of_cons.
    + cbn. rewrite decide_True; [done|]. by left.
Qed.

Lemma post_rotate pool busy d0 :
  (calm = true -> busy = false /\ id old ≠ id new) -> Encrypted old ids P d0 ->
  run_post calm (fun d => d = d0) (rotate_store draws pool busy old new)
    (fun _ => Encrypted new ids P) (fun d => calm = false /\ (d = d0 \/ Encrypted new ids P d)).
Proof using All.
  intros Hq HE. pose proof HE as (Ha & (k & v & Hrow & Hv) & Hp & Hh).
  set (Bad := fun d => calm = false /\ (d = d0 \/ Encrypted new ids P d)).
  assert (HB : calm = false -> Bad d0) by (intros; split; auto).
  unfold rotate_store.
  run_step (fun s d => s = MkStoredEncryption true k (Some v) /\ d = d0);
    [by apply (post_read_stored calm d0 "encrypted" k (Some v) _ Bad)|].
  apply post_at. intros d [-> ->].
  run_step (fun b d => b = false /\ d = d0).
  { apply post_query; [by intros Hc d ->; apply HB|]. intros d ->. split; [|done].
    unfold HAS_PROGRESS. by rewrite bool_decide_false by auto. }
  apply post_at. intros d [-> ->].
  assert (Hmark : marked_with old (MkStoredEncryption true k (Some v))) by (by exists v).
  run_step (fun rot d => d = d0 /\
    plan_rotation draws (MkStoredEncryption true k (Some v)) false old new = Ok rot).
  { apply post_of_result; [done|]. intros e d He ->. apply HB, not_true_is_false. intros Hc.
    pose proof (plan_rotation_total draws (MkStoredEncryption true k (Some v)) old new eq_refl Hmark
      (proj2 (Hq Hc)) (seal_total draws new _ _ (Hcalm Hc))) as Hok. by rewrite He in Hok. }
  apply post_at. intros d [-> Hplan]. rename a into rot.
  apply (plan_rotation_ok draws) in Hplan as (_ & _ & _ & Hid & Hfrom & Hto & (v' & Hv' & Hnew)); [|done].
  injection Hv' as Hv'. unfold rotate_run.
  run_step (fun l d => l = SELECT_ACCOUNT_IDS d0 /\ d = d0);
    [apply post_query; [by intros Hc d ->; apply HB|by intros d ->]|].
  apply post_at. intros d [-> ->]. cbv zeta. rewrite Hfrom, Hto.
  run_step (fun (_ : unit) => Encrypted new ids P).
  - apply post_transaction; [|by intros Hc d ->; apply HB|by intros Hc _ d Hd; split; auto].
    intros d ->. set (l := merge_sort Z.le _).
    run_step (fun (_ : unit) => Rotating (enc_row d0) []).
    + eapply post_conseq; [apply (post_rotate_accounts (enc_row d0) l (Bad d0))| |done|done]; [done|].
      intros d ->. split_and!; try done.
      * unfold l, SELECT_ACCOUNT_IDS. rewrite !merge_sort_Permutation. apply NoDup_elements.
      * eapply holds_ext; [exact Howned| |exact Hh]. intros x Hx. cbv beta. rewrite decide_True; [done|].
        unfold l, SELECT_ACCOUNT_IDS. rewrite !merge_sort_Permutation, elem_of_elements. by rewrite Ha.
    + unfold swap_mark.
      run_step (fun n d => n = 1 /\ Encrypted new ids P d).
      * apply post_stmt; [by intros Hc ? _; apply HB|]. intros d (Ha1 & Hp1 & He1 & _ & Hh1).
        unfold ROTATE_MARK. rewrite He1, Hrow, decide_True by done. cbn. split; [done|].
        split_and!; [done| |done|].
        -- exists (Some (mark_key_id (rotate_mark rot))), v'. cbn. by rewrite Hv'.
        -- eapply holds_ext; [exact Howned| |exact Hh1]. intros x _. cbv beta. rewrite decide_False; [done|].
           apply not_elem_of_nil.
      * apply post_at. intros d [-> Hd]. cbn. by apply post_ret; intros ? ->.
  - run_step (fun (_ : unit) => Encrypted new ids P); [|by apply post_ret].
    eapply post_conseq; [apply (post_scrub calm (Encrypted new ids P) pool busy)|done|done|]; [done|tauto|].
    intros d [Hc Hd]. split; auto.
Qed.
End rotation.

(** ** Properties *)

Section promises.
Context `{crypto : Crypto} `{!CryptoLaws crypto}.
Implicit Types (P : gmap CellKey bytes) (ids : gset Z) (w : World Db).

Lemma never_calm (Q : Prop) : false = true -> Q.
Proof using Type. done. Qed.

(** C3.  Opening a store with its key never loses a secret: from a plaintext store, a
    half-converted, an encrypted or a half-decrypted one with content [P], whatever statement
    fails and wherever the run is cut off, the store left behind is again one of those four
    with the same content; and when it opens, every blob is sealed and opens under the key. *)
Theorem open_cipher_never_loses draws constraint key ids P pool busy w :
  draws_ok draws -> owned P ids -> Sound key ids P (db w) ->
  let '(r, w') := open_cipher draws constraint pool busy (Some key) w in
  Sound key ids P (db w') /\
  forall c, r = Ok c -> c = sealing key /\ Encrypted key ids P (db w').
Proof using All.
  intros Hd Ho HS.
  pose proof (post_open_cipher draws constraint Hd false key ids P Ho (never_calm _) pool busy (never_calm _)
    w (never_calm _) (conj HS (never_calm _))) as H.
  destruct (open_cipher draws constraint pool busy (Some key) w) as [[c|e] w'].
  - destruct H as [[-> HE] _]. split; [by do 2 right; left|]. by intros c [= <-].
  - destruct H as [_ H]. by split.
Qed.

(** C5.  An interrupted conversion is finished by opening the store again with the same key:
    with no statement failing, a library that seals and a random source that answers, opening
    a plaintext, half-converted or encrypted store succeeds and leaves every blob sealed. *)
Theorem interrupted_conversion_resumes draws constraint key ids P pool d :
  draws_ok draws -> owned P ids -> seals_always draws key ->
  Sound key ids P d -> ~ Decrypting key ids P d ->
  exists d', open_cipher draws constraint pool false (Some key) (MkWorld d []) =
      (Ok (sealing key), MkWorld d' []) /\ Encrypted key ids P d'.
Proof using All.
  intros Hd Ho Hs HS Hnd.
  pose proof (post_open_cipher draws constraint Hd true key ids P Ho (fun _ => Hs) pool false (fun _ => eq_refl)
    (MkWorld d []) (fun _ => eq_refl) (conj HS (fun _ => Hnd))) as H.
  destruct (open_cipher draws constraint pool false (Some key) (MkWorld d [])) as [[c|e] [d' fs]].
  - destruct H as [[-> HE] Hf]. specialize (Hf eq_refl). cbn in Hf, HE. subst fs. eauto.
  - destruct H as [[=] _].
Qed.

(** C6.  [decrypt] gives the content back: whatever statement fails the store is left in a
    state that holds the same content; when it ends, every blob is its plaintext and the store
    names no key; and with no statement failing it ends, from a half-decrypted store too. *)
Theorem decrypt_gives_content_back draws constraint key ids P w :
  draws_ok draws -> owned P ids ->
  Encrypted key ids P (db w) \/ Decrypting key ids P (db w) ->
  let '(r, w') := decrypt_store draws constraint key w in
  Sound key ids P (db w') /\ (forall n, r = Ok n -> Plain ids P (db w')) /\
  (faults w = [] -> seals_always draws key -> is_ok r = true).
Proof using All.
  intros Hd Ho HS.
  pose proof (post_decrypt_store draws constraint Hd false key ids P Ho (never_calm _) w (never_calm _) HS) as H.
  pose proof (fun Hs : seals_always draws key => post_decrypt_store draws constraint Hd true key ids P
    Ho (fun _ => Hs) w) as Hc.
  destruct (decrypt_store draws constraint key w) as [[n|e] w'].
  - destruct H as [HP _]. split_and!; [by left|by intros|done].
  - destruct H as [_ H]. split_and!; [done|done|]. intros Hf Hs.
    by destruct (Hc Hs (fun _ => Hf) HS).
Qed.

(** C4.  Rotating the key is atomic: whatever statement fails, the store is left exactly as it
    was, under the old key, or whole under the new one with the same content; when [rotate]
    ends it is the latter, and with no statement failing it ends. *)
Theorem rotation_is_atomic draws old new ids P pool busy w :
  draws_ok draws -> owned P ids -> Encrypted old ids P (db w) ->
  let '(r, w') := rotate_store draws pool busy old new w in
  (db w' = db w \/ Encrypted new ids P (db w')) /\
  (forall n, r = Ok n -> Encrypted new ids P (db w')) /\
  (faults w = [] -> seals_always draws new -> id old ≠ id new -> busy = false -> is_ok r = true).
Proof using All.
  intros Hd Ho HE.
  pose proof (post_rotate draws Hd false old new ids P Ho (never_calm _) pool busy (db w)
    (never_calm _) HE w (never_calm _) eq_refl) as H.
  pose proof (fun (Hs : seals_always draws new) (Hid : id old ≠ id new) (Hb : busy = false) =>
    post_rotate draws Hd true old new ids P Ho (fun _ => Hs) pool busy (db w)
    (fun _ => conj Hb Hid) HE w) as Hc.
  destruct (rotate_store draws pool busy old new w) as [[n|e] w'].
  - destruct H as [HN _]. split_and!; [by right|by intros|done].
  - destruct H as [_ H]. split_and!; [done|done|]. intros Hf Hs Hid Hb.
    by destruct (Hc Hs Hid Hb (fun _ => Hf) eq_refl).
Qed.

(** A scrub that failed is never retried: opening an encrypted store changes nothing in
    it, so the old plaintext bytes a busy checkpoint left in the storage stay there, although
    the error tells the operator to run again. *)
Theorem failed_scrub_is_not_retried draws constraint key ids P pool busy w :
  Encrypted key ids P (db w) ->
  db (open_cipher draws constraint pool busy (Some key) w).2 = db w.
Proof using Type.
  intros (_ & (k & v & Hrow & Hv) & Hp & _).
  assert (H : run_post false (fun d => d = db w) (open_cipher draws constraint pool busy (Some key))
    (fun _ d => d = db w) (fun d => d = db w)).
  { unfold open_cipher.
    run_step (fun s d => s = MkStoredEncryption true k (Some v) /\ d = db w);
      [by apply (post_read_stored false (db w) "encrypted" k (Some v))|].
    apply post_at. intros d [-> ->].
    run_step (fun (_ : bool) d => d = db w); [by apply post_query|].
    run_step (fun b d => b = false /\ d = db w).
    { apply post_query; [done|]. intros d ->. split; [|done]. unfold HAS_PROGRESS.
      by rewrite bool_decide_false by auto. }
    apply post_at. intros d [-> ->].
    run_step (fun r d => r = MkResolution (sealing key) None false /\ d = db w).
    { apply post_of_result; [|done]. intros r d Hr ->. split; [|done].
      unfold resolve in Hr. cbn in Hr. by apply verify_key_ok in Hr as [_ ->]. }
    apply post_at. intros d [-> ->].
    run_step (fun (_ : unit) d => d = db w); [by apply post_ret|].
    run_step (fun (_ : unit) d => d = db w); by apply post_ret. }
  specialize (H w ltac:(done) eq_refl).
  destruct (open_cipher draws constraint pool busy (Some key) w) as [[c|e] w']; cbn; tauto.
Qed.
End promises.

(** ** One account with one identity key *)

Definition refused : StoreError := Database "constraint".
Definition alice_key : CellKey := (4, "identities", [PText "alice"]).
Definition small_plain : gmap CellKey bytes := {[ alice_key := str_bytes "secret" ]}.
Definition small_store : Db :=
  MkDb {[4]} small_plain ∅ (Some ("plaintext", None, None)) ∅.

(** The store after a conversion whose checkpoint found the WAL busy. *)
Definition busy_run : StoreResult BlobCipher * World Db :=
  open_cipher toy_draws refused Sqlite true (Some toy_key) (MkWorld small_store []).
Definition sealed_store : Db := db busy_run.2.

Lemma small_owned : owned small_plain {[4]}.
Proof.
  intros device table parts H. unfold small_plain in H. rewrite dom_singleton_L in H.
  apply elem_of_singleton in H. injection H as -> _ _. set_solver.
Qed.

Lemma small_is_plain : Plain {[4]} small_plain small_store.
Proof.
  split_and!; [done|by exists None|done|]. split; [done|].
  intros device column parts blob plain _ Hk HP.
  unfold small_store in Hk. cbn [cells] in Hk. rewrite HP in Hk. by injection Hk as ->.
Qed.

Lemma toy_seals_always : seals_always toy_draws toy_key.
Proof. split_and!; [done|by eexists|by eexists]. Qed.

Lemma toy_seals_other : seals_always toy_draws other_key.
Proof. split_and!; [done|by eexists|by eexists]. Qed.

Lemma small_holds d blob :
  cells d = {[ alice_key := blob ]} ->
  open_blob (sealing toy_key) (place 4 identities [PText "alice"]) blob = Ok (str_bytes "secret") ->
  holds (fun _ => sealing toy_key) small_plain d.
Proof.
  intros Hd Ho. split; [by rewrite Hd; unfold small_plain; rewrite !dom_singleton_L|].
  intros device column parts b plain Hcol Hk HP. unfold small_plain in HP.
  apply lookup_singleton_Some in HP as [Hkey <-]. rewrite Hd, <-Hkey, lookup_singleton_eq in Hk.
  injection Hk as <-. injection Hkey as <- Ht <-.
  by assert (column = identities) as ->
    by (apply sealed_columns_by_table; [done|apply identities_sealed|done]).
Qed.

Definition sealed_blob : bytes :=
  default [] (result_ok (seal (sealing toy_key) toy_draws (place 4 identities [PText "alice"])
    (str_bytes "secret"))).

Lemma sealed_is_encrypted : Encrypted toy_key {[4]} small_plain sealed_store.
Proof.
  split_and!; [vm_compute; reflexivity| |vm_compute; reflexivity|].
  - exists (Some (mark_key_id fresh_mark)), (mark_verifier fresh_mark).
    split; vm_compute; reflexivity.
  - apply (small_holds sealed_store sealed_blob).
    + vm_cast_no_check (eq_refl (cells sealed_store)).
    + vm_compute; reflexivity.
Qed.

Lemma open_cipher_never_loses_witness :
  let '(r, w') := open_cipher toy_draws refused Pg false (Some toy_key)
                    (MkWorld small_store [Fine; Fine; Fine; Fine; Fine; Fine; Fine; Fails refused]) in
  is_ok r = false /\ Sound toy_key {[4]} small_plain (db w').
Proof.
  pose proof (open_cipher_never_loses toy_draws refused toy_key {[4]} small_plain Pg false
    (MkWorld small_store [Fine; Fine; Fine; Fine; Fine; Fine; Fine; Fails refused])
    toy_draws_ok small_owned (or_introl small_is_plain)) as H.
  assert (E : is_ok (open_cipher toy_draws refused Pg false (Some toy_key)
    (MkWorld small_store [Fine; Fine; Fine; Fine; Fine; Fine; Fine; Fails refused])).1 = false)
    by (vm_compute; reflexivity).
  destruct (open_cipher toy_draws refused Pg false (Some toy_key) _) as [r w'].
  split; [exact E|apply H].
Defined.

Lemma interrupted_conversion_resumes_witness :
  exists d', open_cipher toy_draws refused Pg false (Some toy_key) (MkWorld small_store []) =
    (Ok (sealing toy_key), MkWorld d' []) /\ Encrypted toy_key {[4]} small_plain d'.
Proof.
  apply (interrupted_conversion_resumes toy_draws refused toy_key {[4]} small_plain Pg small_store
    toy_draws_ok small_owned toy_seals_always (or_introl small_is_plain)).
  intros (_ & Hp & _). by apply Hp.
Defined.

Lemma decrypt_gives_content_back_witness :
  let '(r, w') := decrypt_store toy_draws refused toy_key (MkWorld sealed_store []) in
  Sound toy_key {[4]} small_plain (db w') /\
  (forall n, r = Ok n -> Plain {[4]} small_plain (db w')) /\
  (faults (MkWorld sealed_store []) = [] -> seals_always toy_draws toy_key -> is_ok r = true).
Proof.
  apply (decrypt_gives_content_back toy_draws refused toy_key {[4]} small_plain (MkWorld sealed_store [])
    toy_draws_ok small_owned).
  left. exact sealed_is_encrypted.
Defined.

Lemma rotation_is_atomic_witness :
  let '(r, w') := rotate_store toy_draws Sqlite false toy_key other_key (MkWorld sealed_store []) in
  (db w' = sealed_store \/ Encrypted other_key {[4]} small_plain (db w')) /\
  (forall n, r = Ok n -> Encrypted other_key {[4]} small_plain (db w')) /\
  (faults (MkWorld sealed_store []) = [] -> seals_always toy_draws other_key ->
   id toy_key ≠ id other_key -> false = false -> is_ok r = true).
Proof.
  apply (rotation_is_atomic toy_draws toy_key other_key {[4]} small_plain Sqlite false
    (MkWorld sealed_store []) toy_draws_ok small_owned). exact sealed_is_encrypted.
Defined.

(** The conversion sealed the blob and failed on the busy checkpoint; the next start opens the
    store and leaves the old plaintext of [identities] where it is. *)
Lemma failed_scrub_is_not_retried_witness :
  busy_run.1 = Err (Connection WAL_BUSY) /\ old_bytes sealed_store = {["identities"]} /\
  (open_cipher toy_draws refused Sqlite false (Some toy_key) (MkWorld sealed_store [])).1 =
    Ok (sealing toy_key) /\
  db (open_cipher toy_draws refused Sqlite false (Some toy_key) (MkWorld sealed_store [])).2 = sealed_store.
Proof.
  split_and!; [vm_compute; reflexivity|vm_compute; reflexivity|vm_compute; reflexivity|].
  apply (failed_scrub_is_not_retried toy_draws refused toy_key {[4]} small_plain Sqlite false
    (MkWorld sealed_store [])).
  exact sealed_is_encrypted.
Defined.
