(* ===== verification/BatchChunks.v ===== *)
(** * Batched reads with a fixed-size list (storage/batch_chunks.rs)

    Every batched read binds exactly [READ_CHUNK] values: the request without its repeats, cut
    into chunks, the last one padded with its own last value. *)

From S2P Require Import Prelude.

Definition READ_CHUNK : nat := 100.

(** [in_placeholders]. *)
Fixpoint join_comma (l : list string) : string :=
  match l with
  | [] => ""
  | [s] => s
  | s :: rest => s +:+ ", " +:+ join_comma rest
  end.

Definition in_placeholders (first count : nat) : string :=
  join_comma ((fun n : nat => "$" +:+ pretty n) <$> seq first count).

Section chunks.
Context {T : Type} `{EqDecision T}.
Implicit Types (items chunk : list T).

(** The filter over the [HashSet] of the values seen so far. *)
Fixpoint drop_seen (seen items : list T) : list T :=
  match items with
  | [] => []
  | item :: rest =>
      if decide (item ∈ seen) then drop_seen seen rest
      else item :: drop_seen (item :: seen) rest
  end.

(** [slice::chunks(READ_CHUNK)], with as many turns as there are values. *)
Fixpoint chunks_of (fuel : nat) (items : list T) : list (list T) :=
  match fuel, items with
  | S fuel, _ :: _ => take READ_CHUNK items :: chunks_of fuel (drop READ_CHUNK items)
  | _, _ => []
  end.

(** [pad_to_read_chunk]: [Vec::resize] with the last value. *)
Definition pad_to_read_chunk (chunk : list T) : list T :=
  match last chunk with
  | Some x => take READ_CHUNK chunk ++ replicate (READ_CHUNK - length chunk) x
  | None => chunk
  end.

Definition padded_chunks (items : list T) : list (list T) :=
  let unique := drop_seen [] items in
  pad_to_read_chunk <$> chunks_of (length unique) unique.

(** ** Lemmas *)

Lemma elem_of_drop_seen seen items x : x ∈ drop_seen seen items <-> x ∈ items /\ x ∉ seen.
Proof.
  revert seen. induction items as [|y items IH]; intros seen; cbn.
  - rewrite elem_of_nil. tauto.
  - rewrite elem_of_cons. case_decide as Hy.
    + rewrite IH. split; [tauto|]. intros [[->|] ?]; tauto.
    + rewrite elem_of_cons, IH, not_elem_of_cons.
      destruct (decide (x = y)) as [->|]; [tauto|]. tauto.
Qed.

Lemma drop_seen_nodup seen items : NoDup (drop_seen seen items).
Proof.
  revert seen. induction items as [|y items IH]; intros seen; cbn; [constructor|].
  case_decide; [done|]. apply NoDup_cons. split; [|done].
  rewrite elem_of_drop_seen. intros [_ Hn]. apply Hn. by left.
Qed.

Lemma chunks_of_concat fuel items : (length items <= fuel)%nat -> concat (chunks_of fuel items) = items.
Proof.
  revert items. induction fuel as [|fuel IH]; intros [|x items] Hlen; cbn [chunks_of concat]; try done.
  - cbn in Hlen. lia.
  - rewrite IH; [by rewrite take_drop|]. rewrite length_drop. cbn in *. unfold READ_CHUNK. lia.
Qed.

Lemma chunks_of_size fuel items chunk :
  chunk ∈ chunks_of fuel items -> chunk ≠ [] /\ (length chunk <= READ_CHUNK)%nat.
Proof.
  revert items. induction fuel as [|fuel IH]; intros [|x items]; cbn [chunks_of];
    try (by intros []%not_elem_of_nil).
  intros [-> |]%elem_of_cons; [|eauto]. split; [done|]. rewrite length_take. lia.
Qed.

Lemma elem_of_pad chunk x :
  (length chunk <= READ_CHUNK)%nat -> x ∈ pad_to_read_chunk chunk <-> x ∈ chunk.
Proof.
  intros Hlen. unfold pad_to_read_chunk. destruct (last chunk) as [y|] eqn:E; [|done].
  rewrite elem_of_app, take_ge by done. split; [|by left]. intros [|Hr]; [done|].
  apply elem_of_replicate in Hr as [-> _]. by eapply last_Some_elem_of.
Qed.

Lemma length_pad chunk :
  chunk ≠ [] -> (length chunk <= READ_CHUNK)%nat -> length (pad_to_read_chunk chunk) = READ_CHUNK.
Proof.
  intros Hne Hlen. unfold pad_to_read_chunk. destruct (last chunk) eqn:E.
  - rewrite length_app, length_take, length_replicate. lia.
  - by apply last_None in E.
Qed.

Lemma elem_of_padded_chunks items x :
  (exists chunk, chunk ∈ padded_chunks items /\ x ∈ chunk) <-> x ∈ items.
Proof.
  unfold padded_chunks. set (unique := drop_seen [] items).
  assert (Hu : x ∈ unique <-> x ∈ items).
  { unfold unique. rewrite elem_of_drop_seen. split; [tauto|]. intros; split; [done|apply not_elem_of_nil]. }
  rewrite <-Hu. transitivity (x ∈ concat (chunks_of (length unique) unique));
    [|by rewrite chunks_of_concat].
  split.
  - intros (chunk & (c & -> & Hc)%list_elem_of_fmap & Hx).
    pose proof (chunks_of_size _ _ _ Hc) as [_ Hlen].
    apply (elem_of_pad _ _ Hlen) in Hx. apply list_elem_of_In, in_concat.
    exists c. split; by apply list_elem_of_In.
  - intros Hx. apply list_elem_of_In, in_concat in Hx as (c & Hc & Hx).
    apply list_elem_of_In in Hc. apply list_elem_of_In in Hx. pose proof (chunks_of_size _ _ _ Hc) as [_ Hlen].
    exists (pad_to_read_chunk c). split; [apply list_elem_of_fmap; by exists c|by apply elem_of_pad].
Qed.

(** No value is in two chunks. *)
Lemma padded_chunks_apart items pre c1 mid c2 post x :
  padded_chunks items = pre ++ c1 :: mid ++ c2 :: post -> x ∈ c1 -> x ∉ c2.
Proof.
  unfold padded_chunks. set (unique := drop_seen [] items). intros E H1 H2.
  apply fmap_app_inv in E as (l1 & l2 & _ & E & E1). cbn in E.
  destruct l2 as [|k1 l2]; [done|]. cbn in E. injection E as Ek1 E.
  symmetry in E. apply fmap_app_inv in E as (l3 & l4 & _ & E4 & ->).
  destruct l4 as [|k2 l4]; [done|]. cbn in E4. injection E4 as Ek2 E4.
  assert (Hin1 : k1 ∈ chunks_of (length unique) unique) by (rewrite E1; set_solver).
  assert (Hin2 : k2 ∈ chunks_of (length unique) unique) by (rewrite E1; set_solver).
  rewrite Ek1 in H1. rewrite Ek2 in H2.
  apply (elem_of_pad _ _ (proj2 (chunks_of_size _ _ _ Hin1))) in H1.
  apply (elem_of_pad _ _ (proj2 (chunks_of_size _ _ _ Hin2))) in H2.
  pose proof (drop_seen_nodup [] items) as Hnd. fold unique in Hnd.
  rewrite <-(chunks_of_concat (length unique) unique) in Hnd by done.
  rewrite E1, concat_app in Hnd. cbn in Hnd. rewrite concat_app in Hnd. cbn in Hnd.
  apply NoDup_app in Hnd as (_ & _ & Hnd). apply NoDup_app in Hnd as (_ & Hd & _).
  apply (Hd x); [done|]. set_solver.
Qed.

(** Chunks that share no value. *)
Fixpoint apart (chunks : list (list T)) : Prop :=
  match chunks with
  | [] => True
  | c :: rest => (forall c' x, c' ∈ rest -> x ∈ c -> x ∉ c') /\ apart rest
  end.

Lemma apart_of_splits chunks :
  (forall pre c1 mid c2 post x, chunks = pre ++ c1 :: mid ++ c2 :: post -> x ∈ c1 -> x ∉ c2) ->
  apart chunks.
Proof.
  induction chunks as [|c chunks IH]; intros Hs; [done|]. split.
  - intros c' x (mid & post & ->)%list_elem_of_split Hx. by apply (Hs [] c mid c' post x).
  - apply IH. intros pre c1 mid c2 post x ->. apply (Hs (c :: pre) c1 mid c2 post x). done.
Qed.

Lemma padded_chunks_apart' items : apart (padded_chunks items).
Proof. apply apart_of_splits. intros. by eapply padded_chunks_apart. Qed.
End chunks.

(** A batched read asks for exactly what was requested: every chunk binds [READ_CHUNK]
    values, a value is in some chunk exactly when the request names it, and in one chunk only. *)
Theorem padded_chunks_cover {T} `{EqDecision T} (items : list T) :
  Forall (fun chunk => length chunk = READ_CHUNK) (padded_chunks items) /\
  (forall x, (exists chunk, chunk ∈ padded_chunks items /\ x ∈ chunk) <-> x ∈ items) /\
  (forall i j c1 c2 x, padded_chunks items !! i = Some c1 -> padded_chunks items !! j = Some c2 ->
     x ∈ c1 -> x ∈ c2 -> i = j).
Proof.
  split_and!.
  - apply Forall_forall. intros chunk Hc. unfold padded_chunks in Hc.
    apply list_elem_of_fmap in Hc as (c & -> & Hc). by apply length_pad; eapply chunks_of_size.
  - apply elem_of_padded_chunks.
  - assert (Hlt : forall i j c1 c2 x, (i < j)%nat -> padded_chunks items !! i = Some c1 ->
      padded_chunks items !! j = Some c2 -> x ∈ c1 -> x ∉ c2).
    { intros i j c1 c2 x Hij H1 H2. apply take_drop_middle in H1 as E.
      rewrite <-E in H2. rewrite lookup_app_r in H2 by (rewrite length_take; lia).
      rewrite length_take in H2. apply lookup_lt_Some in H1 as Hi.
      replace (j - i `min` length (padded_chunks items))%nat with (S (j - i - 1)) in H2 by lia.
      cbn in H2. apply take_drop_middle in H2 as E2. rewrite <-E2 in E.
      by eapply (padded_chunks_apart items). }
    intros i j c1 c2 x H1 H2 Hx1 Hx2. destruct (Nat.lt_trichotomy i j) as [Hij|[|Hij]]; [|done|].
    + by destruct (Hlt i j c1 c2 x).
    + by destruct (Hlt j i c2 c1 x).
Qed.
