(* ===== verification/Refinement.v ===== *)
(** * What a store promises: a refinement interface

    A store of the daemon is an operation type, an abstract state and, on the concrete side, a
    computation for each operation.  [StoreRefinement] is the promise made to the stores'
    clients: each operation has its effect on the abstract state and answers by it, or fails
    and has its whole effect or none.  The theorem about histories is proved once, against the
    interface; the Signal and the protocol store are instances. *)

From S2P Require Import Prelude StoreError Database.

Class StoreRefinement (D St Op R : Type) : Type := {
  run_op : Op -> Run D R;
  rep : D -> St -> Prop;
  step_op : Op -> St -> St;
  reply_ok : Op -> St -> R -> Prop;
  op_ok : Op -> Prop;
  op_refines : forall op d0 s, rep d0 s -> op_ok op ->
    run_post false (fun d => d = d0) (run_op op)
      (fun r d => rep d (step_op op s) /\ reply_ok op s r)
      (fun d => d = d0 \/ rep d (step_op op s));
}.

(** A client that runs its operations one after the other, whatever each answers. *)
Fixpoint run_all `{StoreRefinement D St Op R} (ops : list Op) (w : World D) :
    list (StoreResult R) * World D :=
  match ops with
  | [] => ([], w)
  | op :: rest =>
      let '(r, w1) := run_op op w in
      let '(rs, w2) := run_all rest w1 in
      (r :: rs, w2)
  end.

(** The abstract state after the operations that took effect. *)
Fixpoint steps_taken `{StoreRefinement D St Op R} (ops : list Op) (taken : list bool) (s : St) : St :=
  match ops, taken with
  | op :: ops, true :: taken => steps_taken ops taken (step_op op s)
  | _ :: ops, false :: taken => steps_taken ops taken s
  | _, _ => s
  end.

(** The operations, which of them took effect, and the answers, side by side: an answer [Ok]
    means the operation took effect and answers by the state it found. *)
Fixpoint answers_ok `{StoreRefinement D St Op R} (ops : list Op) (taken : list bool)
    (rs : list (StoreResult R)) (s : St) : Prop :=
  match ops, taken, rs with
  | op :: ops, t :: taken, r :: rs =>
      (forall a, r = Ok a -> t = true /\ reply_ok op s a) /\
      answers_ok ops taken rs (if t then step_op op s else s)
  | [], [], [] => True
  | _, _, _ => False
  end.

Lemma run_all_history `{StoreRefinement D St Op R} ops w s :
  rep (db w) s -> Forall op_ok ops ->
  let '(rs, w') := run_all ops w in
  exists taken, rep (db w') (steps_taken ops taken s) /\ answers_ok ops taken rs s.
Proof.
  revert w s. induction ops as [|op ops IH]; intros w s Hrep Hops; cbn; [by exists []|].
  apply Forall_cons in Hops as [Hop Hops].
  pose proof (op_refines op (db w) s Hrep Hop w ltac:(done) eq_refl) as Hr.
  destruct (run_op op w) as [[a|e] w1].
  - destruct Hr as [[Hrep1 Ha] _]. specialize (IH w1 (step_op op s) Hrep1 Hops).
    destruct (run_all ops w1) as [rs w2]. destruct IH as (taken & Hend & Hans).
    exists (true :: taken). cbn. split_and!; [done| |done]. by intros a' [= <-].
  - assert (Hcase : exists t : bool, rep (db w1) (if t then step_op op s else s)).
    { destruct Hr as [-> |Hr]; [by exists false|by exists true]. }
    destruct Hcase as [t Hrep1]. specialize (IH w1 _ Hrep1 Hops).
    destruct (run_all ops w1) as [rs w2]. destruct IH as (taken & Hend & Hans).
    exists (t :: taken). cbn. split_and!; [|discriminate|done]. by destruct t.
Qed.

(** ** Tables that represent a map

    The rows of a table, by their key columns, against the values they stand for: [f] is how a
    key is stored and [R] what a stored value says of the abstract one. *)
Section rows.
Context `{Countable K, Countable L} {A B : Type}.
Context (f : L -> K) (ok : L -> Prop) (R : L -> A -> B -> Prop).
Context (f_inj : forall x y, ok x -> ok y -> f x = f y -> x = y).
Implicit Types (m : gmap K A) (s : gmap L B).

Definition rows_rep m s : Prop :=
  (forall k, ok k -> option_Forall2 (R k) (m !! f k) (s !! k)) /\
  (forall k a, m !! k = Some a -> exists l, ok l /\ k = f l) /\
  (forall l b, s !! l = Some b -> ok l).

Lemma rows_insert m s l a b :
  rows_rep m s -> ok l -> R l a b -> rows_rep (<[f l := a]> m) (<[l := b]> s).
Proof using f_inj.
  intros (Hr & Hk & Hl) Hok HR. split_and!.
  - intros l' Hok'. destruct (decide (l' = l)) as [->|Hne].
    + rewrite !lookup_insert_eq. by constructor.
    + rewrite !lookup_insert_ne; [by apply Hr|done|]. intros E. by apply Hne, f_inj.
  - intros k a'. destruct (decide (k = f l)) as [->|Hne]; [by exists l|].
    rewrite lookup_insert_ne by done. apply Hk.
  - intros l' b'. destruct (decide (l' = l)) as [->|Hne]; [done|].
    rewrite lookup_insert_ne by done. apply Hl.
Qed.

Lemma rows_delete m s l : rows_rep m s -> ok l -> rows_rep (delete (f l) m) (delete l s).
Proof using f_inj.
  intros (Hr & Hk & Hl) Hok. split_and!.
  - intros l' Hok'. destruct (decide (l' = l)) as [->|Hne].
    + rewrite !lookup_delete_eq. by constructor.
    + rewrite !lookup_delete_ne; [by apply Hr|done|]. intros E. by apply Hne, f_inj.
  - intros k a' Hka. apply lookup_delete_Some in Hka as [_ Hka]. by eapply Hk.
  - intros l' b' Hlb. apply lookup_delete_Some in Hlb as [_ Hlb]. by eapply Hl.
Qed.

(** An UPDATE of the rows with one key. *)
Lemma rows_alter m s l (fa : A -> A) (fb : B -> B) :
  rows_rep m s -> ok l -> (forall a b, R l a b -> R l (fa a) (fb b)) ->
  rows_rep (alter fa (f l) m) (alter fb l s).
Proof using f_inj.
  intros (Hr & Hk & Hl) Hok HR. split_and!.
  - intros l' Hok'. destruct (decide (l' = l)) as [->|Hne].
    + rewrite !lookup_alter_eq. destruct (Hr l Hok); constructor; auto.
    + rewrite !lookup_alter_ne; [by apply Hr|done|]. intros E. by apply Hne, f_inj.
  - intros k a' Hka. assert (Hs : is_Some (m !! k)) by (apply (lookup_alter_is_Some fa m (f l)); by eexists).
    destruct Hs as [a Ha]. by eapply Hk.
  - intros l' b' Hlb. assert (Hs : is_Some (s !! l')) by (apply (lookup_alter_is_Some fb s l); by eexists).
    destruct Hs as [b Hb]. by eapply Hl.
Qed.

Lemma rows_lookup m s l b :
  rows_rep m s -> s !! l = Some b -> exists a, m !! f l = Some a /\ R l a b.
Proof using Type.
  intros (Hr & _ & Hl) Hb. specialize (Hr l (Hl l b Hb)). rewrite Hb in Hr.
  inversion Hr; subst. eauto.
Qed.

Lemma rows_row m s k a :
  rows_rep m s -> m !! k = Some a -> exists l b, ok l /\ k = f l /\ s !! l = Some b /\ R l a b.
Proof using Type.
  intros (Hr & Hk & _) Ha. destruct (Hk k a Ha) as (l & Hok & ->). exists l.
  specialize (Hr l Hok). rewrite Ha in Hr. inversion Hr; subst. eauto.
Qed.
End rows.

(** Tables keyed by what the state is keyed by. *)
Section same_keys.
Context `{Countable K} {A B : Type} (R : K -> A -> B -> Prop).
Implicit Types (m : gmap K A) (s : gmap K B).

Lemma map_Forall2_filter m s (P : K * A -> Prop) (Q : K * B -> Prop)
    `{!forall x, Decision (P x)} `{!forall x, Decision (Q x)} :
  (forall k a b, R k a b -> P (k, a) <-> Q (k, b)) -> map_Forall2 R m s ->
  map_Forall2 R (filter P m) (filter Q s).
Proof using Type.
  intros HPQ Hm k. rewrite !map_lookup_filter. destruct (Hm k) as [a b HR|]; cbn; [|constructor].
  destruct (decide (P (k, a))) as [HP|HP]; destruct (decide (Q (k, b))) as [HQ|HQ];
    rewrite ?option_guard_True, ?option_guard_False by done; cbn; try (by constructor);
    exfalso; specialize (HPQ k a b HR); tauto.
Qed.

Lemma map_Forall2_size m s : map_Forall2 R m s -> size m = size s.
Proof using Type.
  intros Hm. assert (E : (fun _ => tt) <$> m = (fun _ => tt) <$> s).
  { apply map_eq. intros k. rewrite !lookup_fmap. by destruct (Hm k). }
  rewrite <-(map_size_fmap (fun _ => tt) m), E. apply map_size_fmap.
Qed.

Lemma map_Forall2_some_r m s k b : map_Forall2 R m s -> s !! k = Some b -> exists a, m !! k = Some a /\ R k a b.
Proof using Type. intros Hm Hb. specialize (Hm k). rewrite Hb in Hm. inversion Hm; subst. eauto. Qed.

Lemma map_Forall2_some_l m s k a : map_Forall2 R m s -> m !! k = Some a -> exists b, s !! k = Some b /\ R k a b.
Proof using Type. intros Hm Ha. specialize (Hm k). rewrite Ha in Hm. inversion Hm; subst. eauto. Qed.
End same_keys.

(** A filter that keeps everything. *)
Lemma filter_all {A} (P : A -> Prop) `{!forall x, Decision (P x)} (l : list A) :
  (forall x, x ∈ l -> P x) -> filter P l = l.
Proof.
  induction l as [|x l IH]; intros HP; [done|]. rewrite filter_cons_True by (apply HP; by left).
  f_equal. apply IH. intros y Hy. apply HP. by right.
Qed.

(** What a loop of inserts leaves, when no key repeats. *)
Lemma foldl_insert_lookup `{Countable K} {W} (l : list (K * W)) (m : gmap K W) j :
  NoDup l.*1 -> (j ∉ l.*1 -> m !! j = None) ->
  foldl (fun m x => <[x.1 := x.2]> m) m l !! j = (list_to_map l : gmap K W) !! j.
Proof.
  revert m. induction l as [|[x v] l IH]; intros m Hnd Hm; cbn.
  - by rewrite Hm, lookup_empty by apply not_elem_of_nil.
  - cbn in Hnd, Hm. apply NoDup_cons in Hnd as [Hni Hnd]. destruct (decide (j = x)) as [->|Hne].
    + rewrite lookup_insert_eq.
      assert (Hkeep : forall m' : gmap K W, m' !! x = Some v -> x ∉ l.*1 ->
        foldl (fun m x => <[x.1 := x.2]> m) m' l !! x = Some v).
      { clear. induction l as [|[y u] l IH]; intros m' Hm' Hx; cbn; [done|]. cbn in Hx.
        apply not_elem_of_cons in Hx as [Hne Hx]. apply IH; [by rewrite lookup_insert_ne|done]. }
      apply Hkeep; [apply lookup_insert_eq|done].
    + rewrite lookup_insert_ne by done. apply IH; [done|]. intros Hj. rewrite lookup_insert_ne by done.
      apply Hm. apply not_elem_of_cons. done.
Qed.

(** ** Batches *)

(** What a body does to the state, its transaction does whole or not at all. *)
Lemma post_all_or_nothing {D A St} (calm : bool) (R : D -> St -> Prop) (body : Run D A) d0 s s' :
  R d0 s -> run_post calm (fun d => R d s) body (fun _ d => R d s') (fun _ => calm = false) ->
  run_post calm (fun d => d = d0) (transaction body) (fun _ d => R d s')
    (fun d => calm = false /\ (d = d0 \/ R d s')).
Proof.
  intros Hrep Hb. apply post_transaction.
  - intros d ->. eapply (post_conseq calm _ (fun d => R d s) _ _ _ _ (fun _ => calm = false)); [exact Hb|..].
    + by intros d ->.
    + done.
    + intros d Hc. split; auto.
  - intros Hc d ->. auto.
  - intros Hc a d Hd. auto.
Qed.

(** A loop, item by item. *)
Lemma post_loop {D A St} (calm : bool) (R : D -> St -> Prop) (f : A -> Run D unit) (g : St -> A -> St) l s :
  (forall a s', a ∈ l -> run_post calm (fun d => R d s') (f a) (fun _ d => R d (g s' a)) (fun _ => calm = false)) ->
  run_post calm (fun d => R d s) (each f l) (fun _ d => R d (foldl g s l)) (fun _ => calm = false).
Proof.
  revert s. induction l as [|a l IH]; intros s Hf; cbn; [by apply post_ret|].
  run_step (fun (_ : unit) d => R d (g s a)); [apply Hf; by left|]. apply IH. intros a' s' Ha. apply Hf. by right.
Qed.

(** A loop in one transaction has the effect of all its items, or none. *)
Lemma post_batch {D A St} (calm : bool) (R : D -> St -> Prop) (f : A -> Run D unit)
    (g : St -> A -> St) l d0 s :
  R d0 s ->
  (forall a s', a ∈ l -> run_post calm (fun d => R d s') (f a) (fun _ d => R d (g s' a))
                           (fun _ => calm = false)) ->
  run_post calm (fun d => d = d0) (transaction (each f l)) (fun _ d => R d (foldl g s l))
    (fun d => calm = false /\ (d = d0 \/ R d (foldl g s l))).
Proof. intros Hrep Hf. by apply (post_all_or_nothing calm R _ d0 s); [|apply post_loop]. Qed.

(** The same when the items are numbered. *)
Lemma imap_pair_snd {A} (l : list A) : (imap pair l).*2 = l.
Proof. apply list_eq. intros i. rewrite list_lookup_fmap, list_lookup_imap. by destruct (l !! i). Qed.

Lemma foldl_snd {A B St} (g : St -> B -> St) (l : list (A * B)) s :
  foldl (fun s x => g s x.2) s l = foldl g s l.*2.
Proof. revert s. induction l as [|[a b] l IH]; intros s; cbn; [done|]. apply IH. Qed.

Lemma post_numbered_loop {D A St} (calm : bool) (R : D -> St -> Prop) (f : nat * A -> Run D unit)
    (g : St -> A -> St) l s :
  (forall i a s', a ∈ l -> run_post calm (fun d => R d s') (f (i, a)) (fun _ d => R d (g s' a))
                             (fun _ => calm = false)) ->
  run_post calm (fun d => R d s) (each f (imap pair l)) (fun _ d => R d (foldl g s l)) (fun _ => calm = false).
Proof.
  intros Hf. assert (E : foldl (fun s x => g s x.2) s (imap pair l) = foldl g s l)
    by (by rewrite foldl_snd, imap_pair_snd).
  rewrite <-E.
  apply (post_loop calm R f (fun s x => g s x.2)). intros [i a] s' Hin. apply Hf.
  rewrite <-(imap_pair_snd l). apply list_elem_of_fmap. by exists (i, a).
Qed.

Lemma post_numbered_batch {D A St} (calm : bool) (R : D -> St -> Prop) (f : nat * A -> Run D unit)
    (g : St -> A -> St) l d0 s :
  R d0 s ->
  (forall i a s', a ∈ l -> run_post calm (fun d => R d s') (f (i, a)) (fun _ d => R d (g s' a))
                             (fun _ => calm = false)) ->
  run_post calm (fun d => d = d0) (transaction (each f (imap pair l))) (fun _ d => R d (foldl g s l))
    (fun d => calm = false /\ (d = d0 \/ R d (foldl g s l))).
Proof. intros Hrep Hf. by apply (post_all_or_nothing calm R _ d0 s); [|apply post_numbered_loop]. Qed.
