(* ===== verification/Backend.v ===== *)
(** * A store's backend: one account's rows, sealed (storage/sql/mod.rs)

    What the Signal, the app-state and the protocol store share: the sealing of one column, the
    batched read, and the reasoning about writes, reads and batches against the state the rows
    stand for. *)

From S2P Require Import Prelude StoreError Database StoreKey BlobCipher BatchChunks Refinement.

(** [SqlBackend]: one account's view of the store. *)
Record Backend : Type := MkBackend {
  backend_device : Z;
  backend_cipher : BlobCipher;
}.

Definition seal_row `{Crypto} {D} (backend : Backend) (draws : Draws) (t c : string) (row plain : bytes) :
    Run D bytes :=
  of_result (seal_at (backend_cipher backend) draws (backend_device backend) t c row plain).

Definition open_row `{Crypto} (backend : Backend) (t c : string) (row stored : bytes) : StoreResult bytes :=
  open_at (backend_cipher backend) (backend_device backend) t c row stored.

(** The loop over the chunks of a batched read: the rows of each, decoded and appended. *)
Fixpoint read_chunks {D T R V} (select : list T -> D -> list R)
    (decode : R -> StoreResult (T * V)) (chunks : list (list T)) (found : list (T * V)) :
    Run D (list (T * V)) :=
  match chunks with
  | [] => mret found
  | chunk :: rest =>
      rows ← query (select chunk);
      opened ← of_result (mapM decode rows);
      read_chunks select decode rest (found ++ opened)
  end.

(** ** Against a state

    [ready d s]: the database stands for the state [s]. *)
Section against.
Context {D St Rp : Type} (calm : bool) (ready : D -> St -> Prop).
Implicit Types (P X : D -> Prop).

(** What an error leaves: the store as it was, or the whole effect of the operation. *)
Definition undone (d0 : D) (s' : St) (d : D) : Prop :=
  calm = false /\ (d = d0 \/ ready d s').

Lemma undone_start d0 s' : calm = false -> undone d0 s' d0.
Proof using Type. intros Hc. split; auto. Qed.

Lemma post_done P (m : Run D unit) (v : Rp) s' X :
  run_post calm P m (fun _ d => ready d s') X ->
  run_post calm P (_ ← m; mret v) (fun r d => ready d s' /\ r = v) X.
Proof using Type.
  intros Hm. eapply post_bind; [exact Hm|]. intros ?. apply post_ret. by intros d Hd.
Qed.

(** A read answers by the state, and changes nothing. *)
Lemma post_read {A B} (g : D -> A) (k : A -> StoreResult B) d0 v X :
  (calm = false -> X d0) -> k (g d0) = Ok v ->
  run_post calm (fun d => d = d0) (x ← query g; of_result (k x)) (fun r d => r = v /\ d = d0) X.
Proof using Type.
  intros HX Hk. run_step (fun x d => x = g d0 /\ d = d0).
  { apply post_query; [by intros Hc d ->; apply HX|by intros d ->]. }
  apply post_at. intros d [-> ->]. apply post_of_result; [|congruence].
  intros r d Hr ->. split; [congruence|done].
Qed.

Lemma post_answer {A} (m : Run D A) (f : A -> Rp) d0 s v X :
  ready d0 s -> run_post calm (fun d => d = d0) m (fun r d => r = v /\ d = d0) X ->
  run_post calm (fun d => d = d0) (x ← m; mret (f x)) (fun r d => ready d s /\ r = f v) X.
Proof using Type.
  intros Hr Hm. eapply post_bind; [exact Hm|]. intros x. apply post_ret. by intros d [-> ->].
Qed.

Lemma post_reply {A} (m : Run D A) (f : A -> Rp) (R : Rp -> Prop) (V : A -> Prop)
    d0 s X :
  ready d0 s -> (forall v, V v -> R (f v)) ->
  run_post calm (fun d => d = d0) m (fun v d => d = d0 /\ V v) X ->
  run_post calm (fun d => d = d0) (x ← m; mret (f x)) (fun r d => ready d s /\ R r) X.
Proof using Type.
  intros Hr HR Hm. eapply post_bind; [exact Hm|]. intros x. apply post_ret. intros d [-> HV]. auto.
Qed.

(** A read as an operation: one query, its rows decoded, and the answer. *)
Lemma post_get {A B} (g : D -> A) (k : A -> B) (f : B -> Rp) (R : Rp -> Prop) d0 s X :
  ready d0 s -> (calm = false -> X d0) -> R (f (k (g d0))) ->
  run_post calm (fun d => d = d0) (x ← (x ← query g; mret (k x)); mret (f x))
    (fun r d => ready d s /\ R r) X.
Proof using Type.
  intros Hr HX HR. run_step (fun x d => x = k (g d0) /\ d = d0).
  - run_step (fun x d => x = g d0 /\ d = d0); [by apply post_query; [intros Hc d ->; apply HX|intros d ->]|].
    apply post_ret. by intros d [-> ->].
  - apply post_ret. by intros d [-> ->].
Qed.

Lemma post_got {A B} (g : D -> A) (k : A -> StoreResult B) (f : B -> Rp) (R : Rp -> Prop) d0 s v X :
  ready d0 s -> (calm = false -> X d0) -> k (g d0) = Ok v -> R (f v) ->
  run_post calm (fun d => d = d0) (x ← (x ← query g; of_result (k x)); mret (f x))
    (fun r d => ready d s /\ R r) X.
Proof using Type.
  intros Hr HX Hk HR. run_step (fun x d => x = v /\ d = d0); [by apply post_read|].
  apply post_ret. by intros d [-> ->].
Qed.

(** One statement that puts or deletes. *)
Lemma post_write (f : D -> StoreResult unit * D) d0 s' :
  match f d0 with (Ok _, d') => ready d' s' | (Err _, _) => calm = false end ->
  run_post calm (fun d => d = d0) (execute f) (fun _ d => ready d s') (undone d0 s').
Proof using Type.
  intros Hf. apply post_execute; [apply undone_start|].
  destruct (f d0) as [[[]|e] d']; [|by apply undone_start]. split; [done|]. intros Hc. split; auto.
Qed.

(** One that also answers. *)
Lemma post_write_value {A} (f : D -> StoreResult A * D) d0 s' (V : A -> Prop) :
  match f d0 with (Ok a, d') => ready d' s' /\ V a | (Err _, _) => calm = false end ->
  run_post calm (fun d => d = d0) (execute f) (fun a d => ready d s' /\ V a) (undone d0 s').
Proof using Type.
  intros Hf. apply post_execute; [apply undone_start|].
  destruct (f d0) as [[a|e] d']; [|by apply undone_start]. split; [done|]. intros Hc. split; [done|]. right. tauto.
Qed.

(** One statement of a batch. *)
Lemma post_item (f : D -> StoreResult unit * D) s s' :
  (forall d, ready d s -> match f d with (Ok _, d') => ready d' s' | (Err _, _) => calm = false end) ->
  run_post calm (fun d => ready d s) (stmt f) (fun _ d => ready d s') (fun _ => calm = false).
Proof using Type.
  intros Hf. apply post_stmt; [done|]. intros d Hd. specialize (Hf d Hd).
  by destruct (f d) as [[[]|e] d'].
Qed.

(** An empty batch is answered without a statement. *)
Lemma post_unless_empty {A} (l : list A) (g : St -> A -> St) (m : Run D unit) d0 s :
  ready d0 s ->
  run_post calm (fun d => d = d0) m (fun _ d => ready d (foldl g s l)) (undone d0 (foldl g s l)) ->
  run_post calm (fun d => d = d0) (if bool_decide (l = []) then mret tt else m)
    (fun _ d => ready d (foldl g s l)) (undone d0 (foldl g s l)).
Proof using Type.
  intros Hr Hm. case_bool_decide as E; [|done]. apply post_ret. by intros d ->; rewrite E.
Qed.

End against.

(** ** Sealed writes *)

(** A blob that holds [plain], and is empty exactly when [plain] is: the statements that look at
    the length of a stored blob see the length of what it holds. *)
Lemma seal_empty `{crypto : Crypto} cipher draws c plain blob : seal cipher draws c plain = Ok blob -> blob = [] <-> plain = [].
Proof.
  destruct cipher as [[key|]]; [|by intros [= <-]]. change (MkBlobCipher (Some key)) with (sealing key).
  destruct (decide (plain = [])) as [->|Hne]; [by intros [= <-]|].
  intros (nonce & sealed & _ & _ & _ & ->)%seal_sealing_ok; done.
Qed.

Section sealed.
Context {D St : Type} `{crypto : Crypto} `{!CryptoLaws crypto}.
Context (calm : bool) (ready : D -> St -> Prop) (me : Z) (cipher : BlobCipher).
Let b := MkBackend me cipher.
Implicit Types (P : D -> Prop).

Lemma post_seal_row {A} P draws t c row plain (k : bytes -> Run D A) Q X :
  draws_ok draws -> (calm = true -> can_seal cipher draws) ->
  (calm = false -> forall d, P d -> X d) ->
  (forall blob, open_at cipher me t c row blob = Ok plain -> (blob = [] <-> plain = []) ->
     run_post calm P (k blob) Q X) ->
  run_post calm P (seal_row b draws t c row plain ≫= k) Q X.
Proof using CryptoLaws0.
  intros Hd Hs HX Hk.
  eapply (post_bind calm P _ (fun blob d =>
    P d /\ open_at cipher me t c row blob = Ok plain /\ (blob = [] <-> plain = []))).
  - unfold seal_row, seal_at. cbn [backend_cipher b]. apply post_of_result.
    + intros blob d Hb HP. split_and!; [done|by eapply open_seal|by eapply seal_empty].
    + intros e d He HP. apply HX; [|done]. apply not_true_is_false. intros Hc.
      destruct (can_seal_total cipher draws (MkBlobContext me t c row) plain (Hs Hc)) as [blob Hb].
    assert (Habs : Err e = Ok blob) by (etrans; [symmetry; exact He|exact Hb]). discriminate.
  - intros blob. apply post_at. intros d0 (HP & Ho & He). eapply post_conseq; [by apply Hk|by intros ? ->|done|done].
Qed.

(** A sealed upsert of a batch. *)
Lemma post_sealed_item draws t c row plain (f : bytes -> D -> StoreResult unit * D) s s' :
  draws_ok draws -> (calm = true -> can_seal cipher draws) ->
  (forall blob d, open_at cipher me t c row blob = Ok plain -> (blob = [] <-> plain = []) -> ready d s ->
     match f blob d with (Ok _, d') => ready d' s' | (Err _, _) => calm = false end) ->
  run_post calm (fun d => ready d s) (seal_row b draws t c row plain ≫= fun blob => stmt (f blob))
    (fun _ d => ready d s') (fun _ => calm = false).
Proof using CryptoLaws0.
  intros Hd Hs Hf. apply post_seal_row; [done..|]. intros blob Ho He. apply post_item. intros d Hr. by apply Hf.
Qed.
End sealed.

(** ** Reads of many rows *)

Section many.
Context {D V : Type} (calm : bool).
Implicit Types (X : D -> Prop).

(** The rows of one query, decoded. *)
Lemma decode_rows {R T} (decode : R -> StoreResult (T * V)) (rows : list R) (want : T -> Prop)
    (value : T -> option V) :
  NoDup rows ->
  (forall row, row ∈ rows -> exists x p, decode row = Ok (x, p) /\ want x /\ value x = Some p) ->
  (forall x p, want x -> value x = Some p -> exists row, row ∈ rows /\ decode row = Ok (x, p)) ->
  (forall r1 r2 x p1 p2, r1 ∈ rows -> r2 ∈ rows -> decode r1 = Ok (x, p1) -> decode r2 = Ok (x, p2) -> r1 = r2) ->
  exists l, mapM decode rows = Ok l /\ NoDup l.*1 /\
    forall x p, (x, p) ∈ l <-> want x /\ value x = Some p.
Proof using Type.
  intros Hnd Hsound Hcomp Hinj.
  assert (Hmap : exists l, mapM decode rows = Ok l).
  { clear Hnd Hcomp Hinj. induction rows as [|row rows IH]; cbn; [by eexists|].
    destruct (Hsound row) as (x & p & -> & _); [by left|]. cbn.
    destruct IH as [l ->]; [intros; apply Hsound; by right|]. by eexists. }
  destruct Hmap as [l Hl]. exists l. split; [done|]. apply mapM_result_ok in Hl.
  assert (Hin : forall x p, (x, p) ∈ l <-> exists row, row ∈ rows /\ decode row = Ok (x, p)).
  { clear Hnd Hsound Hcomp Hinj. intros x p. induction Hl as [|row y rows l Hy Hl IH].
    - split; [by intros ?%not_elem_of_nil|by intros (? & ?%not_elem_of_nil & _)].
    - rewrite elem_of_cons, IH. split.
      + intros [<-|(r & Hr & Hd)]; [exists row; split; [by left|done]|exists r; split; [by right|done]].
      + intros (r & [->|Hr]%elem_of_cons & Hd); [left; congruence|right; eauto]. }
  split.
  - clear Hsound Hcomp Hin. induction Hl as [|row [x p] rows l Hy Hl IH]; [constructor|].
    apply NoDup_cons in Hnd as [Hni Hnd]. cbn. apply NoDup_cons. split.
    + intros ([x' p'] & Hx & Hin)%list_elem_of_fmap. cbn in Hx. subst x'.
      assert (Hrow : exists r, r ∈ rows /\ decode r = Ok (x, p')).
      { clear -Hl Hin. induction Hl as [|r y rows l Hy Hl IH]; [by apply not_elem_of_nil in Hin|].
        apply elem_of_cons in Hin as [<-|Hin]; [exists r; split; [by left|done]|].
        destruct (IH Hin) as (r' & ? & ?). exists r'. split; [by right|done]. }
      destruct Hrow as (r & Hr & Hd). apply Hni.
      rewrite (Hinj row r x p p'); [done|by left|by right|done|done].
    + apply IH; [done|]. intros r1 r2 y q1 q2 H1 H2. apply Hinj; by right.
  - intros x p. rewrite Hin. split.
    + intros (row & Hr & Hd). destruct (Hsound row Hr) as (x' & p' & Hd' & ? & ?). rewrite Hd in Hd'. by injection Hd' as <- <-.
    + intros [Hw Hv]. by apply Hcomp.
Qed.

(** What a select has to answer for each chunk. *)
Definition good_select {T R} (select : list T -> D -> list R)
    (decode : R -> StoreResult (T * V)) (value : T -> option V) (d : D)
    (chunk : list T) : Prop :=
  exists l, mapM decode (select chunk d) = Ok l /\ NoDup l.*1 /\
    forall x p, (x, p) ∈ l <-> x ∈ chunk /\ value x = Some p.

Lemma post_read_chunks `{EqDecision T} {R} (select : list T -> D -> list R)
    (decode : R -> StoreResult (T * V)) (value : T -> option V) d0 chunks found X :
  (calm = false -> X d0) ->
  (forall chunk, chunk ∈ chunks -> good_select select decode value d0 chunk) ->
  apart chunks -> NoDup found.*1 ->
  (forall chunk x, chunk ∈ chunks -> x ∈ chunk -> x ∉ found.*1) ->
  run_post calm (fun d => d = d0) (read_chunks select decode chunks found)
    (fun l d => d = d0 /\ NoDup l.*1 /\ forall x p, (x, p) ∈ l <->
       (x, p) ∈ found \/ (exists chunk, chunk ∈ chunks /\ x ∈ chunk) /\ value x = Some p) X.
Proof using Type.
  intros HX. revert found. induction chunks as [|chunk chunks IH]; intros found Hgood Hap Hnd Hout.
  - apply post_ret. intros d ->. split_and!; [done|done|]. intros x p. split; [by left|].
    intros [|((c & ?%not_elem_of_nil & _) & _)]; done.
  - cbn [read_chunks]. destruct Hap as [Hap1 Hap]. destruct (Hgood chunk) as (l & Hl & Hlnd & Hlin); [by left|].
    run_step (fun rows d => rows = select chunk d0 /\ d = d0).
    { apply post_query; [by intros Hc d ->; apply HX|by intros d ->]. }
    apply post_at. intros d [-> ->].
    run_step (fun o d => o = l /\ d = d0).
    { apply post_of_result; [|congruence]. intros o d Ho ->. split; [congruence|done]. }
    apply post_at. intros d [-> ->].
    assert (Hkeys : forall x, x ∈ l.*1 -> x ∈ chunk).
    { intros x ([x' p] & -> & Hx)%list_elem_of_fmap. by apply Hlin in Hx as [? _]. }
    eapply post_conseq; [apply (IH (found ++ l))|done| |done].
    + intros c Hc. apply Hgood. by right.
    + done.
    + rewrite fmap_app. apply NoDup_app. split_and!; [done| |done].
      intros x Hx Hxl%Hkeys. by apply (Hout chunk x ltac:(by left) Hxl).
    + intros c x Hc Hx. rewrite fmap_app, not_elem_of_app. split; [by apply (Hout c); [right|]|].
      intros Hxl%Hkeys. by apply (Hap1 c x Hc Hxl).
    + intros l' d (-> & Hnd' & Hin). split_and!; [done|done|]. intros x p. rewrite Hin, elem_of_app, Hlin.
      split.
      * intros [[Hf|[Hx Hv]]|((c & Hc & Hx) & Hv)].
        { by left. }
        { right. split; [exists chunk; split; [by left|done]|done]. }
        right. split; [exists c; split; [by right|done]|done].
      * intros [Hf|((c & Hc & Hx) & Hv)]; [by left; left|].
        apply elem_of_cons in Hc as [->|Hc]; [by left; right|]. right. split; [by exists c|done].
Qed.

Lemma post_read_padded `{EqDecision T} {R} (select : list T -> D -> list R)
    (decode : R -> StoreResult (T * V)) (value : T -> option V) d0 items X :
  (calm = false -> X d0) ->
  (forall chunk, chunk ⊆ items -> good_select select decode value d0 chunk) ->
  run_post calm (fun d => d = d0) (read_chunks select decode (padded_chunks items) [])
    (fun l d => d = d0 /\ NoDup l.*1 /\ forall x p, (x, p) ∈ l <-> x ∈ items /\ value x = Some p) X.
Proof using Type.
  intros HX Hgood. eapply (post_conseq calm _ (fun d => d = d0) _ _ _ X X);
    [apply (post_read_chunks select decode value)|done| |done].
  - done.
  - intros chunk Hc. apply Hgood. intros x Hx. apply elem_of_padded_chunks. by exists chunk.
  - apply padded_chunks_apart'.
  - constructor.
  - intros. apply not_elem_of_nil.
  - intros l d (-> & Hnd & Hin). split_and!; [done|done|]. intros x p. rewrite Hin, elem_of_padded_chunks.
    split; [|by right]. by intros [?%not_elem_of_nil|].
Qed.

(** Reading a key twice: the rows of a map, by a function of their key. *)
Lemma omap_nodup {K U W} `{Countable K} (m : gmap K U) (f : K * U -> option W) :
  (forall k1 v1 k2 v2 w, m !! k1 = Some v1 -> m !! k2 = Some v2 ->
     f (k1, v1) = Some w -> f (k2, v2) = Some w -> k1 = k2) ->
  NoDup (omap f (map_to_list m)).
Proof using Type.
  intros Hf. pose proof (NoDup_fst_map_to_list m) as Hnd.
  assert (Hin : forall k v, (k, v) ∈ map_to_list m -> m !! k = Some v) by (intros; by apply elem_of_map_to_list).
  induction (map_to_list m) as [|[k v] l IH]; cbn; [constructor|].
  cbn in Hnd. apply NoDup_cons in Hnd as [Hni Hnd].
  assert (IH' : NoDup (omap f l)) by (apply IH; [done|intros; apply Hin; by right]).
  destruct (f (k, v)) as [w|] eqn:Ew; [|done]. apply NoDup_cons. split; [|done].
  intros ([k' v'] & Hk' & Hw)%list_elem_of_omap. apply Hni, list_elem_of_fmap.
  exists (k', v'). split; [|done]. cbn. apply (Hf k v k' v' w); [apply Hin; by left|apply Hin; by right|done|done].
Qed.

(** A SELECT over a table that stands for a map: [f] picks and projects the rows, [key] says
    which key an asked-for value is. *)
Lemma select_rep {K A B Rw T} `{Countable K} (R : K -> A -> B -> Prop) (m : gmap K A) (s : gmap K B)
    (f : K * A -> option Rw) (decode : Rw -> StoreResult (T * V)) (want : T -> Prop) (key : T -> K) (val : B -> V) :
  map_Forall2 R m s ->
  (forall k a b row, R k a b -> f (k, a) = Some row ->
     exists x, want x /\ key x = k /\ decode row = Ok (x, val b)) ->
  (forall x a b, want x -> R (key x) a b -> exists row, f (key x, a) = Some row /\ decode row = Ok (x, val b)) ->
  exists l, mapM decode (omap f (map_to_list m)) = Ok l /\ NoDup l.*1 /\
    forall x v, (x, v) ∈ l <-> want x /\ val <$> s !! key x = Some v.
Proof using Type.
  intros Hm Hsound Hcomp.
  assert (Hrow : forall row, row ∈ omap f (map_to_list m) -> exists k a b x, m !! k = Some a /\
    s !! k = Some b /\ f (k, a) = Some row /\ want x /\ key x = k /\ decode row = Ok (x, val b)).
  { intros row ([k a] & Hin & Hf)%list_elem_of_omap. apply elem_of_map_to_list in Hin.
    destruct (map_Forall2_some_l R m s k a Hm Hin) as (b & Hb & HR).
    destruct (Hsound k a b row HR Hf) as (x & ? & ? & ?). exists k, a, b, x. done. }
  assert (Hone : forall r1 r2 x p1 p2, r1 ∈ omap f (map_to_list m) -> r2 ∈ omap f (map_to_list m) ->
    decode r1 = Ok (x, p1) -> decode r2 = Ok (x, p2) -> r1 = r2).
  { intros r1 r2 x p1 p2 I1 I2 D1 D2.
    destruct (Hrow r1 I1) as (k1 & a1 & b1 & x1 & M1 & _ & F1 & _ & K1 & E1).
    destruct (Hrow r2 I2) as (k2 & a2 & b2 & x2 & M2 & _ & F2 & _ & K2 & E2).
    assert (x1 = x /\ x2 = x) as [-> ->] by (split; congruence). subst k1 k2. congruence. }
  apply decode_rows.
  - apply omap_nodup. intros k1 a1 k2 a2 row M1 M2 F1 F2.
    destruct (map_Forall2_some_l R m s k1 a1 Hm M1) as (b1 & _ & R1).
    destruct (map_Forall2_some_l R m s k2 a2 Hm M2) as (b2 & _ & R2).
    destruct (Hsound _ _ _ _ R1 F1) as (x1 & _ & <- & E1), (Hsound _ _ _ _ R2 F2) as (x2 & _ & <- & E2). congruence.
  - intros row Hin. destruct (Hrow row Hin) as (k & a & b & x & _ & Hb & _ & Hw & <- & Hd).
    exists x, (val b). split_and!; [done|done|]. by rewrite Hb.
  - intros x v Hw Hv. destruct (s !! key x) as [b|] eqn:Hb; [|discriminate]. injection Hv as <-.
    destruct (map_Forall2_some_r R m s _ _ Hm Hb) as (a & Ha & HR).
    destruct (Hcomp x a b Hw HR) as (row & Hf & Hd). exists row. split; [|done].
    apply list_elem_of_omap. exists (key x, a). split; [by apply elem_of_map_to_list|done].
  - done.
Qed.
End many.
