(* ===== verification/SignalStore.v ===== *)
(** * The Signal store of one account (storage/sql/signal_store.rs, signal_sql.rs, prekeys_sql.rs)

    Identities, sessions, sender keys, prekeys and signed prekeys of every account in one
    database, scoped by [device_id] and sealed with the store's cipher.  [SignalSpec] holds what
    the store promises and that it keeps it. *)

From S2P Require Import Prelude StoreError Database StoreKey BlobCipher BatchChunks Refinement Backend.

(** The three tables of the shape (address, blob, device_id). *)
Inductive AddrTable : Type := Identities | Sessions | SenderKeys.

#[global] Instance AddrTable_eq_dec : EqDecision AddrTable.
Proof. solve_decision. Defined.

#[global] Instance AddrTable_countable : Countable AddrTable.
Proof.
  refine (inj_countable'
    (fun t => match t with Identities => 0%nat | Sessions => 1%nat | SenderKeys => 2%nat end)
    (fun n => match n with 0%nat => Identities | 1%nat => Sessions | _ => SenderKeys end) _).
  by intros [].
Defined.

(** [SealedColumn] of signal_sql.rs: the table and the column of an upsert. *)
Definition table_name (t : AddrTable) : string :=
  match t with Identities => "identities" | Sessions => "sessions" | SenderKeys => "sender_keys" end.
Definition column_name (t : AddrTable) : string :=
  match t with Identities => "key" | Sessions | SenderKeys => "record" end.

Record SignalDb : Type := MkSignalDb {
  sd_accounts : gset Z;
  addr_rows : gmap (AddrTable * string * Z) bytes;
  prekeys : gmap (Z * Z) (bytes * bool);   (* (id, device_id), the id as an i32 *)
  signed_prekeys : gmap (Z * Z) bytes;
}.

Definition set_addr_rows m d := MkSignalDb (sd_accounts d) m (prekeys d) (signed_prekeys d).
Definition set_prekeys m d := MkSignalDb (sd_accounts d) (addr_rows d) m (signed_prekeys d).
Definition set_signed_prekeys m d := MkSignalDb (sd_accounts d) (addr_rows d) (prekeys d) m.

Section signal.
Context `{crypto : Crypto}.
(** What the driver answers when the foreign key refuses a row. *)
Context (constraint : StoreError).
Context (backend : Backend).

Let me : Z := backend_device backend.

(** ** Statements (statements/signal.rs) *)

(** PUT_IDENTITY, PUT_SESSION, PUT_SENDER_KEY. *)
Definition PUT_ADDR (t : AddrTable) (address : string) (blob : bytes) (d : SignalDb) :
    StoreResult unit * SignalDb :=
  if decide (me ∈ sd_accounts d) then
    (Ok tt, set_addr_rows (<[(t, address, me) := blob]> (addr_rows d)) d)
  else (Err constraint, d).

Definition GET_ADDR (t : AddrTable) (address : string) (d : SignalDb) : option bytes :=
  addr_rows d !! (t, address, me).

Definition DELETE_ADDR (t : AddrTable) (address : string) (d : SignalDb) :
    StoreResult unit * SignalDb :=
  (Ok tt, set_addr_rows (delete (t, address, me) (addr_rows d)) d).

(** SELECT_SESSIONS: the rows of the chunk that exist, in the order the database has them. *)
Definition SELECT_SESSIONS (chunk : list string) (d : SignalDb) : list (string * bytes) :=
  omap (fun '(key, blob) =>
          let '(t, address, device) := key in
          if decide (t = Sessions /\ device = me /\ address ∈ chunk) then Some (address, blob) else None)
       (map_to_list (addr_rows d)).

Definition STORE_PREKEY (id : Z) (blob : bytes) (uploaded : bool) (d : SignalDb) :
    StoreResult unit * SignalDb :=
  if decide (me ∈ sd_accounts d) then
    (Ok tt, set_prekeys (<[(id, me) := (blob, uploaded)]> (prekeys d)) d)
  else (Err constraint, d).

Definition LOAD_PREKEY (id : Z) (d : SignalDb) : option bytes := fst <$> prekeys d !! (id, me).

Definition DELETE_PREKEY (id : Z) (d : SignalDb) : StoreResult unit * SignalDb :=
  (Ok tt, set_prekeys (delete (id, me) (prekeys d)) d).

(** The prekeys of this account: (id, blob, uploaded). *)
Definition own_prekeys (d : SignalDb) : list (Z * bytes * bool) :=
  omap (fun '(key, row) => if decide (snd key = me) then Some (fst key, fst row, snd row) else None)
       (map_to_list (prekeys d)).

Definition MAX_PREKEY_ID (d : SignalDb) : Z :=
  match own_prekeys d with
  | [] => 0
  | (id, _, _) :: rest => foldl (fun m row => Z.max m row.1.1) id rest
  end.

Definition SELECT_PREKEYS (chunk : list Z) (d : SignalDb) : list (Z * bytes) :=
  omap (fun '(id, blob, _) => if decide (id ∈ chunk) then Some (id, blob) else None) (own_prekeys d).

(** MARK_PREKEY_UPLOADED: an UPDATE, never an upsert. *)
Definition MARK_PREKEY_UPLOADED (id : Z) (d : SignalDb) : StoreResult unit * SignalDb :=
  (Ok tt, set_prekeys (alter (fun row => (fst row, true)) (id, me) (prekeys d)) d).

(** The Postgres form, one statement for the whole array. *)
Definition MARK_PREKEYS_ARRAY (ids : list Z) (d : SignalDb) : StoreResult unit * SignalDb :=
  (Ok tt, set_prekeys (map_imap (fun key row =>
     Some (if decide (snd key = me /\ fst key ∈ ids) then (fst row, true) else row)) (prekeys d)) d).

Definition STORE_SIGNED_PREKEY (id : Z) (blob : bytes) (d : SignalDb) : StoreResult unit * SignalDb :=
  if decide (me ∈ sd_accounts d) then
    (Ok tt, set_signed_prekeys (<[(id, me) := blob]> (signed_prekeys d)) d)
  else (Err constraint, d).

Definition LOAD_SIGNED_PREKEY (id : Z) (d : SignalDb) : option bytes := signed_prekeys d !! (id, me).

Definition LOAD_ALL_SIGNED_PREKEYS (d : SignalDb) : list (Z * bytes) :=
  omap (fun '(key, blob) => if decide (snd key = me) then Some (fst key, blob) else None)
       (map_to_list (signed_prekeys d)).

Definition REMOVE_SIGNED_PREKEY (id : Z) (d : SignalDb) : StoreResult unit * SignalDb :=
  (Ok tt, set_signed_prekeys (delete (id, me) (signed_prekeys d)) d).

(** ** One row *)

(** An upsert of a sealed column, by address. *)
Definition put_addr (draws : Draws) (t : AddrTable) (address : string) (plain : bytes) :
    Run SignalDb unit :=
  sealed ← seal_row backend draws (table_name t) (column_name t) (str_bytes address) plain;
  execute (PUT_ADDR t address sealed).

(** The read of a sealed column, by address. *)
Definition get_addr (t : AddrTable) (address : string) : Run SignalDb (option bytes) :=
  row ← query (GET_ADDR t address);
  of_result (transpose (open_row backend (table_name t) (column_name t) (str_bytes address) <$> row)).

(** [load_identity]: the value has to be 32 bytes. *)
Definition load_identity (address : string) : Run SignalDb (option bytes) :=
  row ← query (GET_ADDR Identities address);
  match row with
  | None => mret None
  | Some stored =>
      plain ← of_result (open_row backend "identities" "key" (str_bytes address) stored);
      if (length plain =? 32)%nat then mret (Some plain)
      else of_result (Err (Validation ("Invalid identity key length: " +:+ pretty (length plain))))
  end.

Definition delete_addr (t : AddrTable) (address : string) : Run SignalDb unit :=
  execute (DELETE_ADDR t address).

Definition put_identity draws address (key : bytes) := put_addr draws Identities address key.
Definition put_session draws address session := put_addr draws Sessions address session.
Definition put_sender_key draws address record := put_addr draws SenderKeys address record.
Definition get_session address := get_addr Sessions address.
Definition get_sender_key address := get_addr SenderKeys address.
Definition delete_identity address := delete_addr Identities address.
Definition delete_session address := delete_addr Sessions address.
Definition delete_sender_key address := delete_addr SenderKeys address.

Definition store_prekey (draws : Draws) (id : Z) (record : bytes) (uploaded : bool) :
    Run SignalDb unit :=
  sealed ← seal_row backend draws "prekeys" "key" (be4 id) record;
  execute (STORE_PREKEY (as_i32 id) sealed uploaded).

Definition load_prekey (id : Z) : Run SignalDb (option bytes) :=
  row ← query (LOAD_PREKEY (as_i32 id));
  of_result (transpose (open_row backend "prekeys" "key" (be4 id) <$> row)).

Definition remove_prekey (id : Z) : Run SignalDb unit := execute (DELETE_PREKEY (as_i32 id)).

Definition get_max_prekey_id : Run SignalDb Z :=
  max ← query MAX_PREKEY_ID;
  mret (as_u32 max).

Definition store_signed_prekey (draws : Draws) (id : Z) (record : bytes) : Run SignalDb unit :=
  sealed ← seal_row backend draws "signed_prekeys" "record" (be4 id) record;
  execute (STORE_SIGNED_PREKEY (as_i32 id) sealed).

Definition load_signed_prekey (id : Z) : Run SignalDb (option bytes) :=
  row ← query (LOAD_SIGNED_PREKEY (as_i32 id));
  of_result (transpose (open_row backend "signed_prekeys" "record" (be4 id) <$> row)).

Definition load_all_signed_prekeys : Run SignalDb (list (Z * bytes)) :=
  rows ← query LOAD_ALL_SIGNED_PREKEYS;
  of_result (mapM (fun '(id, stored) =>
    record ← open_row backend "signed_prekeys" "record" (be4 id) stored;
    Ok (as_u32 id, record)) rows).

Definition remove_signed_prekey (id : Z) : Run SignalDb unit :=
  execute (REMOVE_SIGNED_PREKEY (as_i32 id)).

(** ** Batches: one transaction, all or nothing.  Item [i] of a batch draws its nonce from
    [draws i]: a batch may seal one place more than once. *)

(** [put_address_records]; [put_identities] is the same loop over its own statement. *)
Definition put_addrs (draws : nat -> Draws) (t : AddrTable) (records : list (string * bytes)) :
    Run SignalDb unit :=
  if bool_decide (records = []) then mret tt
  else
    transaction (each (fun '(i, (address, plain)) =>
      sealed ← seal_row backend (draws i) (table_name t) (column_name t) (str_bytes address) plain;
      stmt (PUT_ADDR t address sealed)) (imap pair records)).

Definition delete_by_address (t : AddrTable) (addresses : list string) : Run SignalDb unit :=
  if bool_decide (addresses = []) then mret tt
  else transaction (each (fun address => stmt (DELETE_ADDR t address)) addresses).

Definition put_identities draws (identities : list (string * bytes)) := put_addrs draws Identities identities.
Definition put_sessions draws sessions := put_addrs draws Sessions sessions.
Definition put_sender_keys draws sender_keys := put_addrs draws SenderKeys sender_keys.
Definition delete_identities addresses := delete_by_address Identities addresses.
Definition delete_sessions addresses := delete_by_address Sessions addresses.
Definition delete_sender_keys addresses := delete_by_address SenderKeys addresses.

Definition store_prekeys (draws : nat -> Draws) (keys : list (Z * bytes)) (uploaded : bool) :
    Run SignalDb unit :=
  if bool_decide (keys = []) then mret tt
  else
    transaction (each (fun '(i, (id, record)) =>
      sealed ← seal_row backend (draws i) "prekeys" "key" (be4 id) record;
      stmt (STORE_PREKEY (as_i32 id) sealed uploaded)) (imap pair keys)).

Definition remove_prekeys (ids : list Z) : Run SignalDb unit :=
  if bool_decide (ids = []) then mret tt
  else transaction (each (fun id => stmt (DELETE_PREKEY (as_i32 id))) ids).

(** One array statement on Postgres. *)
Definition mark_uploaded_array (ids : list Z) : Run SignalDb unit :=
  execute (MARK_PREKEYS_ARRAY (as_i32 <$> ids)).

(** One job with the loop inside on SQLite. *)
Definition mark_uploaded_each (ids : list Z) : Run SignalDb unit :=
  transaction (each (fun id => stmt (MARK_PREKEY_UPLOADED (as_i32 id))) ids).

Definition mark_uploaded (postgres : bool) (ids : list Z) : Run SignalDb unit :=
  if bool_decide (ids = []) then mret tt
  else if postgres then mark_uploaded_array ids
  else mark_uploaded_each ids.

Definition get_sessions (addresses : list string) : Run SignalDb (list (string * bytes)) :=
  read_chunks SELECT_SESSIONS
    (fun '(address, stored) =>
       record ← open_row backend "sessions" "record" (str_bytes address) stored;
       Ok (address, record))
    (padded_chunks addresses) [].

Definition load_prekeys (ids : list Z) : Run SignalDb (list (Z * bytes)) :=
  read_chunks (fun chunk => SELECT_PREKEYS (as_i32 <$> chunk))
    (fun '(id, stored) =>
       record ← open_row backend "prekeys" "key" (be4 id) stored;
       Ok (as_u32 id, record))
    (padded_chunks ids) [].
End signal.
