(* ===== verification/SignalSpec.v ===== *)
(** * What the Signal store promises

    Every call of every account, as one operation type, against a map of plaintexts; the
    [StoreRefinement] instance says that the sealed tables keep that map. *)

From S2P Require Import Prelude StoreError Database StoreKey BlobCipher BatchChunks Refinement Backend SignalStore.

Inductive SignalOp : Type :=
| OpPut (t : AddrTable) (address : string) (plain : bytes)
| OpGet (t : AddrTable) (address : string)
| OpDelete (t : AddrTable) (address : string)
| OpStorePrekey (id : Z) (record : bytes) (uploaded : bool)
| OpLoadPrekey (id : Z)
| OpRemovePrekey (id : Z)
| OpMaxPrekeyId
| OpStoreSigned (id : Z) (record : bytes)
| OpLoadSigned (id : Z)
| OpLoadAllSigned
| OpRemoveSigned (id : Z)
| OpPutBatch (t : AddrTable) (records : list (string * bytes))
| OpDeleteBatch (t : AddrTable) (addresses : list string)
| OpStorePrekeys (keys : list (Z * bytes)) (uploaded : bool)
| OpRemovePrekeys (ids : list Z)
| OpMarkUploaded (postgres : bool) (ids : list Z)
| OpGetSessions (addresses : list string)
| OpLoadPrekeys (ids : list Z).

(** A call: the account it is for, and the nonces its seals draw. *)
Record SignalCall : Type := MkSignalCall {
  call_device : Z;
  call_draws : nat -> Draws;
  call_op : SignalOp;
}.

Inductive SignalReply : Type :=
| Done
| Row (plain : option bytes)
| MaxId (id : Z)
| Pairs (l : list (string * bytes))
| IdPairs (l : list (Z * bytes)).

(** The keys of every account, in the clear; ids are [u32]s. *)
Record KeyState : Type := MkKeyState {
  ks_addr : gmap (AddrTable * string * Z) bytes;
  ks_prekeys : gmap (Z * Z) (bytes * bool);
  ks_signed : gmap (Z * Z) bytes;
}.

Definition up_addr f s := MkKeyState (f (ks_addr s)) (ks_prekeys s) (ks_signed s).
Definition up_prekeys f s := MkKeyState (ks_addr s) (f (ks_prekeys s)) (ks_signed s).
Definition up_signed f s := MkKeyState (ks_addr s) (ks_prekeys s) (f (ks_signed s)).

Definition signal_step (call : SignalCall) : KeyState -> KeyState :=
  let me := call_device call in
  match call_op call with
  | OpPut t a p => up_addr (insert (t, a, me) p)
  | OpDelete t a => up_addr (delete (t, a, me))
  | OpStorePrekey id r u => up_prekeys (insert (id, me) (r, u))
  | OpRemovePrekey id => up_prekeys (delete (id, me))
  | OpStoreSigned id r => up_signed (insert (id, me) r)
  | OpRemoveSigned id => up_signed (delete (id, me))
  | OpPutBatch t l => fun s => foldl (fun s x => up_addr (insert (t, x.1, me) x.2) s) s l
  | OpDeleteBatch t l => fun s => foldl (fun s a => up_addr (delete (t, a, me)) s) s l
  | OpStorePrekeys l u => fun s => foldl (fun s x => up_prekeys (insert (x.1, me) (x.2, u)) s) s l
  | OpRemovePrekeys l => fun s => foldl (fun s id => up_prekeys (delete (id, me)) s) s l
  | OpMarkUploaded _ l => fun s =>
      foldl (fun s id => up_prekeys (alter (fun row => (row.1, true)) (id, me)) s) s l
  | _ => fun s => s
  end.

Definition signal_reply (call : SignalCall) (s : KeyState) (r : SignalReply) : Prop :=
  let me := call_device call in
  match call_op call with
  | OpGet t a => r = Row (ks_addr s !! (t, a, me))
  | OpLoadPrekey id => r = Row (fst <$> ks_prekeys s !! (id, me))
  | OpLoadSigned id => r = Row (ks_signed s !! (id, me))
  | OpMaxPrekeyId => exists n, r = MaxId n /\
      ((forall id, is_Some (ks_prekeys s !! (id, me)) -> id < 2 ^ 31) ->
       (forall id, is_Some (ks_prekeys s !! (id, me)) -> id <= n) /\
       (n = 0 \/ is_Some (ks_prekeys s !! (n, me))))
  | OpLoadAllSigned => exists l, r = IdPairs l /\ NoDup l.*1 /\
      forall id p, (id, p) ∈ l <-> ks_signed s !! (id, me) = Some p
  | OpGetSessions addresses => exists l, r = Pairs l /\ NoDup l.*1 /\
      forall a p, (a, p) ∈ l <-> a ∈ addresses /\ ks_addr s !! (Sessions, a, me) = Some p
  | OpLoadPrekeys ids => exists l, r = IdPairs l /\ NoDup l.*1 /\
      forall id p, (id, p) ∈ l <-> id ∈ ids /\ fst <$> ks_prekeys s !! (id, me) = Some p
  | _ => r = Done
  end.

(** The types of the trait: an identity is 32 bytes, an id a [u32]. *)
Definition signal_ok (call : SignalCall) : Prop :=
  (forall i, draws_ok (call_draws call i)) /\
  match call_op call with
  | OpPut Identities _ p => length p = 32%nat
  | OpPutBatch Identities l => Forall (fun x => length x.2 = 32%nat) l
  | OpStorePrekey id _ _ | OpLoadPrekey id | OpRemovePrekey id | OpStoreSigned id _
  | OpLoadSigned id | OpRemoveSigned id => in_u32 id
  | OpStorePrekeys l _ => Forall (fun x => in_u32 x.1) l
  | OpRemovePrekeys l | OpMarkUploaded _ l | OpLoadPrekeys l => Forall in_u32 l
  | _ => True
  end.

(** ** The concrete side *)

Section store.
Context `{crypto : Crypto} (constraint : StoreError) (cipher : BlobCipher).

Definition done {D} (m : Run D unit) : Run D SignalReply := _ ← m; mret Done.

Definition signal_run (call : SignalCall) : Run SignalDb SignalReply :=
  let b := MkBackend (call_device call) cipher in
  let draws := call_draws call in
  match call_op call with
  | OpPut Identities a p => done (put_identity constraint b (draws 0%nat) a p)
  | OpPut Sessions a p => done (put_session constraint b (draws 0%nat) a p)
  | OpPut SenderKeys a p => done (put_sender_key constraint b (draws 0%nat) a p)
  | OpGet Identities a => x ← load_identity b a; mret (Row x)
  | OpGet Sessions a => x ← get_session b a; mret (Row x)
  | OpGet SenderKeys a => x ← get_sender_key b a; mret (Row x)
  | OpDelete Identities a => done (delete_identity b a)
  | OpDelete Sessions a => done (delete_session b a)
  | OpDelete SenderKeys a => done (delete_sender_key b a)
  | OpStorePrekey id r u => done (store_prekey constraint b (draws 0%nat) id r u)
  | OpLoadPrekey id => x ← load_prekey b id; mret (Row x)
  | OpRemovePrekey id => done (remove_prekey b id)
  | OpMaxPrekeyId => n ← get_max_prekey_id b; mret (MaxId n)
  | OpStoreSigned id r => done (store_signed_prekey constraint b (draws 0%nat) id r)
  | OpLoadSigned id => x ← load_signed_prekey b id; mret (Row x)
  | OpLoadAllSigned => l ← load_all_signed_prekeys b; mret (IdPairs l)
  | OpRemoveSigned id => done (remove_signed_prekey b id)
  | OpPutBatch Identities l => done (put_identities constraint b draws l)
  | OpPutBatch Sessions l => done (put_sessions constraint b draws l)
  | OpPutBatch SenderKeys l => done (put_sender_keys constraint b draws l)
  | OpDeleteBatch Identities l => done (delete_identities b l)
  | OpDeleteBatch Sessions l => done (delete_sessions b l)
  | OpDeleteBatch SenderKeys l => done (delete_sender_keys b l)
  | OpStorePrekeys l u => done (store_prekeys constraint b draws l u)
  | OpRemovePrekeys l => done (remove_prekeys b l)
  | OpMarkUploaded pg l => done (mark_uploaded b pg l)
  | OpGetSessions l => r ← get_sessions b l; mret (Pairs r)
  | OpLoadPrekeys l => r ← load_prekeys b l; mret (IdPairs r)
  end.

(** How a row of each kind stands for a plaintext. *)
Definition addr_row (k : AddrTable * string * Z) (blob plain : bytes) : Prop :=
  let '(t, a, device) := k in
  open_at cipher device (table_name t) (column_name t) (str_bytes a) blob = Ok plain /\
  (t = Identities -> length plain = 32%nat).

Definition prekey_row (k : Z * Z) (row plain : bytes * bool) : Prop :=
  open_at cipher (snd k) "prekeys" "key" (be4 (fst k)) (fst row) = Ok (fst plain) /\ snd row = snd plain.

Definition signed_row (k : Z * Z) (blob plain : bytes) : Prop :=
  open_at cipher (snd k) "signed_prekeys" "record" (be4 (fst k)) blob = Ok plain.

Definition id_key (k : Z * Z) : Z * Z := (as_i32 (fst k), snd k).
Definition id_ok (k : Z * Z) : Prop := in_u32 (fst k).

Definition signal_rep (d : SignalDb) (s : KeyState) : Prop :=
  rows_rep (fun k => k) (fun _ => True) addr_row (addr_rows d) (ks_addr s) /\
  rows_rep id_key id_ok prekey_row (prekeys d) (ks_prekeys s) /\
  rows_rep id_key id_ok signed_row (signed_prekeys d) (ks_signed s).
End store.
