(* ===== verification/SignalLaws.v ===== *)
(** * The Signal store keeps its promise

    One lemma per operation, then the [StoreRefinement] instance. *)

From S2P Require Import Prelude StoreError Database StoreKey BlobCipher BatchChunks Refinement Backend SignalStore SignalSpec.

Lemma id_key_inj x y : id_ok x -> id_ok y -> id_key x = id_key y -> x = y.
Proof.
  destruct x as [i d], y as [j e]. unfold id_ok, id_key. cbn. intros Hi Hj [= H ->].
  f_equal. by apply as_i32_inj.
Qed.

Section laws.
Context `{crypto : Crypto} `{!CryptoLaws crypto} (constraint : StoreError) (cipher : BlobCipher).
Context (calm : bool) (me : Z).
Let b := MkBackend me cipher.

(** The store represents [s]; in the calm case the account exists. *)
Definition ready (d : SignalDb) (s : KeyState) : Prop :=
  signal_rep cipher d s /\ (calm = true -> me ∈ sd_accounts d).

Implicit Types (P : SignalDb -> Prop).

Lemma ready_put t a blob plain d s :
  ready d s -> me ∈ sd_accounts d -> (t = Identities -> length plain = 32%nat) ->
  open_at cipher me (table_name t) (column_name t) (str_bytes a) blob = Ok plain ->
  ready (set_addr_rows (<[(t, a, me) := blob]> (addr_rows d)) d) (up_addr (insert (t, a, me) plain) s).
Proof using Type.
  intros [(H1 & H2 & H3) Hacc] Hme Ht Ho. split; [|done]. split_and!; [|done|done].
  by apply (rows_insert (fun k => k) (fun _ => True) (addr_row cipher) ltac:(done) _ _ (t, a, me)).
Qed.

Lemma ready_delete t a d s :
  ready d s -> ready (set_addr_rows (delete (t, a, me) (addr_rows d)) d) (up_addr (delete (t, a, me)) s).
Proof using Type.
  intros [(H1 & H2 & H3) Hacc]. split; [|done]. split_and!; [|done|done].
  by apply (rows_delete (fun k => k) (fun _ => True) (addr_row cipher) ltac:(done) _ _ (t, a, me)).
Qed.

Lemma ready_put_prekey id blob plain u d s :
  ready d s -> in_u32 id -> open_at cipher me "prekeys" "key" (be4 id) blob = Ok plain ->
  ready (set_prekeys (<[(as_i32 id, me) := (blob, u)]> (prekeys d)) d)
    (up_prekeys (insert (id, me) (plain, u)) s).
Proof using Type.
  intros [(H1 & H2 & H3) Hacc] Hid Ho. split; [|done]. split_and!; [done| |done].
  by apply (rows_insert id_key id_ok (prekey_row cipher) id_key_inj _ _ (id, me)).
Qed.

Lemma ready_delete_prekey id d s :
  ready d s -> in_u32 id ->
  ready (set_prekeys (delete (as_i32 id, me) (prekeys d)) d) (up_prekeys (delete (id, me)) s).
Proof using Type.
  intros [(H1 & H2 & H3) Hacc] Hid. split; [|done]. split_and!; [done| |done].
  by apply (rows_delete id_key id_ok (prekey_row cipher) id_key_inj _ _ (id, me)).
Qed.

Lemma ready_put_signed id blob plain d s :
  ready d s -> in_u32 id -> open_at cipher me "signed_prekeys" "record" (be4 id) blob = Ok plain ->
  ready (set_signed_prekeys (<[(as_i32 id, me) := blob]> (signed_prekeys d)) d)
    (up_signed (insert (id, me) plain) s).
Proof using Type.
  intros [(H1 & H2 & H3) Hacc] Hid Ho. split; [|done]. split_and!; [done|done|].
  by apply (rows_insert id_key id_ok (signed_row cipher) id_key_inj _ _ (id, me)).
Qed.

Lemma ready_delete_signed id d s :
  ready d s -> in_u32 id ->
  ready (set_signed_prekeys (delete (as_i32 id, me) (signed_prekeys d)) d) (up_signed (delete (id, me)) s).
Proof using Type.
  intros [(H1 & H2 & H3) Hacc] Hid. split; [|done]. split_and!; [done|done|].
  by apply (rows_delete id_key id_ok (signed_row cipher) id_key_inj _ _ (id, me)).
Qed.

(** Marking is an UPDATE: a prekey that is gone stays gone. *)
Lemma ready_mark id d s :
  ready d s -> in_u32 id ->
  ready (set_prekeys (alter (fun row => (row.1, true)) (as_i32 id, me) (prekeys d)) d)
    (up_prekeys (alter (fun row => (row.1, true)) (id, me)) s).
Proof using Type.
  intros [(H1 & H2 & H3) Hacc] Hid. split; [|done]. split_and!; [done| |done].
  apply (rows_alter id_key id_ok (prekey_row cipher) id_key_inj _ _ (id, me)); [done|done|].
  intros row plain [Ho _]. by split.
Qed.

(** The foreign key refuses a row only when the account is gone. *)
Lemma no_account d s : ready d s -> me ∉ sd_accounts d -> calm = false.
Proof using Type. intros [_ Hacc] Hn. apply not_true_is_false. intros Hc. by apply Hn, Hacc. Qed.

Ltac put_case lemma :=
  match goal with
  | Hr : ready ?d ?s |- context [decide (?x ∈ sd_accounts ?d)] =>
      destruct (decide (x ∈ sd_accounts d)) as [Hme|Hme];
      [apply lemma; done|by eapply no_account]
  end.

(** ** One row *)

Lemma post_put_addr draws t a plain d0 s :
  draws_ok draws -> (calm = true -> can_seal cipher draws) ->
  (t = Identities -> length plain = 32%nat) -> ready d0 s ->
  run_post calm (fun d => d = d0) (put_addr constraint b draws t a plain)
    (fun _ d => ready d (up_addr (insert (t, a, me) plain) s))
    (undone calm ready d0 (up_addr (insert (t, a, me) plain) s)).
Proof using All.
  intros Hd Hs Ht Hr. unfold put_addr. apply post_seal_row; [done..|by intros Hc ? ->; apply (undone_start calm ready)|].
  intros blob Ho _. apply post_write. unfold PUT_ADDR. cbn [backend_device b]. put_case ready_put.
Qed.

Lemma post_store_prekey draws id record u d0 s :
  draws_ok draws -> (calm = true -> can_seal cipher draws) -> in_u32 id -> ready d0 s ->
  run_post calm (fun d => d = d0) (store_prekey constraint b draws id record u)
    (fun _ d => ready d (up_prekeys (insert (id, me) (record, u)) s))
    (undone calm ready d0 (up_prekeys (insert (id, me) (record, u)) s)).
Proof using All.
  intros Hd Hs Hid Hr. unfold store_prekey.
  apply post_seal_row; [done..|by intros Hc ? ->; apply (undone_start calm ready)|].
  intros blob Ho _. apply post_write. unfold STORE_PREKEY. cbn [backend_device b]. put_case ready_put_prekey.
Qed.

Lemma post_store_signed draws id record d0 s :
  draws_ok draws -> (calm = true -> can_seal cipher draws) -> in_u32 id -> ready d0 s ->
  run_post calm (fun d => d = d0) (store_signed_prekey constraint b draws id record)
    (fun _ d => ready d (up_signed (insert (id, me) record) s))
    (undone calm ready d0 (up_signed (insert (id, me) record) s)).
Proof using All.
  intros Hd Hs Hid Hr. unfold store_signed_prekey.
  apply post_seal_row; [done..|by intros Hc ? ->; apply (undone_start calm ready)|].
  intros blob Ho _. apply post_write. unfold STORE_SIGNED_PREKEY. cbn [backend_device b].
  put_case ready_put_signed.
Qed.

Lemma open_addr t a d s :
  ready d s ->
  transpose (open_row b (table_name t) (column_name t) (str_bytes a) <$> GET_ADDR b t a d) =
    Ok (ks_addr s !! (t, a, me)).
Proof using Type.
  intros [(H1 & _) _]. pose proof (proj1 H1 (t, a, me) I) as Hrow. unfold GET_ADDR, open_row.
  cbn [backend_device backend_cipher b]. destruct Hrow as [blob plain [Ho _]|]; [|done].
  cbn. by rewrite Ho.
Qed.

Lemma open_prekey id d s :
  ready d s -> in_u32 id ->
  transpose (open_row b "prekeys" "key" (be4 id) <$> LOAD_PREKEY b (as_i32 id) d) =
    Ok (fst <$> ks_prekeys s !! (id, me)).
Proof using Type.
  intros [(_ & H2 & _) _] Hid. pose proof (proj1 H2 (id, me) Hid) as Hrow. unfold LOAD_PREKEY, open_row.
  unfold id_key in Hrow. cbn [backend_device backend_cipher b fst snd] in *.
  destruct Hrow as [[blob u] plain [Ho _]|]; [|done]. cbn in Ho |- *. by rewrite Ho.
Qed.

Lemma open_signed id d s :
  ready d s -> in_u32 id ->
  transpose (open_row b "signed_prekeys" "record" (be4 id) <$> LOAD_SIGNED_PREKEY b (as_i32 id) d) =
    Ok (ks_signed s !! (id, me)).
Proof using Type.
  intros [(_ & _ & H3) _] Hid. pose proof (proj1 H3 (id, me) Hid) as Hrow.
  unfold LOAD_SIGNED_PREKEY, open_row. unfold id_key, signed_row in Hrow.
  cbn [backend_device backend_cipher b fst snd] in *.
  destruct Hrow as [blob plain Ho|]; [|done]. cbn. by rewrite Ho.
Qed.

Lemma post_load_identity a d0 s X :
  ready d0 s -> (calm = false -> X d0) ->
  run_post calm (fun d => d = d0) (load_identity b a)
    (fun r d => r = ks_addr s !! (Identities, a, me) /\ d = d0) X.
Proof using Type.
  intros [(H1 & _) _] HX. unfold load_identity.
  run_step (fun x d => x = GET_ADDR b Identities a d0 /\ d = d0).
  { apply post_query; [by intros Hc d ->; apply HX|by intros d ->]. }
  apply post_at. intros d [-> ->]. pose proof (proj1 H1 (Identities, a, me) I) as Hrow.
  unfold GET_ADDR. cbn [backend_device b]. destruct Hrow as [blob plain [Ho Hlen]|]; [|by apply post_ret].
  run_step (fun p d => p = plain /\ d = d0).
  { apply post_of_result; unfold open_row; cbn [backend_device backend_cipher b]; [|].
    - intros p d Hp ->. cbn in Ho. rewrite Ho in Hp. by injection Hp as <-.
    - intros e d He ->. cbn in Ho. congruence. }
  apply post_at. intros d [-> ->]. rewrite Hlen by done. by apply post_ret; intros ? ->.
Qed.

(** ** Reads of many rows *)

Lemma elem_of_select_sessions chunk d a blob :
  (a, blob) ∈ SELECT_SESSIONS b chunk d <-> a ∈ chunk /\ addr_rows d !! (Sessions, a, me) = Some blob.
Proof using Type.
  unfold SELECT_SESSIONS. rewrite list_elem_of_omap. split.
  - intros ([[[t a'] device] blob'] & Hin & Hx). apply elem_of_map_to_list in Hin.
    case_decide as Hc; [|discriminate]. destruct Hc as (-> & -> & Hc). by injection Hx as -> ->.
  - intros [Ha Hr]. exists ((Sessions, a, me), blob). split; [by apply elem_of_map_to_list|].
    by rewrite decide_True.
Qed.

Lemma good_sessions d s chunk :
  ready d s -> good_select (SELECT_SESSIONS b)
    (fun '(a, stored) => record ← open_row b "sessions" "record" (str_bytes a) stored; Ok (a, record))
    (fun a => ks_addr s !! (Sessions, a, me)) d chunk.
Proof using Type.
  intros [(H1 & _) _]. unfold good_select.
  assert (Hrow : forall a blob, (a, blob) ∈ SELECT_SESSIONS b chunk d -> exists p,
    (record ← open_row b "sessions" "record" (str_bytes a) blob; Ok (a, record)) = Ok (a, p) /\
    a ∈ chunk /\ ks_addr s !! (Sessions, a, me) = Some p).
  { intros a blob [Ha Hr]%elem_of_select_sessions.
    pose proof (proj1 H1 (Sessions, a, me) I) as Hrow. cbn in Hrow. rewrite Hr in Hrow.
    inversion Hrow as [? p [Ho _] E1 E2|]; subst. exists p. unfold open_row. cbn in Ho |- *. by rewrite Ho. }
  apply decode_rows.
  - apply omap_nodup. intros [[t1 a1] d1] v1 [[t2 a2] d2] v2 w _ _ E1 E2.
    case_decide as C1; [|discriminate]. case_decide as C2; [|discriminate].
    destruct C1 as (-> & -> & _), C2 as (-> & -> & _). congruence.
  - intros [a blob] Hin. destruct (Hrow a blob Hin) as (p & Hd & ?). eauto.
  - intros a p Ha Hp. pose proof (proj1 H1 (Sessions, a, me) I) as Hr. cbn in Hr. rewrite Hp in Hr.
    inversion Hr as [blob ? [Ho _] E1 E2|]; subst. exists (a, blob).
    split; [by apply elem_of_select_sessions|]. unfold open_row. cbn in Ho |- *. by rewrite Ho.
  - intros [a1 b1] [a2 b2] a p1 p2 I1 I2 D1 D2.
    destruct (Hrow a1 b1 I1) as (q1 & E1 & _), (Hrow a2 b2 I2) as (q2 & E2 & _).
    rewrite D1 in E1. rewrite D2 in E2. injection E1 as -> _. injection E2 as -> _.
    apply elem_of_select_sessions in I1 as [_ I1], I2 as [_ I2]. congruence.
Qed.

Lemma elem_of_own_prekeys d i blob u :
  (i, blob, u) ∈ own_prekeys b d <-> prekeys d !! (i, me) = Some (blob, u).
Proof using Type.
  unfold own_prekeys. rewrite list_elem_of_omap. split.
  - intros ([[i' device] [blob' u']] & Hin & Hx). apply elem_of_map_to_list in Hin.
    case_decide as Hc; [|discriminate]. cbn in Hc, Hx. subst. by injection Hx as -> -> ->.
  - intros Hr. exists ((i, me), (blob, u)). split; [by apply elem_of_map_to_list|].
    by rewrite decide_True.
Qed.

Lemma own_prekeys_nodup d : NoDup (own_prekeys b d).
Proof using Type.
  apply omap_nodup. intros [i1 d1] v1 [i2 d2] v2 w _ _ E1 E2.
  case_decide as C1; [|discriminate]. case_decide as C2; [|discriminate].
  cbn in *. congruence.
Qed.

Lemma elem_of_select_prekeys chunk d i blob :
  (i, blob) ∈ SELECT_PREKEYS b chunk d <-> i ∈ chunk /\ exists u, prekeys d !! (i, me) = Some (blob, u).
Proof using Type.
  unfold SELECT_PREKEYS. rewrite list_elem_of_omap. split.
  - intros ([[i' blob'] u] & Hin & Hx). apply elem_of_own_prekeys in Hin.
    case_decide; [|discriminate]. injection Hx as -> ->. eauto.
  - intros [Hi [u Hr]]. exists (i, blob, u). split; [by apply elem_of_own_prekeys|].
    by rewrite decide_True.
Qed.

Lemma select_prekeys_nodup chunk d : NoDup (SELECT_PREKEYS b chunk d).
Proof using Type.
  unfold SELECT_PREKEYS. pose proof (own_prekeys_nodup d) as Hnd.
  assert (Huniq : forall i b1 u1 b2 u2, (i, b1, u1) ∈ own_prekeys b d -> (i, b2, u2) ∈ own_prekeys b d ->
    u1 = u2) by (intros i b1 u1 b2 u2 I1%elem_of_own_prekeys I2%elem_of_own_prekeys; congruence).
  induction (own_prekeys b d) as [|[[i blob] u] l IH]; cbn; [constructor|].
  apply NoDup_cons in Hnd as [Hni Hnd].
  assert (IH' : NoDup (omap (fun '(i, blob, _) => if decide (i ∈ chunk) then Some (i, blob) else None) l)).
  { apply IH; [done|]. intros; eapply Huniq; by right. }
  case_decide; [|done]. apply NoDup_cons. split; [|done].
  intros ([[i' blob'] u'] & Hin & Hx)%list_elem_of_omap. case_decide; [|discriminate].
  injection Hx as -> ->. apply Hni. rewrite (Huniq i blob u blob u'); [done|by left|by right].
Qed.

Lemma good_prekeys d s chunk :
  ready d s -> Forall in_u32 chunk -> good_select (fun chunk => SELECT_PREKEYS b (as_i32 <$> chunk))
    (fun '(id, stored) => record ← open_row b "prekeys" "key" (be4 id) stored; Ok (as_u32 id, record))
    (fun id => fst <$> ks_prekeys s !! (id, me)) d chunk.
Proof using Type.
  intros [(_ & H2 & _) _] Hchunk. rewrite Forall_forall in Hchunk. unfold good_select.
  assert (Hrow : forall i blob, (i, blob) ∈ SELECT_PREKEYS b (as_i32 <$> chunk) d -> exists id p,
    (record ← open_row b "prekeys" "key" (be4 i) blob; Ok (as_u32 i, record)) = Ok (id, p) /\
    i = as_i32 id /\ in_u32 id /\ id ∈ chunk /\ fst <$> ks_prekeys s !! (id, me) = Some p).
  { intros i blob [Hi [u Hr]]%elem_of_select_prekeys.
    apply list_elem_of_fmap in Hi as (id & -> & Hid). pose proof (Hchunk id Hid) as Hu.
    pose proof (proj1 H2 (id, me) Hu) as Hrow. unfold id_key in Hrow. cbn [fst snd] in Hrow.
    rewrite Hr in Hrow. inversion Hrow as [? p [Ho _] E1 E2|]; subst. cbn in Ho.
    exists id, p.1. unfold open_row. cbn [backend_cipher backend_device b].
    rewrite <-(be4_as_u32 (as_i32 id)), as_u32_i32, be4_as_u32, Ho. cbn.
    rewrite (as_u32_small id Hu). split_and!; try done. by rewrite <-E2.  }
  apply decode_rows.
  - apply select_prekeys_nodup.
  - intros [i blob] Hin. destruct (Hrow i blob Hin) as (id & p & Hd & _ & _ & ? & ?). eauto.
  - intros id p Hid Hp. pose proof (Hchunk id Hid) as Hu.
    pose proof (proj1 H2 (id, me) Hu) as Hr. unfold id_key in Hr. cbn [fst snd] in Hr.
    destruct (ks_prekeys s !! (id, me)) as [[p' u']|]; [|discriminate]. cbn in Hp. injection Hp as ->.
    inversion Hr as [[blob u] ? [Ho _] E1 E2|]; subst. cbn in Ho. exists (as_i32 id, blob).
    split; [apply elem_of_select_prekeys; split; [apply list_elem_of_fmap; by exists id|by eexists]|].
    unfold open_row. cbn [backend_cipher backend_device b].
    rewrite <-(be4_as_u32 (as_i32 id)), as_u32_i32, be4_as_u32, Ho. cbn.
    by rewrite (as_u32_small id Hu).
  - intros [i1 b1] [i2 b2] id p1 p2 I1 I2 D1 D2.
    destruct (Hrow i1 b1 I1) as (id1 & q1 & E1 & -> & _), (Hrow i2 b2 I2) as (id2 & q2 & E2 & -> & _).
    rewrite D1 in E1. rewrite D2 in E2. injection E1 as -> _. injection E2 as -> _.
    apply elem_of_select_prekeys in I1 as [_ [u1 I1]], I2 as [_ [u2 I2]]. congruence.
Qed.

Lemma elem_of_all_signed d i blob :
  (i, blob) ∈ LOAD_ALL_SIGNED_PREKEYS b d <-> signed_prekeys d !! (i, me) = Some blob.
Proof using Type.
  unfold LOAD_ALL_SIGNED_PREKEYS. rewrite list_elem_of_omap. split.
  - intros ([[i' device] blob'] & Hin & Hx). apply elem_of_map_to_list in Hin.
    case_decide as Hc; [|discriminate]. cbn in Hc, Hx. subst. by injection Hx as -> ->.
  - intros Hr. exists ((i, me), blob). split; [by apply elem_of_map_to_list|]. by rewrite decide_True.
Qed.

Lemma all_signed_rows d s :
  ready d s -> exists l,
    mapM (fun '(id, stored) => record ← open_row b "signed_prekeys" "record" (be4 id) stored;
            Ok (as_u32 id, record)) (LOAD_ALL_SIGNED_PREKEYS b d) = Ok l /\
    NoDup l.*1 /\ forall id p, (id, p) ∈ l <-> True /\ ks_signed s !! (id, me) = Some p.
Proof using Type.
  intros [(_ & _ & H3) _].
  assert (Hrow : forall i blob, (i, blob) ∈ LOAD_ALL_SIGNED_PREKEYS b d -> exists id p,
    (record ← open_row b "signed_prekeys" "record" (be4 i) blob; Ok (as_u32 i, record)) = Ok (id, p) /\
    i = as_i32 id /\ ks_signed s !! (id, me) = Some p).
  { intros i blob Hr%elem_of_all_signed.
    destruct (rows_row id_key id_ok (signed_row cipher) _ _ _ _ H3 Hr) as ([id device] & p & Hu & E & Hp & Ho).
    unfold id_key in E. cbn in E. injection E as -> <-. exists id, p.
    unfold signed_row in Ho. cbn in Ho. unfold open_row. cbn [backend_cipher backend_device b].
    rewrite <-(be4_as_u32 (as_i32 id)), as_u32_i32, be4_as_u32, Ho. cbn.
    by rewrite (as_u32_small id Hu). }
  apply decode_rows.
  - apply omap_nodup. intros [i1 d1] v1 [i2 d2] v2 w _ _ E1 E2.
    case_decide as C1; [|discriminate]. case_decide as C2; [|discriminate]. cbn in *. congruence.
  - intros [i blob] Hin. destruct (Hrow i blob Hin) as (id & p & Hd & _ & ?). eauto 6.
  - intros id p _ Hp. destruct (rows_lookup id_key id_ok (signed_row cipher) _ _ (id, me) p H3 Hp) as (blob & Hr & Ho).
    exists (as_i32 id, blob). split; [by apply elem_of_all_signed|].
    unfold signed_row in Ho. cbn in Ho. unfold open_row. cbn [backend_cipher backend_device b].
    rewrite <-(be4_as_u32 (as_i32 id)), as_u32_i32, be4_as_u32, Ho. cbn.
    rewrite as_u32_small; [done|]. by apply (proj2 (proj2 H3) (id, me) p).
  - intros [i1 b1] [i2 b2] id p1 p2 I1 I2 D1 D2.
    destruct (Hrow i1 b1 I1) as (id1 & q1 & E1 & -> & _), (Hrow i2 b2 I2) as (id2 & q2 & E2 & -> & _).
    rewrite D1 in E1. rewrite D2 in E2. injection E1 as -> _. injection E2 as -> _.
    apply elem_of_all_signed in I1, I2. congruence.
Qed.
(** ** The highest prekey id *)

Lemma foldl_max (l : list (Z * bytes * bool)) z :
  let n := foldl (fun m row => Z.max m row.1.1) z l in
  (z <= n /\ forall row, row ∈ l -> row.1.1 <= n) /\ (n = z \/ exists row, row ∈ l /\ n = row.1.1).
Proof using Type.
  revert z. induction l as [|row l IH]; intros z; cbn.
  - split; [split; [lia|by intros r ?%not_elem_of_nil]|by left].
  - destruct (IH (Z.max z row.1.1)) as [[Hz Hl] Hin]. split.
    + split; [lia|]. intros r [->|Hr]%elem_of_cons; [lia|by apply Hl].
    + destruct Hin as [E|(r & Hr & E)]; [|right; exists r; split; [by right|done]].
      rewrite E. destruct (Z.max_spec z row.1.1) as [[_ ->]|[_ ->]]; [|by left].
      right. exists row. split; [by left|done].
Qed.

Lemma max_prekey_id d s :
  ready d s -> (forall id, is_Some (ks_prekeys s !! (id, me)) -> id < 2 ^ 31) ->
  let n := as_u32 (MAX_PREKEY_ID b d) in
  (forall id, is_Some (ks_prekeys s !! (id, me)) -> id <= n) /\
  (n = 0 \/ is_Some (ks_prekeys s !! (n, me))).
Proof using Type.
  intros [(_ & H2 & _) _] Hlow.
  (* Every row of the account is an id the state holds, stored as itself. *)
  assert (Hrows : forall row, row ∈ own_prekeys b d -> 0 <= row.1.1 < 2 ^ 31 /\
    is_Some (ks_prekeys s !! (row.1.1, me))).
  { intros [[i blob] u] Hr%elem_of_own_prekeys. cbn.
    destruct (rows_row id_key id_ok (prekey_row cipher) _ _ _ _ H2 Hr) as ([id device] & p & Hu & E & Hp & _).
    unfold id_key in E. cbn in E. injection E as -> <-. unfold id_ok, in_u32 in Hu. cbn in Hu.
    pose proof (Hlow id ltac:(eauto)) as Hid.
    rewrite (as_i32_small id) by (unfold in_i32; lia). split; [lia|eauto]. }
  assert (Hids : forall id, is_Some (ks_prekeys s !! (id, me)) -> exists row, row ∈ own_prekeys b d /\ row.1.1 = id).
  { intros id Hs. pose proof (Hlow id Hs) as Hid. destruct Hs as [p Hp].
    pose proof (proj2 (proj2 H2) (id, me) p Hp) as Hu. unfold id_ok, in_u32 in Hu. cbn in Hu.
    destruct (rows_lookup id_key id_ok (prekey_row cipher) _ _ (id, me) p H2 Hp) as ([blob u] & Hr & _).
    unfold id_key in Hr. cbn in Hr. rewrite as_i32_small in Hr by (unfold in_i32; lia).
    exists (id, blob, u). split; [by apply elem_of_own_prekeys|done]. }
  unfold MAX_PREKEY_ID. destruct (own_prekeys b d) as [|[[i blob] u] rest].
  - split; [|by left]. intros id (row & ?%not_elem_of_nil & _)%Hids. done.
  - cbv zeta. destruct (foldl_max rest i) as [[Hi Hle] Hin].
    destruct (Hrows (i, blob, u)) as [Hi0 Hi1]; [by left|]. cbn in Hi0, Hi1.
    assert (Hn : 0 <= foldl (fun m row => Z.max m row.1.1) i rest < 2 ^ 31 /\
                 is_Some (ks_prekeys s !! (foldl (fun m row => Z.max m row.1.1) i rest, me))).
    { destruct Hin as [->|(row & Hr & ->)]; [done|]. apply Hrows. by right. }
    destruct Hn as [Hn Hs]. rewrite as_u32_small by (unfold in_u32; lia). split; [|by right].
    intros id (row & [->|Hr]%elem_of_cons & <-)%Hids; [cbn; lia|by apply Hle].
Qed.

(** ** Marking a set of prekeys *)

Lemma mark_array_alters (l : list Z) (m : gmap (Z * Z) (bytes * bool)) :
  map_imap (fun key row => Some (if decide (key.2 = me /\ key.1 ∈ l) then (row.1, true) else row)) m =
  foldl (fun m i => alter (fun row => (row.1, true)) (i, me) m) m l.
Proof using Type.
  apply map_eq. intros [i device]. rewrite map_lookup_imap.
  revert m. induction l as [|j l IH]; intros m; cbn [foldl].
  - destruct (m !! (i, device)) as [row|]; [|done]. cbn. rewrite decide_False; [done|].
    by intros [_ ?%not_elem_of_nil].
  - rewrite <-IH. clear IH. destruct (decide ((i, device) = (j, me))) as [[= -> ->]|Hne].
    + rewrite lookup_alter_eq. destruct (m !! (j, me)) as [[blob u]|]; [|done]. cbn.
      rewrite decide_True by (split; [done|by left]). by case_decide.
    + rewrite lookup_alter_ne by done. destruct (m !! (i, device)) as [row|]; [|done]. cbn. f_equal.
      apply decide_ext. rewrite elem_of_cons. split; [|tauto]. intros [-> [->|]]; [by destruct Hne|done].
Qed.

Lemma mark_fold l d s :
  ready d s -> Forall in_u32 l ->
  ready (set_prekeys (foldl (fun m i => alter (fun row => (row.1, true)) (i, me) m) (prekeys d) (as_i32 <$> l)) d)
    (foldl (fun s id => up_prekeys (alter (fun row => (row.1, true)) (id, me)) s) s l).
Proof using Type.
  revert d s. induction l as [|id l IH]; intros d s Hr Hl; cbn; [by destruct d|].
  apply Forall_cons in Hl as [Hid Hl].
  exact (IH (set_prekeys (alter (fun row => (row.1, true)) (as_i32 id, me) (prekeys d)) d) _
           (ready_mark id d s Hr Hid) Hl).
Qed.

(** ** Batches *)

Lemma post_put_addrs draws t l d0 s :
  (forall i, draws_ok (draws i)) -> (calm = true -> forall i, can_seal cipher (draws i)) ->
  (t = Identities -> Forall (fun x => length x.2 = 32%nat) l) -> ready d0 s ->
  let s' := foldl (fun s x => up_addr (insert (t, x.1, me) x.2) s) s l in
  run_post calm (fun d => d = d0) (put_addrs constraint b draws t l) (fun _ d => ready d s') (undone calm ready d0 s').
Proof using All.
  intros Hd Hs Ht Hr. apply post_unless_empty; [done|].
  apply (post_numbered_batch calm ready _ (fun s x => up_addr (insert (t, x.1, me) x.2) s)); [done|].
  intros i [a p] s' Hin. apply post_sealed_item; [done|auto|]. intros blob d Ho _ Hrd.
  assert (Hlen : t = Identities -> length p = 32%nat).
  { intros E. by apply (proj1 (Forall_forall _ _) (Ht E) (a, p)). }
  unfold PUT_ADDR. cbn [backend_device b]. put_case ready_put.
Qed.

Lemma post_delete_addrs t l d0 s :
  ready d0 s -> let s' := foldl (fun s a => up_addr (delete (t, a, me)) s) s l in
  run_post calm (fun d => d = d0) (delete_by_address b t l) (fun _ d => ready d s') (undone calm ready d0 s').
Proof using Type.
  intros Hr. apply post_unless_empty; [done|].
  apply (post_batch calm ready _ (fun s a => up_addr (delete (t, a, me)) s)); [done|].
  intros a s' _. apply post_item. intros d Hd. by apply ready_delete.
Qed.

Lemma post_store_prekeys draws u l d0 s :
  (forall i, draws_ok (draws i)) -> (calm = true -> forall i, can_seal cipher (draws i)) ->
  Forall (fun x => in_u32 x.1) l -> ready d0 s ->
  let s' := foldl (fun s x => up_prekeys (insert (x.1, me) (x.2, u)) s) s l in
  run_post calm (fun d => d = d0) (store_prekeys constraint b draws l u) (fun _ d => ready d s') (undone calm ready d0 s').
Proof using All.
  intros Hd Hs Hl Hr. apply post_unless_empty; [done|].
  apply (post_numbered_batch calm ready _ (fun s x => up_prekeys (insert (x.1, me) (x.2, u)) s)); [done|].
  intros i [id p] s' Hin. pose proof (proj1 (Forall_forall _ _) Hl _ Hin) as Hid. cbn in Hid.
  apply post_sealed_item; [done|auto|]. intros blob d Ho _ Hrd.
  unfold STORE_PREKEY. cbn [backend_device b]. put_case ready_put_prekey.
Qed.

Lemma post_remove_prekeys l d0 s :
  Forall in_u32 l -> ready d0 s -> let s' := foldl (fun s id => up_prekeys (delete (id, me)) s) s l in
  run_post calm (fun d => d = d0) (remove_prekeys b l) (fun _ d => ready d s') (undone calm ready d0 s').
Proof using Type.
  intros Hl Hr. apply post_unless_empty; [done|].
  apply (post_batch calm ready _ (fun s id => up_prekeys (delete (id, me)) s)); [done|].
  intros id s' Hin. apply post_item. intros d Hd. apply ready_delete_prekey; [done|].
  by apply (proj1 (Forall_forall _ _) Hl).
Qed.

Lemma post_mark_uploaded pg l d0 s :
  Forall in_u32 l -> ready d0 s ->
  let s' := foldl (fun s id => up_prekeys (alter (fun row => (row.1, true)) (id, me)) s) s l in
  run_post calm (fun d => d = d0) (mark_uploaded b pg l) (fun _ d => ready d s') (undone calm ready d0 s').
Proof using Type.
  intros Hl Hr. apply post_unless_empty; [done|]. destruct pg.
  - apply post_write. unfold MARK_PREKEYS_ARRAY. cbn [backend_device b].
    rewrite mark_array_alters. by apply mark_fold.
  - apply (post_batch calm ready _ (fun s id => up_prekeys (alter (fun row => (row.1, true)) (id, me)) s));
      [done|].
    intros id s' Hin. apply post_item. intros d Hd. apply ready_mark; [done|].
    by apply (proj1 (Forall_forall _ _) Hl).
Qed.

(** ** Every call *)

Lemma post_load_rows d0 s X :
  ready d0 s -> (calm = false -> X d0) ->
  run_post calm (fun d => d = d0) (load_all_signed_prekeys b)
    (fun l d => d = d0 /\ NoDup l.*1 /\ forall id p, (id, p) ∈ l <-> ks_signed s !! (id, me) = Some p) X.
Proof using Type.
  intros Hr HX. destruct (all_signed_rows d0 s Hr) as (l & Hl & Hnd & Hin).
  eapply post_conseq; [by apply (post_read calm _ _ d0 l X)|done| |done].
  intros l' d [-> ->]. split_and!; [done|done|]. intros id p. rewrite Hin. tauto.
Qed.
End laws.
