(* ===== verification/SignalProps.v ===== *)
(** * The Signal store refines its specification

    [signal_store_refines] is the [StoreRefinement] instance; the properties are about histories
    of calls of any accounts, and about calls on a database that does not fail. *)

From S2P Require Import Prelude StoreError Database StoreKey BlobCipher BatchChunks Refinement Backend SignalStore SignalSpec SignalLaws.

Section refines.
Context `{crypto : Crypto} `{!CryptoLaws crypto} (constraint : StoreError) (cipher : BlobCipher).

Lemma post_signal_call calm me draws op d0 s :
  let call := MkSignalCall me draws op in
  signal_ok call -> (calm = true -> forall i, can_seal cipher (draws i)) -> ready cipher calm me d0 s ->
  run_post calm (fun d => d = d0) (signal_run constraint cipher call)
    (fun r d => ready cipher calm me d (signal_step call s) /\ signal_reply call s r)
    (undone calm (ready cipher calm me) d0 (signal_step call s)).
Proof using All.
  intros call [Hd Hok] Hs Hr. cbn [call_draws call] in Hd.
  assert (HX : calm = false -> undone calm (ready cipher calm me) d0 s d0) by (intros; by apply (undone_start calm (ready cipher calm me))).
  destruct op; cbn in Hok; unfold signal_run, signal_step, signal_reply; cbn [call_op call_device call_draws call].
  - destruct t; apply post_done, post_put_addr; by auto.
  - destruct t; (apply post_answer; [done|]); [by eapply post_load_identity|..];
      (apply post_read; [done|]); [by eapply (open_addr cipher calm me Sessions)|by eapply (open_addr cipher calm me SenderKeys)].
  - destruct t; apply post_done, post_write; by apply ready_delete.
  - apply post_done, post_store_prekey; auto.
  - apply post_answer; [done|]. apply post_read; [done|]. by eapply open_prekey.
  - apply post_done, post_write. by apply ready_delete_prekey.
  - apply (post_reply calm (ready cipher calm me) _ MaxId _ (fun n => n = as_u32 (MAX_PREKEY_ID (MkBackend me cipher) d0))); [done| |].
    + intros n ->. eexists. split; [done|]. intros Hlow. by eapply max_prekey_id.
    + unfold get_max_prekey_id. run_step (fun n d => n = MAX_PREKEY_ID (MkBackend me cipher) d0 /\ d = d0).
      { apply post_query; [by intros Hc d ->; apply HX|by intros d ->]. }
      apply post_ret. by intros d [-> ->].
  - apply post_done, post_store_signed; auto.
  - apply post_answer; [done|]. apply post_read; [done|]. by eapply open_signed.
  - eapply post_reply; [done| |by eapply post_load_rows]. intros l Hl. by exists l.
  - apply post_done, post_write. by apply ready_delete_signed.
  - destruct t; (apply post_done, post_put_addrs; [done|auto| |done]); intros E; by inversion E.
  - destruct t; apply post_done; unfold delete_identities, delete_sessions, delete_sender_keys;
      match goal with |- context [delete_by_address _ ?t _] => by apply (post_delete_addrs cipher calm me t) end.
  - apply post_done, post_store_prekeys; auto.
  - apply post_done. by apply post_remove_prekeys.
  - apply post_done. by apply post_mark_uploaded.
  - eapply post_reply; [done| |].
    2: { apply (post_read_padded calm _ _ (fun a => ks_addr s !! (Sessions, a, me))); [done|].
         intros chunk _. by eapply good_sessions. }
    intros l Hl. by exists l.
  - eapply post_reply; [done| |].
    2: { apply (post_read_padded calm _ _ (fun id => fst <$> ks_prekeys s !! (id, me))); [done|].
         intros chunk Hsub. eapply good_prekeys; [done|]. apply Forall_forall. intros x Hx.
         by apply (proj1 (Forall_forall _ _) Hok), Hsub. }
    intros l Hl. by exists l.
Qed.
End refines.

Lemma signal_refines `{crypto : Crypto} `{!CryptoLaws crypto} constraint cipher call d0 s :
  signal_rep cipher d0 s -> signal_ok call ->
  run_post false (fun d => d = d0) (signal_run constraint cipher call)
    (fun r d => signal_rep cipher d (signal_step call s) /\ signal_reply call s r)
    (fun d => d = d0 \/ signal_rep cipher d (signal_step call s)).
Proof.
  destruct call as [me draws op]. intros Hrep Hok.
  eapply post_conseq; [apply (post_signal_call constraint cipher false me draws op d0 s Hok)|done| |].
  - done.
  - by split.
  - intros r d [[Hd _] Hr]. by split.
  - intros d [_ [->|[Hd _]]]; [by left|by right].
Qed.

(** The store as an instance of the interface, for any cipher and any driver error. *)
#[global] Instance signal_store_refines `{crypto : Crypto} `{!CryptoLaws crypto}
    (constraint : StoreError) (cipher : BlobCipher) :
  StoreRefinement SignalDb KeyState SignalCall SignalReply := {|
    run_op := signal_run constraint cipher;
    rep := signal_rep cipher;
    step_op := signal_step;
    reply_ok := signal_reply;
    op_ok := signal_ok;
    op_refines := signal_refines constraint cipher;
  |}.

(** ** Accounts do not see each other *)

Section isolation.
Context `{crypto : Crypto} (constraint : StoreError) (cipher : BlobCipher) (me : Z) (d0 : SignalDb).
Let b := MkBackend me cipher.

(** The rows of every other account are the ones of [d0], byte for byte. *)
Definition others_kept (d : SignalDb) : Prop :=
  sd_accounts d = sd_accounts d0 /\
  (forall t a device, device ≠ me -> addr_rows d !! (t, a, device) = addr_rows d0 !! (t, a, device)) /\
  (forall id device, device ≠ me -> prekeys d !! (id, device) = prekeys d0 !! (id, device)) /\
  (forall id device, device ≠ me -> signed_prekeys d !! (id, device) = signed_prekeys d0 !! (id, device)).

Definition keeps_others {A} (m : Run SignalDb A) : Prop :=
  run_post false others_kept m (fun _ => others_kept) others_kept.

Lemma keeps_bind {A B} (m : Run SignalDb A) (k : A -> Run SignalDb B) :
  keeps_others m -> (forall a, keeps_others (k a)) -> keeps_others (m ≫= k).
Proof using Type. intros Hm Hk. by eapply post_bind. Qed.

Lemma keeps_ret {A} (a : A) : keeps_others (mret a).
Proof using Type. by apply post_ret. Qed.

Lemma keeps_of_result {A} (r : StoreResult A) : keeps_others (of_result r).
Proof using Type. by apply post_of_result. Qed.

Lemma keeps_query {A} (f : SignalDb -> A) : keeps_others (query f).
Proof using Type. by apply post_query. Qed.

Lemma keeps_stmt {A} (f : SignalDb -> StoreResult A * SignalDb) :
  (forall d, others_kept d -> others_kept (f d).2) -> keeps_others (stmt f).
Proof using Type.
  intros Hf. apply post_stmt; [done|]. intros d Hd. specialize (Hf d Hd). by destruct (f d) as [[] ?].
Qed.

Lemma keeps_transaction {A} (m : Run SignalDb A) : keeps_others m -> keeps_others (transaction m).
Proof using Type.
  intros Hm. apply post_transaction; [|done|done]. intros d Hd.
  eapply post_conseq; [exact Hm|by intros ? ->|done|done].
Qed.

Lemma keeps_each {A} (f : A -> Run SignalDb unit) l : (forall a, keeps_others (f a)) -> keeps_others (each f l).
Proof using Type. intros Hf. apply (post_each false (fun _ => others_kept)). intros a _. apply Hf. Qed.

Lemma keeps_read_chunks {T R V} (select : list T -> SignalDb -> list R) (decode : R -> StoreResult (T * V)) chunks found :
  keeps_others (read_chunks select decode chunks found).
Proof using Type.
  revert found. induction chunks as [|c chunks IH]; intros found; cbn [read_chunks]; [apply keeps_ret|].
  apply keeps_bind; [apply keeps_query|]. intros ?. apply keeps_bind; [apply keeps_of_result|]. intros ?. apply IH.
Qed.

(** A statement of account [me] touches rows keyed by [me] alone. *)
Ltac own_rows :=
  let d := fresh "d" in
  intros d (? & H1 & H2 & H3);
  unfold PUT_ADDR, DELETE_ADDR, STORE_PREKEY, DELETE_PREKEY, STORE_SIGNED_PREKEY, REMOVE_SIGNED_PREKEY,
    MARK_PREKEY_UPLOADED, others_kept; cbn [backend_device];
  repeat match goal with |- context [decide (?x ∈ ?y)] => destruct (decide (x ∈ y)) end; cbn;
  (split_and!; [done|intros t' a' device' Hne|intros id' device' Hne|intros id' device' Hne]);
  first [rewrite lookup_insert_ne by congruence | rewrite lookup_delete_ne by congruence
        | rewrite lookup_alter_ne by congruence | idtac]; auto.

Lemma keeps_array ids : forall d, others_kept d -> others_kept (MARK_PREKEYS_ARRAY b ids d).2.
Proof using Type.
  intros d (? & H1 & H2 & H3). split_and!; try done. intros id device Hne. cbn.
  rewrite map_lookup_imap, <-H2 by done. destruct (prekeys d !! (id, device)) as [row|]; [|done]. cbn.
  by rewrite decide_False by (intros [? _]; done).
Qed.

Ltac keeps :=
  repeat first
    [ apply keeps_read_chunks | apply keeps_of_result | apply keeps_query | apply keeps_ret
    | apply keeps_transaction | (apply keeps_each; intros [? [? ?]]) | (apply keeps_each; intros ?) | (apply keeps_bind; [|intros ?])
    | apply keeps_stmt ].

Lemma keeps_call draws op : keeps_others (signal_run constraint cipher (MkSignalCall me draws op)).
Proof using Type.
  destruct op; try destruct t; unfold signal_run, done; cbn [call_op call_device call_draws];
  (apply keeps_bind; [|intros ?; apply keeps_ret]).
  all: try (unfold put_identities, put_sessions, put_sender_keys, delete_identities, delete_sessions, delete_sender_keys,
              put_addrs, delete_by_address, store_prekeys, remove_prekeys, mark_uploaded;
            case_bool_decide; [apply keeps_ret|]).
  all: try (unfold load_identity; apply keeps_bind; [apply keeps_query|]; intros [?|]; [|apply keeps_ret];
            apply keeps_bind; [apply keeps_of_result|]; intros ?; case_match; [apply keeps_ret|apply keeps_of_result]).
  all: try destruct postgres.
  all: unfold put_identity, put_session, put_sender_key, get_session, get_sender_key, delete_identity, delete_session,
    delete_sender_key, mark_uploaded_array, mark_uploaded_each, put_addr, get_addr, delete_addr, store_prekey, load_prekey, remove_prekey, get_max_prekey_id,
    store_signed_prekey, load_signed_prekey, load_all_signed_prekeys, remove_signed_prekey, get_sessions,
    load_prekeys, execute, seal_row.
  all: try by keeps.
  all: keeps.
  all: first [apply keeps_array | own_rows].
Qed.
End isolation.

(** ** The properties *)

(** C9.  The Signal store under any history: for any calls, of any accounts, whatever
    statements fail, are refused or are interrupted on the way, there is a choice of the calls
    that took effect such that the sealed tables represent the keys those calls leave; a call
    that answered without an error took effect whole and its answer is the one of the keys it
    found (an upsert is read back, a batched read answers for exactly the rows asked for, a
    batch is whole or absent). *)
Theorem signal_store_history `{crypto : Crypto} `{!CryptoLaws crypto} constraint cipher
    (calls : list SignalCall) (w : World SignalDb) (s : KeyState) :
  signal_rep cipher (db w) s -> Forall signal_ok calls ->
  let '(rs, w') := run_all (H := signal_store_refines constraint cipher) calls w in
  exists taken,
    signal_rep cipher (db w') (steps_taken (H := signal_store_refines constraint cipher) calls taken s) /\
    answers_ok (H := signal_store_refines constraint cipher) calls taken rs s.
Proof. intros Hrep Hok. by apply (run_all_history (H := signal_store_refines constraint cipher)). Qed.

(** On a database that does not fail every call of an existing account succeeds: no refused
    row, no unreadable blob, no bad identity length, for any operation and any arguments of its
    types. *)
Theorem signal_call_succeeds `{crypto : Crypto} `{!CryptoLaws crypto} constraint cipher
    (call : SignalCall) (d : SignalDb) (s : KeyState) :
  signal_rep cipher d s -> call_device call ∈ sd_accounts d -> signal_ok call ->
  (forall i, can_seal cipher (call_draws call i)) ->
  exists r d', signal_run constraint cipher call (MkWorld d []) = (Ok r, MkWorld d' []) /\
    signal_rep cipher d' (signal_step call s) /\ signal_reply call s r.
Proof.
  destruct call as [me draws op]. cbn [call_device call_draws]. intros Hrep Hme Hok Hs.
  pose proof (post_signal_call constraint cipher true me draws op d s Hok (fun _ => Hs)) as Hp.
  specialize (Hp ltac:(by split) (MkWorld d []) ltac:(done) eq_refl).
  destruct (signal_run constraint cipher _ _) as [[r|e] [d' fs]]; [|by destruct Hp].
  destruct Hp as [[[Hd _] Hr] Hfs]. cbn in Hfs. rewrite Hfs by done. eauto.
Qed.

(** Accounts are isolated: whatever a call does and however it fails, every row of every
    other account is left as it was, byte for byte, and no account is added or removed. *)
Theorem signal_call_isolated `{crypto : Crypto} constraint cipher (call : SignalCall)
    (w : World SignalDb) :
  others_kept (call_device call) (db w) (db (signal_run constraint cipher call w).2).
Proof.
  destruct call as [me draws op].
  pose proof (keeps_call constraint cipher me (db w) draws op w ltac:(done) ltac:(by repeat split)) as Hk.
  destruct (signal_run _ _ _ w) as [[]]; [by destruct Hk|done].
Qed.

(** ** Witnesses *)

Definition no_keys : KeyState := MkKeyState ∅ ∅ ∅.
Definition two_accounts : SignalDb := MkSignalDb {[4; 5]} ∅ ∅ ∅.

Lemma no_keys_rep `{Crypto} cipher : signal_rep cipher two_accounts no_keys.
Proof. split_and!; (split_and!; [by intros; cbn; rewrite ?lookup_empty; constructor|done|done]). Qed.

(** What SQLite answers to a row whose account does not exist. *)
Definition refused : StoreError := Database "FOREIGN KEY constraint failed".

Definition toy_call (me : Z) (op : SignalOp) : SignalCall := MkSignalCall me (fun _ => toy_draws) op.

(** Two accounts use the same address; a third one does not exist. *)
Definition toy_calls : list SignalCall :=
  [ toy_call 4 (OpPut Sessions "bob" (str_bytes "ratchet")); toy_call 5 (OpGet Sessions "bob");
    toy_call 4 (OpStorePrekeys [(7, str_bytes "one"); (9, str_bytes "two")] false);
    toy_call 4 OpMaxPrekeyId; toy_call 4 (OpGetSessions ["bob"; "bob"; "eve"]);
    toy_call 6 (OpStoreSigned 1 (str_bytes "refused")) ].

Lemma toy_calls_ok : Forall signal_ok toy_calls.
Proof.
  unfold toy_calls. repeat (apply Forall_cons; split); [split; [intros; apply toy_draws_ok|]..|constructor]; cbn; try done;
    unfold in_u32; repeat constructor; cbn; lia.
Qed.

Lemma signal_store_history_witness :
  (let '(rs, w') := run_all (H := signal_store_refines refused (sealing toy_key)) toy_calls
                      (MkWorld two_accounts []) in
   exists taken,
     signal_rep (sealing toy_key) (db w')
       (steps_taken (H := signal_store_refines refused (sealing toy_key)) toy_calls taken no_keys) /\
     answers_ok (H := signal_store_refines refused (sealing toy_key)) toy_calls taken rs no_keys) /\
  (run_all (H := signal_store_refines refused (sealing toy_key)) toy_calls (MkWorld two_accounts [])).1 =
    [Ok Done; Ok (Row None); Ok Done; Ok (MaxId 9); Ok (Pairs [("bob", str_bytes "ratchet")]); Err refused].
Proof.
  split; [|vm_compute; reflexivity].
  apply (signal_store_history refused (sealing toy_key) toy_calls); [apply no_keys_rep|apply toy_calls_ok].
Defined.

Lemma signal_call_succeeds_witness :
  let call := toy_call 4 (OpPut Identities "bob" (repeat Byte.x07 32)) in
  exists r d', signal_run refused (sealing toy_key) call (MkWorld two_accounts []) = (Ok r, MkWorld d' []) /\
    signal_rep (sealing toy_key) d' (signal_step call no_keys) /\ signal_reply call no_keys r.
Proof.
  intros call. apply (signal_call_succeeds refused (sealing toy_key) call).
  - apply no_keys_rep.
  - cbn. set_solver.
  - split; [intros; apply toy_draws_ok|done].
  - intros i. split_and!; [done|by eexists|by eexists].
Defined.
