(* ===== verification/ProtocolStore.v ===== *)
(** * The protocol store (storage/sql/protocol_store.rs, protocol_batch_sql.rs, tc_token_sql.rs,
      msg_secret_store.rs)

    Sender-key tracking, LID mappings, base keys, the device registry, tc tokens, the sent-message
    cache and the message secrets of every account.  [ProtocolSpec] says what the store promises. *)

From S2P Require Import Prelude StoreError Database StoreKey BlobCipher BatchChunks Refinement Backend.

(** ** Types of the protocol library

    The library's records with the fields the store reads; a device of a device list and a stored
    secret are the library's own, with its JSON and its constructor. *)

Class Wacore : Type := {
  DeviceInfo : Type;
  to_json : list DeviceInfo -> StoreResult string;
  of_json : string -> StoreResult (list DeviceInfo);
  StoredMessageSecret : Type;
  from_stored_bytes : bytes -> Z -> StoreResult StoredMessageSecret;
}.

(** What the store relies on: JSON reads back what it wrote, and a 32-byte secret is one. *)
Class WacoreLaws `(Wacore) : Prop := {
  of_to_json : forall l j, to_json l = Ok j -> of_json j = Ok l;
  to_json_total : forall l, exists j, to_json l = Ok j;
  secret_accepted : forall secret ts, length secret = 32%nat -> exists s, from_stored_bytes secret ts = Ok s;
}.

Record LidPnMappingEntry : Type := MkLid {
  lid : string;
  phone_number : string;
  lid_created_at : Z;
  lid_updated_at : Z;
  learning_source : string;
}.

Record DeviceListRecord `{Wacore} : Type := MkDeviceList {
  user : string;
  devices : list DeviceInfo;
  timestamp : Z;
  phash : option string;
  raw_id : option Z;  (* a u32 *)
}.

#[global] Arguments MkDeviceList {_} _ _ _ _ _.

Record TcTokenEntry : Type := MkTcToken {
  token : bytes;
  token_timestamp : Z;
  sender_timestamp : option Z;
}.

Record MsgSecretEntry : Type := MkSecret {
  chat : string;
  sender : string;
  msg_id : string;
  secret : bytes;
  expires_at : Z;
  message_ts : Z;
}.

#[global] Instance TcTokenEntry_eq_dec : EqDecision TcTokenEntry.
Proof. solve_decision. Defined.

(** ** Tables: their key columns, and the rest of a row *)

Record LidRow : Type := MkLidRow { lr_phone : string; lr_created : Z; lr_source : string; lr_updated : Z }.
Record DeviceRow : Type := MkDeviceRow {
  dr_json : string; dr_timestamp : Z; dr_phash : option string; dr_updated : Z; dr_raw : option Z (* an i32 *) }.
Record TcRow : Type := MkTcRow { tr_token : bytes; tr_timestamp : Z; tr_sender : option Z; tr_updated : Z }.
Record SecretRow : Type := MkSecretRow { sr_secret : bytes; sr_expires : Z; sr_ts : Z }.

Record ProtoDb : Type := MkProtoDb {
  pd_accounts : gset Z;
  sender_key_devices : gmap (string * string * Z) (Z * Z);  (* has_key, updated_at *)
  lid_pn_mapping : gmap (string * Z) LidRow;
  base_keys : gmap (string * string * Z) (bytes * Z);       (* base_key, created_at *)
  device_registry : gmap (string * Z) DeviceRow;
  tc_tokens : gmap (string * Z) TcRow;
  sent_messages : gmap (string * string * Z) (bytes * Z);   (* payload, created_at *)
  msg_secrets : gmap (string * string * string * Z) SecretRow;
}.

Definition on_skd f d := MkProtoDb (pd_accounts d) (f (sender_key_devices d)) (lid_pn_mapping d) (base_keys d)
  (device_registry d) (tc_tokens d) (sent_messages d) (msg_secrets d).
Definition on_lid f d := MkProtoDb (pd_accounts d) (sender_key_devices d) (f (lid_pn_mapping d)) (base_keys d)
  (device_registry d) (tc_tokens d) (sent_messages d) (msg_secrets d).
Definition on_base f d := MkProtoDb (pd_accounts d) (sender_key_devices d) (lid_pn_mapping d) (f (base_keys d))
  (device_registry d) (tc_tokens d) (sent_messages d) (msg_secrets d).
Definition on_devices f d := MkProtoDb (pd_accounts d) (sender_key_devices d) (lid_pn_mapping d) (base_keys d)
  (f (device_registry d)) (tc_tokens d) (sent_messages d) (msg_secrets d).
Definition on_tc f d := MkProtoDb (pd_accounts d) (sender_key_devices d) (lid_pn_mapping d) (base_keys d)
  (device_registry d) (f (tc_tokens d)) (sent_messages d) (msg_secrets d).
Definition on_sent f d := MkProtoDb (pd_accounts d) (sender_key_devices d) (lid_pn_mapping d) (base_keys d)
  (device_registry d) (tc_tokens d) (f (sent_messages d)) (msg_secrets d).
Definition on_secrets f d := MkProtoDb (pd_accounts d) (sender_key_devices d) (lid_pn_mapping d) (base_keys d)
  (device_registry d) (tc_tokens d) (sent_messages d) (f (msg_secrets d)).

Section protocol.
Context `{crypto : Crypto} `{lib : Wacore}.
(** What the driver answers when the foreign key refuses a row. *)
Context (constraint : StoreError).
Context (backend : Backend).

Let me : Z := backend_device backend.

(** ** Statements *)

(** An INSERT: refused unless the account exists. *)
Definition insert_row (f : ProtoDb -> ProtoDb) (d : ProtoDb) : StoreResult unit * ProtoDb :=
  if decide (me ∈ pd_accounts d) then (Ok tt, f d) else (Err constraint, d).

Definition write_row (f : ProtoDb -> ProtoDb) (d : ProtoDb) : StoreResult unit * ProtoDb := (Ok tt, f d).

(** A sweep: it answers how many rows it removed. *)
Definition sweep {K A} `{Countable K} (rows : ProtoDb -> gmap K A) (on : (gmap K A -> gmap K A) -> ProtoDb -> ProtoDb)
    (stale : K * A -> Prop) `{!forall x, Decision (stale x)} (d : ProtoDb) : StoreResult Z * ProtoDb :=
  (Ok (Z.of_nat (size (filter stale (rows d)))), on (filter (fun x => ~ stale x)) d).

(** Statements of statements/protocol.rs. *)

Definition GET_SENDER_KEY_DEVICES (group_jid : string) (d : ProtoDb) : list (string * Z) :=
  omap (fun '(key, row) =>
          let '(g, j, device) := key in
          if decide (g = group_jid /\ device = me) then Some (j, fst row) else None)
       (map_to_list (sender_key_devices d)).

Definition SET_SENDER_KEY_STATUS (group_jid device_jid : string) (has now : Z) :=
  insert_row (on_skd (insert (group_jid, device_jid, me) (has, now))).

Definition CLEAR_SENDER_KEY_DEVICES (group_jid : string) :=
  write_row (on_skd (filter (fun x => ~ (x.1.1.1 = group_jid /\ x.1.2 = me)))).

Definition DELETE_SENDER_KEY_DEVICE_ROW (device_jid : string) :=
  write_row (on_skd (filter (fun x => ~ (x.1.1.2 = device_jid /\ x.1.2 = me)))).

Definition CLEAR_ALL_SENDER_KEY_DEVICES := write_row (on_skd (filter (fun x => ~ x.1.2 = me))).

Definition LidMappingRow : Type := string * string * Z * string * Z.

Definition lid_row (l : string) (r : LidRow) : LidMappingRow :=
  (l, lr_phone r, lr_created r, lr_source r, lr_updated r).

Definition GET_LID_MAPPING (l : string) (d : ProtoDb) : option LidMappingRow :=
  lid_row l <$> lid_pn_mapping d !! (l, me).

Definition GET_ALL_LID_MAPPINGS (d : ProtoDb) : list LidMappingRow :=
  omap (fun '(key, row) => if decide (snd key = me) then Some (lid_row (fst key) row) else None)
       (map_to_list (lid_pn_mapping d)).

(** ORDER BY updated_at DESC LIMIT 1: one of the newest rows. *)
Fixpoint newest (best : LidMappingRow) (rows : list LidMappingRow) : LidMappingRow :=
  match rows with
  | [] => best
  | r :: rows => newest (if snd best <? snd r then r else best) rows
  end.

Definition GET_PN_MAPPING (phone : string) (d : ProtoDb) : option LidMappingRow :=
  match filter (fun r => r.1.1.1.2 = phone) (GET_ALL_LID_MAPPINGS d) with
  | [] => None
  | r :: rows => Some (newest r rows)
  end.

(** The upsert leaves [created_at] of a row that exists. *)
Definition PUT_LID_MAPPING (l phone : string) (created : Z) (source : string) (updated : Z) :=
  insert_row (on_lid (fun m =>
    let created := match m !! (l, me) with Some old => lr_created old | None => created end in
    <[(l, me) := MkLidRow phone created source updated]> m)).

(** The upsert leaves [created_at] of a row that exists. *)
Definition SAVE_BASE_KEY (address message_id : string) (blob : bytes) (now : Z) :=
  insert_row (on_base (fun m =>
    let created := match m !! (address, message_id, me) with Some old => snd old | None => now end in
    <[(address, message_id, me) := (blob, created)]> m)).

Definition GET_BASE_KEY (address message_id : string) (d : ProtoDb) : option bytes :=
  fst <$> base_keys d !! (address, message_id, me).

Definition DELETE_BASE_KEY (address message_id : string) := write_row (on_base (delete (address, message_id, me))).

Definition DELETE_EXPIRED_BASE_KEYS (cutoff : Z) :=
  sweep base_keys on_base (fun x => snd x.2 < cutoff /\ x.1.2 = me).

Definition UPDATE_DEVICE_LIST (u json : string) (ts : Z) (ph : option string) (now : Z) (raw : option Z) :=
  insert_row (on_devices (insert (u, me) (MkDeviceRow json ts ph now raw))).

Definition DeviceListRow : Type := string * string * Z * option string * option Z.

Definition device_row (u : string) (r : DeviceRow) : DeviceListRow :=
  (u, dr_json r, dr_timestamp r, dr_phash r, dr_raw r).

Definition GET_DEVICES (u : string) (d : ProtoDb) : option DeviceListRow :=
  device_row u <$> device_registry d !! (u, me).

Definition SELECT_DEVICES (chunk : list string) (d : ProtoDb) : list DeviceListRow :=
  omap (fun '(key, row) =>
          if decide (snd key = me /\ fst key ∈ chunk) then Some (device_row (fst key) row) else None)
       (map_to_list (device_registry d)).

Definition DELETE_DEVICES (u : string) := write_row (on_devices (delete (u, me))).

Definition tc_row (r : TcRow) : bytes * Z * option Z := (tr_token r, tr_timestamp r, tr_sender r).

Definition GET_TC_TOKEN (jid : string) (d : ProtoDb) : option (bytes * Z * option Z) :=
  tc_row <$> tc_tokens d !! (jid, me).

Definition SELECT_TC_TOKENS (chunk : list string) (d : ProtoDb) : list (string * (bytes * Z * option Z)) :=
  omap (fun '(key, row) =>
          if decide (snd key = me /\ fst key ∈ chunk) then Some (fst key, tc_row row) else None)
       (map_to_list (tc_tokens d)).

Definition PUT_TC_TOKEN (jid : string) (blob : bytes) (ts : Z) (st : option Z) (now : Z) :=
  insert_row (on_tc (insert (jid, me) (MkTcRow blob ts st now))).

Definition DELETE_TC_TOKEN (jid : string) := write_row (on_tc (delete (jid, me))).

Definition GET_ALL_TC_TOKEN_JIDS (d : ProtoDb) : list string :=
  omap (fun '(key, _) => if decide (snd key = me) then Some (fst key) else None) (map_to_list (tc_tokens d)).

(** SQL's three-valued [sender_timestamp IS NULL OR sender_timestamp < $2]. *)
Definition null_or_before (st : option Z) (cutoff : Z) : Prop :=
  match st with None => True | Some t => t < cutoff end.

#[global] Instance null_or_before_dec st cutoff : Decision (null_or_before st cutoff).
Proof. destruct st; cbn; apply _. Defined.

Definition DELETE_EXPIRED_TC_TOKENS (token_cutoff sender_cutoff : Z) :=
  sweep tc_tokens on_tc (fun x =>
    (length (tr_token x.2) = 0%nat \/ tr_timestamp x.2 < token_cutoff) /\
    null_or_before (tr_sender x.2) sender_cutoff /\ snd x.1 = me).

(** tc_token.rs: each is one statement. *)

Definition TOUCH_SENDER_TIMESTAMP (jid : string) (st now : Z) (empty : bytes) :=
  insert_row (on_tc (fun m =>
    <[(jid, me) := match m !! (jid, me) with
                   | None => MkTcRow empty st (Some st) now
                   | Some old =>
                       let known := default st (tr_sender old) in
                       MkTcRow (tr_token old) (tr_timestamp old) (Some (if st <? known then known else st)) now
                   end]> m)).

Definition STORE_RECEIVED (jid : string) (blob : bytes) (ts now : Z) :=
  insert_row (on_tc (fun m =>
    match m !! (jid, me) with
    | None => <[(jid, me) := MkTcRow blob ts None now]> m
    | Some old =>
        if decide (length (tr_token old) = 0%nat \/ tr_timestamp old <= ts) then
          <[(jid, me) := MkTcRow blob ts (tr_sender old) now]> m
        else m
    end)).

Definition STORE_SENT_MESSAGE (c m : string) (blob : bytes) (now : Z) :=
  insert_row (on_sent (insert (c, m, me) (blob, now))).

Definition GET_SENT_MESSAGE (c m : string) (d : ProtoDb) : option bytes := fst <$> sent_messages d !! (c, m, me).

Definition DELETE_SENT_MESSAGE (c m : string) := write_row (on_sent (delete (c, m, me))).

Definition DELETE_EXPIRED_SENT_MESSAGES (cutoff : Z) :=
  sweep sent_messages on_sent (fun x => snd x.2 < cutoff /\ x.1.2 = me).

(** msg_secret.rs. *)

Definition merge_expires (old new : Z) : Z :=
  if decide (old = 0 \/ new = 0) then 0 else if new <? old then old else new.

Definition merge_ts (old new : Z) : Z := if new <? old then old else new.

Definition PUT_MSG_SECRET (c s m : string) (blob : bytes) (expires ts : Z) :=
  insert_row (on_secrets (fun rows =>
    <[(c, s, m, me) := match rows !! (c, s, m, me) with
                       | None => MkSecretRow blob expires ts
                       | Some old => MkSecretRow blob (merge_expires (sr_expires old) expires) (merge_ts (sr_ts old) ts)
                       end]> rows)).

Definition GET_MSG_SECRET (c s m : string) (d : ProtoDb) : option bytes := sr_secret <$> msg_secrets d !! (c, s, m, me).

Definition GET_MSG_SECRET_WITH_TS (c s m : string) (d : ProtoDb) : option (bytes * Z) :=
  (fun r => (sr_secret r, sr_ts r)) <$> msg_secrets d !! (c, s, m, me).

Definition DELETE_EXPIRED_MSG_SECRETS (cutoff : Z) :=
  sweep msg_secrets on_secrets (fun x => sr_expires x.2 <> 0 /\ sr_expires x.2 <= cutoff /\ x.1.2 = me).
(** ** Operations *)

(** [execute_sql!] with its row count, as a [u32]. *)
Definition execute_count (f : ProtoDb -> StoreResult Z * ProtoDb) : Run ProtoDb Z :=
  deleted ← execute f;
  mret (as_u32 deleted).

Definition joined (parts : list string) : bytes := joined_row (str_bytes <$> parts).

(** [open_sent]. *)
Definition open_sent (c m : string) (stored : option bytes) : StoreResult (option bytes) :=
  transpose (open_row backend "sent_messages" "payload" (joined [c; m]) <$> stored).

(** *** Per-device sender key tracking *)

Definition get_sender_key_devices (group_jid : string) : Run ProtoDb (list (string * bool)) :=
  rows ← query (GET_SENDER_KEY_DEVICES group_jid);
  mret ((fun '(jid, has) => (jid, negb (has =? 0))) <$> rows).

Definition set_sender_key_status (now : Z) (group_jid : string) (entries : list (string * bool)) : Run ProtoDb unit :=
  transaction (each (fun '(device_jid, has_key) =>
    stmt (SET_SENDER_KEY_STATUS group_jid device_jid (Z.b2z has_key) now)) entries).

Definition clear_sender_key_devices (group_jid : string) : Run ProtoDb unit :=
  execute (CLEAR_SENDER_KEY_DEVICES group_jid).

Definition delete_sender_key_device_rows (device_jids : list string) : Run ProtoDb unit :=
  transaction (each (fun device_jid => stmt (DELETE_SENDER_KEY_DEVICE_ROW device_jid)) device_jids).

Definition clear_all_sender_key_devices : Run ProtoDb unit := execute CLEAR_ALL_SENDER_KEY_DEVICES.

(** *** LID-PN mapping *)

Definition lid_entry (row : LidMappingRow) : LidPnMappingEntry :=
  let '(l, phone, created, source, updated) := row in MkLid l phone created updated source.

Definition get_lid_mapping (l : string) : Run ProtoDb (option LidPnMappingEntry) :=
  row ← query (GET_LID_MAPPING l);
  mret (lid_entry <$> row).

Definition get_pn_mapping (phone : string) : Run ProtoDb (option LidPnMappingEntry) :=
  row ← query (GET_PN_MAPPING phone);
  mret (lid_entry <$> row).

Definition put_lid_stmt (e : LidPnMappingEntry) :=
  PUT_LID_MAPPING (lid e) (phone_number e) (lid_created_at e) (learning_source e) (lid_updated_at e).

Definition put_lid_mapping (e : LidPnMappingEntry) : Run ProtoDb unit := execute (put_lid_stmt e).

Definition get_all_lid_mappings : Run ProtoDb (list LidPnMappingEntry) :=
  rows ← query GET_ALL_LID_MAPPINGS;
  mret (lid_entry <$> rows).

Definition put_lid_mappings (entries : list LidPnMappingEntry) : Run ProtoDb unit :=
  if bool_decide (entries = []) then mret tt
  else transaction (each (fun e => stmt (put_lid_stmt e)) entries).

(** *** Base keys *)

Definition save_base_key (draws : Draws) (now : Z) (address message_id : string) (base_key : bytes) :
    Run ProtoDb unit :=
  sealed ← seal_row backend draws "base_keys" "base_key" (joined [address; message_id]) base_key;
  execute (SAVE_BASE_KEY address message_id sealed now).

(** The stored bytes are opened before they are compared. *)
Definition has_same_base_key (address message_id : string) (current : bytes) : Run ProtoDb bool :=
  row ← query (GET_BASE_KEY address message_id);
  stored ← of_result (transpose
    (open_row backend "base_keys" "base_key" (joined [address; message_id]) <$> row));
  mret (bool_decide (stored = Some current)).

Definition delete_base_key (address message_id : string) : Run ProtoDb unit :=
  execute (DELETE_BASE_KEY address message_id).

Definition delete_expired_base_keys (cutoff : Z) : Run ProtoDb Z := execute_count (DELETE_EXPIRED_BASE_KEYS cutoff).

(** *** Device registry *)

Definition devices_json (record : DeviceListRecord) : StoreResult string := to_json (devices record).

Definition device_list_record (row : DeviceListRow) : StoreResult DeviceListRecord :=
  let '(u, json, ts, ph, raw) := row in
  l ← of_json json;
  Ok (MkDeviceList u l ts ph (as_u32 <$> raw)).

Definition device_list_stmt (now : Z) (record : DeviceListRecord) (json : string) :=
  UPDATE_DEVICE_LIST (user record) json (timestamp record) (phash record) now (as_i32 <$> raw_id record).

Definition update_device_list (now : Z) (record : DeviceListRecord) : Run ProtoDb unit :=
  json ← of_result (devices_json record);
  execute (device_list_stmt now record json).

(** [put_device_list_in]. *)
Definition put_device_list_in (now : Z) (record : DeviceListRecord) : Run ProtoDb unit :=
  json ← of_result (devices_json record);
  stmt (device_list_stmt now record json).

Definition update_device_lists (now : Z) (records : list DeviceListRecord) : Run ProtoDb unit :=
  if bool_decide (records = []) then mret tt
  else transaction (each (put_device_list_in now) records).

Definition get_devices (u : string) : Run ProtoDb (option DeviceListRecord) :=
  row ← query (GET_DEVICES u);
  of_result (transpose (device_list_record <$> row)).

Definition get_devices_batch (users : list string) : Run ProtoDb (list DeviceListRecord) :=
  found ← read_chunks SELECT_DEVICES
    (fun row => record ← device_list_record row; Ok (user record, record)) (padded_chunks users) [];
  mret found.*2.

Definition delete_devices (u : string) : Run ProtoDb unit := execute (DELETE_DEVICES u).

(** *** Tc tokens *)

Definition tc_entry (jid : string) (row : bytes * Z * option Z) : StoreResult TcTokenEntry :=
  let '(stored, ts, st) := row in
  t ← open_row backend "tc_tokens" "token" (str_bytes jid) stored;
  Ok (MkTcToken t ts st).

Definition get_tc_token (jid : string) : Run ProtoDb (option TcTokenEntry) :=
  row ← query (GET_TC_TOKEN jid);
  of_result (transpose (tc_entry jid <$> row)).

Definition put_tc_token (draws : Draws) (now : Z) (jid : string) (entry : TcTokenEntry) : Run ProtoDb unit :=
  sealed ← seal_row backend draws "tc_tokens" "token" (str_bytes jid) (token entry);
  execute (PUT_TC_TOKEN jid sealed (token_timestamp entry) (sender_timestamp entry) now).

Definition delete_tc_token (jid : string) : Run ProtoDb unit := execute (DELETE_TC_TOKEN jid).

Definition get_all_tc_token_jids : Run ProtoDb (list string) := query GET_ALL_TC_TOKEN_JIDS.

Definition delete_expired_tc_tokens (token_cutoff sender_cutoff : Z) : Run ProtoDb Z :=
  execute_count (DELETE_EXPIRED_TC_TOKENS token_cutoff sender_cutoff).

Definition touch_sender_timestamp (now : Z) (jid : string) (st : Z) : Run ProtoDb unit :=
  execute (TOUCH_SENDER_TIMESTAMP jid st now []).

Definition store_received (draws : Draws) (now : Z) (jid : string) (t : bytes) (ts : Z) : Run ProtoDb unit :=
  sealed ← seal_row backend draws "tc_tokens" "token" (str_bytes jid) t;
  execute (STORE_RECEIVED jid sealed ts now).

(** The rows are read by distinct jid into a map, then handed back in the order asked. *)
Definition get_tc_tokens (jids : list string) : Run ProtoDb (list (option TcTokenEntry)) :=
  found ← read_chunks SELECT_TC_TOKENS
    (fun '(jid, row) => entry ← tc_entry jid row; Ok (jid, entry)) (padded_chunks jids) [];
  let by_jid : gmap string TcTokenEntry := foldl (fun m x => <[x.1 := x.2]> m) ∅ found in
  mret ((fun jid => by_jid !! jid) <$> jids).

(** *** Sent messages *)

Definition store_sent_message (draws : Draws) (now : Z) (c m : string) (payload : bytes) : Run ProtoDb unit :=
  sealed ← seal_row backend draws "sent_messages" "payload" (joined [c; m]) payload;
  execute (STORE_SENT_MESSAGE c m sealed now).

(** The blob is opened before the COMMIT: one that will not open is not consumed. *)
Definition take_sent_message (c m : string) : Run ProtoDb (option bytes) :=
  transaction (
    payload ← stmt (fun d => (Ok (GET_SENT_MESSAGE c m d), d));
    _ ← (if payload is Some _ then stmt (DELETE_SENT_MESSAGE c m) else mret tt);
    of_result (open_sent c m payload)).

Definition get_sent_message (c m : string) : Run ProtoDb (option bytes) :=
  payload ← query (GET_SENT_MESSAGE c m);
  of_result (open_sent c m payload).

Definition delete_expired_sent_messages (cutoff : Z) : Run ProtoDb Z :=
  execute_count (DELETE_EXPIRED_SENT_MESSAGES cutoff).

(** *** Message secrets *)

Definition secret_row (c s m : string) : bytes := joined [c; s; m].

Definition put_msg_secrets (draws : nat -> Draws) (entries : list MsgSecretEntry) : Run ProtoDb nat :=
  if bool_decide (entries = []) then mret 0%nat
  else
    _ ← transaction (each (fun '(i, e) =>
      sealed ← seal_row backend (draws i) "msg_secrets" "secret"
                 (secret_row (chat e) (sender e) (msg_id e)) (secret e);
      stmt (PUT_MSG_SECRET (chat e) (sender e) (msg_id e) sealed (expires_at e) (message_ts e)))
      (imap pair entries));
    mret (length entries).

Definition get_msg_secret (c s m : string) : Run ProtoDb (option bytes) :=
  stored ← query (GET_MSG_SECRET c s m);
  of_result (transpose (open_row backend "msg_secrets" "secret" (secret_row c s m) <$> stored)).

Definition get_stored_msg_secret (c s m : string) : Run ProtoDb (option StoredMessageSecret) :=
  found ← query (GET_MSG_SECRET_WITH_TS c s m);
  of_result (transpose ((fun '(stored, ts) =>
    plain ← open_row backend "msg_secrets" "secret" (secret_row c s m) stored;
    from_stored_bytes plain ts) <$> found)).

Definition delete_expired_msg_secrets (cutoff : Z) : Run ProtoDb Z :=
  execute_count (DELETE_EXPIRED_MSG_SECRETS cutoff).
End protocol.
