(* ===== verification/ProtocolSpec.v ===== *)
(** * What the protocol store promises

    Every call of every account, against plain maps: no seals, no JSON, no bookkeeping columns
    that nothing reads.  The step of each call is written here a second time, on the values, not
    on the rows. *)

From S2P Require Import Prelude StoreError Database StoreKey BlobCipher BatchChunks Refinement Backend ProtocolStore.

Section spec.
Context `{lib : Wacore}.

Inductive ProtoOp : Type :=
| GetSkd (group_jid : string)
| SetSkd (now : Z) (group_jid : string) (entries : list (string * bool))
| ClearSkd (group_jid : string)
| DeleteSkdRows (device_jids : list string)
| ClearAllSkd
| GetLid (l : string)
| GetPn (phone : string)
| PutLid (e : LidPnMappingEntry)
| GetAllLid
| PutLids (entries : list LidPnMappingEntry)
| SaveBase (now : Z) (address message_id : string) (base_key : bytes)
| HasSameBase (address message_id : string) (current : bytes)
| DeleteBase (address message_id : string)
| ExpireBase (cutoff : Z)
| UpdateDevices (now : Z) (record : DeviceListRecord)
| UpdateDeviceLists (now : Z) (records : list DeviceListRecord)
| GetDevices (u : string)
| GetDevicesBatch (users : list string)
| DeleteDevices (u : string)
| GetTc (jid : string)
| PutTc (now : Z) (jid : string) (entry : TcTokenEntry)
| DeleteTc (jid : string)
| AllTcJids
| ExpireTc (token_cutoff sender_cutoff : Z)
| TouchTc (now : Z) (jid : string) (st : Z)
| ReceiveTc (now : Z) (jid : string) (t : bytes) (ts : Z)
| GetTcs (jids : list string)
| StoreSent (now : Z) (c m : string) (payload : bytes)
| TakeSent (c m : string)
| GetSent (c m : string)
| ExpireSent (cutoff : Z)
| PutSecrets (entries : list MsgSecretEntry)
| GetSecret (c s m : string)
| GetStoredSecret (c s m : string)
| ExpireSecrets (cutoff : Z).

Record ProtoCall : Type := MkProtoCall {
  pc_device : Z;
  pc_draws : nat -> Draws;
  pc_op : ProtoOp;
}.

Inductive ProtoReply : Type :=
| RUnit
| RBool (b : bool)
| RCount (n : Z)
| RBytes (o : option bytes)
| RFlags (l : list (string * bool))
| RLid (o : option LidPnMappingEntry)
| RLids (l : list LidPnMappingEntry)
| RDevices (o : option DeviceListRecord)
| RDeviceLists (l : list DeviceListRecord)
| RTc (o : option TcTokenEntry)
| RTcs (l : list (option TcTokenEntry))
| RJids (l : list string)
| RSecret (o : option StoredMessageSecret).

Record ProtoState : Type := MkProtoState {
  ps_skd : gmap (string * string * Z) bool;
  ps_lid : gmap (string * Z) LidPnMappingEntry;
  ps_base : gmap (string * string * Z) (bytes * Z);
  ps_devices : gmap (string * Z) DeviceListRecord;
  ps_tc : gmap (string * Z) TcTokenEntry;
  ps_sent : gmap (string * string * Z) (bytes * Z);
  ps_secrets : gmap (string * string * string * Z) (bytes * Z * Z);  (* secret, expires_at, message_ts *)
}.

Definition up_skd f s := MkProtoState (f (ps_skd s)) (ps_lid s) (ps_base s) (ps_devices s) (ps_tc s) (ps_sent s) (ps_secrets s).
Definition up_lid f s := MkProtoState (ps_skd s) (f (ps_lid s)) (ps_base s) (ps_devices s) (ps_tc s) (ps_sent s) (ps_secrets s).
Definition up_base f s := MkProtoState (ps_skd s) (ps_lid s) (f (ps_base s)) (ps_devices s) (ps_tc s) (ps_sent s) (ps_secrets s).
Definition up_devices f s := MkProtoState (ps_skd s) (ps_lid s) (ps_base s) (f (ps_devices s)) (ps_tc s) (ps_sent s) (ps_secrets s).
Definition up_tc f s := MkProtoState (ps_skd s) (ps_lid s) (ps_base s) (ps_devices s) (f (ps_tc s)) (ps_sent s) (ps_secrets s).
Definition up_sent f s := MkProtoState (ps_skd s) (ps_lid s) (ps_base s) (ps_devices s) (ps_tc s) (f (ps_sent s)) (ps_secrets s).
Definition up_secrets f s := MkProtoState (ps_skd s) (ps_lid s) (ps_base s) (ps_devices s) (ps_tc s) (ps_sent s) (f (ps_secrets s)).

(** ** The rules *)

(** A mapping that is known keeps the time it was learned at. *)
Definition learn (old : option LidPnMappingEntry) (e : LidPnMappingEntry) : LidPnMappingEntry :=
  MkLid (lid e) (phone_number e) (default (lid_created_at e) (lid_created_at <$> old)) (lid_updated_at e)
    (learning_source e).

(** A touch moves [sender_timestamp] forward only, and keeps the token. *)
Definition touched (old : option TcTokenEntry) (st : Z) : TcTokenEntry :=
  match old with
  | None => MkTcToken [] st (Some st)
  | Some e => MkTcToken (token e) (token_timestamp e) (Some (Z.max st (default st (sender_timestamp e))))
  end.

(** A received token replaces one that is empty or not newer, and keeps [sender_timestamp]. *)
Definition received (old : option TcTokenEntry) (t : bytes) (ts : Z) : TcTokenEntry :=
  match old with
  | None => MkTcToken t ts None
  | Some e =>
      if decide (token e = [] \/ token_timestamp e <= ts) then MkTcToken t ts (sender_timestamp e) else e
  end.

(** Both windows have to be over. *)
Definition tc_stale (token_cutoff sender_cutoff : Z) (e : TcTokenEntry) : Prop :=
  (token e = [] \/ token_timestamp e < token_cutoff) /\ null_or_before (sender_timestamp e) sender_cutoff.

#[global] Instance tc_stale_dec a b e : Decision (tc_stale a b e).
Proof. unfold tc_stale. apply _. Defined.

(** The retention window of a secret: 0 is for ever, else the later deadline. *)
Definition longer (a b : Z) : Z := if decide (a = 0 \/ b = 0) then 0 else Z.max a b.

Definition keep_secret (old : option (bytes * Z * Z)) (e : MsgSecretEntry) : bytes * Z * Z :=
  match old with
  | None => (secret e, expires_at e, message_ts e)
  | Some (_, expires, ts) => (secret e, longer expires (expires_at e), Z.max ts (message_ts e))
  end.

(** ** Steps and answers *)

Definition step_secret (me : Z) (s : ProtoState) (e : MsgSecretEntry) : ProtoState :=
  up_secrets (fun m => let k := (chat e, sender e, msg_id e, me) in <[k := keep_secret (m !! k) e]> m) s.

Definition step_lid (me : Z) (s : ProtoState) (e : LidPnMappingEntry) : ProtoState :=
  up_lid (fun m => <[(lid e, me) := learn (m !! (lid e, me)) e]> m) s.

Definition step_devices (me : Z) (s : ProtoState) (r : DeviceListRecord) : ProtoState :=
  up_devices (insert (user r, me) r) s.

Definition proto_step (call : ProtoCall) : ProtoState -> ProtoState :=
  let me := pc_device call in
  match pc_op call with
  | SetSkd _ g l => fun s => foldl (fun s x => up_skd (insert (g, x.1, me) x.2) s) s l
  | ClearSkd g => up_skd (filter (fun x => ~ (x.1.1.1 = g /\ x.1.2 = me)))
  | DeleteSkdRows l => fun s => foldl (fun s j => up_skd (filter (fun x => ~ (x.1.1.2 = j /\ x.1.2 = me))) s) s l
  | ClearAllSkd => up_skd (filter (fun x => ~ x.1.2 = me))
  | PutLid e => fun s => step_lid me s e
  | PutLids l => fun s => foldl (step_lid me) s l
  | SaveBase now a m k => up_base (fun b => <[(a, m, me) := (k, default now (snd <$> b !! (a, m, me)))]> b)
  | DeleteBase a m => up_base (delete (a, m, me))
  | ExpireBase cutoff => up_base (filter (fun x => ~ (snd x.2 < cutoff /\ x.1.2 = me)))
  | UpdateDevices _ r => fun s => step_devices me s r
  | UpdateDeviceLists _ l => fun s => foldl (step_devices me) s l
  | DeleteDevices u => up_devices (delete (u, me))
  | PutTc _ j e => up_tc (insert (j, me) e)
  | DeleteTc j => up_tc (delete (j, me))
  | ExpireTc a b => up_tc (filter (fun x => ~ (tc_stale a b x.2 /\ snd x.1 = me)))
  | TouchTc _ j st => up_tc (fun m => <[(j, me) := touched (m !! (j, me)) st]> m)
  | ReceiveTc _ j t ts => up_tc (fun m => <[(j, me) := received (m !! (j, me)) t ts]> m)
  | StoreSent now c m p => up_sent (insert (c, m, me) (p, now))
  | TakeSent c m => up_sent (delete (c, m, me))
  | ExpireSent cutoff => up_sent (filter (fun x => ~ (snd x.2 < cutoff /\ x.1.2 = me)))
  | PutSecrets l => fun s => foldl (step_secret me) s l
  | ExpireSecrets cutoff => up_secrets (filter (fun x => ~ (x.2.1.2 <> 0 /\ x.2.1.2 <= cutoff /\ x.1.2 = me)))
  | _ => fun s => s
  end.

(** How many rows a sweep answers it removed. *)
Definition count_of {K A} `{Countable K} (P : K * A -> Prop) `{!forall x, Decision (P x)} (m : gmap K A) : Z :=
  as_u32 (Z.of_nat (size (filter P m))).

Definition proto_reply (call : ProtoCall) (s : ProtoState) (r : ProtoReply) : Prop :=
  let me := pc_device call in
  match pc_op call with
  | GetSkd g => exists l, r = RFlags l /\ NoDup l.*1 /\
      forall j h, (j, h) ∈ l <-> ps_skd s !! (g, j, me) = Some h
  | GetLid l => r = RLid (ps_lid s !! (l, me))
  | GetPn phone => exists o, r = RLid o /\
      match o with
      | None => forall l e, ps_lid s !! (l, me) = Some e -> phone_number e <> phone
      | Some e => ps_lid s !! (lid e, me) = Some e /\ phone_number e = phone /\
          forall l e', ps_lid s !! (l, me) = Some e' -> phone_number e' = phone ->
            lid_updated_at e' <= lid_updated_at e
      end
  | GetAllLid => exists l, r = RLids l /\ NoDup (lid <$> l) /\
      forall e, e ∈ l <-> ps_lid s !! (lid e, me) = Some e
  | HasSameBase a m k => r = RBool (bool_decide (fst <$> ps_base s !! (a, m, me) = Some k))
  | ExpireBase cutoff => r = RCount (count_of (fun x => snd x.2 < cutoff /\ x.1.2 = me) (ps_base s))
  | GetDevices u => r = RDevices (ps_devices s !! (u, me))
  | GetDevicesBatch us => exists l, r = RDeviceLists l /\ NoDup (user <$> l) /\
      forall e, e ∈ l <-> user e ∈ us /\ ps_devices s !! (user e, me) = Some e
  | GetTc j => r = RTc (ps_tc s !! (j, me))
  | AllTcJids => exists l, r = RJids l /\ NoDup l /\ forall j, j ∈ l <-> is_Some (ps_tc s !! (j, me))
  | ExpireTc a b => r = RCount (count_of (fun x => tc_stale a b x.2 /\ snd x.1 = me) (ps_tc s))
  | GetTcs js => r = RTcs ((fun j => ps_tc s !! (j, me)) <$> js)
  | TakeSent c m | GetSent c m => r = RBytes (fst <$> ps_sent s !! (c, m, me))
  | ExpireSent cutoff => r = RCount (count_of (fun x => snd x.2 < cutoff /\ x.1.2 = me) (ps_sent s))
  | PutSecrets l => r = RCount (Z.of_nat (length l))
  | GetSecret c sn m => r = RBytes (fst <$> (fst <$> ps_secrets s !! (c, sn, m, me)))
  | GetStoredSecret c sn m => exists o, r = RSecret o /\
      match ps_secrets s !! (c, sn, m, me) with
      | None => o = None
      | Some (secret, _, ts) => exists x, o = Some x /\ from_stored_bytes secret ts = Ok x
      end
  | ExpireSecrets cutoff =>
      r = RCount (count_of (fun x => x.2.1.2 <> 0 /\ x.2.1.2 <= cutoff /\ x.1.2 = me) (ps_secrets s))
  | _ => r = RUnit
  end.

(** The types of the traits: [raw_id] is a [u32], a message secret is 32 bytes. *)
Definition record_ok (r : DeviceListRecord) : Prop := forall raw, raw_id r = Some raw -> in_u32 raw.

Definition proto_ok (call : ProtoCall) : Prop :=
  (forall i, draws_ok (pc_draws call i)) /\
  match pc_op call with
  | UpdateDevices _ r => record_ok r
  | UpdateDeviceLists _ l => Forall record_ok l
  | PutSecrets l => Forall (fun e => length (secret e) = 32%nat) l
  | _ => True
  end.
End spec.

(** ** The concrete side *)

Section store.
Context `{crypto : Crypto} `{lib : Wacore} (constraint : StoreError) (cipher : BlobCipher).

Definition answer {A} (f : A -> ProtoReply) (m : Run ProtoDb A) : Run ProtoDb ProtoReply := x ← m; mret (f x).

Definition done (m : Run ProtoDb unit) : Run ProtoDb ProtoReply := _ ← m; mret RUnit.

Definition proto_run (call : ProtoCall) : Run ProtoDb ProtoReply :=
  let b := MkBackend (pc_device call) cipher in
  let draws := pc_draws call in
  match pc_op call with
  | GetSkd g => answer RFlags (get_sender_key_devices b g)
  | SetSkd now g l => done (set_sender_key_status constraint b now g l)
  | ClearSkd g => done (clear_sender_key_devices b g)
  | DeleteSkdRows l => done (delete_sender_key_device_rows b l)
  | ClearAllSkd => done (clear_all_sender_key_devices b)
  | GetLid l => answer RLid (get_lid_mapping b l)
  | GetPn phone => answer RLid (get_pn_mapping b phone)
  | PutLid e => done (put_lid_mapping constraint b e)
  | GetAllLid => answer RLids (get_all_lid_mappings b)
  | PutLids l => done (put_lid_mappings constraint b l)
  | SaveBase now a m k => done (save_base_key constraint b (draws 0%nat) now a m k)
  | HasSameBase a m k => answer RBool (has_same_base_key b a m k)
  | DeleteBase a m => done (delete_base_key b a m)
  | ExpireBase cutoff => answer RCount (delete_expired_base_keys b cutoff)
  | UpdateDevices now r => done (update_device_list constraint b now r)
  | UpdateDeviceLists now l => done (update_device_lists constraint b now l)
  | GetDevices u => answer RDevices (get_devices b u)
  | GetDevicesBatch l => answer RDeviceLists (get_devices_batch b l)
  | DeleteDevices u => done (delete_devices b u)
  | GetTc j => answer RTc (get_tc_token b j)
  | PutTc now j e => done (put_tc_token constraint b (draws 0%nat) now j e)
  | DeleteTc j => done (delete_tc_token b j)
  | AllTcJids => answer RJids (get_all_tc_token_jids b)
  | ExpireTc a c => answer RCount (delete_expired_tc_tokens b a c)
  | TouchTc now j st => done (touch_sender_timestamp constraint b now j st)
  | ReceiveTc now j t ts => done (store_received constraint b (draws 0%nat) now j t ts)
  | GetTcs l => answer RTcs (get_tc_tokens b l)
  | StoreSent now c m p => done (store_sent_message constraint b (draws 0%nat) now c m p)
  | TakeSent c m => answer RBytes (take_sent_message b c m)
  | GetSent c m => answer RBytes (get_sent_message b c m)
  | ExpireSent cutoff => answer RCount (delete_expired_sent_messages b cutoff)
  | PutSecrets l => answer (fun n => RCount (Z.of_nat n)) (put_msg_secrets constraint b draws l)
  | GetSecret c s m => answer RBytes (get_msg_secret b c s m)
  | GetStoredSecret c s m => answer RSecret (get_stored_msg_secret b c s m)
  | ExpireSecrets cutoff => answer RCount (delete_expired_msg_secrets b cutoff)
  end.

(** How a row of each table stands for a value. *)
Definition sealed_as (device : Z) (t c : string) (row blob plain : bytes) : Prop :=
  open_at cipher device t c row blob = Ok plain /\ (blob = [] <-> plain = []).

Definition skd_row (_ : string * string * Z) (row : Z * Z) (has : bool) : Prop := fst row = Z.b2z has.

Definition lid_as (k : string * Z) (row : LidRow) (e : LidPnMappingEntry) : Prop :=
  e = MkLid (fst k) (lr_phone row) (lr_created row) (lr_updated row) (lr_source row).

Definition base_row (k : string * string * Z) (row plain : bytes * Z) : Prop :=
  sealed_as (snd k) "base_keys" "base_key" (joined [k.1.1; k.1.2]) (fst row) (fst plain) /\ snd row = snd plain.

Definition devices_as (k : string * Z) (row : DeviceRow) (r : DeviceListRecord) : Prop :=
  of_json (dr_json row) = Ok (devices r) /\ user r = fst k /\ dr_timestamp row = timestamp r /\
  dr_phash row = phash r /\ as_u32 <$> dr_raw row = raw_id r.

Definition tc_as (k : string * Z) (row : TcRow) (e : TcTokenEntry) : Prop :=
  sealed_as (snd k) "tc_tokens" "token" (str_bytes (fst k)) (tr_token row) (token e) /\
  tr_timestamp row = token_timestamp e /\ tr_sender row = sender_timestamp e.

Definition sent_row (k : string * string * Z) (row plain : bytes * Z) : Prop :=
  sealed_as (snd k) "sent_messages" "payload" (joined [k.1.1; k.1.2]) (fst row) (fst plain) /\ snd row = snd plain.

Definition secret_as (k : string * string * string * Z) (row : SecretRow) (v : bytes * Z * Z) : Prop :=
  sealed_as (snd k) "msg_secrets" "secret" (secret_row k.1.1.1 k.1.1.2 k.1.2) (sr_secret row) v.1.1 /\
  length v.1.1 = 32%nat /\ sr_expires row = v.1.2 /\ sr_ts row = v.2.

Definition proto_rep (d : ProtoDb) (s : ProtoState) : Prop :=
  map_Forall2 skd_row (sender_key_devices d) (ps_skd s) /\
  map_Forall2 lid_as (lid_pn_mapping d) (ps_lid s) /\
  map_Forall2 base_row (base_keys d) (ps_base s) /\
  map_Forall2 devices_as (device_registry d) (ps_devices s) /\
  map_Forall2 tc_as (tc_tokens d) (ps_tc s) /\
  map_Forall2 sent_row (sent_messages d) (ps_sent s) /\
  map_Forall2 secret_as (msg_secrets d) (ps_secrets s).
End store.
