(* ===== verification/ProtocolLaws.v ===== *)
(** * The protocol store keeps its promise

    The tables one by one: what each write does to the values its rows stand for, and what each
    read answers. *)

From S2P Require Import Prelude StoreError Database StoreKey BlobCipher BatchChunks Refinement Backend ProtocolStore ProtocolSpec.

Section laws.
Context `{crypto : Crypto} `{!CryptoLaws crypto} `{lib : Wacore} `{!WacoreLaws lib}.
Context (constraint : StoreError) (cipher : BlobCipher) (calm : bool) (me : Z).
Let b := MkBackend me cipher.

(** The store represents [s]; in the calm case the account exists. *)
Definition ready (d : ProtoDb) (s : ProtoState) : Prop :=
  proto_rep cipher d s /\ (calm = true -> me ∈ pd_accounts d).

(** ** One table changes *)

Ltac one_table :=
  let H := fresh in intros [H ?] Hf; destruct H as (? & ? & ? & ? & ? & ? & ?);
  split; [split_and!; solve [done | by apply Hf] | done].

Lemma ready_skd f g d s :
  ready d s -> (map_Forall2 skd_row (sender_key_devices d) (ps_skd s) ->
    map_Forall2 skd_row (f (sender_key_devices d)) (g (ps_skd s))) -> ready (on_skd f d) (up_skd g s).
Proof using Type. one_table. Qed.

Lemma ready_lid f g d s :
  ready d s -> (map_Forall2 lid_as (lid_pn_mapping d) (ps_lid s) ->
    map_Forall2 lid_as (f (lid_pn_mapping d)) (g (ps_lid s))) -> ready (on_lid f d) (up_lid g s).
Proof using Type. one_table. Qed.

Lemma ready_base f g d s :
  ready d s -> (map_Forall2 (base_row cipher) (base_keys d) (ps_base s) ->
    map_Forall2 (base_row cipher) (f (base_keys d)) (g (ps_base s))) -> ready (on_base f d) (up_base g s).
Proof using Type. one_table. Qed.

Lemma ready_devices f g d s :
  ready d s -> (map_Forall2 devices_as (device_registry d) (ps_devices s) ->
    map_Forall2 devices_as (f (device_registry d)) (g (ps_devices s))) ->
  ready (on_devices f d) (up_devices g s).
Proof using Type. one_table. Qed.

Lemma ready_tc f g d s :
  ready d s -> (map_Forall2 (tc_as cipher) (tc_tokens d) (ps_tc s) ->
    map_Forall2 (tc_as cipher) (f (tc_tokens d)) (g (ps_tc s))) -> ready (on_tc f d) (up_tc g s).
Proof using Type. one_table. Qed.

Lemma ready_sent f g d s :
  ready d s -> (map_Forall2 (sent_row cipher) (sent_messages d) (ps_sent s) ->
    map_Forall2 (sent_row cipher) (f (sent_messages d)) (g (ps_sent s))) -> ready (on_sent f d) (up_sent g s).
Proof using Type. one_table. Qed.

Lemma ready_secrets f g d s :
  ready d s -> (map_Forall2 (secret_as cipher) (msg_secrets d) (ps_secrets s) ->
    map_Forall2 (secret_as cipher) (f (msg_secrets d)) (g (ps_secrets s))) ->
  ready (on_secrets f d) (up_secrets g s).
Proof using Type. one_table. Qed.

(** An INSERT is refused only when the account is gone. *)
Lemma insert_ready f d s' :
  (ready (f d) s') -> (calm = true -> me ∈ pd_accounts d) ->
  match insert_row constraint b f d with (Ok _, d') => ready d' s' | (Err _, _) => calm = false end.
Proof using Type.
  intros Hr Hacc. unfold insert_row. cbn [backend_device b]. destruct (decide (me ∈ pd_accounts d)); [done|].
  apply not_true_is_false. intros Hc. tauto.
Qed.

(** ** Upserts, on the rows *)

Lemma put_lid_rep e (m : gmap _ LidRow) (s : gmap _ _) :
  map_Forall2 lid_as m s ->
  map_Forall2 lid_as
    (<[(lid e, me) := MkLidRow (phone_number e)
        match m !! (lid e, me) with Some old => lr_created old | None => lid_created_at e end
        (learning_source e) (lid_updated_at e)]> m)
    (<[(lid e, me) := learn (s !! (lid e, me)) e]> s).
Proof using Type.
  intros Hm. apply map_Forall2_insert_2; [|done]. unfold lid_as, learn. cbn.
  destruct (Hm (lid e, me)) as [row v ->|]; cbn; done.
Qed.

Lemma save_base_rep a m k blob now (rows s : gmap _ (bytes * Z)) :
  sealed_as cipher me "base_keys" "base_key" (joined [a; m]) blob k ->
  map_Forall2 (base_row cipher) rows s ->
  map_Forall2 (base_row cipher)
    (<[(a, m, me) := (blob, match rows !! (a, m, me) with Some old => snd old | None => now end)]> rows)
    (<[(a, m, me) := (k, default now (snd <$> s !! (a, m, me)))]> s).
Proof using Type.
  intros Hk Hm. apply map_Forall2_insert_2; [|done]. split; [done|]. cbn.
  destruct (Hm (a, m, me)) as [row v [_ E]|]; cbn; done.
Qed.

Lemma update_devices_rep now r json (rows : gmap _ DeviceRow) (s : gmap _ _) :
  record_ok r -> to_json (devices r) = Ok json -> map_Forall2 devices_as rows s ->
  map_Forall2 devices_as
    (<[(user r, me) := MkDeviceRow json (timestamp r) (phash r) now (as_i32 <$> raw_id r)]> rows)
    (<[(user r, me) := r]> s).
Proof using WacoreLaws0.
  intros Hr Hj Hm. apply map_Forall2_insert_2; [|done]. split_and!; try done; [by apply of_to_json|]. cbn.
  destruct (raw_id r) as [raw|] eqn:E; [|done]. cbn. by rewrite as_u32_i32, as_u32_small by (by apply Hr).
Qed.

Lemma touch_rep j st now (rows : gmap _ TcRow) (s : gmap _ _) :
  map_Forall2 (tc_as cipher) rows s ->
  map_Forall2 (tc_as cipher)
    (<[(j, me) := match rows !! (j, me) with
                  | None => MkTcRow [] st (Some st) now
                  | Some old =>
                      let known := default st (tr_sender old) in
                      MkTcRow (tr_token old) (tr_timestamp old) (Some (if st <? known then known else st)) now
                  end]> rows)
    (<[(j, me) := touched (s !! (j, me)) st]> s).
Proof using Type.
  intros Hm. apply map_Forall2_insert_2; [|done]. destruct (Hm (j, me)) as [row v (Ht & Hts & Hst)|]; cbn.
  - split_and!; [done|done|]. cbn. rewrite <-Hst. f_equal.
    destruct (tr_sender row) as [t|]; cbn; [|destruct (Z.ltb_spec st st); lia].
    destruct (Z.ltb_spec st t); lia.
  - split_and!; [|done|done]. split; [|done]. cbn. unfold open_at, open_blob.
    by destruct (cipher_key cipher).
Qed.

Lemma receive_rep j t ts blob now (rows : gmap _ TcRow) (s : gmap _ _) :
  sealed_as cipher me "tc_tokens" "token" (str_bytes j) blob t ->
  map_Forall2 (tc_as cipher) rows s ->
  map_Forall2 (M := gmap (string * Z)) (tc_as cipher)
    (match rows !! (j, me) with
    | None => <[(j, me) := MkTcRow blob ts None now]> rows
    | Some old =>
        if decide (length (tr_token old) = 0%nat \/ tr_timestamp old <= ts) then
          <[(j, me) := MkTcRow blob ts (tr_sender old) now]> rows
        else rows
    end)
    (<[(j, me) := received (s !! (j, me)) t ts]> s).
Proof using Type.
  intros Hb Hm. pose proof (Hm (j, me)) as Hrow.
  destruct (rows !! (j, me)) as [row|] eqn:Er; destruct (s !! (j, me)) as [v|] eqn:Ev; inversion Hrow as [? ? Htc|]; subst.
  - destruct Htc as ([Ho He] & Hts & Hst). cbn [received].
    rewrite (decide_ext (length (tr_token row) = 0%nat \/ tr_timestamp row <= ts) (token v = [] \/ token_timestamp v <= ts))
      by (rewrite <-He, length_zero_iff_nil, Hts; done).
    destruct (decide (token v = [] \/ token_timestamp v <= ts)).
    + apply map_Forall2_insert_2; [|done]. by split_and!.
    + intros k. destruct (decide (k = (j, me))) as [->|Hne].
      * rewrite lookup_insert_eq, Er. constructor. by split_and!.
      * rewrite lookup_insert_ne by done. apply Hm.
  - apply map_Forall2_insert_2; [|done]. by split_and!.
Qed.

Lemma put_secret_rep e blob (rows : gmap _ SecretRow) (s : gmap _ _) :
  sealed_as cipher me "msg_secrets" "secret" (secret_row (chat e) (sender e) (msg_id e)) blob (secret e) ->
  length (secret e) = 32%nat ->
  map_Forall2 (secret_as cipher) rows s ->
  let k := (chat e, sender e, msg_id e, me) in
  map_Forall2 (secret_as cipher)
    (<[k := match rows !! k with
            | None => MkSecretRow blob (expires_at e) (message_ts e)
            | Some old => MkSecretRow blob (merge_expires (sr_expires old) (expires_at e))
                            (merge_ts (sr_ts old) (message_ts e))
            end]> rows)
    (<[k := keep_secret (s !! k) e]> s).
Proof using Type.
  intros Hb Hlen Hm k. apply map_Forall2_insert_2; [|done]. unfold keep_secret.
  destruct (Hm k) as [row [[p expires] ts] (_ & _ & He & Ht)|]; [|by split_and!]. cbn in He, Ht.
  split_and!; [done|done| |]; cbn.
  - unfold merge_expires, longer. rewrite He. case_decide; [done|]. destruct (Z.ltb_spec (expires_at e) expires); lia.
  - unfold merge_ts. rewrite Ht. destruct (Z.ltb_spec (message_ts e) ts); lia.
Qed.
(** ** Reads of many rows *)

Lemma skd_list g d s :
  ready d s ->
  let l := (fun '(jid, has) => (jid, negb (has =? 0))) <$> GET_SENDER_KEY_DEVICES b g d in
  NoDup l.*1 /\ forall j h, (j, h) ∈ l <-> ps_skd s !! (g, j, me) = Some h.
Proof using Type.
  intros [(Hskd & _) _] l. unfold GET_SENDER_KEY_DEVICES in l. cbn [backend_device b] in l.
  destruct (select_rep (V := bool) skd_row _ _ (fun '(key, row) =>
      let '(g', j, device) := key in if decide (g' = g /\ device = me) then Some (j, fst row) else None)
    (fun r => Ok ((fun '(jid, has) => (jid, negb (has =? 0))) r)) (fun _ => True)
    (fun j => (g, j, me)) (fun h => h) Hskd) as (l' & Hl & Hnd & Hin).
  - intros [[g' j] device] [has now] h row Hrow Hf. unfold skd_row in Hrow. cbn in Hrow. subst has.
    case_decide as Hc; [|discriminate]. destruct Hc as [-> ->]. injection Hf as <-. exists j. by destruct h.
  - intros j [has now] h _ Hrow. unfold skd_row in Hrow. cbn in Hrow. subst has.
    rewrite decide_True by done. eexists. split; [done|]. by destruct h.
  - rewrite mapM_pure in Hl. injection Hl as Hl. unfold l. rewrite Hl. split; [done|].
    intros j h. rewrite Hin. destruct (ps_skd s !! (g, j, me)); cbn; naive_solver.
Qed.

(** The mappings of this account, as pairs of a lid and its entry. *)
Lemma lid_list d s :
  ready d s ->
  let l := lid_entry <$> GET_ALL_LID_MAPPINGS b d in
  NoDup (lid <$> l) /\ forall e, e ∈ l <-> ps_lid s !! (lid e, me) = Some e.
Proof using Type.
  intros [(_ & Hlid & _) _] l. unfold GET_ALL_LID_MAPPINGS in l. cbn [backend_device b] in l.
  destruct (select_rep (V := LidPnMappingEntry) lid_as _ _
    (fun '(key, row) => if decide (snd key = me) then Some (lid_row (fst key) row) else None)
    (fun r => Ok ((fun r => (lid (lid_entry r), lid_entry r)) r)) (fun _ => True)
    (fun x => (x, me)) (fun e => e) Hlid) as (l' & Hl & Hnd & Hin).
  - intros [x device] row e r He Hf. unfold lid_as in He. subst e. cbn in Hf. case_decide as Hc; [|discriminate].
    subst device. injection Hf as <-. by exists x.
  - intros x row e _ He. unfold lid_as in He. subst e. cbn. rewrite decide_True by done. by eexists.
  - rewrite mapM_pure in Hl. injection Hl as Hl.
    assert (El : l = l'.*2) by (unfold l; rewrite <-Hl, <-list_fmap_compose; done).
    assert (El' : lid <$> l = l'.*1) by (unfold l; rewrite <-Hl, <-!list_fmap_compose; done).
    split; [by rewrite El'|]. intros e. rewrite El, list_elem_of_fmap. split.
    + intros ([x e'] & -> & Hx). cbn. apply Hin in Hx as [_ Hx].
      destruct (ps_lid s !! (x, me)) as [e|] eqn:E; [|discriminate]. injection Hx as ->.
      destruct (map_Forall2_some_r lid_as _ _ _ _ Hlid E) as (row & _ & He). unfold lid_as in He.
      assert (Ex : lid e' = x) by (by rewrite He). by rewrite Ex.
    + intros He. exists (lid e, e). split; [done|]. apply Hin. by rewrite He.
Qed.

Lemma newest_spec r rows :
  newest r rows ∈ r :: rows /\ forall r', r' ∈ r :: rows -> snd r' <= snd (newest r rows).
Proof using Type.
  revert r. induction rows as [|r1 rows IH]; intros r; cbn [newest].
  - split; [by left|]. intros r' [->|?%not_elem_of_nil]%elem_of_cons; done.
  - destruct (IH (if snd r <? snd r1 then r1 else r)) as [Hin Hle].
    assert (Hb : snd r <= snd (newest (if snd r <? snd r1 then r1 else r) rows) /\
                 snd r1 <= snd (newest (if snd r <? snd r1 then r1 else r) rows)).
    { pose proof (Hle _ (list_elem_of_here _ _)) as H. destruct (Z.ltb_spec (snd r) (snd r1)); lia. }
    split.
    + apply elem_of_cons in Hin as [E|Hin]; [|by right; right]. rewrite E.
      destruct (snd r <? snd r1); [right; left|left].
    + intros r' [->|[->|Hr']%elem_of_cons]%elem_of_cons; [tauto|tauto|]. apply Hle. by right.
Qed.

(** The newest mapping of a phone number. *)
Lemma pn_answer phone d s :
  ready d s ->
  match lid_entry <$> GET_PN_MAPPING b phone d with
  | None => forall l e, ps_lid s !! (l, me) = Some e -> phone_number e <> phone
  | Some e => ps_lid s !! (lid e, me) = Some e /\ phone_number e = phone /\
      forall l e', ps_lid s !! (l, me) = Some e' -> phone_number e' = phone ->
        lid_updated_at e' <= lid_updated_at e
  end.
Proof using Type.
  intros Hr. destruct (lid_list d s Hr) as [_ Hin]. destruct Hr as [(_ & Hlid & _) _].
  assert (Hphone : forall r : LidMappingRow, r.1.1.1.2 = phone_number (lid_entry r)) by (by intros [[[[? ?] ?] ?] ?]).
  assert (Hup : forall r : LidMappingRow, snd r = lid_updated_at (lid_entry r)) by (by intros [[[[? ?] ?] ?] ?]).
  assert (Hrows : forall l e, ps_lid s !! (l, me) = Some e -> phone_number e = phone ->
    exists r, r ∈ filter (fun r : LidMappingRow => r.1.1.1.2 = phone) (GET_ALL_LID_MAPPINGS b d) /\ lid_entry r = e).
  { intros l e He Hp. destruct (map_Forall2_some_r lid_as _ _ _ _ Hlid He) as (row & _ & E).
    assert (El : lid e = l) by (by rewrite E). rewrite <-El in He. apply Hin in He.
    apply list_elem_of_fmap in He as (r & -> & Hr). exists r. split; [|done].
    apply list_elem_of_filter. split; [|done]. by rewrite Hphone. }
  unfold GET_PN_MAPPING. destruct (filter _ _) as [|r rows] eqn:E.
  - cbn. intros l e He Hp. destruct (Hrows l e He Hp) as (r & ?%not_elem_of_nil & _). done.
  - cbn [fmap option_fmap option_map]. destruct (newest_spec r rows) as [Hn Hle].
    assert (Hf : newest r rows ∈ filter (fun r : LidMappingRow => r.1.1.1.2 = phone) (GET_ALL_LID_MAPPINGS b d))
      by (by rewrite E).
    apply list_elem_of_filter in Hf as [Hp Hf]. split_and!.
    + apply Hin, list_elem_of_fmap. by eexists.
    + by rewrite <-Hphone.
    + intros l e' He' Hp'. destruct (Hrows l e' He' Hp') as (r' & Hr' & <-). rewrite <-!Hup.
      by apply Hle.
Qed.

Lemma tc_jids d s :
  ready d s -> NoDup (GET_ALL_TC_TOKEN_JIDS b d) /\
  forall j, j ∈ GET_ALL_TC_TOKEN_JIDS b d <-> is_Some (ps_tc s !! (j, me)).
Proof using Type.
  intros [(_ & _ & _ & _ & Htc & _) _]. unfold GET_ALL_TC_TOKEN_JIDS. cbn [backend_device b]. split.
  - apply omap_nodup. intros [j1 d1] v1 [j2 d2] v2 w _ _ E1 E2.
    case_decide as C1; [|discriminate]. case_decide as C2; [|discriminate]. cbn in *. congruence.
  - intros j. rewrite list_elem_of_omap. split.
    + intros ([[j' device] row] & Hin & Hf). apply elem_of_map_to_list in Hin. case_decide as Hc; [|discriminate].
      cbn in Hc, Hf. injection Hf as ->. subst device.
      destruct (map_Forall2_some_l _ _ _ _ _ Htc Hin) as (e & He & _). by exists e.
    + intros [e He]. destruct (map_Forall2_some_r _ _ _ _ _ Htc He) as (row & Hr & _).
      exists ((j, me), row). split; [by apply elem_of_map_to_list|]. by rewrite decide_True.
Qed.

Lemma good_devices d s chunk :
  ready d s -> good_select (SELECT_DEVICES b)
    (fun row => record ← device_list_record row; Ok (user record, record))
    (fun u => ps_devices s !! (u, me)) d chunk.
Proof using Type.
  intros [(_ & _ & _ & Hdev & _) _]. unfold good_select, SELECT_DEVICES. cbn [backend_device b].
  destruct (select_rep devices_as _ _
    (fun '(key, row) => if decide (snd key = me /\ fst key ∈ chunk) then Some (device_row (fst key) row) else None)
    (fun row => record ← device_list_record row; Ok (user record, record))
    (fun u => u ∈ chunk) (fun u => (u, me)) (fun r => r) Hdev) as (l & Hl & Hnd & Hin).
  - intros [u device] row r rw (Hj & Hu & Ht & Hp & Hraw) Hf. cbn in Hf, Hu. case_decide as Hc; [|discriminate].
    destruct Hc as [-> Hc]. injection Hf as <-. exists u. split_and!; [done|done|]. cbn. rewrite Hj. cbn.
    destruct r; cbn in *; subst. done.
  - intros u row r Hu (Hj & Hru & Ht & Hp & Hraw). cbn in *. rewrite decide_True by done. eexists. split; [done|].
    cbn. rewrite Hj. cbn. destruct r; cbn in *; subst. done.
  - exists l. split_and!; [done|done|]. intros u r. rewrite Hin. cbn.
    destruct (ps_devices s !! (u, me)); cbn; naive_solver.
Qed.

Lemma good_tokens d s chunk :
  ready d s -> good_select (SELECT_TC_TOKENS b)
    (fun '(jid, row) => entry ← tc_entry b jid row; Ok (jid, entry))
    (fun j => ps_tc s !! (j, me)) d chunk.
Proof using Type.
  intros [(_ & _ & _ & _ & Htc & _) _]. unfold good_select, SELECT_TC_TOKENS. cbn [backend_device b].
  destruct (select_rep (tc_as cipher) _ _
    (fun '(key, row) => if decide (snd key = me /\ fst key ∈ chunk) then Some (fst key, tc_row row) else None)
    (fun '(jid, row) => entry ← tc_entry b jid row; Ok (jid, entry))
    (fun j => j ∈ chunk) (fun j => (j, me)) (fun e => e) Htc) as (l & Hl & Hnd & Hin).
  - intros [j device] row e rw ([Ho _] & Ht & Hs) Hf. cbn [fst snd] in Hf, Ho. case_decide as Hc; [|discriminate].
    destruct Hc as [-> Hc]. injection Hf as <-. exists j. split_and!; [done|done|]. unfold tc_entry, tc_row, open_row.
    cbn [backend_device backend_cipher b]. rewrite Ho. cbn. destruct e; cbn in *; by subst.
  - intros j row e Hj ([Ho _] & Ht & Hs). cbn [fst snd] in *. rewrite decide_True by done. eexists. split; [done|].
    unfold tc_entry, tc_row, open_row. cbn [backend_device backend_cipher b]. rewrite Ho. cbn. destruct e; cbn in *; by subst.
  - exists l. split_and!; [done|done|]. intros j e. rewrite Hin. cbn.
    destruct (ps_tc s !! (j, me)); cbn; naive_solver.
Qed.

(** ** Sweeps *)

Lemma post_count {K A B} `{Countable K} (rows : ProtoDb -> gmap K A)
    (on : (gmap K A -> gmap K A) -> ProtoDb -> ProtoDb) (R : K -> A -> B -> Prop)
    (stale : K * A -> Prop) (Q : K * B -> Prop) `{!forall x, Decision (stale x)} `{!forall x, Decision (Q x)}
    (tbl : gmap K B) d0 s' :
  map_Forall2 R (rows d0) tbl -> (forall k a v, R k a v -> stale (k, a) <-> Q (k, v)) ->
  (map_Forall2 R (filter (fun x => ~ stale x) (rows d0)) (filter (fun x => ~ Q x) tbl) ->
   ready (on (filter (fun x => ~ stale x)) d0) s') ->
  run_post calm (fun d => d = d0) (execute_count (sweep rows on stale))
    (fun n d => ready d s' /\ n = count_of Q tbl) (undone calm ready d0 s').
Proof using Type.
  intros Hm HPQ Hr. unfold execute_count.
  eapply (post_bind calm _ _ (fun n d => ready d s' /\ n = Z.of_nat (size (filter Q tbl)))).
  - apply (post_write_value calm ready _ d0 s'). unfold sweep. split.
    + apply Hr. apply map_Forall2_filter; [|done]. intros k a v HR. by rewrite (HPQ k a v HR).
    + f_equal. by apply (map_Forall2_size R), map_Forall2_filter.
  - intros n. apply post_ret. by intros d [Hd ->].
Qed.

(** ** Batches *)

Lemma post_set_skd now g l d0 s :
  ready d0 s -> let s' := foldl (fun s x => up_skd (insert (g, x.1, me) x.2) s) s l in
  run_post calm (fun d => d = d0) (set_sender_key_status constraint b now g l)
    (fun _ d => ready d s') (undone calm ready d0 s').
Proof using Type.
  intros Hr. apply (post_batch calm ready _ (fun s x => up_skd (insert (g, x.1, me) x.2) s)); [done|].
  intros [j h] s' _. apply post_item. intros d Hd. apply insert_ready; [|by apply Hd].
  apply ready_skd; [done|]. by apply map_Forall2_insert_2.
Qed.

Lemma post_delete_skd l d0 s :
  ready d0 s -> let s' := foldl (fun s j => up_skd (filter (fun x => ~ (x.1.1.2 = j /\ x.1.2 = me))) s) s l in
  run_post calm (fun d => d = d0) (delete_sender_key_device_rows b l)
    (fun _ d => ready d s') (undone calm ready d0 s').
Proof using Type.
  intros Hr. apply (post_batch calm ready _
    (fun s j => up_skd (filter (fun x => ~ (x.1.1.2 = j /\ x.1.2 = me))) s)); [done|].
  intros j s' _. apply post_item. intros d Hd. apply ready_skd; [done|].
  intros Hm. by apply map_Forall2_filter.
Qed.

Lemma put_lid_ready e d s :
  ready d s -> match put_lid_stmt constraint b e d with
               | (Ok _, d') => ready d' (step_lid me s e) | (Err _, _) => calm = false end.
Proof using Type.
  intros Hd. apply insert_ready; [|by apply Hd]. apply ready_lid; [done|]. apply put_lid_rep.
Qed.

Lemma post_put_lids l d0 s :
  ready d0 s -> let s' := foldl (step_lid me) s l in
  run_post calm (fun d => d = d0) (put_lid_mappings constraint b l) (fun _ d => ready d s') (undone calm ready d0 s').
Proof using Type.
  intros Hr. apply post_unless_empty; [done|]. apply (post_batch calm ready); [done|].
  intros e s' _. apply post_item. intros d Hd. by apply put_lid_ready.
Qed.

Lemma device_list_ready now r json d s :
  record_ok r -> to_json (devices r) = Ok json -> ready d s ->
  match device_list_stmt constraint b now r json d with
  | (Ok _, d') => ready d' (step_devices me s r) | (Err _, _) => calm = false end.
Proof using WacoreLaws0.
  intros Hr Hj Hd. apply insert_ready; [|by apply Hd]. apply ready_devices; [done|].
  by apply update_devices_rep.
Qed.

(** JSON first, then the statement. *)
Lemma post_json {A} P r (k : string -> Run ProtoDb A) Q X :
  (forall json, to_json (devices r) = Ok json -> run_post calm P (k json) Q X) ->
  run_post calm P (json ← of_result (devices_json r); k json) Q X.
Proof using WacoreLaws0.
  intros Hk. destruct (to_json_total (devices r)) as [json Hj]. unfold devices_json. rewrite Hj.
  intros w Hf Hw. unfold mbind, run_bind, of_result. by apply Hk.
Qed.

Lemma post_update_lists now l d0 s :
  Forall record_ok l -> ready d0 s -> let s' := foldl (step_devices me) s l in
  run_post calm (fun d => d = d0) (update_device_lists constraint b now l)
    (fun _ d => ready d s') (undone calm ready d0 s').
Proof using WacoreLaws0.
  intros Hl Hr. apply post_unless_empty; [done|]. apply (post_batch calm ready); [done|].
  intros r s' Hin. unfold put_device_list_in. apply post_json. intros json Hj. apply post_item. intros d Hd.
  apply device_list_ready; [|done|done]. by apply (proj1 (Forall_forall _ _) Hl).
Qed.

Lemma post_put_secrets draws l d0 s :
  (forall i, draws_ok (draws i)) -> (calm = true -> forall i, can_seal cipher (draws i)) ->
  Forall (fun e => length (secret e) = 32%nat) l -> ready d0 s ->
  let s' := foldl (step_secret me) s l in
  run_post calm (fun d => d = d0) (put_msg_secrets constraint b draws l)
    (fun n d => ready d s' /\ n = length l) (undone calm ready d0 s').
Proof using CryptoLaws0.
  intros Hd Hs Hl Hr s'. unfold put_msg_secrets. case_bool_decide as E.
  - subst l. by apply post_ret; intros d ->.
  - eapply (post_bind calm _ _ (fun _ d => ready d s')).
    + eapply (post_conseq calm _ _ _ _ _ (undone calm ready d0 s'));
        [apply (post_numbered_batch calm ready _ (step_secret me) l d0 s)|done..]; [done|].
      intros i e s1 Hin. pose proof (proj1 (Forall_forall _ _) Hl _ Hin) as Hlen.
      apply post_sealed_item; [done|auto|]. intros blob d Ho He Hrd. apply insert_ready; [|by apply Hrd].
      apply ready_secrets; [done|]. intros Hm. by apply put_secret_rep.
    + intros _. apply post_ret. by intros d Hrd.
Qed.

(** ** Taking a sent message *)

Lemma open_sent_row c m d s :
  ready d s -> open_sent b c m (GET_SENT_MESSAGE b c m d) = Ok (fst <$> ps_sent s !! (c, m, me)).
Proof using Type.
  intros [(_ & _ & _ & _ & _ & Hsent & _) _]. unfold open_sent, GET_SENT_MESSAGE, open_row.
  cbn [backend_device backend_cipher b]. destruct (Hsent (c, m, me)) as [row v [[Ho _] _]|]; [|done].
  cbn [fst snd] in Ho. cbn -[joined]. by rewrite Ho.
Qed.

Lemma post_take_sent c m d0 s :
  ready d0 s -> let s' := up_sent (delete (c, m, me)) s in
  run_post calm (fun d => d = d0) (take_sent_message b c m)
    (fun o d => ready d s' /\ o = fst <$> ps_sent s !! (c, m, me)) (undone calm ready d0 s').
Proof using Type.
  intros Hr s'. unfold take_sent_message. apply post_transaction.
  - intros d ->. run_step (fun p d => p = GET_SENT_MESSAGE b c m d0 /\ d = d0).
    { apply post_stmt; [by intros Hc ? _; split; [|left]|by intros d ->]. }
    apply post_at. intros d [-> ->].
    pose proof (open_sent_row c m d0 s Hr) as Ho.
    assert (Hdel : ready (on_sent (delete (c, m, me)) d0) s') by (apply ready_sent; [done|]; apply map_Forall2_delete).
    run_step (fun (_ : unit) d => ready d s').
    { destruct (GET_SENT_MESSAGE b c m d0) as [blob|] eqn:E.
      - apply post_stmt; [by intros Hc ? _; split; [|left]|]. by intros d ->.
      - apply post_ret. intros d ->. destruct Hdel as [Hdel ?]. split; [|done].
        assert (Ed : on_sent (delete (c, m, me)) d0 = d0); [|by rewrite Ed in Hdel].
        destruct d0. unfold on_sent. cbn. f_equal. apply delete_id. unfold GET_SENT_MESSAGE in E. cbn in E.
        by destruct (sent_messages !! (c, m, me)). }
    apply post_of_result; [|intros e d He; by rewrite Ho in He].
    intros o d Hod Hd. rewrite Ho in Hod. by injection Hod as <-.
  - intros Hc d ->. split; [done|by left].
  - intros Hc o d [Hd _]. split; [done|by right].
Qed.
(** ** Reads of one row *)

Lemma post_has_base a m k d0 s (X : ProtoDb -> Prop) :
  ready d0 s -> (calm = false -> X d0) ->
  run_post calm (fun d => d = d0) (has_same_base_key b a m k)
    (fun v d => d = d0 /\ v = bool_decide (fst <$> ps_base s !! (a, m, me) = Some k)) X.
Proof using Type.
  intros [(_ & _ & Hbase & _) _] HX. unfold has_same_base_key.
  run_step (fun row d => row = GET_BASE_KEY b a m d0 /\ d = d0).
  { apply post_query; [by intros Hc d ->; apply HX|by intros d ->]. }
  apply post_at. intros d [-> ->].
  assert (Ho : transpose (open_row b "base_keys" "base_key" (joined [a; m]) <$> GET_BASE_KEY b a m d0) =
    Ok (fst <$> ps_base s !! (a, m, me))).
  { unfold GET_BASE_KEY, open_row. cbn [backend_device backend_cipher b].
    destruct (Hbase (a, m, me)) as [row v [[Ho _] _]|]; [|done]. cbn [fst snd] in Ho. cbn -[joined]. by rewrite Ho. }
  rewrite Ho. run_step (fun v d => v = fst <$> ps_base s !! (a, m, me) /\ d = d0).
  { apply post_of_result; [|done]. by intros v d [= <-] ->. }
  apply post_ret. by intros d [-> ->].
Qed.

Lemma get_devices_row u d s :
  ready d s -> transpose (device_list_record <$> GET_DEVICES b u d) = Ok (ps_devices s !! (u, me)).
Proof using Type.
  intros [(_ & _ & _ & Hdev & _) _]. unfold GET_DEVICES. cbn [backend_device b].
  destruct (Hdev (u, me)) as [row r (Hj & Hu & Ht & Hp & Hraw)|]; [|done]. cbn. rewrite Hj. cbn.
  cbn in Hu. destruct r; cbn in *; subst. done.
Qed.

Lemma get_tc_row j d s :
  ready d s -> transpose (tc_entry b j <$> GET_TC_TOKEN b j d) = Ok (ps_tc s !! (j, me)).
Proof using Type.
  intros [(_ & _ & _ & _ & Htc & _) _]. unfold GET_TC_TOKEN. cbn [backend_device b].
  destruct (Htc (j, me)) as [row e ([Ho _] & Ht & Hs)|]; [|done]. cbn [fst snd] in Ho.
  cbn -[str_bytes]. unfold open_row. cbn [backend_device backend_cipher b]. rewrite Ho. cbn.
  destruct e; cbn in *; by subst.
Qed.

Lemma get_secret_row c sn m d s :
  ready d s ->
  transpose (open_row b "msg_secrets" "secret" (secret_row c sn m) <$> GET_MSG_SECRET b c sn m d) =
    Ok (fst <$> (fst <$> ps_secrets s !! (c, sn, m, me))).
Proof using Type.
  intros [(_ & _ & _ & _ & _ & _ & Hsec) _]. unfold GET_MSG_SECRET, open_row.
  cbn [backend_device backend_cipher b].
  destruct (Hsec (c, sn, m, me)) as [row [[p e] ts] ([Ho _] & _)|]; [|done].
  cbn [fst snd] in Ho. cbn -[secret_row]. by rewrite Ho.
Qed.

Lemma stored_secret_row c sn m d s :
  ready d s -> exists o,
    transpose ((fun '(stored, ts) =>
      plain ← open_row b "msg_secrets" "secret" (secret_row c sn m) stored; from_stored_bytes plain ts)
      <$> GET_MSG_SECRET_WITH_TS b c sn m d) = Ok o /\
    match ps_secrets s !! (c, sn, m, me) with
    | None => o = None
    | Some (secret, _, ts) => exists x, o = Some x /\ from_stored_bytes secret ts = Ok x
    end.
Proof using WacoreLaws0.
  intros [(_ & _ & _ & _ & _ & _ & Hsec) _]. unfold GET_MSG_SECRET_WITH_TS, open_row.
  cbn [backend_device backend_cipher b].
  destruct (Hsec (c, sn, m, me)) as [row [[p e] ts] ([Ho _] & Hlen & _ & Ht)|]; [|by exists None].
  cbn [fst snd] in Ho, Hlen, Ht. destruct (secret_accepted p ts Hlen) as [x Hx].
  exists (Some x). split; [|by exists x]. cbn -[secret_row]. rewrite Ho. cbn. by rewrite Ht, Hx.
Qed.

Lemma post_devices_batch us d0 s (X : ProtoDb -> Prop) :
  ready d0 s -> (calm = false -> X d0) ->
  run_post calm (fun d => d = d0) (get_devices_batch b us)
    (fun l d => d = d0 /\ NoDup (user <$> l) /\
       forall e, e ∈ l <-> user e ∈ us /\ ps_devices s !! (user e, me) = Some e) X.
Proof using Type.
  intros Hr HX. unfold get_devices_batch. eapply post_bind.
  - apply (post_read_padded calm _ _ (fun u => ps_devices s !! (u, me))); [done|].
    intros chunk _. by apply good_devices.
  - intros l. apply post_ret. intros d (-> & Hnd & Hin). split; [done|].
    pose proof (proj1 Hr) as (_ & _ & _ & Hdev & _).
    assert (Huser : forall u e, (u, e) ∈ l -> user e = u).
    { intros u e [_ He]%Hin. destruct (map_Forall2_some_r devices_as _ _ _ _ Hdev He) as (row & _ & _ & E & _). done. }
    assert (El : user <$> l.*2 = l.*1).
    { clear Hnd Hin. rewrite <-list_fmap_compose. apply list_fmap_ext. intros i [u e] Hi. cbn. apply Huser.
      by eapply list_elem_of_lookup_2. }
    rewrite El. split; [done|]. intros e. rewrite list_elem_of_fmap. split.
    + intros ([u e'] & -> & Hx). cbn. rewrite (Huser u e' Hx). by apply Hin.
    + intros He. exists (user e, e). split; [done|]. by apply Hin.
Qed.

(** Position by position, absent and repeated ones included. *)
Lemma post_get_tokens js d0 s (X : ProtoDb -> Prop) :
  ready d0 s -> (calm = false -> X d0) ->
  run_post calm (fun d => d = d0) (get_tc_tokens b js)
    (fun l d => d = d0 /\ l = (fun j => ps_tc s !! (j, me)) <$> js) X.
Proof using Type.
  intros Hr HX. unfold get_tc_tokens. eapply post_bind.
  - apply (post_read_padded calm _ _ (fun j => ps_tc s !! (j, me))); [done|].
    intros chunk _. by apply good_tokens.
  - intros found. cbv zeta. apply post_ret. intros d (-> & Hnd & Hin). split; [done|].
    apply list_fmap_ext. intros i j Hj. rewrite foldl_insert_lookup; [|done|by intros _; rewrite lookup_empty].
    apply option_eq. intros e. rewrite <-elem_of_list_to_map, Hin by done.
    split; [by intros [_ ?]|]. intros He. split; [by eapply list_elem_of_lookup_2|done].
Qed.
End laws.
