(* ===== verification/ProtocolProps.v ===== *)
(** * The protocol store refines its specification

    The [StoreRefinement] instance, the properties about histories and about stores that do not
    fail, and the laws of the tc-token and message-secret rules. *)

From S2P Require Import Prelude StoreError Database StoreKey BlobCipher BatchChunks Refinement Backend ProtocolStore ProtocolSpec ProtocolLaws.

Section refines.
Context `{crypto : Crypto} `{!CryptoLaws crypto} `{lib : Wacore} `{!WacoreLaws lib}.
Context (constraint : StoreError) (cipher : BlobCipher).

Lemma post_proto_call calm me draws op d0 s :
  let call := MkProtoCall me draws op in
  proto_ok call -> (calm = true -> forall i, can_seal cipher (draws i)) -> ready cipher calm me d0 s ->
  run_post calm (fun d => d = d0) (proto_run constraint cipher call)
    (fun r d => ready cipher calm me d (proto_step call s) /\ proto_reply call s r)
    (undone calm (ready cipher calm me) d0 (proto_step call s)).
Proof using All.
  intros call [Hd Hok] Hs Hr. cbn [pc_draws call] in Hd.
  assert (HX : calm = false -> undone calm (ready cipher calm me) d0 s d0) by (intros; by apply undone_start).
  assert (Hacc : calm = true -> me ∈ pd_accounts d0) by apply Hr.
  pose proof (proj1 Hr) as (Hskd & Hlid & Hbase & Hdev & Htc & Hsent & Hsec).
  destruct op; cbn in Hok; unfold proto_run, proto_step, proto_reply, done, answer;
    cbn [pc_op pc_device pc_draws call].
  - (* GetSkd *)
    apply (post_get calm (ready cipher calm me)); [done|done|].
    destruct (skd_list cipher calm me group_jid d0 s Hr) as [Hnd Hin]. by eexists.
  - apply post_done. by apply post_set_skd.
  - apply post_done, post_write, ready_skd; [done|]. intros Hm. by apply map_Forall2_filter.
  - apply post_done. by apply post_delete_skd.
  - apply post_done, post_write, ready_skd; [done|]. intros Hm. by apply map_Forall2_filter.
  - (* GetLid *)
    apply (post_get calm (ready cipher calm me)); [done|done|]. unfold GET_LID_MAPPING. cbn [backend_device].
    f_equal. by destruct (Hlid (l, me)) as [row e ->|].
  - (* GetPn *)
    apply (post_get calm (ready cipher calm me)); [done|done|].
    pose proof (pn_answer cipher calm me phone d0 s Hr) as Hpn. by eexists.
  - apply post_done, post_write. by apply put_lid_ready.
  - (* GetAllLid *)
    apply (post_get calm (ready cipher calm me)); [done|done|].
    destruct (lid_list cipher calm me d0 s Hr) as [Hnd Hin]. by eexists.
  - apply post_done. by apply post_put_lids.
  - (* SaveBase *)
    apply post_done, post_seal_row; [done|auto|by intros Hc ? ->; apply (undone_start calm)|].
    intros blob Ho He. apply post_write, insert_ready; [|done]. apply ready_base; [done|].
    by apply save_base_rep.
  - (* HasSameBase *)
    eapply post_reply; [done| |].
    2: { apply (post_has_base cipher calm me address message_id current d0 s); [done|done]. }
    by intros v ->.
  - apply post_done, post_write, ready_base; [done|]. apply map_Forall2_delete.
  - (* ExpireBase *)
    eapply post_bind; [apply (post_count cipher calm me base_keys on_base (base_row cipher) _
      (fun x => snd x.2 < cutoff /\ x.1.2 = me) (ps_base s)); [done| |by intros Hm; apply ready_base]|].
    + intros k a v [_ E]. cbn. by rewrite E.
    + intros n. apply post_ret. by intros ? [? ->].
  - (* UpdateDevices *)
    apply post_done. unfold update_device_list. apply post_json. intros json Hj. apply post_write.
    by apply device_list_ready.
  - apply post_done. by apply post_update_lists.
  - (* GetDevices *)
    eapply (post_got calm (ready cipher calm me)); [done|done| |done].
    by eapply get_devices_row.
  - (* GetDevicesBatch *)
    eapply post_reply; [done| |by eapply post_devices_batch]. intros l Hl. by exists l.
  - apply post_done, post_write, ready_devices; [done|]. apply map_Forall2_delete.
  - (* GetTc *)
    eapply (post_got calm (ready cipher calm me)); [done|done| |done]. by eapply get_tc_row.
  - (* PutTc *)
    apply post_done, post_seal_row; [done|auto|by intros Hc ? ->; apply (undone_start calm)|].
    intros blob Ho He. apply post_write, insert_ready; [|done]. apply ready_tc; [done|].
    intros Hm. apply map_Forall2_insert_2; [by split_and!|done].
  - apply post_done, post_write, ready_tc; [done|]. apply map_Forall2_delete.
  - (* AllTcJids *)
    eapply post_bind; [apply (post_query calm _ _ (fun l d => d = d0 /\ l = GET_ALL_TC_TOKEN_JIDS (MkBackend me cipher) d0));
      [by intros Hc d ->; apply HX|by intros d ->]|].
    intros l. apply post_ret. intros d [-> ->]. destruct (tc_jids cipher calm me d0 s Hr) as [Hnd Hin].
    split; [done|]. by eexists.
  - (* ExpireTc *)
    eapply post_bind; [apply (post_count cipher calm me tc_tokens on_tc (tc_as cipher) _
      (fun x => tc_stale token_cutoff sender_cutoff x.2 /\ snd x.1 = me) (ps_tc s)); [done| |by intros Hm; apply ready_tc]|].
    + intros k a v ([_ He] & Ht & Hst). cbn. unfold tc_stale. by rewrite length_zero_iff_nil, He, Ht, Hst, assoc by apply _.
    + intros n. apply post_ret. by intros ? [? ->].
  - (* TouchTc *)
    apply post_done, post_write, insert_ready; [|done]. apply ready_tc; [done|]. apply touch_rep.
  - (* ReceiveTc *)
    apply post_done, post_seal_row; [done|auto|by intros Hc ? ->; apply (undone_start calm)|].
    intros blob Ho He. apply post_write, insert_ready; [|done]. apply ready_tc; [done|]. by apply receive_rep.
  - (* GetTcs *)
    eapply post_reply; [done| |by eapply post_get_tokens]. by intros v ->.
  - (* StoreSent *)
    apply post_done, post_seal_row; [done|auto|by intros Hc ? ->; apply (undone_start calm)|].
    intros blob Ho He. apply post_write, insert_ready; [|done]. apply ready_sent; [done|].
    intros Hm. by apply map_Forall2_insert_2.
  - (* TakeSent *)
    eapply post_bind; [by apply post_take_sent|]. intros o. apply post_ret. by intros ? [? ->].
  - (* GetSent *)
    eapply (post_got calm (ready cipher calm me)); [done|done| |done]. by eapply open_sent_row.
  - (* ExpireSent *)
    eapply post_bind; [apply (post_count cipher calm me sent_messages on_sent (sent_row cipher) _
      (fun x => snd x.2 < cutoff /\ x.1.2 = me) (ps_sent s)); [done| |by intros Hm; apply ready_sent]|].
    + intros k a v [_ E]. cbn. by rewrite E.
    + intros n. apply post_ret. by intros ? [? ->].
  - (* PutSecrets *)
    eapply post_bind; [by apply post_put_secrets|]. intros n. apply post_ret. by intros ? [? ->].
  - (* GetSecret *)
    eapply (post_got calm (ready cipher calm me)); [done|done| |done]. by eapply get_secret_row.
  - (* GetStoredSecret *)
    destruct (stored_secret_row cipher calm me c s0 m d0 s Hr) as (o & Ho & Hspec).
    eapply (post_got calm (ready cipher calm me)); [done|done|exact Ho|]. by exists o.
  - (* ExpireSecrets *)
    eapply post_bind; [apply (post_count cipher calm me msg_secrets on_secrets (secret_as cipher) _
      (fun x => x.2.1.2 <> 0 /\ x.2.1.2 <= cutoff /\ x.1.2 = me) (ps_secrets s)); [done| |by intros Hm; apply ready_secrets]|].
    + intros k a v (_ & _ & E & _). cbn. by rewrite E.
    + intros n. apply post_ret. by intros ? [? ->].
Qed.
End refines.

Lemma proto_refines `{crypto : Crypto} `{!CryptoLaws crypto} `{lib : Wacore} `{!WacoreLaws lib} constraint cipher
    call d0 s :
  proto_rep cipher d0 s -> proto_ok call ->
  run_post false (fun d => d = d0) (proto_run constraint cipher call)
    (fun r d => proto_rep cipher d (proto_step call s) /\ proto_reply call s r)
    (fun d => d = d0 \/ proto_rep cipher d (proto_step call s)).
Proof.
  destruct call as [me draws op]. intros Hrep Hok.
  eapply post_conseq; [apply (post_proto_call constraint cipher false me draws op d0 s Hok)|done| |].
  - done.
  - by split.
  - intros r d [[Hd _] Hr]. by split.
  - intros d [_ [->|[Hd _]]]; [by left|by right].
Qed.

#[global] Instance protocol_store_refines `{crypto : Crypto} `{!CryptoLaws crypto} `{lib : Wacore} `{!WacoreLaws lib}
    (constraint : StoreError) (cipher : BlobCipher) :
  StoreRefinement ProtoDb ProtoState ProtoCall ProtoReply := {|
    run_op := proto_run constraint cipher;
    rep := proto_rep cipher;
    step_op := proto_step;
    reply_ok := proto_reply;
    op_ok := proto_ok;
    op_refines := proto_refines constraint cipher;
  |}.

(** ** The properties *)

(** C10.  The protocol store under any history of calls of any accounts, whatever statements fail
    on the way: the sealed rows stand for the values the calls that took effect leave, every
    answered call took effect whole, and it answered by the values it found (the newest mapping
    of a phone, the tokens in the order asked, how many rows a sweep removed, the message that
    was taken). *)
Theorem protocol_store_history `{crypto : Crypto} `{!CryptoLaws crypto} `{lib : Wacore} `{!WacoreLaws lib}
    constraint cipher (calls : list ProtoCall) (w : World ProtoDb) (s : ProtoState) :
  proto_rep cipher (db w) s -> Forall proto_ok calls ->
  let '(rs, w') := run_all (H := protocol_store_refines constraint cipher) calls w in
  exists taken,
    proto_rep cipher (db w') (steps_taken (H := protocol_store_refines constraint cipher) calls taken s) /\
    answers_ok (H := protocol_store_refines constraint cipher) calls taken rs s.
Proof. intros Hrep Hok. by apply (run_all_history (H := protocol_store_refines constraint cipher)). Qed.

(** On a database that does not fail every call of an existing account succeeds and answers
    by the state. *)
Theorem protocol_call_succeeds `{crypto : Crypto} `{!CryptoLaws crypto} `{lib : Wacore} `{!WacoreLaws lib}
    constraint cipher (call : ProtoCall) (d : ProtoDb) (s : ProtoState) :
  proto_rep cipher d s -> pc_device call ∈ pd_accounts d -> proto_ok call ->
  (forall i, can_seal cipher (pc_draws call i)) ->
  exists r d', proto_run constraint cipher call (MkWorld d []) = (Ok r, MkWorld d' []) /\
    proto_rep cipher d' (proto_step call s) /\ proto_reply call s r.
Proof.
  destruct call as [me draws op]. cbn [pc_device pc_draws]. intros Hrep Hme Hok Hs.
  pose proof (post_proto_call constraint cipher true me draws op d s Hok (fun _ => Hs)) as Hp.
  specialize (Hp ltac:(by split) (MkWorld d []) ltac:(done) eq_refl).
  destruct (proto_run constraint cipher _ _) as [[r|e] [d' fs]]; [|by destruct Hp].
  destruct Hp as [[[Hd _] Hr] Hfs]. cbn in Hfs. rewrite Hfs by done. eauto.
Qed.

(** The two atomic tc-token writers commute: a token that arrives and a send that is noted
    leave the same token, the same token time and the same sender time in either order, whatever
    was stored, and a send never moves the sender time back. *)
Theorem tc_writers_commute `{lib : Wacore} constraint backend (jid : string) (blob : bytes) (ts st now1 now2 : Z)
    (d : ProtoDb) :
  let receive d := (STORE_RECEIVED constraint backend jid blob ts now1 d).2 in
  let touch d := (TOUCH_SENDER_TIMESTAMP constraint backend jid st now2 [] d).2 in
  (forall j, GET_TC_TOKEN backend j (receive (touch d)) = GET_TC_TOKEN backend j (touch (receive d))) /\
  (forall old, tr_sender <$> tc_tokens d !! (jid, backend_device backend) = Some (Some old) ->
     exists new, tr_sender <$> tc_tokens (touch d) !! (jid, backend_device backend) = Some (Some new) /\ old <= new).
Proof.
  intros receive touch. subst receive touch.
  unfold STORE_RECEIVED, TOUCH_SENDER_TIMESTAMP, GET_TC_TOKEN, insert_row. set (me := backend_device backend).
  split.
  - intros j. destruct (decide (me ∈ pd_accounts d)) as [Hme|Hme]; cbn;
      [|by rewrite !decide_False by done].
    rewrite !decide_True by done. cbn. rewrite !lookup_insert_eq.
    destruct (decide (j = jid)) as [->|Hne].
    + destruct (tc_tokens d !! (jid, me)) as [row|] eqn:E; cbn.
      * case_decide; by rewrite ?lookup_insert_eq, ?E.
      * rewrite decide_True by (by left). rewrite !lookup_insert_eq. cbn. by destruct (st <? st).
    + assert (Hk : (jid, me) <> (j, me)) by congruence.
      destruct (tc_tokens d !! (jid, me)) as [row|]; cbn; repeat case_decide;
        rewrite ?(lookup_insert_ne _ _ _ _ Hk); done.
  - intros old Hold. destruct (decide (me ∈ pd_accounts d)) as [Hme|Hme]; cbn; [|eauto with lia].
    rewrite lookup_insert_eq. destruct (tc_tokens d !! (jid, me)) as [row|]; [|done]. cbn in Hold |- *.
    injection Hold as Hold. rewrite Hold. cbn. eexists. split; [done|]. destruct (Z.ltb_spec st old); lia.
Qed.

(** ** Retention of message secrets *)

(** The times a row and the puts over it bring. *)
Definition times_of (f : SecretRow -> Z) (old : option SecretRow) (puts : list Z) : list Z :=
  match old with Some row => f row :: puts | None => puts end.

(** [v] is one of [l], and 0 is in [l] exactly when [v] is 0; else none is later. *)
Definition longest (l : list Z) (v : Z) : Prop :=
  v ∈ l /\ (v = 0 <-> 0 ∈ l) /\ (v <> 0 -> forall x, x ∈ l -> x <= v).

Lemma longest_merge l v x : longest l v -> longest (l ++ [x]) (merge_expires v x).
Proof.
  intros (Hin & Hz & Hle). unfold longest. setoid_rewrite elem_of_app. setoid_rewrite list_elem_of_singleton.
  unfold merge_expires. case_decide as Hc.
  - split_and!; [|split; [|done]|done]; intros; destruct Hc as [-> | ->]; tauto.
  - assert (Hn0 : 0 ∉ l) by tauto. destruct (Z.ltb_spec x v).
    + split_and!; [tauto|split; [lia|intros [?|?]; [done|lia]]|]. intros _ y [Hy| ->]; [apply Hle; tauto|lia].
    + split_and!; [tauto|split; [lia|intros [?|?]; [done|lia]]|]. intros _ y [Hy| ->]; [|lia].
      transitivity v; [apply Hle; tauto|done].
Qed.

Lemma latest_merge l v x :
  v ∈ l -> (forall y, y ∈ l -> y <= v) ->
  merge_ts v x ∈ l ++ [x] /\ forall y, y ∈ l ++ [x] -> y <= merge_ts v x.
Proof.
  intros Hin Hle. setoid_rewrite elem_of_app. setoid_rewrite list_elem_of_singleton. unfold merge_ts.
  destruct (Z.ltb_spec x v); (split; [tauto|intros y [Hy| ->]; [specialize (Hle y Hy)|]; lia]).
Qed.

Section retention.
Context `{lib : Wacore} (constraint : StoreError) (backend : Backend) (c s m : string).
Let me := backend_device backend.

Definition put_all (puts : list (bytes * Z * Z)) (d : ProtoDb) : ProtoDb :=
  foldl (fun d p => (PUT_MSG_SECRET constraint backend c s m p.1.1 p.1.2 p.2 d).2) d puts.

Definition kept (old : option SecretRow) (puts : list (bytes * Z * Z)) (row : option SecretRow) : Prop :=
  match row with
  | None => old = None /\ puts = []
  | Some row =>
      longest (times_of sr_expires old (puts.*1.*2)) (sr_expires row) /\
      sr_ts row ∈ times_of sr_ts old (puts.*2) /\
      (forall t, t ∈ times_of sr_ts old (puts.*2) -> t <= sr_ts row) /\
      Some (sr_secret row) = last (from_option (fun r => [sr_secret r]) [] old ++ puts.*1.*1)
  end.

Lemma times_of_snoc f old l x : times_of f old (l ++ [x]) = times_of f old l ++ [x].
Proof using Type. by destruct old. Qed.

Lemma put_all_kept puts d :
  me ∈ pd_accounts d ->
  let d' := put_all puts d in
  pd_accounts d' = pd_accounts d /\
  kept (msg_secrets d !! (c, s, m, me)) puts (msg_secrets d' !! (c, s, m, me)).
Proof using Type.
  intros Hme. cbv zeta. induction puts as [|[[blob e] t] puts [IHacc IH]] using rev_ind.
  - split; [done|]. cbn. destruct (msg_secrets d !! (c, s, m, me)) as [row|] eqn:E; cbn; [|done].
    split_and!; [|by left| |done].
    + split_and!; [by left| |]; [split; [intros ->; by left|by intros ->%list_elem_of_singleton]|].
      by intros _ x ->%list_elem_of_singleton.
    + by intros x ->%list_elem_of_singleton.
  - unfold put_all in *. rewrite foldl_app. cbn [foldl].
    set (d1 := foldl _ d puts) in *. unfold PUT_MSG_SECRET, insert_row. fold me.
    rewrite decide_True by (by rewrite IHacc). cbn. split; [done|]. rewrite lookup_insert_eq.
    unfold kept in *. rewrite !fmap_app. cbn. rewrite !times_of_snoc, app_assoc, last_snoc.
    destruct (msg_secrets d1 !! (c, s, m, me)) as [row|] eqn:E; cbn.
    + destruct IH as (He & Ht & Hle & _).
      destruct (latest_merge _ _ t Ht Hle) as [Ht' Hle']. split_and!; [by apply longest_merge|done|done|done].
    + destruct IH as [-> ->]. cbn. split_and!; [|by left|by intros x ->%list_elem_of_singleton|done].
      split_and!; [by left| |]; [split; [intros ->; by left|by intros ->%list_elem_of_singleton]|].
      by intros _ x ->%list_elem_of_singleton.
Qed.
End retention.

(** C11.  Message secrets are never kept for less than anyone asked: whatever puts of one message
    run, and in whatever order, the row's deadline is 0 (for ever) exactly when one of them, or
    the row they found, said so, and else the latest of them all; the parent time is the latest
    known; the secret is the last one put. *)
Theorem msg_secret_retention `{lib : Wacore} constraint backend (c s m : string) (puts : list (bytes * Z * Z))
    (d : ProtoDb) :
  backend_device backend ∈ pd_accounts d ->
  let key := (c, s, m, backend_device backend) in
  kept (msg_secrets d !! key) puts (msg_secrets (put_all constraint backend c s m puts d) !! key).
Proof. intros Hme. by apply put_all_kept. Qed.

(** ** Witnesses *)

(** A library whose JSON of a list of strings is their lengths and bytes. *)
#[global] Instance toy_lib : Wacore := {|
  DeviceInfo := bool;
  to_json := fun l => Ok (String.string_of_list_ascii ((fun b : bool => if b then Ascii.one else Ascii.zero) <$> l));
  of_json := fun j => Ok ((fun a => bool_decide (a = Ascii.one)) <$> String.list_ascii_of_string j);
  StoredMessageSecret := bytes * Z;
  from_stored_bytes := fun s ts => if (length s =? 32)%nat then Ok (s, ts) else Err (Validation "secret length");
|}.

#[global] Instance toy_lib_laws : WacoreLaws toy_lib.
Proof.
  split.
  - intros l j [= <-]. cbn. rewrite String.list_ascii_of_string_of_list_ascii. f_equal.
    induction l as [|[] l IH]; cbn; [done|f_equal; done..].
  - intros l. by eexists.
  - intros secret ts Hlen. cbn. rewrite Hlen. by eexists.
Qed.

Definition no_rows : ProtoDb := MkProtoDb {[4; 5]} ∅ ∅ ∅ ∅ ∅ ∅ ∅.
Definition no_values : ProtoState := MkProtoState ∅ ∅ ∅ ∅ ∅ ∅ ∅.

Lemma no_values_rep `{Crypto} cipher : proto_rep cipher no_rows no_values.
Proof. split_and!; intros k; cbn; rewrite !lookup_empty; constructor. Qed.

Definition toy_proto (me : Z) (op : ProtoOp) : ProtoCall := MkProtoCall me (fun _ => toy_draws) op.

(** What SQLite answers to a row whose account does not exist. *)
Definition no_account_error : StoreError := Database "FOREIGN KEY constraint failed".

Definition toy_history : list ProtoCall :=
  [ toy_proto 4 (StoreSent 100 "chat" "m1" (str_bytes "hello")); toy_proto 5 (TakeSent "chat" "m1");
    toy_proto 4 (ExpireSent 50); toy_proto 4 (TakeSent "chat" "m1"); toy_proto 4 (TakeSent "chat" "m1");
    toy_proto 4 (TouchTc 7 "bob" 90); toy_proto 4 (ReceiveTc 8 "bob" (str_bytes "tok") 12);
    toy_proto 4 (GetTcs ["eve"; "bob"; "bob"]); toy_proto 4 (ExpireTc 100 80); toy_proto 6 (ClearAllSkd) ].

Lemma toy_history_ok : Forall proto_ok toy_history.
Proof. unfold toy_history. repeat (apply Forall_cons; split); [split; [intros; apply toy_draws_ok|done]..|constructor]. Qed.

Lemma protocol_store_history_witness :
  (let '(rs, w') := run_all (H := protocol_store_refines no_account_error (sealing toy_key)) toy_history
                      (MkWorld no_rows []) in
   exists taken,
     proto_rep (sealing toy_key) (db w')
       (steps_taken (H := protocol_store_refines no_account_error (sealing toy_key)) toy_history taken no_values) /\
     answers_ok (H := protocol_store_refines no_account_error (sealing toy_key)) toy_history taken rs no_values) /\
  (run_all (H := protocol_store_refines no_account_error (sealing toy_key)) toy_history (MkWorld no_rows [])).1 =
    [Ok RUnit; Ok (RBytes None); Ok (RCount 0); Ok (RBytes (Some (str_bytes "hello"))); Ok (RBytes None);
     Ok RUnit; Ok RUnit;
     Ok (RTcs [None; Some (MkTcToken (str_bytes "tok") 12 (Some 90)); Some (MkTcToken (str_bytes "tok") 12 (Some 90))]);
     Ok (RCount 0); Ok RUnit].
Proof.
  split; [|vm_compute; reflexivity].
  apply (protocol_store_history no_account_error (sealing toy_key) toy_history); [apply no_values_rep|apply toy_history_ok].
Defined.

Lemma protocol_call_succeeds_witness :
  let call := toy_proto 4 (PutSecrets [MkSecret "c" "s" "m" (repeat Byte.x07 32) 0 5]) in
  exists r d', proto_run no_account_error (sealing toy_key) call (MkWorld no_rows []) = (Ok r, MkWorld d' []) /\
    proto_rep (sealing toy_key) d' (proto_step call no_values) /\ proto_reply call no_values r.
Proof.
  intros call. apply (protocol_call_succeeds no_account_error (sealing toy_key) call).
  - apply no_values_rep.
  - cbn. set_solver.
  - split; [intros; apply toy_draws_ok|by repeat constructor].
  - intros i. split_and!; [done|by eexists|by eexists].
Defined.

Lemma msg_secret_retention_witness :
  let b := MkBackend 4 passthrough in
  let puts := [(str_bytes "x", 10, 3); (str_bytes "y", 0, 0); (str_bytes "z", 99, 2)] in
  kept None puts (msg_secrets (put_all no_account_error b "c" "s" "m" puts no_rows) !! ("c", "s", "m", 4)) /\
  msg_secrets (put_all no_account_error b "c" "s" "m" puts no_rows) !! ("c", "s", "m", 4) =
    Some (MkSecretRow (str_bytes "z") 0 3).
Proof.
  cbv zeta. split; [|vm_compute; reflexivity].
  apply (msg_secret_retention no_account_error (MkBackend 4 passthrough) "c" "s" "m" _ no_rows). cbn. set_solver.
Defined.
