(* ===== verification/BlobCodec.v ===== *)
(** * The stored blobs of structured columns (storage/blob_codec.rs, app_state_wire.rs, device_wire.rs)

    A device, a collection's hash state and an app-state key cross to protobuf messages field by
    field.  The wire messages here are the generated ones, record for record; their bytes are
    prost's, and keys, addresses and the two nested blobs of a device are the protocol library's:
    those are the parameters. *)

From S2P Require Import Prelude StoreError.

(** ** Errors of the decoders *)

Definition wrong_length (field : string) (expected got : nat) : StoreError :=
  Serialization (field +:+ ": expected " +:+ pretty expected +:+ " bytes, got " +:+ pretty got).

(** [fixed_bytes::<N>]. *)
Definition fixed_bytes (n : nat) (field : string) (b : bytes) : StoreResult bytes :=
  if (length b =? n)%nat then Ok b else Err (wrong_length field n (length b)).

(** ** Wire messages (proto/store/blobs.proto) *)

Record JidWire : Type := MkJidWire { jw_user : string; jw_server : string; jw_agent : Z; jw_device : Z; jw_integrator : Z }.
Record NoiseCert : Type := MkNoiseCert { nc_key : bytes; nc_not_before : Z; nc_not_after : Z }.
Record ServerCertChain : Type := MkChain {
  ch_intermediate : option NoiseCert; ch_leaf : option NoiseCert; ch_signature_verified : bool }.
Record AppStateSyncKeyWire : Type := MkKeyWire { kw_key_data : bytes; kw_fingerprint : bytes; kw_timestamp : Z }.
Record HashStateWire : Type := MkHashWire {
  hw_version : Z; hw_hash : bytes; hw_index_value_map : gmap string bytes;
  hw_mac_mismatch_fatal : bool; hw_bootstrapped : bool }.
Record ServerClientExpirationWire : Type := MkExpirationWire {
  xw_expires_at : Z; xw_primary : Z; xw_secondary : Z; xw_tertiary : Z }.

Record DeviceBlob : Type := MkDeviceBlob {
  b_pn : option JidWire; b_lid : option JidWire; b_registration_id : Z;
  b_noise_key : bytes; b_identity_key : bytes; b_signed_pre_key : bytes;
  b_signed_pre_key_id : Z; b_signed_pre_key_signature : bytes; b_adv_secret_key : bytes;
  b_account : option bytes; b_push_name : string;
  b_app_version_primary : Z; b_app_version_secondary : Z; b_app_version_tertiary : Z;
  b_app_version_last_fetched_ms : Z; b_edge_routing_info : option bytes; b_props_hash : option string;
  b_next_pre_key_id : Z; b_first_unupload_pre_key_id : Z; b_server_has_prekeys : bool;
  b_nct_salt : option bytes; b_server_cert_chain : option ServerCertChain; b_login_counter : Z;
  b_lid_migrated : bool; b_last_signed_pre_key_rotation_ms : Z;
  b_server_client_expiration : option ServerClientExpirationWire; b_read_receipts_disabled : bool;
  b_status_privacy : option bytes;
}.

(** A generated message: its bytes, and their decoder. *)
Class Message (M : Type) : Type := {
  encode_to_vec : M -> bytes;
  decode : bytes -> result string M;  (* prost::DecodeError, by its text *)
}.

Class MessageLaw (M : Type) `{!Message M} : Prop := decode_encode : forall m : M, decode (encode_to_vec m) = Ok m.

Definition decode_error {A} (r : result string A) : StoreResult A := map_err Serialization r.

(** ** The protocol library's types *)

Class Keys : Type := {
  PrivateKey : Type;
  PublicKey : Type;
  Server : Type;
  Account : Type;          (* ADVSignedDeviceIdentity *)
  StatusPrivacy : Type;    (* StatusPrivacyAction *)
  DeviceProps : Type;
  ClientProfile : Type;
  serialize : PrivateKey -> bytes;
  deserialize : bytes -> result string PrivateKey;
  public_key_bytes : PublicKey -> bytes;
  from_djb_public_key_bytes : bytes -> result string PublicKey;
  server_str : Server -> string;
  server_of : string -> result string Server;
  account_to_bytes : Account -> bytes;
  account_of_bytes : bytes -> result string Account;
  status_privacy_to_bytes : StatusPrivacy -> bytes;
  status_privacy_of_bytes : bytes -> result string StatusPrivacy;
  DEVICE_PROPS : DeviceProps;
  default_profile : ClientProfile;
}.

Class KeysLaws `(Keys) : Prop := {
  serialize_length : forall k, length (serialize k) = 32%nat;
  public_key_length : forall k, length (public_key_bytes k) = 32%nat;
  deserialize_serialize : forall k, deserialize (serialize k) = Ok k;
  from_djb_public : forall k, from_djb_public_key_bytes (public_key_bytes k) = Ok k;
  server_of_str : forall s, server_of (server_str s) = Ok s;
  account_roundtrip : forall a, account_of_bytes (account_to_bytes a) = Ok a;
  status_privacy_roundtrip : forall p, status_privacy_of_bytes (status_privacy_to_bytes p) = Ok p;
}.

Section codec.
Context `{keys : Keys} `{!Message DeviceBlob} `{!Message HashStateWire} `{!Message AppStateSyncKeyWire}.

Record KeyPair : Type := MkKeyPair { private_key : PrivateKey; public_key : PublicKey }.

(** [agent] is a [u8], [device] and [integrator] are [u16]s. *)
Record Jid : Type := MkJid { jid_user : string; jid_server : Server; jid_agent : Z; jid_device : Z; jid_integrator : Z }.

Record CachedNoiseCert : Type := MkCert { cert_key : bytes; cert_not_before : Z; cert_not_after : Z }.
Record CachedServerCertChain : Type := MkCertChain {
  intermediate : CachedNoiseCert; leaf : CachedNoiseCert; signature_verified : bool }.
Record ServerClientExpiration : Type := MkExpiration { expires_at : Z; version : Z * Z * Z }.

Record Device : Type := MkDevice {
  pn : option Jid; lid : option Jid; registration_id : Z;
  noise_key : KeyPair; identity_key : KeyPair; signed_pre_key : KeyPair;
  signed_pre_key_id : Z; signed_pre_key_signature : bytes; adv_secret_key : bytes;
  account : option Account; push_name : string;
  app_version_primary : Z; app_version_secondary : Z; app_version_tertiary : Z;
  app_version_last_fetched_ms : Z;
  device_props : DeviceProps; client_profile : ClientProfile;
  edge_routing_info : option bytes; props_hash : option string;
  next_pre_key_id : Z; first_unupload_pre_key_id : Z; server_has_prekeys : bool;
  nct_salt : option bytes; nct_salt_sync_seen : bool; server_cert_chain : option CachedServerCertChain;
  login_counter : Z; lid_migrated : bool; last_signed_pre_key_rotation_ms : Z;
  server_client_expiration : option ServerClientExpiration; read_receipts_disabled : bool;
  status_privacy : option StatusPrivacy;
}.

Record HashState : Type := MkHashState {
  hs_version : Z; hs_hash : bytes; hs_index_value_map : gmap string bytes;
  hs_mac_mismatch_fatal : bool; hs_bootstrapped : bool }.

Record AppStateSyncKey : Type := MkSyncKey { key_data : bytes; fingerprint : bytes; key_timestamp : Z }.

(** ** Key pairs *)

Definition KEY_PAIR_LEN : nat := 64.
Definition KEY_HALF_LEN : nat := 32.

Definition key_pair_to_bytes (k : KeyPair) : bytes := serialize (private_key k) ++ public_key_bytes (public_key k).

Definition key_pair_from_bytes (field : string) (b : bytes) : StoreResult KeyPair :=
  if negb (length b =? KEY_PAIR_LEN)%nat then Err (wrong_length field KEY_PAIR_LEN (length b))
  else
    private ← map_err (fun e => Validation (field +:+ " private half: " +:+ e)) (deserialize (take KEY_HALF_LEN b));
    public ← map_err (fun e => Validation (field +:+ " public half: " +:+ e))
               (from_djb_public_key_bytes (drop KEY_HALF_LEN b));
    Ok (MkKeyPair private public).

(** ** Addresses *)

Definition jid_to_wire (j : Jid) : JidWire :=
  MkJidWire (jid_user j) (server_str (jid_server j)) (jid_agent j) (jid_device j) (jid_integrator j).

(** [T::try_from(u32)] for a [T] of [bits] bits. *)
Definition narrow (bits : Z) (field : string) (value : Z) : StoreResult Z :=
  if value <? 2 ^ bits then Ok value else Err (Validation (field +:+ ": " +:+ pretty value +:+ " out of range")).

Definition jid_from_wire (w : JidWire) : StoreResult Jid :=
  server ← map_err (fun e => Validation ("jid.server '" +:+ jw_server w +:+ "': " +:+ e)) (server_of (jw_server w));
  agent ← narrow 8 "jid.agent" (jw_agent w);
  device ← narrow 16 "jid.device" (jw_device w);
  integrator ← narrow 16 "jid.integrator" (jw_integrator w);
  Ok (MkJid (jw_user w) server agent device integrator).

(** ** Certificates *)

Definition cert_to_wire (c : CachedNoiseCert) : NoiseCert := MkNoiseCert (cert_key c) (cert_not_before c) (cert_not_after c).

Definition cert_from_wire (field : string) (w : option NoiseCert) : StoreResult CachedNoiseCert :=
  w ← ok_or w (Validation (field +:+ ": missing"));
  key ← fixed_bytes 32 field (nc_key w);
  Ok (MkCert key (nc_not_before w) (nc_not_after w)).

Definition cert_chain_to_wire (c : CachedServerCertChain) : ServerCertChain :=
  MkChain (Some (cert_to_wire (intermediate c))) (Some (cert_to_wire (leaf c))) (signature_verified c).

Definition cert_chain_from_wire (w : ServerCertChain) : StoreResult CachedServerCertChain :=
  i ← cert_from_wire "server_cert_chain.intermediate" (ch_intermediate w);
  l ← cert_from_wire "server_cert_chain.leaf" (ch_leaf w);
  Ok (MkCertChain i l (ch_signature_verified w)).

Definition expiration_to_wire (e : ServerClientExpiration) : ServerClientExpirationWire :=
  let '(primary, secondary, tertiary) := version e in MkExpirationWire (expires_at e) primary secondary tertiary.

Definition expiration_from_wire (w : ServerClientExpirationWire) : ServerClientExpiration :=
  MkExpiration (xw_expires_at w) (xw_primary w, xw_secondary w, xw_tertiary w).

(** ** The nested blobs of a device *)

Definition account_from_bytes (b : bytes) : StoreResult Account := map_err Serialization (account_of_bytes b).

(** Absent or undecodable is unknown: a broken optional field does not stop the account. *)
Definition status_privacy_from_bytes (b : option bytes) : option StatusPrivacy :=
  b ← b; result_ok (status_privacy_of_bytes b).

(** ** The device *)

Definition device_to_wire (d : Device) : DeviceBlob :=
  MkDeviceBlob (jid_to_wire <$> pn d) (jid_to_wire <$> lid d) (registration_id d)
    (key_pair_to_bytes (noise_key d)) (key_pair_to_bytes (identity_key d)) (key_pair_to_bytes (signed_pre_key d))
    (signed_pre_key_id d) (signed_pre_key_signature d) (adv_secret_key d)
    (account_to_bytes <$> account d) (push_name d)
    (app_version_primary d) (app_version_secondary d) (app_version_tertiary d)
    (app_version_last_fetched_ms d) (edge_routing_info d) (props_hash d)
    (next_pre_key_id d) (first_unupload_pre_key_id d) (server_has_prekeys d)
    (nct_salt d) (cert_chain_to_wire <$> server_cert_chain d) (login_counter d)
    (lid_migrated d) (last_signed_pre_key_rotation_ms d)
    (expiration_to_wire <$> server_client_expiration d) (read_receipts_disabled d)
    (status_privacy_to_bytes <$> status_privacy d).

Definition encode_device (d : Device) : bytes := encode_to_vec (device_to_wire d).

Definition device_of_wire (b : DeviceBlob) : StoreResult Device :=
  pn ← transpose (jid_from_wire <$> b_pn b);
  lid ← transpose (jid_from_wire <$> b_lid b);
  noise ← key_pair_from_bytes "device.noise_key" (b_noise_key b);
  identity ← key_pair_from_bytes "device.identity_key" (b_identity_key b);
  signed ← key_pair_from_bytes "device.signed_pre_key" (b_signed_pre_key b);
  signature ← fixed_bytes 64 "device.signed_pre_key_signature" (b_signed_pre_key_signature b);
  adv ← fixed_bytes 32 "device.adv_secret_key" (b_adv_secret_key b);
  account ← transpose (account_from_bytes <$> b_account b);
  chain ← transpose (cert_chain_from_wire <$> b_server_cert_chain b);
  Ok (MkDevice pn lid (b_registration_id b) noise identity signed
    (b_signed_pre_key_id b) signature adv account (b_push_name b)
    (b_app_version_primary b) (b_app_version_secondary b) (b_app_version_tertiary b)
    (b_app_version_last_fetched_ms b) DEVICE_PROPS default_profile
    (b_edge_routing_info b) (b_props_hash b) (b_next_pre_key_id b) (b_first_unupload_pre_key_id b)
    (b_server_has_prekeys b) (b_nct_salt b) false chain (b_login_counter b) (b_lid_migrated b)
    (b_last_signed_pre_key_rotation_ms b) (expiration_from_wire <$> b_server_client_expiration b)
    (b_read_receipts_disabled b) (status_privacy_from_bytes (b_status_privacy b))).

Definition decode_device (b : bytes) : StoreResult Device :=
  blob ← decode_error (decode b);
  device_of_wire blob.

(** ** App state *)

Definition APP_STATE_KEY_LEN : nat := 32.

Definition encode_hash_state (s : HashState) : bytes :=
  encode_to_vec (MkHashWire (hs_version s) (hs_hash s) (hs_index_value_map s) (hs_mac_mismatch_fatal s) (hs_bootstrapped s)).

Definition decode_hash_state (b : bytes) : StoreResult HashState :=
  w ← decode_error (decode b);
  hash ← fixed_bytes 128 "hash_state.hash" (hw_hash w);
  Ok (MkHashState (hw_version w) hash (hw_index_value_map w) (hw_mac_mismatch_fatal w) (hw_bootstrapped w)).

Definition encode_app_state_sync_key (k : AppStateSyncKey) : bytes :=
  encode_to_vec (MkKeyWire (key_data k) (fingerprint k) (key_timestamp k)).

Definition decode_app_state_sync_key (b : bytes) : StoreResult AppStateSyncKey :=
  w ← decode_error (decode b);
  if negb (length (kw_key_data w) =? APP_STATE_KEY_LEN)%nat then
    Err (wrong_length "app_state_sync_key.key_data" APP_STATE_KEY_LEN (length (kw_key_data w)))
  else Ok (MkSyncKey (kw_key_data w) (kw_fingerprint w) (kw_timestamp w)).
(** ** Round trips *)

Context `{!KeysLaws keys} `{!MessageLaw DeviceBlob} `{!MessageLaw HashStateWire} `{!MessageLaw AppStateSyncKeyWire}.

(** The fixed sizes and widths of the library's types. *)
Definition jid_ok (j : Jid) : Prop := jid_agent j < 2 ^ 8 /\ jid_device j < 2 ^ 16 /\ jid_integrator j < 2 ^ 16.
Definition chain_ok (c : CachedServerCertChain) : Prop :=
  length (cert_key (intermediate c)) = 32%nat /\ length (cert_key (leaf c)) = 32%nat.

Definition device_ok (d : Device) : Prop :=
  from_option jid_ok True (pn d) /\ from_option jid_ok True (lid d) /\
  from_option chain_ok True (server_cert_chain d) /\
  length (signed_pre_key_signature d) = 64%nat /\ length (adv_secret_key d) = 32%nat.

(** A device as it is read back, with [sp] for its status audience: the runtime-only fields are
    what every load sets them to. *)
Definition reloaded_with (sp : option StatusPrivacy) (d : Device) : Device :=
  MkDevice (pn d) (lid d) (registration_id d) (noise_key d) (identity_key d) (signed_pre_key d)
    (signed_pre_key_id d) (signed_pre_key_signature d) (adv_secret_key d) (account d) (push_name d)
    (app_version_primary d) (app_version_secondary d) (app_version_tertiary d)
    (app_version_last_fetched_ms d) DEVICE_PROPS default_profile (edge_routing_info d) (props_hash d)
    (next_pre_key_id d) (first_unupload_pre_key_id d) (server_has_prekeys d) (nct_salt d) false
    (server_cert_chain d) (login_counter d) (lid_migrated d) (last_signed_pre_key_rotation_ms d)
    (server_client_expiration d) (read_receipts_disabled d) sp.

Definition reloaded (d : Device) : Device := reloaded_with (status_privacy d) d.

(** A stored device whose status audience is the bytes [sp]. *)
Definition with_status_bytes (sp : option bytes) (b : DeviceBlob) : DeviceBlob :=
  MkDeviceBlob (b_pn b) (b_lid b) (b_registration_id b) (b_noise_key b) (b_identity_key b)
    (b_signed_pre_key b) (b_signed_pre_key_id b) (b_signed_pre_key_signature b) (b_adv_secret_key b)
    (b_account b) (b_push_name b) (b_app_version_primary b) (b_app_version_secondary b)
    (b_app_version_tertiary b) (b_app_version_last_fetched_ms b) (b_edge_routing_info b) (b_props_hash b)
    (b_next_pre_key_id b) (b_first_unupload_pre_key_id b) (b_server_has_prekeys b) (b_nct_salt b)
    (b_server_cert_chain b) (b_login_counter b) (b_lid_migrated b) (b_last_signed_pre_key_rotation_ms b)
    (b_server_client_expiration b) (b_read_receipts_disabled b) sp.

(** An optional field crosses when its value does. *)
Lemma transpose_cross {A B} (to : A -> B) (from : B -> StoreResult A) (o : option A) :
  (forall a, o = Some a -> from (to a) = Ok a) -> transpose (from <$> (to <$> o)) = Ok o.
Proof using Type. intros H. destruct o as [a|]; [|done]. cbn. by rewrite H. Qed.

Lemma fixed_bytes_ok n field b : length b = n -> fixed_bytes n field b = Ok b.
Proof using Type. intros <-. unfold fixed_bytes. by rewrite Nat.eqb_refl. Qed.

Lemma key_pair_roundtrip field k : key_pair_from_bytes field (key_pair_to_bytes k) = Ok k.
Proof using KeysLaws0.
  unfold key_pair_from_bytes, key_pair_to_bytes. rewrite length_app, serialize_length, public_key_length.
  cbn [Nat.eqb negb Nat.add KEY_PAIR_LEN]. unfold KEY_HALF_LEN.
  rewrite take_app_length', drop_app_length' by (by rewrite serialize_length).
  rewrite deserialize_serialize. cbn. rewrite from_djb_public. by destruct k.
Qed.

Lemma narrow_ok bits field v : v < 2 ^ bits -> narrow bits field v = Ok v.
Proof using Type. intros H. unfold narrow. by destruct (Z.ltb_spec v (2 ^ bits)); [|lia]. Qed.

Lemma jid_roundtrip j : jid_ok j -> jid_from_wire (jid_to_wire j) = Ok j.
Proof using KeysLaws0.
  intros (Ha & Hd & Hi). unfold jid_from_wire, jid_to_wire. cbn [jw_user jw_server jw_agent jw_device jw_integrator].
  rewrite server_of_str. cbn [map_err mbind result_bind].
  rewrite !narrow_ok by done. by destruct j.
Qed.

Lemma chain_roundtrip c : chain_ok c -> cert_chain_from_wire (cert_chain_to_wire c) = Ok c.
Proof using Type.
  intros [Hi Hl]. unfold cert_chain_from_wire, cert_chain_to_wire, cert_from_wire. cbn [ch_intermediate ch_leaf ok_or mbind result_bind].
  unfold cert_to_wire. cbn [nc_key]. rewrite !fixed_bytes_ok by done. cbn. by destruct c as [[] [] ?].
Qed.

Lemma expiration_roundtrip e : expiration_from_wire (expiration_to_wire e) = e.
Proof using Type. by destruct e as [? [[? ?] ?]]. Qed.

Lemma device_of_wire_of d sp :
  device_ok d ->
  device_of_wire (with_status_bytes sp (device_to_wire d)) = Ok (reloaded_with (status_privacy_from_bytes sp) d).
Proof using KeysLaws0.
  intros (Hpn & Hlid & Hchain & Hsig & Hadv). unfold device_of_wire, with_status_bytes.
  cbn [b_pn b_lid b_noise_key b_identity_key b_signed_pre_key b_signed_pre_key_signature b_adv_secret_key
       b_account b_server_cert_chain device_to_wire].
  rewrite (transpose_cross jid_to_wire jid_from_wire (pn d))
    by (intros j E; rewrite E in Hpn; by apply jid_roundtrip).
  rewrite (transpose_cross jid_to_wire jid_from_wire (lid d))
    by (intros j E; rewrite E in Hlid; by apply jid_roundtrip).
  rewrite (transpose_cross cert_chain_to_wire cert_chain_from_wire (server_cert_chain d))
    by (intros c E; rewrite E in Hchain; by apply chain_roundtrip).
  rewrite (transpose_cross account_to_bytes account_from_bytes (account d))
    by (intros a _; unfold account_from_bytes; by rewrite account_roundtrip).
  rewrite !key_pair_roundtrip, !fixed_bytes_ok by done. cbn. unfold reloaded_with. do 2 f_equal.
  destruct (server_client_expiration d) as [e|]; [|done]. cbn. by rewrite expiration_roundtrip.
Qed.

Lemma decode_wire {M} `{!Message M} `{!MessageLaw M} (m : M) : decode_error (decode (encode_to_vec m)) = Ok m.
Proof using Type. by rewrite decode_encode. Qed.

Lemma device_roundtrip d : device_ok d -> decode_device (encode_device d) = Ok (reloaded d).
Proof using KeysLaws0 MessageLaw0.
  intros Hd. unfold decode_device, encode_device. rewrite decode_wire. cbn [mbind result_bind].
  pose proof (device_of_wire_of d (status_privacy_to_bytes <$> status_privacy d) Hd) as H.
  etrans; [exact H|]. unfold reloaded. do 2 f_equal. unfold status_privacy_from_bytes.
  destruct (status_privacy d) as [p|]; [|done]. cbn. by rewrite status_privacy_roundtrip.
Qed.

Lemma hash_state_roundtrip s : length (hs_hash s) = 128%nat -> decode_hash_state (encode_hash_state s) = Ok s.
Proof using MessageLaw1.
  intros Hs. unfold decode_hash_state, encode_hash_state. rewrite decode_wire. cbn [mbind result_bind hw_hash].
  rewrite fixed_bytes_ok by done. by destruct s.
Qed.

Lemma sync_key_roundtrip k :
  length (key_data k) = 32%nat -> decode_app_state_sync_key (encode_app_state_sync_key k) = Ok k.
Proof using MessageLaw2.
  intros Hk. unfold decode_app_state_sync_key, encode_app_state_sync_key. rewrite decode_wire.
  cbn [mbind result_bind kw_key_data]. rewrite Hk. by destruct k.
Qed.
End codec.

(** C12.  What is stored of a device, of a collection's hash state and of an app-state key is read
    back whole: every field crosses the wire and returns, and the runtime-only fields of a
    device take the values every load gives them; whatever bytes a device's status audience is
    stored as, the device loads, and the audience is the decoded one or unknown. *)
Theorem blob_codec_roundtrip `{keys : Keys} `{!Message DeviceBlob} `{!Message HashStateWire} `{!Message AppStateSyncKeyWire}
    `{!KeysLaws keys} `{!MessageLaw DeviceBlob} `{!MessageLaw HashStateWire} `{!MessageLaw AppStateSyncKeyWire} :
  (forall d, device_ok d -> decode_device (encode_device d) = Ok (reloaded d)) /\
  (forall d broken, device_ok d ->
     decode_device (encode_to_vec (with_status_bytes (Some broken) (device_to_wire d))) =
       Ok (reloaded_with (result_ok (status_privacy_of_bytes broken)) d)) /\
  (forall s, length (hs_hash s) = 128%nat -> decode_hash_state (encode_hash_state s) = Ok s) /\
  (forall k, length (key_data k) = 32%nat -> decode_app_state_sync_key (encode_app_state_sync_key k) = Ok k).
Proof.
  split_and!; [apply device_roundtrip| |apply hash_state_roundtrip|apply sync_key_roundtrip].
  intros d broken Hd. unfold decode_device. rewrite decode_wire. cbn [mbind result_bind].
  by rewrite device_of_wire_of.
Qed.

(** ** Witness: a library of one key, and messages written as the bits of their number *)

Fixpoint bits (p : positive) : bytes :=
  match p with xH => [] | xO p => Byte.x00 :: bits p | xI p => Byte.x01 :: bits p end.

Fixpoint of_bits (l : bytes) : positive :=
  match l with
  | [] => xH
  | b :: l => if decide (b = Byte.x00) then xO (of_bits l) else xI (of_bits l)
  end.

Lemma of_bits_bits p : of_bits (bits p) = p.
Proof. induction p as [p IH|p IH|]; cbn; [rewrite decide_False by done|..]; by rewrite ?IH. Qed.

Definition toy_message (M : Type) `{Countable M} : Message M := {|
  encode_to_vec m := bits (encode m);
  decode l := ok_or (countable.decode (of_bits l)) "not a message";
|}.

Lemma toy_message_law (M : Type) `{Countable M} : MessageLaw (Message0 := toy_message M) M.
Proof. intros m. cbn. by rewrite of_bits_bits, countable.decode_encode. Qed.

#[global] Instance toy_keys : Keys := {|
  PrivateKey := unit; PublicKey := unit; Server := unit; Account := unit; StatusPrivacy := unit;
  DeviceProps := unit; ClientProfile := unit;
  serialize _ := repeat Byte.x01 32; deserialize _ := Ok tt;
  public_key_bytes _ := repeat Byte.x02 32; from_djb_public_key_bytes _ := Ok tt;
  server_str _ := "s.whatsapp.net"; server_of _ := Ok tt;
  account_to_bytes _ := []; account_of_bytes _ := Ok tt;
  status_privacy_to_bytes _ := [Byte.x01];
  status_privacy_of_bytes l := if decide (l = [Byte.x01]) then Ok tt else Err "no status privacy";
  DEVICE_PROPS := tt; default_profile := tt;
|}.

#[global] Instance toy_keys_laws : KeysLaws toy_keys.
Proof. by split; intros []. Qed.

#[global] Instance JidWire_eq_dec : EqDecision JidWire.
Proof. solve_decision. Defined.

#[global] Instance JidWire_countable : Countable JidWire.
Proof.
  refine (inj_countable' (fun m => (jw_user m, jw_server m, jw_agent m, jw_device m, jw_integrator m))
    (fun '(x0, x1, x2, x3, x4) =>
     MkJidWire x0 x1 x2 x3 x4) _); by intros [].
Defined.

#[global] Instance NoiseCert_eq_dec : EqDecision NoiseCert.
Proof. solve_decision. Defined.

#[global] Instance NoiseCert_countable : Countable NoiseCert.
Proof.
  refine (inj_countable' (fun m => (nc_key m, nc_not_before m, nc_not_after m))
    (fun '(x0, x1, x2) =>
     MkNoiseCert x0 x1 x2) _); by intros [].
Defined.

#[global] Instance ServerCertChain_eq_dec : EqDecision ServerCertChain.
Proof. solve_decision. Defined.

#[global] Instance ServerCertChain_countable : Countable ServerCertChain.
Proof.
  refine (inj_countable' (fun m => (ch_intermediate m, ch_leaf m, ch_signature_verified m))
    (fun '(x0, x1, x2) =>
     MkChain x0 x1 x2) _); by intros [].
Defined.

#[global] Instance AppStateSyncKeyWire_eq_dec : EqDecision AppStateSyncKeyWire.
Proof. solve_decision. Defined.

#[global] Instance AppStateSyncKeyWire_countable : Countable AppStateSyncKeyWire.
Proof.
  refine (inj_countable' (fun m => (kw_key_data m, kw_fingerprint m, kw_timestamp m))
    (fun '(x0, x1, x2) =>
     MkKeyWire x0 x1 x2) _); by intros [].
Defined.

#[global] Instance HashStateWire_eq_dec : EqDecision HashStateWire.
Proof. solve_decision. Defined.

#[global] Instance HashStateWire_countable : Countable HashStateWire.
Proof.
  refine (inj_countable' (fun m => (hw_version m, hw_hash m, hw_index_value_map m, hw_mac_mismatch_fatal m, hw_bootstrapped m))
    (fun '(x0, x1, x2, x3, x4) =>
     MkHashWire x0 x1 x2 x3 x4) _); by intros [].
Defined.

#[global] Instance ServerClientExpirationWire_eq_dec : EqDecision ServerClientExpirationWire.
Proof. solve_decision. Defined.

#[global] Instance ServerClientExpirationWire_countable : Countable ServerClientExpirationWire.
Proof.
  refine (inj_countable' (fun m => (xw_expires_at m, xw_primary m, xw_secondary m, xw_tertiary m))
    (fun '(x0, x1, x2, x3) =>
     MkExpirationWire x0 x1 x2 x3) _); by intros [].
Defined.

#[global] Instance DeviceBlob_eq_dec : EqDecision DeviceBlob.
Proof. solve_decision. Defined.

#[global] Instance DeviceBlob_countable : Countable DeviceBlob.
Proof.
  refine (inj_countable' (fun m => (b_pn m, b_lid m, b_registration_id m, b_noise_key m, b_identity_key m, b_signed_pre_key m,
    b_signed_pre_key_id m, b_signed_pre_key_signature m, b_adv_secret_key m, b_account m, b_push_name m,
    b_app_version_primary m, b_app_version_secondary m, b_app_version_tertiary m,
    b_app_version_last_fetched_ms m, b_edge_routing_info m, b_props_hash m, b_next_pre_key_id m,
    b_first_unupload_pre_key_id m, b_server_has_prekeys m, b_nct_salt m, b_server_cert_chain m,
    b_login_counter m, b_lid_migrated m, b_last_signed_pre_key_rotation_ms m, b_server_client_expiration m,
    b_read_receipts_disabled m, b_status_privacy m))
    (fun '(x0, x1, x2, x3, x4, x5, x6, x7, x8, x9, x10, x11, x12, x13, x14, x15, x16, x17, x18, x19, x20, x21,
    x22, x23, x24, x25, x26, x27) =>
     MkDeviceBlob x0 x1 x2 x3 x4 x5 x6 x7 x8 x9 x10 x11 x12 x13 x14 x15 x16 x17 x18 x19 x20 x21 x22 x23 x24
    x25 x26 x27) _); by intros [].
Defined.

#[global] Instance toy_device_message : Message DeviceBlob := toy_message DeviceBlob.
#[global] Instance toy_hash_message : Message HashStateWire := toy_message HashStateWire.
#[global] Instance toy_key_message : Message AppStateSyncKeyWire := toy_message AppStateSyncKeyWire.

Definition toy_pair : KeyPair := MkKeyPair tt tt.
Definition toy_device : Device :=
  MkDevice (Some (MkJid "15551234" tt 0 3 0)) None 77 toy_pair toy_pair toy_pair 1 (repeat Byte.x03 64)
    (repeat Byte.x04 32) None "me" 2 3000 1 0 tt tt None None 1 1 false None true None 0 false 0 None false (Some tt).

Lemma blob_codec_roundtrip_witness :
  device_ok toy_device /\ decode_device (encode_device toy_device) = Ok (reloaded toy_device) /\
  decode_device (encode_to_vec (with_status_bytes (Some []) (device_to_wire toy_device))) =
    Ok (reloaded_with None toy_device).
Proof.
  assert (Hok : device_ok toy_device) by (split_and!; cbn; lia || done).
  destruct (blob_codec_roundtrip (keys := toy_keys) (MessageLaw0 := toy_message_law DeviceBlob)
    (MessageLaw1 := toy_message_law HashStateWire) (MessageLaw2 := toy_message_law AppStateSyncKeyWire)) as (H1 & H2 & _ & _).
  split_and!; [exact Hok|by apply H1|by apply (H2 toy_device [] Hok)].
Defined.
