(* ===== verification/AppSyncStore.v ===== *)
(** * App state and the device (storage/sql/app_sync_store.rs, app_sync_sql.rs, device_store.rs)

    The keys, versions and MACs of every account's app-state collections, and its device, as the
    sealed protobuf blobs of [BlobCodec]. *)

From S2P Require Import Prelude StoreError Database StoreKey BlobCipher BatchChunks Refinement Backend BlobCodec.

(** [AppStateMutationMAC]. *)
Record MutationMac : Type := MkMac { index_mac : bytes; value_mac : bytes }.

Record AppDb : Type := MkAppDb {
  ad_accounts : gset Z;
  app_state_keys : gmap (bytes * Z) bytes;
  app_state_versions : gmap (string * Z) bytes;
  app_state_mutation_macs : gmap (string * bytes * Z) (Z * bytes);  (* version (an i64), value_mac *)
  device_rows : gmap Z bytes;
}.

Definition on_keys f d := MkAppDb (ad_accounts d) (f (app_state_keys d)) (app_state_versions d)
  (app_state_mutation_macs d) (device_rows d).
Definition on_versions f d := MkAppDb (ad_accounts d) (app_state_keys d) (f (app_state_versions d))
  (app_state_mutation_macs d) (device_rows d).
Definition on_macs f d := MkAppDb (ad_accounts d) (app_state_keys d) (app_state_versions d)
  (f (app_state_mutation_macs d)) (device_rows d).
Definition on_device f d := MkAppDb (ad_accounts d) (app_state_keys d) (app_state_versions d)
  (app_state_mutation_macs d) (f (device_rows d)).

Section app_sync.
Context `{crypto : Crypto} `{keys : Keys} `{!Message DeviceBlob} `{!Message HashStateWire} `{!Message AppStateSyncKeyWire}.
(** What the driver answers when the foreign key refuses a row. *)
Context (constraint : StoreError).
Context (backend : Backend).

Let me : Z := backend_device backend.

(** ** Statements (statements/app_sync.rs, statements/device.rs) *)

Definition insert_app (f : AppDb -> AppDb) (d : AppDb) : StoreResult unit * AppDb :=
  if decide (me ∈ ad_accounts d) then (Ok tt, f d) else (Err constraint, d).

Definition write_app (f : AppDb -> AppDb) (d : AppDb) : StoreResult unit * AppDb := (Ok tt, f d).

Definition GET_SYNC_KEY (key_id : bytes) (d : AppDb) : option bytes := app_state_keys d !! (key_id, me).
Definition SET_SYNC_KEY (key_id blob : bytes) := insert_app (on_keys (insert (key_id, me) blob)).

(** ORDER BY key_id DESC LIMIT 1. *)
Definition own_key_ids (d : AppDb) : list bytes :=
  omap (fun '(key, _) => if decide (snd key = me) then Some (fst key) else None) (map_to_list (app_state_keys d)).

Definition LATEST_SYNC_KEY_ID (d : AppDb) : option bytes :=
  match own_key_ids d with
  | [] => None
  | k :: rest => Some (foldl (fun best k => if bytes_le best k then k else best) k rest)
  end.

Definition GET_VERSION (name : string) (d : AppDb) : option bytes := app_state_versions d !! (name, me).
Definition DELETE_VERSION (name : string) := write_app (on_versions (delete (name, me))).
Definition SET_VERSION (name : string) (blob : bytes) := insert_app (on_versions (insert (name, me) blob)).

Definition PUT_MUTATION_MAC (name : string) (version : Z) (index blob : bytes) :=
  insert_app (on_macs (insert (name, index, me) (version, blob))).
Definition GET_MUTATION_MAC (name : string) (index : bytes) (d : AppDb) : option bytes :=
  snd <$> app_state_mutation_macs d !! (name, index, me).
Definition DELETE_MUTATION_MAC (name : string) (index : bytes) := write_app (on_macs (delete (name, index, me))).
Definition CLEAR_MUTATION_MACS (name : string) :=
  write_app (on_macs (filter (fun x => ~ (x.1.1.1 = name /\ x.1.2 = me)))).

Definition SELECT_MUTATION_MACS (name : string) (chunk : list bytes) (d : AppDb) : list (bytes * bytes) :=
  omap (fun '(key, row) =>
          if decide (key.1.1 = name /\ key.2 = me /\ key.1.2 ∈ chunk) then Some (key.1.2, snd row) else None)
       (map_to_list (app_state_mutation_macs d)).

Definition SAVE_DEVICE (blob : bytes) := insert_app (on_device (insert me blob)).
Definition LOAD_DEVICE (d : AppDb) : option bytes := device_rows d !! me.
Definition DEVICE_EXISTS (d : AppDb) : bool := bool_decide (is_Some (device_rows d !! me)).

(** ON CONFLICT DO NOTHING: the foreign key is not looked at when the row exists. *)
Definition CREATE_DEVICE (blob : bytes) (d : AppDb) : StoreResult unit * AppDb :=
  match device_rows d !! me with
  | Some _ => (Ok tt, d)
  | None => insert_app (on_device (insert me blob)) d
  end.

(** ** Sync keys *)

Definition get_sync_key (key_id : bytes) : Run AppDb (option AppStateSyncKey) :=
  row ← query (GET_SYNC_KEY key_id);
  of_result (transpose ((fun stored =>
    plain ← open_row backend "app_state_keys" "key_data" key_id stored;
    decode_app_state_sync_key plain) <$> row)).

Definition set_sync_key (draws : Draws) (key_id : bytes) (key : AppStateSyncKey) : Run AppDb unit :=
  data ← seal_row backend draws "app_state_keys" "key_data" key_id (encode_app_state_sync_key key);
  execute (SET_SYNC_KEY key_id data).

Definition get_latest_sync_key_id : Run AppDb (option bytes) := query LATEST_SYNC_KEY_ID.

(** ** Versions *)

(** No row is "never synced", and reads as [None]. *)
Definition get_version (name : string) : Run AppDb (option HashState) :=
  row ← query (GET_VERSION name);
  of_result (transpose ((fun stored =>
    plain ← open_row backend "app_state_versions" "state_data" (str_bytes name) stored;
    decode_hash_state plain) <$> row)).

Definition delete_version (name : string) : Run AppDb unit := execute (DELETE_VERSION name).

Definition set_version (draws : Draws) (name : string) (state : HashState) : Run AppDb unit :=
  data ← seal_row backend draws "app_state_versions" "state_data" (str_bytes name) (encode_hash_state state);
  execute (SET_VERSION name data).

(** ** MACs *)

(** The row key of a MAC: name, zero, index. *)
Definition mac_row (name : string) (index : bytes) : bytes := joined_row [str_bytes name; index].

Definition seal_mac (draws : Draws) (name : string) (index mac : bytes) : Run AppDb bytes :=
  seal_row backend draws "app_state_mutation_macs" "value_mac" (mac_row name index) mac.

Definition open_mac (name : string) (index stored : bytes) : StoreResult bytes :=
  open_row backend "app_state_mutation_macs" "value_mac" (mac_row name index) stored.

Definition put_macs_in (draws : nat -> Draws) (name : string) (version : Z) (added : list MutationMac) :
    Run AppDb unit :=
  each (fun '(i, m) =>
    value ← seal_mac (draws i) name (index_mac m) (value_mac m);
    stmt (PUT_MUTATION_MAC name (as_i64 version) (index_mac m) value)) (imap pair added).

Definition delete_macs_in (name : string) (index_macs : list bytes) : Run AppDb unit :=
  each (fun index => stmt (DELETE_MUTATION_MAC name index)) index_macs.

Definition put_mutation_macs (draws : nat -> Draws) (name : string) (version : Z) (mutations : list MutationMac) :
    Run AppDb unit :=
  transaction (put_macs_in draws name version mutations).

Definition get_mutation_mac (name : string) (index : bytes) : Run AppDb (option bytes) :=
  stored ← query (GET_MUTATION_MAC name index);
  of_result (transpose (open_mac name index <$> stored)).

Definition delete_mutation_macs (name : string) (index_macs : list bytes) : Run AppDb unit :=
  transaction (delete_macs_in name index_macs).

Definition clear_mutation_macs (name : string) : Run AppDb unit := execute (CLEAR_MUTATION_MACS name).

(** A stored index that is not 32 bytes cannot be one that was asked for. *)
Definition get_mutation_macs (name : string) (index_macs : list bytes) : Run AppDb (gmap bytes bytes) :=
  found ← read_chunks
    (fun chunk d => filter (fun row => length row.1 = 32%nat) (SELECT_MUTATION_MACS name chunk d))
    (fun '(index, stored) => mac ← open_mac name index stored; Ok (index, mac)) (padded_chunks index_macs) [];
  mret (foldl (fun m x => <[x.1 := x.2]> m) ∅ found).

(** The new version, the removed MACs and the added MACs, in one transaction. *)
Definition commit_patch (draws : nat -> Draws) (name : string) (state : HashState)
    (removed : list bytes) (added : list MutationMac) : Run AppDb unit :=
  data ← seal_row backend (draws 0%nat) "app_state_versions" "state_data" (str_bytes name) (encode_hash_state state);
  transaction (
    _ ← stmt (SET_VERSION name data);
    _ ← delete_macs_in name removed;
    put_macs_in (fun i => draws (S i)) name (hs_version state) added).

(** ** The device *)

Definition save (draws : Draws) (device : Device) : Run AppDb unit :=
  data ← seal_row backend draws "device" "data" [] (encode_device device);
  execute (SAVE_DEVICE data).

Definition load : Run AppDb (option Device) :=
  row ← query LOAD_DEVICE;
  of_result (transpose ((fun stored =>
    plain ← open_row backend "device" "data" [] stored; decode_device plain) <$> row)).

Definition exists_device : Run AppDb bool := query DEVICE_EXISTS.

(** [create]: [fresh] is what [Device::new] minted. *)
Definition create (draws : Draws) (fresh : Device) : Run AppDb Z :=
  data ← seal_row backend draws "device" "data" [] (encode_device fresh);
  _ ← execute (CREATE_DEVICE data);
  mret me.
End app_sync.
