(* ===== verification/AppSyncSpec.v ===== *)
(** * What the app-state and device store promises *)

From S2P Require Import Prelude StoreError Database StoreKey BlobCipher BatchChunks Refinement Backend BlobCodec AppSyncStore.

Section spec.
Context `{keys : Keys}.

Inductive AppOp : Type :=
| GetSyncKey (key_id : bytes)
| SetSyncKey (key_id : bytes) (key : AppStateSyncKey)
| LatestSyncKeyId
| GetVersion (name : string)
| DeleteVersion (name : string)
| SetVersion (name : string) (state : HashState)
| PutMacs (name : string) (version : Z) (mutations : list MutationMac)
| GetMac (name : string) (index : bytes)
| DeleteMacs (name : string) (index_macs : list bytes)
| ClearMacs (name : string)
| GetMacs (name : string) (index_macs : list bytes)
| CommitPatch (name : string) (state : HashState) (removed : list bytes) (added : list MutationMac)
| SaveDevice (device : Device)
| LoadDevice
| DeviceExists
| CreateDevice (fresh : Device).

Record AppCall : Type := MkAppCall { ac_device : Z; ac_draws : nat -> Draws; ac_op : AppOp }.

Inductive AppReply : Type :=
| AUnit
| ABool (b : bool)
| AId (id : Z)
| AKey (o : option AppStateSyncKey)
| AState (o : option HashState)
| ABytes (o : option bytes)
| AMacs (m : gmap bytes bytes)
| ADevice (o : option Device).

Record AppState : Type := MkAppState {
  as_keys : gmap (bytes * Z) AppStateSyncKey;
  as_versions : gmap (string * Z) HashState;
  as_macs : gmap (string * bytes * Z) bytes;
  as_devices : gmap Z Device;
}.

Definition up_keys f s := MkAppState (f (as_keys s)) (as_versions s) (as_macs s) (as_devices s).
Definition up_versions f s := MkAppState (as_keys s) (f (as_versions s)) (as_macs s) (as_devices s).
Definition up_macs f s := MkAppState (as_keys s) (as_versions s) (f (as_macs s)) (as_devices s).
Definition up_device f s := MkAppState (as_keys s) (as_versions s) (as_macs s) (f (as_devices s)).

Definition put_mac (me : Z) (name : string) (s : AppState) (m : MutationMac) : AppState :=
  up_macs (insert (name, index_mac m, me) (value_mac m)) s.

Definition drop_mac (me : Z) (name : string) (s : AppState) (index : bytes) : AppState :=
  up_macs (delete (name, index, me)) s.

(** The patch: the version, then the removals, then the additions. *)
Definition patched (me : Z) (name : string) (state : HashState) (removed : list bytes) (added : list MutationMac)
    (s : AppState) : AppState :=
  foldl (put_mac me name) (foldl (drop_mac me name) (up_versions (insert (name, me) state) s) removed) added.

Definition app_step (call : AppCall) : AppState -> AppState :=
  let me := ac_device call in
  match ac_op call with
  | SetSyncKey id k => up_keys (insert (id, me) k)
  | DeleteVersion n => up_versions (delete (n, me))
  | SetVersion n st => up_versions (insert (n, me) st)
  | PutMacs n _ l => fun s => foldl (put_mac me n) s l
  | DeleteMacs n l => fun s => foldl (drop_mac me n) s l
  | ClearMacs n => up_macs (filter (fun x => ~ (x.1.1.1 = n /\ x.1.2 = me)))
  | CommitPatch n st removed added => patched me n st removed added
  | SaveDevice d => up_device (insert me (reloaded d))
  | CreateDevice d => up_device (fun m => match m !! me with Some _ => m | None => <[me := reloaded d]> m end)
  | _ => fun s => s
  end.

Definition app_reply (call : AppCall) (s : AppState) (r : AppReply) : Prop :=
  let me := ac_device call in
  match ac_op call with
  | GetSyncKey id => r = AKey (as_keys s !! (id, me))
  | LatestSyncKeyId => exists o, r = ABytes o /\
      match o with
      | None => forall id, as_keys s !! (id, me) = None
      | Some k => is_Some (as_keys s !! (k, me)) /\
          forall id, is_Some (as_keys s !! (id, me)) -> bytes_le id k = true
      end
  | GetVersion n => r = AState (as_versions s !! (n, me))
  | GetMac n i => r = ABytes (as_macs s !! (n, i, me))
  | GetMacs n l => exists m, r = AMacs m /\
      forall i, m !! i = if decide (i ∈ l) then as_macs s !! (n, i, me) else None
  | LoadDevice => r = ADevice (as_devices s !! me)
  | DeviceExists => r = ABool (bool_decide (is_Some (as_devices s !! me)))
  | CreateDevice _ => r = AId me
  | _ => r = AUnit
  end.

(** The types of the traits: a sync key is 32 bytes, an ltHash 128, an asked index 32. *)
Definition app_ok (call : AppCall) : Prop :=
  (forall i, draws_ok (ac_draws call i)) /\
  match ac_op call with
  | SetSyncKey _ k => length (key_data k) = 32%nat
  | SetVersion _ st | CommitPatch _ st _ _ => length (hs_hash st) = 128%nat
  | GetMacs _ l => Forall (fun i => length i = 32%nat) l
  | SaveDevice d | CreateDevice d => device_ok d
  | _ => True
  end.
End spec.

(** ** The concrete side *)

Section store.
Context `{crypto : Crypto} `{keys : Keys} `{!Message DeviceBlob} `{!Message HashStateWire} `{!Message AppStateSyncKeyWire}.
Context (constraint : StoreError) (cipher : BlobCipher).

Definition answered {A} (f : A -> AppReply) (m : Run AppDb A) : Run AppDb AppReply := x ← m; mret (f x).
Definition ok_unit (m : Run AppDb unit) : Run AppDb AppReply := _ ← m; mret AUnit.

Definition app_run (call : AppCall) : Run AppDb AppReply :=
  let b := MkBackend (ac_device call) cipher in
  let draws := ac_draws call in
  match ac_op call with
  | GetSyncKey id => answered AKey (get_sync_key b id)
  | SetSyncKey id k => ok_unit (set_sync_key constraint b (draws 0%nat) id k)
  | LatestSyncKeyId => answered ABytes (get_latest_sync_key_id b)
  | GetVersion n => answered AState (get_version b n)
  | DeleteVersion n => ok_unit (delete_version b n)
  | SetVersion n st => ok_unit (set_version constraint b (draws 0%nat) n st)
  | PutMacs n v l => ok_unit (put_mutation_macs constraint b draws n v l)
  | GetMac n i => answered ABytes (get_mutation_mac b n i)
  | DeleteMacs n l => ok_unit (delete_mutation_macs b n l)
  | ClearMacs n => ok_unit (clear_mutation_macs b n)
  | GetMacs n l => answered AMacs (get_mutation_macs b n l)
  | CommitPatch n st removed added => ok_unit (commit_patch constraint b draws n st removed added)
  | SaveDevice d => ok_unit (save constraint b (draws 0%nat) d)
  | LoadDevice => answered ADevice (load b)
  | DeviceExists => answered ABool (exists_device b)
  | CreateDevice d => answered AId (create constraint b (draws 0%nat) d)
  end.

(** How a row of each table stands for a value. *)
Definition key_as (k : bytes * Z) (blob : bytes) (v : AppStateSyncKey) : Prop :=
  exists plain, open_at cipher (snd k) "app_state_keys" "key_data" (fst k) blob = Ok plain /\
    decode_app_state_sync_key plain = Ok v.

Definition version_as (k : string * Z) (blob : bytes) (v : HashState) : Prop :=
  exists plain, open_at cipher (snd k) "app_state_versions" "state_data" (str_bytes (fst k)) blob = Ok plain /\
    decode_hash_state plain = Ok v.

Definition mac_as (k : string * bytes * Z) (row : Z * bytes) (v : bytes) : Prop :=
  open_at cipher (snd k) "app_state_mutation_macs" "value_mac" (mac_row k.1.1 k.1.2) (snd row) = Ok v.

Definition device_as (k : Z) (blob : bytes) (v : Device) : Prop :=
  exists plain, open_at cipher k "device" "data" [] blob = Ok plain /\ decode_device plain = Ok v.

Definition app_rep (d : AppDb) (s : AppState) : Prop :=
  map_Forall2 key_as (app_state_keys d) (as_keys s) /\
  map_Forall2 version_as (app_state_versions d) (as_versions s) /\
  map_Forall2 mac_as (app_state_mutation_macs d) (as_macs s) /\
  map_Forall2 device_as (device_rows d) (as_devices s).
End store.
