(* ===== verification/AppSyncProps.v ===== *)
(** * The app-state and device store keeps its promise

    The tables one by one: what each write does to the values its rows stand for, and what each
    read answers. *)

From S2P Require Import Prelude StoreError Database StoreKey BlobCipher BatchChunks Refinement Backend BlobCodec AppSyncStore AppSyncSpec.

Section laws.
Context `{crypto : Crypto} `{!CryptoLaws crypto} `{keys : Keys} `{!KeysLaws keys}.
Context `{!Message DeviceBlob} `{!Message HashStateWire} `{!Message AppStateSyncKeyWire}.
Context `{!MessageLaw DeviceBlob} `{!MessageLaw HashStateWire} `{!MessageLaw AppStateSyncKeyWire}.
Context (constraint : StoreError) (cipher : BlobCipher) (calm : bool) (me : Z).
Let b := MkBackend me cipher.

(** The store represents [s]; in the calm case the account exists. *)
Definition ready (d : AppDb) (s : AppState) : Prop := app_rep cipher d s /\ (calm = true -> me ∈ ad_accounts d).

Ltac one_table :=
  let H := fresh in intros [H ?] Hf; destruct H as (? & ? & ? & ?);
  split; [split_and!; solve [done | by apply Hf] | done].

Lemma ready_keys f g d s :
  ready d s -> (map_Forall2 (key_as cipher) (app_state_keys d) (as_keys s) ->
    map_Forall2 (key_as cipher) (f (app_state_keys d)) (g (as_keys s))) -> ready (on_keys f d) (up_keys g s).
Proof using Type. one_table. Qed.

Lemma ready_versions f g d s :
  ready d s -> (map_Forall2 (version_as cipher) (app_state_versions d) (as_versions s) ->
    map_Forall2 (version_as cipher) (f (app_state_versions d)) (g (as_versions s))) ->
  ready (on_versions f d) (up_versions g s).
Proof using Type. one_table. Qed.

Lemma ready_macs f g d s :
  ready d s -> (map_Forall2 (mac_as cipher) (app_state_mutation_macs d) (as_macs s) ->
    map_Forall2 (mac_as cipher) (f (app_state_mutation_macs d)) (g (as_macs s))) -> ready (on_macs f d) (up_macs g s).
Proof using Type. one_table. Qed.

Lemma ready_device f g d s :
  ready d s -> (map_Forall2 (device_as cipher) (device_rows d) (as_devices s) ->
    map_Forall2 (device_as cipher) (f (device_rows d)) (g (as_devices s))) -> ready (on_device f d) (up_device g s).
Proof using Type. one_table. Qed.

Lemma insert_app_ready f d s' :
  ready (f d) s' -> (calm = true -> me ∈ ad_accounts d) ->
  match insert_app constraint b f d with (Ok _, d') => ready d' s' | (Err _, _) => calm = false end.
Proof using Type.
  intros Hr Hacc. unfold insert_app. cbn [backend_device b]. destruct (decide (me ∈ ad_accounts d)); [done|].
  apply not_true_is_false. intros Hc. tauto.
Qed.

(** ** The values crossing the codec *)

Lemma device_put (blob : bytes) (v : Device) (m : gmap Z bytes) (s : gmap Z Device) :
  device_ok v -> open_at cipher me "device" "data" [] blob = Ok (encode_device v) ->
  map_Forall2 (device_as cipher) m s -> map_Forall2 (device_as cipher) (<[me := blob]> m) (<[me := reloaded v]> s).
Proof using KeysLaws0 MessageLaw0.
  intros Hv Ho Hm. apply map_Forall2_insert_2; [|done]. eexists. split; [done|]. by apply device_roundtrip.
Qed.

Lemma version_put (n : string) (blob : bytes) (v : HashState) (m : gmap (string * Z) bytes) (s : gmap (string * Z) HashState) :
  length (hs_hash v) = 128%nat ->
  open_at cipher me "app_state_versions" "state_data" (str_bytes n) blob = Ok (encode_hash_state v) ->
  map_Forall2 (version_as cipher) m s -> map_Forall2 (version_as cipher) (<[(n, me) := blob]> m) (<[(n, me) := v]> s).
Proof using MessageLaw1.
  intros Hv Ho Hm. apply map_Forall2_insert_2; [|done]. eexists. split; [done|]. by apply hash_state_roundtrip.
Qed.

Lemma key_put (id blob : bytes) (v : AppStateSyncKey) (m : gmap (bytes * Z) bytes) (s : gmap (bytes * Z) AppStateSyncKey) :
  length (key_data v) = 32%nat ->
  open_at cipher me "app_state_keys" "key_data" id blob = Ok (encode_app_state_sync_key v) ->
  map_Forall2 (key_as cipher) m s -> map_Forall2 (key_as cipher) (<[(id, me) := blob]> m) (<[(id, me) := v]> s).
Proof using MessageLaw2.
  intros Hv Ho Hm. apply map_Forall2_insert_2; [|done]. eexists. split; [done|]. by apply sync_key_roundtrip.
Qed.

(** A read of one blob that decodes. *)
Lemma decoded_row {V} (R : bytes -> V -> Prop) t c row (decode : bytes -> StoreResult V) (stored : option bytes) v :
  (forall blob x, R blob x -> exists plain, open_at cipher me t c row blob = Ok plain /\ decode plain = Ok x) ->
  option_Forall2 R stored v ->
  transpose ((fun blob => plain ← open_row b t c row blob; decode plain) <$> stored) = Ok v.
Proof using Type.
  intros HR Hrow. destruct Hrow as [blob x Hx|]; [|done]. destruct (HR blob x Hx) as (plain & Ho & Hd).
  cbn. unfold open_row. cbn [backend_cipher backend_device b]. rewrite Ho. cbn. by rewrite Hd.
Qed.

(** ** MACs *)

Lemma mac_put (n : string) (v : Z) (m : MutationMac) (blob : bytes) (rows : gmap (string * bytes * Z) (Z * bytes)) (s : gmap (string * bytes * Z) bytes) :
  open_at cipher me "app_state_mutation_macs" "value_mac" (mac_row n (index_mac m)) blob = Ok (value_mac m) ->
  map_Forall2 (mac_as cipher) rows s ->
  map_Forall2 (mac_as cipher) (<[(n, index_mac m, me) := (v, blob)]> rows) (<[(n, index_mac m, me) := value_mac m]> s).
Proof using Type. intros Ho Hm. by apply map_Forall2_insert_2. Qed.

Lemma post_put_macs_in draws n v l s :
  (forall i, draws_ok (draws i)) -> (calm = true -> forall i, can_seal cipher (draws i)) ->
  run_post calm (fun d => ready d s) (put_macs_in constraint b draws n v l)
    (fun _ d => ready d (foldl (put_mac me n) s l)) (fun _ => calm = false).
Proof using CryptoLaws0.
  intros Hd Hs. apply post_numbered_loop. intros i m s' _. apply post_sealed_item; [done|auto|].
  intros blob d Ho _ Hr. apply insert_app_ready; [|by apply Hr]. apply ready_macs; [done|]. by apply mac_put.
Qed.

Lemma post_delete_macs_in n l s :
  run_post calm (fun d => ready d s) (delete_macs_in b n l)
    (fun _ d => ready d (foldl (drop_mac me n) s l)) (fun _ => calm = false).
Proof using Type.
  apply post_loop. intros i s' _. apply post_item. intros d Hr. apply ready_macs; [done|]. apply map_Forall2_delete.
Qed.

Lemma good_macs n d s chunk :
  ready d s -> Forall (fun i => length i = 32%nat) chunk ->
  good_select (fun chunk d => filter (fun row => length row.1 = 32%nat) (SELECT_MUTATION_MACS b n chunk d))
    (fun '(index, stored) => mac ← open_mac b n index stored; Ok (index, mac))
    (fun i => as_macs s !! (n, i, me)) d chunk.
Proof using Type.
  intros [(_ & _ & Hm & _) _] Hlen. unfold good_select, SELECT_MUTATION_MACS. cbn [backend_device b].
  rewrite filter_all.
  - destruct (select_rep (mac_as cipher) _ _
      (fun '(key, row) => if decide (key.1.1 = n /\ key.2 = me /\ key.1.2 ∈ chunk) then Some (key.1.2, snd row) else None)
      (fun '(index, stored) => mac ← open_mac b n index stored; Ok (index, mac))
      (fun i => i ∈ chunk) (fun i => (n, i, me)) (fun v => v) Hm) as (l & Hl & Hnd & Hin).
    + intros [[n' i] device] [v blob] mac rw Ho Hf. unfold mac_as in Ho. cbn [fst snd] in Ho, Hf.
      case_decide as Hc; [|discriminate]. destruct Hc as (-> & -> & Hc). injection Hf as <-. exists i.
      split_and!; [done|done|]. unfold open_mac, open_row. cbn [backend_cipher backend_device b]. by rewrite Ho.
    + intros i [v blob] mac Hi Ho. unfold mac_as in Ho. cbn [fst snd] in Ho |- *.
      rewrite decide_True by done. eexists. split; [done|]. unfold open_mac, open_row.
      cbn [backend_cipher backend_device b]. by rewrite Ho.
    + exists l. split_and!; [done|done|]. intros i mac. rewrite Hin. cbn.
      destruct (as_macs s !! (n, i, me)); cbn; naive_solver.
  - rewrite Forall_forall in Hlen. intros [i blob] ([[[n' i'] device] row] & _ & Hf)%list_elem_of_omap.
    cbn in Hf. case_decide as Hc; [|discriminate]. injection Hf as <- <-. apply Hlen. tauto.
Qed.

(** The MACs of the asked indexes, by index. *)
Lemma post_get_macs n l d0 s (X : AppDb -> Prop) :
  Forall (fun i => length i = 32%nat) l -> ready d0 s -> (calm = false -> X d0) ->
  run_post calm (fun d => d = d0) (get_mutation_macs b n l)
    (fun m d => d = d0 /\ forall i, m !! i = if decide (i ∈ l) then as_macs s !! (n, i, me) else None) X.
Proof using Type.
  intros Hl Hr HX. unfold get_mutation_macs. eapply post_bind.
  - apply (post_read_padded calm _ _ (fun i => as_macs s !! (n, i, me))); [done|].
    intros chunk Hsub. apply good_macs; [done|]. rewrite Forall_forall in Hl |- *. auto.
  - intros found. apply post_ret. intros d (-> & Hnd & Hin). split; [done|]. intros i.
    rewrite foldl_insert_lookup; [|done|by intros _; rewrite lookup_empty].
    apply option_eq. intros v. rewrite <-elem_of_list_to_map, Hin by done.
    case_decide; naive_solver.
Qed.

Lemma post_commit_patch draws n st removed added d0 s :
  (forall i, draws_ok (draws i)) -> (calm = true -> forall i, can_seal cipher (draws i)) ->
  length (hs_hash st) = 128%nat -> ready d0 s -> let s' := patched me n st removed added s in
  run_post calm (fun d => d = d0) (commit_patch constraint b draws n st removed added)
    (fun _ d => ready d s') (undone calm ready d0 s').
Proof using CryptoLaws0 MessageLaw1.
  intros Hd Hs Hlen Hr s'. apply post_seal_row; [done|auto|by intros Hc ? ->; apply (undone_start calm)|].
  intros blob Ho _. apply (post_all_or_nothing calm ready _ d0 s s'); [done|].
  run_step (fun (_ : unit) d => ready d (up_versions (insert (n, me) st) s)).
  { apply post_item. intros d Hrd. apply insert_app_ready; [|by apply Hrd].
    apply ready_versions; [done|]. by apply version_put. }
  run_step (fun (_ : unit) d => ready d (foldl (drop_mac me n) (up_versions (insert (n, me) st) s) removed));
    [apply post_delete_macs_in|by apply post_put_macs_in; auto].
Qed.

(** ** The latest sync key *)

Lemma best_spec k rest :
  let best := foldl (fun best k => if bytes_le best k then k else best) k rest in
  best ∈ k :: rest /\ forall x, x ∈ k :: rest -> bytes_le x best = true.
Proof using Type.
  cbv zeta. revert k. induction rest as [|k' rest IH]; intros k; cbn [foldl].
  - split; [by left|]. intros x ->%list_elem_of_singleton. apply bytes_le_refl.
  - set (k1 := if bytes_le k k' then k' else k). destruct (IH k1) as [Hin Hle].
    assert (H1 : bytes_le k k1 = true /\ bytes_le k' k1 = true /\ (k1 = k \/ k1 = k')).
    { unfold k1. destruct (bytes_le k k') eqn:E; split_and!; auto using bytes_le_refl, bytes_le_total. }
    destruct H1 as (Hk & Hk' & Hk1). pose proof (Hle k1 ltac:(by left)) as Hb. split.
    { apply elem_of_cons in Hin as [->|Hin]; [destruct Hk1 as [->| ->]; [by left|by right; left]|by right; right]. }
    intros x [->|[->|Hx]%elem_of_cons]%elem_of_cons; [by eapply bytes_le_trans..|]. apply Hle. by right.
Qed.

Lemma latest_key d s :
  ready d s ->
  match LATEST_SYNC_KEY_ID b d with
  | None => forall id, as_keys s !! (id, me) = None
  | Some k => is_Some (as_keys s !! (k, me)) /\ forall id, is_Some (as_keys s !! (id, me)) -> bytes_le id k = true
  end.
Proof using Type.
  intros [(Hk & _) _].
  assert (Hin : forall id, id ∈ own_key_ids b d <-> is_Some (as_keys s !! (id, me))).
  { intros id. unfold own_key_ids. cbn [backend_device b]. rewrite list_elem_of_omap. split.
    - intros ([[id' device] blob] & Hin & Hf). case_decide as Hc; [|discriminate]. cbn in Hc, Hf. subst device.
      injection Hf as ->. apply elem_of_map_to_list in Hin. destruct (map_Forall2_some_l _ _ _ _ _ Hk Hin) as (v & Hv & _). by eexists.
    - intros [v Hv]. destruct (map_Forall2_some_r _ _ _ _ _ Hk Hv) as (blob & Hb & _).
      exists ((id, me), blob). split; [by apply elem_of_map_to_list|]. by rewrite decide_True. }
  unfold LATEST_SYNC_KEY_ID. destruct (own_key_ids b d) as [|k rest].
  - intros id. apply eq_None_not_Some. rewrite <-Hin. apply not_elem_of_nil.
  - destruct (best_spec k rest) as [Hb Hle]. split; [by apply Hin|]. intros id Hid. by apply Hle, Hin.
Qed.
End laws.

(** ** Properties *)

Section refines.
Context `{crypto : Crypto} `{!CryptoLaws crypto} `{keys : Keys} `{!KeysLaws keys}.
Context `{!Message DeviceBlob} `{!Message HashStateWire} `{!Message AppStateSyncKeyWire}.
Context `{!MessageLaw DeviceBlob} `{!MessageLaw HashStateWire} `{!MessageLaw AppStateSyncKeyWire}.
Context (constraint : StoreError) (cipher : BlobCipher).

(** A read of one blob as an operation. *)
Lemma post_got_row {B} calm me (g : AppDb -> option bytes) t c row (dec : bytes -> StoreResult B)
    (R : bytes -> B -> Prop) (f : option B -> AppReply) d0 s v X :
  ready cipher calm me d0 s -> (calm = false -> X d0) ->
  (forall blob x, R blob x -> exists plain, open_at cipher me t c row blob = Ok plain /\ dec plain = Ok x) ->
  option_Forall2 R (g d0) v ->
  run_post calm (fun d => d = d0)
    (answered f (o ← query g; of_result (transpose ((fun stored =>
       plain ← open_row (MkBackend me cipher) t c row stored; dec plain) <$> o))))
    (fun r d => ready cipher calm me d s /\ r = f v) X.
Proof using Type.
  intros Hr HX HR Hrow. unfold answered. eapply (post_got calm (ready cipher calm me)); [done|done| |done].
  by eapply (decoded_row cipher me R).
Qed.

Lemma create_ready calm me draws fresh d0 s :
  device_ok fresh -> draws_ok draws -> (calm = true -> can_seal cipher draws) -> ready cipher calm me d0 s ->
  let s' := up_device (fun m => match m !! me with Some _ => m | None => <[me := reloaded fresh]> m end) s in
  run_post calm (fun d => d = d0) (create constraint (MkBackend me cipher) draws fresh)
    (fun r d => ready cipher calm me d s' /\ r = me) (undone calm (ready cipher calm me) d0 s').
Proof using CryptoLaws0 KeysLaws0 MessageLaw0.
  intros Hf Hd Hs Hr s'. apply post_seal_row; [done|auto|by intros Hc ? ->; apply (undone_start calm)|].
  intros blob Ho _. eapply (post_bind calm _ _ (fun _ d => ready cipher calm me d s')); [|by intros ?; apply post_ret; intros d Hrd].
  apply post_write. unfold CREATE_DEVICE. cbn [backend_device].
  pose proof (proj1 Hr) as (_ & _ & _ & Hdev). pose proof (Hdev me) as Hme.
  destruct (device_rows d0 !! me) as [old|] eqn:E; inversion Hme as [? v Hv Eo Es|Eo Es].
  - unfold s', up_device. rewrite <-Es. by destruct s.
  - unfold s', up_device. rewrite <-Es. apply insert_app_ready; [|by apply Hr].
    apply (ready_device cipher calm me (insert me blob) (insert me (reloaded fresh))); [done|].
    by apply device_put.
Qed.

Lemma post_app_call calm me draws op d0 s :
  let call := MkAppCall me draws op in
  app_ok call -> (calm = true -> forall i, can_seal cipher (draws i)) -> ready cipher calm me d0 s ->
  run_post calm (fun d => d = d0) (app_run constraint cipher call)
    (fun r d => ready cipher calm me d (app_step call s) /\ app_reply call s r)
    (undone calm (ready cipher calm me) d0 (app_step call s)).
Proof using All.
  intros call [Hd Hok] Hs Hr. cbn [ac_draws call] in Hd.
  assert (HX : calm = false -> undone calm (ready cipher calm me) d0 s d0) by (intros; by apply undone_start).
  assert (Hacc : calm = true -> me ∈ ad_accounts d0) by apply Hr.
  pose proof (proj1 Hr) as (Hkeys & Hver & Hmac & Hdev).
  destruct op; cbn in Hok; unfold app_run, app_step, app_reply, ok_unit;
    cbn [ac_op ac_device ac_draws call].
  - (* GetSyncKey *)
    eapply post_got_row; [done|done| |apply (Hkeys (key_id, me))]. by intros blob x Hx.
  - (* SetSyncKey *)
    apply post_done, post_seal_row; [done|auto|by intros Hc ? ->; apply (undone_start calm)|].
    intros blob Ho _. apply post_write, insert_app_ready; [|done]. apply ready_keys; [done|]. by apply key_put.
  - (* LatestSyncKeyId *)
    eapply post_bind; [apply (post_query calm _ _ (fun o d => d = d0 /\ o = LATEST_SYNC_KEY_ID (MkBackend me cipher) d0));
      [by intros Hc d ->; apply HX|by intros d ->]|].
    intros o. apply post_ret. intros d [-> ->]. split; [done|]. eexists. split; [done|].
    by apply (latest_key cipher calm me).
  - (* GetVersion *)
    eapply post_got_row; [done|done| |apply (Hver (name, me))]. by intros blob x Hx.
  - apply post_done, post_write, ready_versions; [done|]. apply map_Forall2_delete.
  - (* SetVersion *)
    apply post_done, post_seal_row; [done|auto|by intros Hc ? ->; apply (undone_start calm)|].
    intros blob Ho _. apply post_write, insert_app_ready; [|done]. apply ready_versions; [done|]. by apply version_put.
  - (* PutMacs *)
    apply post_done. apply (post_all_or_nothing calm (ready cipher calm me) _ d0 s); [done|]. by apply post_put_macs_in.
  - (* GetMac *)
    unfold answered. eapply (post_got calm (ready cipher calm me)); [done|done| |done].
    unfold GET_MUTATION_MAC, open_mac, open_row. cbn [backend_cipher backend_device].
    destruct (Hmac (name, index, me)) as [[ver blob] v Ho|]; [|done]. unfold mac_as in Ho. cbn [fst snd] in Ho.
    cbn -[mac_row]. by rewrite Ho.
  - apply post_done. apply (post_all_or_nothing calm (ready cipher calm me) _ d0 s); [done|]. apply post_delete_macs_in.
  - apply post_done, post_write, ready_macs; [done|]. intros Hm. by apply map_Forall2_filter.
  - (* GetMacs *)
    eapply post_reply; [done| |by eapply post_get_macs]. intros m Hm. by exists m.
  - apply post_done. by apply post_commit_patch.
  - (* SaveDevice *)
    apply post_done, post_seal_row; [done|auto|by intros Hc ? ->; apply (undone_start calm)|].
    intros blob Ho _. apply post_write, insert_app_ready; [|done]. apply ready_device; [done|]. by apply device_put.
  - (* LoadDevice *)
    eapply post_got_row; [done|done| |apply (Hdev me)]. by intros blob x Hx.
  - (* DeviceExists *)
    eapply post_bind; [apply (post_query calm _ _ (fun o d => d = d0 /\ o = DEVICE_EXISTS (MkBackend me cipher) d0));
      [by intros Hc d ->; apply HX|by intros d ->]|].
    intros o. apply post_ret. intros d [-> ->]. split; [done|]. f_equal. unfold DEVICE_EXISTS.
    apply bool_decide_ext. cbn [backend_device]. destruct (Hdev me) as [row v _|]; [|done]. split; intros _; by eexists.
  - (* CreateDevice *)
    eapply post_bind; [apply create_ready; auto|]. intros r. apply post_ret. by intros ? [? ->].
Qed.
End refines.

Lemma app_refines `{crypto : Crypto} `{!CryptoLaws crypto} `{keys : Keys} `{!KeysLaws keys}
    `{!Message DeviceBlob} `{!Message HashStateWire} `{!Message AppStateSyncKeyWire}
    `{!MessageLaw DeviceBlob} `{!MessageLaw HashStateWire} `{!MessageLaw AppStateSyncKeyWire}
    constraint cipher call d0 s :
  app_rep cipher d0 s -> app_ok call ->
  run_post false (fun d => d = d0) (app_run constraint cipher call)
    (fun r d => app_rep cipher d (app_step call s) /\ app_reply call s r)
    (fun d => d = d0 \/ app_rep cipher d (app_step call s)).
Proof.
  destruct call as [me draws op]. intros Hrep Hok.
  eapply post_conseq; [apply (post_app_call constraint cipher false me draws op d0 s Hok)|done| |].
  - done.
  - by split.
  - intros r d [[Hd _] Hr]. by split.
  - intros d [_ [->|[Hd _]]]; [by left|by right].
Qed.

#[global] Instance app_sync_store_refines `{crypto : Crypto} `{!CryptoLaws crypto} `{keys : Keys} `{!KeysLaws keys}
    `{!Message DeviceBlob} `{!Message HashStateWire} `{!Message AppStateSyncKeyWire}
    `{!MessageLaw DeviceBlob} `{!MessageLaw HashStateWire} `{!MessageLaw AppStateSyncKeyWire}
    (constraint : StoreError) (cipher : BlobCipher) :
  StoreRefinement AppDb AppState AppCall AppReply := {|
    run_op := app_run constraint cipher;
    rep := app_rep cipher;
    step_op := app_step;
    reply_ok := app_reply;
    op_ok := app_ok;
    op_refines := app_refines constraint cipher;
  |}.

(** ** The properties *)

(** C13.  The app-state and device store under any history of calls of any accounts, whatever
    statements fail on the way: the sealed blobs stand for the values the calls that took effect
    leave (a patch moves the version and its MACs together or not at all), every answered call
    took effect whole, and it answered by the values it found; a device comes back as it is after
    a restart. *)
Theorem app_sync_history `{crypto : Crypto} `{!CryptoLaws crypto} `{keys : Keys} `{!KeysLaws keys}
    `{!Message DeviceBlob} `{!Message HashStateWire} `{!Message AppStateSyncKeyWire}
    `{!MessageLaw DeviceBlob} `{!MessageLaw HashStateWire} `{!MessageLaw AppStateSyncKeyWire}
    constraint cipher (calls : list AppCall) (w : World AppDb) (s : AppState) :
  app_rep cipher (db w) s -> Forall app_ok calls ->
  let '(rs, w') := run_all (H := app_sync_store_refines constraint cipher) calls w in
  exists taken,
    app_rep cipher (db w') (steps_taken (H := app_sync_store_refines constraint cipher) calls taken s) /\
    answers_ok (H := app_sync_store_refines constraint cipher) calls taken rs s.
Proof. intros Hrep Hok. by apply (run_all_history (H := app_sync_store_refines constraint cipher)). Qed.

(** On a database that does not fail every app-state or device call of an existing account
    succeeds, has its effect and answers by the state. *)
Theorem app_call_succeeds `{crypto : Crypto} `{!CryptoLaws crypto} `{keys : Keys} `{!KeysLaws keys}
    `{!Message DeviceBlob} `{!Message HashStateWire} `{!Message AppStateSyncKeyWire}
    `{!MessageLaw DeviceBlob} `{!MessageLaw HashStateWire} `{!MessageLaw AppStateSyncKeyWire}
    constraint cipher (call : AppCall) (d : AppDb) (s : AppState) :
  app_rep cipher d s -> ac_device call ∈ ad_accounts d -> app_ok call ->
  (forall i, can_seal cipher (ac_draws call i)) ->
  exists r d', app_run constraint cipher call (MkWorld d []) = (Ok r, MkWorld d' []) /\
    app_rep cipher d' (app_step call s) /\ app_reply call s r.
Proof.
  destruct call as [me draws op]. cbn [ac_device ac_draws]. intros Hrep Hme Hok Hs.
  pose proof (post_app_call constraint cipher true me draws op d s Hok (fun _ => Hs)) as Hp.
  specialize (Hp ltac:(by split) (MkWorld d []) ltac:(done) eq_refl).
  destruct (app_run constraint cipher _ _) as [[r|e] [d' fs]]; [|by destruct Hp].
  destruct Hp as [[[Hd _] Hr] Hfs]. cbn in Hfs. rewrite Hfs by done. eauto.
Qed.

(** ** Witnesses *)

#[local] Instance toy_device_law : MessageLaw DeviceBlob := toy_message_law DeviceBlob.
#[local] Instance toy_hash_law : MessageLaw HashStateWire := toy_message_law HashStateWire.
#[local] Instance toy_key_law : MessageLaw AppStateSyncKeyWire := toy_message_law AppStateSyncKeyWire.

Definition empty_app : AppDb := MkAppDb {[4; 5]} ∅ ∅ ∅ ∅.
Definition empty_app_state : AppState := MkAppState ∅ ∅ ∅ ∅.

Lemma empty_app_rep `{Crypto} cipher : app_rep cipher empty_app empty_app_state.
Proof. split_and!; intros k; cbn; rewrite !lookup_empty; constructor. Qed.

Definition toy_call (me : Z) (op : AppOp) : AppCall := MkAppCall me (fun _ => toy_draws) op.
Definition toy_index (b : byte) : bytes := repeat b 32.
Definition no_account : StoreError := Database "FOREIGN KEY constraint failed".

Definition toy_hash_state : HashState := MkHashState 7 (repeat Byte.x05 128) {["a" := [Byte.x01]]} false true.

Definition toy_app_history : list AppCall :=
  [ toy_call 4 (CommitPatch "regular" toy_hash_state [] [MkMac (toy_index Byte.x01) [Byte.x02]]);
    toy_call 5 (GetVersion "regular");
    toy_call 4 (CommitPatch "regular" toy_hash_state [toy_index Byte.x01] [MkMac (toy_index Byte.x03) [Byte.x04]]);
    toy_call 4 (GetMacs "regular" [toy_index Byte.x01; toy_index Byte.x03]);
    toy_call 4 DeviceExists; toy_call 6 (PutMacs "regular" 1 [MkMac (toy_index Byte.x01) []]);
    toy_call 4 LoadDevice ].

Lemma toy_app_history_ok : Forall app_ok toy_app_history.
Proof.
  unfold toy_app_history. repeat (apply Forall_cons; split); try (split; [intros; apply toy_draws_ok|]); try done.
  - by repeat constructor.
Qed.

Lemma app_sync_history_witness :
  (let '(rs, w') := run_all (H := app_sync_store_refines no_account (sealing toy_key)) toy_app_history
                      (MkWorld empty_app []) in
   exists taken,
     app_rep (sealing toy_key) (db w')
       (steps_taken (H := app_sync_store_refines no_account (sealing toy_key)) toy_app_history taken empty_app_state) /\
     answers_ok (H := app_sync_store_refines no_account (sealing toy_key)) toy_app_history taken rs empty_app_state) /\
  (run_all (H := app_sync_store_refines no_account (sealing toy_key)) toy_app_history (MkWorld empty_app [])).1 =
    [Ok AUnit; Ok (AState None); Ok AUnit; Ok (AMacs {[toy_index Byte.x03 := [Byte.x04]]});
     Ok (ABool false); Err no_account; Ok (ADevice None)].
Proof.
  split; [|vm_compute; reflexivity].
  apply (app_sync_history no_account (sealing toy_key) toy_app_history); [apply empty_app_rep|apply toy_app_history_ok].
Defined.

Lemma app_call_succeeds_witness :
  let call := toy_call 4 (SetVersion "regular" toy_hash_state) in
  exists r d', app_run no_account (sealing toy_key) call (MkWorld empty_app []) = (Ok r, MkWorld d' []) /\
    app_rep (sealing toy_key) d' (app_step call empty_app_state) /\ app_reply call empty_app_state r.
Proof.
  intros call. apply (app_call_succeeds no_account (sealing toy_key) call).
  - apply empty_app_rep.
  - cbn. set_solver.
  - by split; [intros; apply toy_draws_ok|].
  - intros i. split_and!; [done|by eexists|by eexists].
Defined.
