(* ===== verification/Events.v ===== *)
(** * Events: the ring, the publisher and its bridge (state/event_ring.rs, event_bridge.rs, event_publisher.rs)

    One task per account drains a queue of jobs; each wire event is stamped with the account's
    sequence, kept for replay and broadcast, one at a time.  The library's event type and the
    mapping of its events to wire events ([domain/event_mapping.rs], EventMapping.v) are arguments
    here: what is proved holds whatever the mapping answers, a panic included. *)

From S2P Require Import Prelude.

(** [ConnectionState] of the wire contract. *)
Inductive ConnectionState : Type :=
| Unspecified | Disconnected | Connecting | Connected | LoggedOut | Banned.

#[global] Instance ConnectionState_eq_dec : EqDecision ConnectionState.
Proof. solve_decision. Defined.

(** [pairing_update::Event]; the payloads the relay copies are their bytes. *)
Inductive PairingEvent : Type :=
| QrCode (code : string)
| PairCode (code : string)
| Paired (info : bytes)
| PairingFailed (error : bytes)
| CodeRefresh (force_manual : bool)
| CodeError (info : bytes)
| QrCodesExhausted (disconnected : bool).

(** [event_envelope::Event]: the variants the stream looks at, and every other by its field
    number and its encoded bytes. *)
Inductive WireEvent : Type :=
| HistorySync (raw : bytes)
| Raw (kind : string) (payload : bytes) (note : string)
| Pairing (update : option PairingEvent)
| OtherWire (field : Z) (body : bytes).

Record EventEnvelope : Type := MkEnvelope {
  account_uuid : string;
  monotonic_seq : Z;
  ts_unix_ms : Z;
  event : option WireEvent;
}.

(** ** The ring (state/event_ring.rs) *)

Record EventRing : Type := MkRing { queue : list EventEnvelope; capacity : nat }.

Definition new_ring (capacity : nat) : EventRing := MkRing [] capacity.

(** [while queue.len() >= capacity { queue.pop_front() }]. *)
Fixpoint make_room (capacity : nat) (q : list EventEnvelope) : list EventEnvelope :=
  match q with
  | [] => []
  | _ :: rest => if (capacity <=? length q)%nat then make_room capacity rest else q
  end.

Definition push (event : EventEnvelope) (ring : EventRing) : EventRing :=
  if (capacity ring =? 0)%nat then ring
  else MkRing (make_room (capacity ring) (queue ring) ++ [event]) (capacity ring).

Definition snapshot (n : nat) (ring : EventRing) : list EventEnvelope :=
  let take := Nat.min n (length (queue ring)) in
  drop (length (queue ring) - take) (queue ring).

(** ** The bridge (state/event_bridge.rs) *)

Section bridge.
(** The size of an encoded envelope (prost). *)
Context (encoded_len : EventEnvelope -> Z).

Definition replayable (envelope : EventEnvelope) (max_bytes : Z) : bool :=
  match event envelope with
  | Some (HistorySync _) => false
  | _ => negb ((0 <? max_bytes) && (max_bytes <? encoded_len envelope))
  end.

(** What the publisher task owns ([EventCtx]): the sequence, the ring and what it broadcast. *)
Record EventCtx : Type := MkCtx {
  uuid : string;
  events_tx : list EventEnvelope;  (* every envelope broadcast, oldest first *)
  ring : EventRing;
  seq : Z;                         (* AtomicI64 *)
  replay_max_event_bytes : Z;
}.

Definition new_ctx (uuid : string) (ring_capacity : nat) (replay_max_event_bytes : Z) : EventCtx :=
  MkCtx uuid [] (new_ring ring_capacity) 0 replay_max_event_bytes.

(** [ts_unix_ms: now_millis()] is the clock's answer, an argument. *)
Definition stamp (ctx : EventCtx) (now_millis : Z) (inner : WireEvent) : EventEnvelope :=
  MkEnvelope (uuid ctx) (seq ctx) now_millis (Some inner).

(** Stamped, kept for replay, not yet broadcast. *)
Definition keep (envelope : EventEnvelope) (ctx : EventCtx) : EventCtx :=
  MkCtx (uuid ctx) (events_tx ctx)
    (if replayable envelope (replay_max_event_bytes ctx) then push envelope (ring ctx) else ring ctx)
    (as_i64 (seq ctx + 1)) (replay_max_event_bytes ctx).

Definition broadcast (envelope : EventEnvelope) (ctx : EventCtx) : EventCtx :=
  MkCtx (uuid ctx) (events_tx ctx ++ [envelope]) (ring ctx) (seq ctx) (replay_max_event_bytes ctx).

Definition publish_wire_event (ctx : EventCtx) (now_millis : Z) (inner : WireEvent) : EventCtx :=
  let envelope := stamp ctx now_millis inner in
  broadcast envelope (keep envelope ctx).

(** ** The publisher (state/event_publisher.rs) *)

(** The library's events and their mapping; [None] is a mapping that panics. *)
Context {Event : Type} (map_event : Event -> option (list WireEvent)).

(** [Wire] carries the caller that waits for the confirmation. *)
Inductive Job : Type :=
| Lib (e : Event)
| Wire (e : WireEvent) (caller : nat).

(** Each wire event with the time it is stamped at. *)
Definition dispatch (ctx : EventCtx) (events : list (Z * WireEvent)) : EventCtx :=
  foldl (fun ctx x => publish_wire_event ctx x.1 x.2) ctx events.

(** [drain]: a panic costs its own event only.  The answers are the callers whose envelope is in
    the ring and on the broadcast. *)
Definition run_job (now : nat -> Z) (ctx : EventCtx) (job : Job) : EventCtx * list nat :=
  match job with
  | Lib e =>
      match map_event e with
      | None => (ctx, [])
      | Some events => (dispatch ctx (imap (fun i w => (now i, w)) events), [])
      end
  | Wire w caller => (publish_wire_event ctx (now 0%nat) w, [caller])
  end.

Fixpoint drain (now : nat -> nat -> Z) (ctx : EventCtx) (jobs : list Job) : EventCtx * list nat :=
  match jobs with
  | [] => (ctx, [])
  | job :: rest =>
      let '(ctx, done) := run_job (now (length rest)) ctx job in
      let '(ctx, later) := drain now ctx rest in
      (ctx, done ++ later)
  end.
End bridge.

(** ** Connection state (state/event_bridge.rs) *)

(** The library's events the connection state follows. *)
Inductive LibKind : Type := KConnected | KPairSuccess | KDisconnected | KLoggedOut | KTemporaryBan | KOther.

Definition is_terminal (state : ConnectionState) : bool :=
  match state with LoggedOut | Banned => true | _ => false end.

Definition next_state (kind : LibKind) : option ConnectionState :=
  match kind with
  | KConnected | KPairSuccess => Some Connected
  | KDisconnected => Some Disconnected
  | KLoggedOut => Some LoggedOut
  | KTemporaryBan => Some Banned
  | KOther => None
  end.

(** [send_if_modified]: decided and written under one lock. *)
Definition update_state (kind : LibKind) (current : ConnectionState) : ConnectionState :=
  match next_state kind with
  | None => current
  | Some state =>
      if bool_decide (state = Disconnected) && is_terminal current then current else state
  end.
