(* ===== verification/EventStream.v ===== *)
(** * One subscription to an account's events (services/event_service.rs)

    The forwarder of a subscription runs next to the account's publisher: the receiver is taken
    before the ring is read, an envelope reaches the ring before it is broadcast, and the steps of
    the two interleave in any order.  What the broadcast channel (tokio) is used for is a relation:
    a receiver gets the envelopes sent after it was taken, in order, or is told how many it lost. *)

From S2P Require Import Prelude Events.

(** ** Gap markers *)

(** Rust's [{:?}] of a [ConnectionState]. *)
Definition debug_state (s : ConnectionState) : string :=
  match s with
  | Unspecified => "Unspecified" | Disconnected => "Disconnected" | Connecting => "Connecting"
  | Connected => "Connected" | LoggedOut => "LoggedOut" | Banned => "Banned"
  end.

Definition gap_envelope (account_uuid kind note : string) : EventEnvelope :=
  MkEnvelope account_uuid (-1) 0 (Some (Raw kind [] note)).

Definition gap_marker (account_uuid : string) (lagged : N) (state : ConnectionState) : EventEnvelope :=
  gap_envelope account_uuid "gap"
    ("dropped " +:+ pretty lagged +:+ " events; state=" +:+ debug_state state +:+ "; resync via GetAccountStatus").

Definition created_gap_marker (lagged : N) : EventEnvelope :=
  gap_envelope "" "subscription_gap"
    ("dropped " +:+ pretty lagged +:+ " account-created notifications; newly created accounts may be missing from this stream; re-subscribe or reconcile via ListAccounts").

Definition is_marker (e : EventEnvelope) : bool := monotonic_seq e =? -1.

(** ** The forwarder *)

(** Where [forward] stands: before [subscribe], before the snapshot, in the replay loop (what is
    left of it and [last_replayed]), in the live loop, or gone. *)
Inductive Phase : Type :=
| Waiting
| Attached (position : nat)
| Replaying (position : nat) (rest : list EventEnvelope) (last_replayed : Z)
| Live (position : nat) (last_replayed : Z)
| Ended.

Record Stream : Type := MkStream {
  ctx : EventCtx;
  pending : option EventEnvelope;  (* in the ring, not yet on the broadcast *)
  phase : Phase;
  out : list EventEnvelope;        (* what the subscriber was sent *)
  attached : nat;                  (* ghost: how many were broadcast when the receiver was taken *)
  seen : nat;                      (* ghost: how many were stamped when the ring was read *)
}.

Section stream.
Context (encoded_len : EventEnvelope -> Z).
Context (replay : nat).

Definition set_ctx (c : EventCtx) (p : option EventEnvelope) (s : Stream) : Stream :=
  MkStream c p (phase s) (out s) (attached s) (seen s).

Definition set_sub (p : Phase) (o : list EventEnvelope) (s : Stream) : Stream :=
  MkStream (ctx s) (pending s) p o (attached s) (seen s).

(** Every envelope stamped so far, in order. *)
Definition stamped (s : Stream) : list EventEnvelope := events_tx (ctx s) ++ option_list (pending s).

Inductive Step : Stream -> Stream -> Prop :=
(* The publisher's task. *)
| step_keep s now inner :
    pending s = None ->
    let envelope := stamp (ctx s) now inner in
    Step s (set_ctx (keep encoded_len envelope (ctx s)) (Some envelope) s)
| step_broadcast s envelope :
    pending s = Some envelope ->
    Step s (set_ctx (broadcast envelope (ctx s)) None s)
(* The forwarder's task. *)
| step_subscribe s :
    phase s = Waiting ->
    let position := length (events_tx (ctx s)) in
    Step s (MkStream (ctx s) (pending s) (Attached position) (out s) position position)
| step_live_only s position :
    phase s = Attached position -> replay = 0%nat ->
    Step s (set_sub (Live position (-1)) (out s) s)
| step_snapshot s position :
    phase s = Attached position -> replay <> 0%nat ->
    Step s (MkStream (ctx s) (pending s) (Replaying position (snapshot replay (ring (ctx s))) (-1)) (out s)
              (attached s) (length (stamped s)))
| step_replay s position envelope rest last_replayed :
    phase s = Replaying position (envelope :: rest) last_replayed ->
    Step s (set_sub (Replaying position rest (Z.max last_replayed (monotonic_seq envelope)))
              (out s ++ [envelope]) s)
| step_replayed s position last_replayed :
    phase s = Replaying position [] last_replayed ->
    Step s (set_sub (Live position last_replayed) (out s) s)
| step_recv s position last_replayed envelope :
    phase s = Live position last_replayed -> events_tx (ctx s) !! position = Some envelope ->
    Step s (set_sub (Live (S position) last_replayed)
              (if monotonic_seq envelope <=? last_replayed then out s else out s ++ [envelope]) s)
| step_lagged s position last_replayed lagged state :
    phase s = Live position last_replayed -> (0 < lagged)%N ->
    (position + N.to_nat lagged <= length (events_tx (ctx s)))%nat ->
    Step s (set_sub (Live (position + N.to_nat lagged) last_replayed)
              (out s ++ [gap_marker (uuid (ctx s)) lagged state]) s)
(* The client hung up or the daemon is shutting down. *)
| step_ended s : Step s (set_sub Ended (out s) s).

Definition start (uuid : string) (ring_capacity : nat) (max_bytes : Z) : Stream :=
  MkStream (new_ctx uuid ring_capacity max_bytes) None Waiting [] 0 0.

(** Any interleaving from an account's start. *)
Definition reachable (uuid : string) (ring_capacity : nat) (max_bytes : Z) (s : Stream) : Prop :=
  rtc Step (start uuid ring_capacity max_bytes) s.

(** The envelopes a subscriber was sent, markers apart. *)
Definition delivered (s : Stream) : list EventEnvelope := filter (fun e => is_marker e = false) (out s).

Definition keeps (max_bytes : Z) (e : EventEnvelope) : Prop := replayable encoded_len e max_bytes = true.

#[global] Instance keeps_dec max_bytes e : Decision (keeps max_bytes e).
Proof. unfold keeps. apply _. Defined.
End stream.

(** The last [n] of a list. *)
Definition last_n {A} (n : nat) (l : list A) : list A := drop (length l - n) l.
