(* ===== verification/EventStreamProps.v ===== *)
(** * The ring and the publisher: what the ring holds, in which order, and what an account's events
    and a subscription to them promise *)

From stdpp Require Import sorting.
From S2P Require Import Prelude Refinement Events EventStream.

(** ** The last [n] of a list *)

Section last_n.
Context {A : Type}.
Implicit Types (l : list A).

Lemma last_n_all n l : (length l <= n)%nat -> last_n n l = l.
Proof. intros Hn. unfold last_n. replace (length l - n)%nat with 0%nat by lia. done. Qed.

Lemma length_last_n n l : length (last_n n l) = Nat.min n (length l).
Proof. unfold last_n. rewrite length_drop. lia. Qed.

(** Appending to the last [S n] keeps the last [S n] of the whole. *)
Lemma last_n_snoc n l x : last_n (S n) (l ++ [x]) = last_n n l ++ [x].
Proof.
  unfold last_n. rewrite length_app. cbn.
  replace (length l + 1 - S n)%nat with (length l - n)%nat by lia.
  rewrite drop_app. replace (length l - n - length l)%nat with 0%nat by lia. done.
Qed.

Lemma last_n_last_n n m l : last_n n (last_n m l) = last_n (Nat.min n m) l.
Proof. unfold last_n. rewrite drop_drop, length_drop. f_equal. lia. Qed.

Lemma last_n_suffix n l : last_n n l `suffix_of` l.
Proof. exists (take (length l - n) l). symmetry. apply take_drop. Qed.

Lemma elem_of_last_n n l x : x ∈ last_n n l -> x ∈ l.
Proof. intros Hx. rewrite <-(take_drop (length l - n) l). apply elem_of_app. by right. Qed.
End last_n.

(** ** The ring *)

Lemma make_room_last_n capacity q : (0 < capacity)%nat -> make_room capacity q = last_n (Nat.pred capacity) q.
Proof.
  intros Hc. induction q as [|e q IH]; [by destruct (Nat.pred capacity)|].
  cbn [make_room]. destruct (Nat.leb_spec capacity (length (e :: q))) as [Hle|Hlt].
  - rewrite IH. unfold last_n. cbn [length] in *.
    replace (S (length q) - Nat.pred capacity)%nat with (S (length q - Nat.pred capacity)) by lia. done.
  - rewrite last_n_all by (cbn in *; lia). done.
Qed.

Lemma push_last_n history e ring :
  queue ring = last_n (capacity ring) history ->
  queue (push e ring) = last_n (capacity ring) (history ++ [e]) /\ capacity (push e ring) = capacity ring.
Proof.
  intros Hq. unfold push. destruct (capacity ring) as [|n] eqn:Ec; cbn [Nat.eqb].
  - rewrite Ec, Hq. split; [|done]. unfold last_n. rewrite !Nat.sub_0_r, !drop_all. done.
  - cbn. split; [|done]. rewrite make_room_last_n by lia. cbn. rewrite Hq, last_n_snoc, last_n_last_n.
    by replace (Nat.min n (S n)) with n by lia.
Qed.

Lemma snapshot_last_n n ring : snapshot n ring = last_n n (queue ring).
Proof. unfold snapshot, last_n. f_equal. lia. Qed.

(** ** The publisher's invariant

    [log] is every envelope stamped so far: numbered from 0, and the ring holds the last of those
    that belong in it. *)

Section publisher.
Context (encoded_len : EventEnvelope -> Z) (u : string) (cap : nat) (max_bytes : Z).

Definition numbered (log : list EventEnvelope) : Prop :=
  forall i e, log !! i = Some e -> monotonic_seq e = as_i64 (Z.of_nat i) /\ account_uuid e = u.

Definition publisher_ok (log : list EventEnvelope) (c : EventCtx) : Prop :=
  uuid c = u /\ numbered log /\ seq c = as_i64 (Z.of_nat (length log)) /\
  replay_max_event_bytes c = max_bytes /\ capacity (ring c) = cap /\
  queue (ring c) = last_n cap (filter (keeps encoded_len max_bytes) log).

Lemma new_publisher_ok : publisher_ok [] (new_ctx u cap max_bytes).
Proof. split_and!; try done. Qed.

Lemma as_i64_succ z : as_i64 (as_i64 z + 1) = as_i64 (z + 1).
Proof.
  unfold as_i64. replace ((z + 2 ^ 63) mod 2 ^ 64 - 2 ^ 63 + 1 + 2 ^ 63) with ((z + 2 ^ 63) mod 2 ^ 64 + 1) by lia.
  rewrite Z.add_mod_idemp_l by lia. by replace (z + 2 ^ 63 + 1) with (z + 1 + 2 ^ 63) by lia.
Qed.

Lemma keep_ok log c now inner :
  publisher_ok log c -> let e := stamp c now inner in
  publisher_ok (log ++ [e]) (keep encoded_len e c).
Proof.
  intros (Hu & Hnum & Hseq & Hmax & Hcap & Hq) e. split_and!; cbn -[replayable].
  - done.
  - intros i e' [Hi|[Hi He]]%lookup_app_Some; [by apply Hnum|].
    apply list_lookup_singleton_Some in He as [Hi' <-]. cbn. rewrite Hseq, Hu. split; [|done]. do 2 f_equal. lia.
  - rewrite Hseq, as_i64_succ, length_app. cbn. f_equal. lia.
  - done.
  - rewrite Hmax. destruct (replayable encoded_len e max_bytes); [|done]. rewrite <-Hcap in Hq. by destruct (push_last_n _ e (ring c) Hq) as [_ ->].
  - rewrite Hmax, filter_app. rewrite <-Hcap in Hq |- *.
    destruct (replayable encoded_len e max_bytes) eqn:Er.
    + rewrite (filter_cons_True (keeps encoded_len max_bytes) e []) by done.
      by destruct (push_last_n _ e (ring c) Hq) as [-> _].
    + rewrite (filter_cons_False (keeps encoded_len max_bytes) e []) by (unfold keeps; by rewrite Er).
      by rewrite app_nil_r.
Qed.

Lemma broadcast_ok log c e : publisher_ok log c -> publisher_ok log (broadcast e c).
Proof. done. Qed.

Lemma publish_ok c now w : publisher_ok (events_tx c) c ->
  publisher_ok (events_tx (publish_wire_event encoded_len c now w)) (publish_wire_event encoded_len c now w).
Proof. intros H. by apply broadcast_ok, keep_ok. Qed.

Lemma dispatch_ok c l : publisher_ok (events_tx c) c ->
  publisher_ok (events_tx (dispatch encoded_len c l)) (dispatch encoded_len c l).
Proof. revert c. induction l as [|x l IH]; intros c H; cbn; [done|]. by apply IH, publish_ok. Qed.
End publisher.

(** ** Envelopes in order: the logs, windows and maxima a subscription is about *)

(** ** Envelopes in order *)

Definition before (x y : EventEnvelope) : Prop := monotonic_seq x < monotonic_seq y.

Lemma sorted_filter (P : EventEnvelope -> Prop) `{!forall x, Decision (P x)} l :
  StronglySorted before l -> StronglySorted before (filter P l).
Proof.
  induction 1 as [|x l _ IH Hx]; [constructor|]. destruct (decide (P x)) as [HP|HP].
  - rewrite filter_cons_True by done. constructor; [done|]. apply Forall_forall. intros y Hy.
    apply list_elem_of_filter in Hy as [_ Hy]. by apply (proj1 (Forall_forall _ _) Hx).
  - by rewrite filter_cons_False.
Qed.

Lemma sorted_snoc l x :
  StronglySorted before l -> (forall y, y ∈ l -> before y x) -> StronglySorted before (l ++ [x]).
Proof.
  induction 1 as [|y l Hl IH Hy]; intros Hx; cbn; [by repeat constructor|].
  constructor; [apply IH; intros z Hz; apply Hx; by right|].
  apply Forall_app. split; [done|]. constructor; [|done]. apply Hx. by left.
Qed.

Lemma sorted_drop n l : StronglySorted before l -> StronglySorted before (drop n l).
Proof. rewrite <-(take_drop n l) at 1. apply StronglySorted_app_1_r. Qed.

Lemma sorted_take n l : StronglySorted before l -> StronglySorted before (take n l).
Proof. rewrite <-(take_drop n l) at 1. apply StronglySorted_app_1_l. Qed.

(** An account's log is in order as long as the sequence did not wrap. *)
Lemma numbered_seq u log i e :
  numbered u log -> Z.of_nat (length log) < 2 ^ 63 -> log !! i = Some e -> monotonic_seq e = Z.of_nat i.
Proof.
  intros Hn Hlen Hi. destruct (Hn i e Hi) as [-> _]. apply lookup_lt_Some in Hi.
  unfold as_i64. rewrite Z.mod_small; lia.
Qed.

Lemma numbered_prefix u log log' : numbered u (log ++ log') -> numbered u log.
Proof. intros Hn i e Hi. apply Hn. by apply lookup_app_l_Some. Qed.

Lemma numbered_sorted u log :
  numbered u log -> Z.of_nat (length log) < 2 ^ 63 -> StronglySorted before log.
Proof.
  induction log as [|e log IH] using rev_ind; intros Hn Hlen; [constructor|].
  assert (Hlen' : Z.of_nat (length log) < 2 ^ 63) by (rewrite length_app in Hlen; cbn in Hlen; lia).
  apply sorted_snoc; [by apply IH; [eapply numbered_prefix|]|].
  intros y (i & Hi)%list_elem_of_lookup. unfold before.
  rewrite (numbered_seq u _ _ y (numbered_prefix _ _ _ Hn) Hlen' Hi).
  rewrite (numbered_seq u (log ++ [e]) (length log) e Hn Hlen).
  - apply lookup_lt_Some in Hi. lia.
  - by rewrite lookup_app_r, Nat.sub_diag.
Qed.

(** ** The highest sequence of a replay *)

Definition highest (l : list EventEnvelope) : Z := foldl (fun m e => Z.max m (monotonic_seq e)) (-1) l.

Lemma highest_snoc l e : highest (l ++ [e]) = Z.max (highest l) (monotonic_seq e).
Proof. unfold highest. by rewrite foldl_app. Qed.

Lemma highest_ge l e : e ∈ l -> monotonic_seq e <= highest l.
Proof.
  induction l as [|x l IH] using rev_ind; [by intros ?%not_elem_of_nil|].
  rewrite highest_snoc. intros [Hl|E]%elem_of_app; [specialize (IH Hl); lia|].
  apply list_elem_of_singleton in E as ->. lia.
Qed.

Lemma highest_lt l n : -1 < n -> (forall e, e ∈ l -> monotonic_seq e < n) -> highest l < n.
Proof.
  intros Hn. induction l as [|x l IH] using rev_ind; intros Hl; [done|].
  rewrite highest_snoc. apply Z.max_lub_lt; [apply IH; intros e He; apply Hl, elem_of_app; by left|].
  apply Hl, elem_of_app. by right; left.
Qed.

(** ** The last [n], and the window that an overlap stays within *)

Lemma elem_of_last_n_app {A} n (l k : list A) x : (length k <= n)%nat -> x ∈ k -> x ∈ last_n n (l ++ k).
Proof.
  intros Hn Hx. unfold last_n. rewrite length_app, drop_app.
  replace (length l + length k - n - length l)%nat with 0%nat by lia. apply elem_of_app. by right.
Qed.

Lemma elem_of_window (P : EventEnvelope -> Prop) `{!forall x, Decision (P x)} n a log x i :
  (length log - a <= n)%nat -> Forall P (drop a log) -> (a <= i)%nat -> log !! i = Some x ->
  x ∈ last_n n (filter P log).
Proof.
  intros Hn HP Ha Hi. rewrite <-(take_drop a log), filter_app.
  assert (E : filter P (drop a log) = drop a log).
  { apply filter_all. intros y Hy. by apply (proj1 (Forall_forall _ _) HP). }
  rewrite E. apply elem_of_last_n_app; [by rewrite length_drop|].
  apply list_elem_of_lookup. exists (i - a)%nat. rewrite lookup_drop. by replace (a + (i - a))%nat with i by lia.
Qed.

(** ** Properties *)

Section invariant.
Context (encoded_len : EventEnvelope -> Z) (replay : nat) (u : string) (cap : nat) (max_bytes : Z).
Implicit Types (s : Stream).

Definition small s : Prop := Z.of_nat (length (stamped s)) < 2 ^ 63.

(** What the ring answered to the snapshot. *)
Definition window s : list EventEnvelope :=
  last_n (Nat.min replay cap) (filter (keeps encoded_len max_bytes) (take (seen s) (stamped s))).

(** What was replayed when the live loop began: nothing of a live-only subscription. *)
Definition replayed s : list EventEnvelope := if (replay =? 0)%nat then [] else window s.

Definition unmarked (l : list EventEnvelope) : Prop := Forall (fun e => is_marker e = false) l.

(** The live envelopes up to [position] that the replay did not cover. *)
Definition relayed s (position : nat) (last_replayed : Z) : list EventEnvelope :=
  filter (fun e => last_replayed < monotonic_seq e) (drop (attached s) (take position (events_tx (ctx s)))).

Definition in_order s : Prop :=
  StronglySorted before (delivered s) /\ forall e, e ∈ delivered s -> e ∈ stamped s.

(** The receiver's place, and what it passed is behind it. *)
Definition placed s (position : nat) (last_replayed : Z) : Prop :=
  (attached s <= position <= length (events_tx (ctx s)))%nat /\
  last_replayed = highest (replayed s) /\
  forall e, e ∈ delivered s -> monotonic_seq e <= last_replayed \/ monotonic_seq e < Z.of_nat position.

Definition phase_ok s : Prop :=
  match phase s with
  | Waiting => out s = []
  | Attached position => out s = [] /\ position = attached s /\ (position <= length (events_tx (ctx s)))%nat
  | Replaying position rest last_replayed =>
      out s ++ rest = window s /\ position = attached s /\ (position <= length (events_tx (ctx s)))%nat /\
      last_replayed = highest (out s) /\ replay <> 0%nat
  | Live position last_replayed =>
      placed s position last_replayed /\
      (exists live, out s = replayed s ++ live) /\
      (unmarked (out s) -> out s = replayed s ++ relayed s position last_replayed)
  | Ended => True
  end.

Definition stream_ok s : Prop :=
  publisher_ok encoded_len u cap max_bytes (stamped s) (ctx s) /\ (seen s <= length (stamped s))%nat /\
  (small s -> in_order s /\ phase_ok s).

Lemma window_sorted s : publisher_ok encoded_len u cap max_bytes (stamped s) (ctx s) -> small s ->
  StronglySorted before (window s).
Proof using Type.
  intros (_ & Hn & _) Hs. unfold window, last_n. apply sorted_drop, sorted_filter, sorted_take.
  by apply (numbered_sorted u).
Qed.

Lemma elem_of_window_stamped s e : e ∈ window s -> e ∈ stamped s.
Proof using Type.
  intros He%elem_of_last_n. apply list_elem_of_filter in He as [_ He].
  rewrite <-(take_drop (seen s) (stamped s)). apply elem_of_app. by left.
Qed.

Lemma stamped_seq s e i :
  publisher_ok encoded_len u cap max_bytes (stamped s) (ctx s) -> small s ->
  stamped s !! i = Some e -> monotonic_seq e = Z.of_nat i /\ is_marker e = false.
Proof using Type.
  intros (_ & Hn & _) Hs Hi. pose proof (numbered_seq u _ _ _ Hn Hs Hi) as E. split; [done|].
  unfold is_marker. rewrite E. apply Z.eqb_neq. lia.
Qed.

Lemma stamped_unmarked s l :
  publisher_ok encoded_len u cap max_bytes (stamped s) (ctx s) -> small s ->
  (forall e, e ∈ l -> e ∈ stamped s) -> unmarked l.
Proof using Type.
  intros Hp Hs Hl. apply Forall_forall. intros e He. apply Hl, list_elem_of_lookup in He as (i & Hi).
  by apply (stamped_seq s e i).
Qed.

Lemma delivered_unmarked l s : unmarked l -> out s = l -> delivered s = l.
Proof using Type.
  intros Hl E. unfold delivered. rewrite E. apply filter_all. intros x Hx. by apply (proj1 (Forall_forall _ _) Hl).
Qed.

(** ** The publisher's steps: the log grows, the subscriber sees nothing of it *)

Lemma take_seen_app (l k : list EventEnvelope) n : (n <= length l)%nat -> take n (l ++ k) = take n l.
Proof using Type. intros Hn. by rewrite take_app_le. Qed.

(** A subscriber's facts survive a longer log. *)
Lemma phase_grows s c p more :
  stamped (set_ctx c p s) = stamped s ++ more ->
  (exists sent, events_tx c = events_tx (ctx s) ++ sent) -> (seen s <= length (stamped s))%nat ->
  phase_ok s -> phase_ok (set_ctx c p s).
Proof using Type.
  intros Est [sent Esent] Hle. set (s' := set_ctx c p s) in *.
  assert (Ew : window s' = window s) by (unfold window; cbn [seen s' set_ctx]; by rewrite Est, take_seen_app).
  assert (Er : replayed s' = replayed s) by (unfold replayed; by rewrite Ew).
  assert (Hlen : forall n, (n <= length (events_tx (ctx s)))%nat -> (n <= length (events_tx (ctx s')))%nat).
  { intros n Hn. cbn [ctx s' set_ctx]. rewrite Esent, length_app. lia. }
  unfold phase_ok, placed, delivered. change (phase s') with (phase s). change (out s') with (out s).
  change (attached s') with (attached s). rewrite Ew, Er.
  destruct (phase s) as [|position|position rest lst|position lst|]; [done| | | |done].
  - intros (Ho & Ea & Hp). auto.
  - intros (Ho & Ea & Hp & Hl & Hr). split_and!; auto.
  - intros (((Ha & Hp) & Hl & Hb) & Hx & Hu). split_and!; auto.
    intros Hun. rewrite (Hu Hun) at 1. f_equal. unfold relayed. cbn [ctx s' set_ctx attached].
    by rewrite Esent, take_seen_app.
Qed.

Lemma stream_grows s c p more :
  stamped (set_ctx c p s) = stamped s ++ more ->
  (exists sent, events_tx c = events_tx (ctx s) ++ sent) ->
  publisher_ok encoded_len u cap max_bytes (stamped (set_ctx c p s)) c ->
  stream_ok s -> stream_ok (set_ctx c p s).
Proof using Type.
  intros Est Esent Hp (_ & Hle & Hok). split_and!; [done|rewrite Est, length_app; cbn; lia|]. intros Hs.
  destruct Hok as [[Hso Hin] Hph].
  { unfold small in *. rewrite Est, length_app in Hs. lia. }
  split; [split|by eapply phase_grows].
  - done.
  - intros e He. rewrite Est. apply elem_of_app. left. by apply Hin.
Qed.

(** ** The subscriber's steps: the log stands still *)

(** The subscriber's part of the state alone changes. *)
Definition same_log s s' : Prop := ctx s' = ctx s /\ pending s' = pending s.

Lemma same_log_stamped s s' : same_log s s' -> stamped s' = stamped s.
Proof using Type. intros [E1 E2]. unfold stamped. by rewrite E1, E2. Qed.

Lemma stream_moves s s' :
  same_log s s' -> (seen s' = seen s \/ (seen s' <= length (stamped s))%nat) -> stream_ok s ->
  (publisher_ok encoded_len u cap max_bytes (stamped s) (ctx s) -> small s -> in_order s -> phase_ok s ->
     in_order s' /\ phase_ok s') ->
  stream_ok s'.
Proof using Type.
  intros Hsame Hseen (Hp & Hle & Hok) Hmove. pose proof (same_log_stamped s s' Hsame) as E. split_and!.
  - rewrite E. by destruct Hsame as [-> _].
  - rewrite E. lia.
  - intros Hs. assert (Hs0 : small s) by (unfold small in *; by rewrite <-E). destruct (Hok Hs0). auto.
Qed.

Lemma in_order_same s s' : same_log s s' -> out s' = out s -> in_order s -> in_order s'.
Proof using Type.
  intros Hsame Eo. unfold in_order, delivered. by rewrite Eo, (same_log_stamped s s').
Qed.

(** One more envelope that is not a marker, later than all that was delivered. *)
Lemma in_order_snoc s s' e :
  same_log s s' -> out s' = out s ++ [e] -> is_marker e = false -> e ∈ stamped s ->
  (forall x, x ∈ delivered s -> before x e) -> in_order s -> in_order s'.
Proof using Type.
  intros Hsame Eo Hm He Hlast [Hso Hin]. unfold in_order, delivered in *.
  rewrite Eo, (same_log_stamped s s' Hsame), filter_app.
  rewrite (filter_cons_True (fun e => is_marker e = false) e []) by done. split; [by apply sorted_snoc|].
  intros x [Hx|Hx%list_elem_of_singleton]%elem_of_app; [by apply Hin|by subst].
Qed.

Lemma delivered_marker s s' e :
  out s' = out s ++ [e] -> is_marker e = true -> delivered s' = delivered s.
Proof using Type.
  intros Eo Hm. unfold delivered. rewrite Eo, filter_app.
  rewrite (filter_cons_False (fun e => is_marker e = false) e []) by (by rewrite Hm). by rewrite app_nil_r.
Qed.

Lemma attach_ok s position :
  phase s = Waiting -> position = length (events_tx (ctx s)) -> stream_ok s ->
  stream_ok (MkStream (ctx s) (pending s) (Attached position) (out s) position position).
Proof using Type.
  intros Hph -> Hok. apply (stream_moves s); [by split|right; cbn; unfold stamped; rewrite length_app; lia|done|].
  intros _ _ Hio Hp. split; [by apply (in_order_same s)|].
  unfold phase_ok in Hp. rewrite Hph in Hp. cbn. by split_and!.
Qed.

Lemma relayed_start s lst : relayed s (attached s) lst = [].
Proof using Type. unfold relayed. by rewrite drop_ge by (rewrite length_take; lia). Qed.

Lemma live_only_ok s position :
  phase s = Attached position -> replay = 0%nat -> stream_ok s -> stream_ok (set_sub (Live position (-1)) (out s) s).
Proof using Type.
  intros Hph Hz Hok. apply (stream_moves s); [by split|by left|done|]. intros _ _ Hio Hp.
  unfold phase_ok in Hp. rewrite Hph in Hp. destruct Hp as (Ho & -> & Hle).
  split; [by apply (in_order_same s)|]. cbn. unfold placed, replayed. rewrite Hz. cbn. split_and!; try done.
  - unfold delivered. cbn. rewrite Ho. by intros e ?%not_elem_of_nil.
  - rewrite Ho. by exists [].
  - intros _. rewrite Ho. symmetry. apply (relayed_start (set_sub (Live (attached s) (-1)) (out s) s)).
Qed.

Lemma snapshot_window s s' :
  same_log s s' -> seen s' = length (stamped s) -> publisher_ok encoded_len u cap max_bytes (stamped s) (ctx s) ->
  snapshot replay (ring (ctx s)) = window s'.
Proof using Type.
  intros Hsame Hseen (_ & _ & _ & _ & _ & Hq). unfold window.
  rewrite snapshot_last_n, Hq, last_n_last_n, Hseen, (same_log_stamped s s' Hsame). do 2 f_equal.
  symmetry. by apply take_ge.
Qed.

Lemma snapshot_ok s position :
  phase s = Attached position -> replay <> 0%nat -> stream_ok s ->
  stream_ok (MkStream (ctx s) (pending s) (Replaying position (snapshot replay (ring (ctx s))) (-1)) (out s)
               (attached s) (length (stamped s))).
Proof using Type.
  intros Hph Hr Hok. apply (stream_moves s); [by split|by right|done|].
  intros Hpub _ Hio Hp. unfold phase_ok in Hp. rewrite Hph in Hp. destruct Hp as (Ho & -> & Hle).
  split; [by apply (in_order_same s)|]. unfold phase_ok. cbn [phase out]. rewrite Ho. split_and!; try done.
  by apply (snapshot_window s).
Qed.

Lemma replay_ok s position e rest lst :
  phase s = Replaying position (e :: rest) lst -> stream_ok s ->
  stream_ok (set_sub (Replaying position rest (Z.max lst (monotonic_seq e))) (out s ++ [e]) s).
Proof using Type.
  intros Hph Hok. apply (stream_moves s); [by split|by left|done|]. intros Hpub Hs Hio Hp.
  unfold phase_ok in Hp. rewrite Hph in Hp. destruct Hp as (Ho & -> & Hle & -> & Hr).
  pose proof (window_sorted s Hpub Hs) as Hso. rewrite <-Ho in Hso.
  assert (Hin : forall x, x ∈ out s ++ e :: rest -> x ∈ stamped s) by (intros x; rewrite Ho; apply elem_of_window_stamped).
  assert (He : e ∈ stamped s) by (apply Hin, elem_of_app; right; left). split.
  - apply (in_order_snoc s _ e); [by split|done| |done| |done].
    + pose proof (stamped_unmarked s [e] Hpub Hs) as Hu.
      assert (unmarked [e]) as [? _]%Forall_cons by (apply Hu; by intros x ->%list_elem_of_singleton). done.
    + intros x Hx. apply list_elem_of_filter in Hx as [_ Hx].
      apply (StronglySorted_app_1_elem_of before (out s) (e :: rest)); [done|done|by left].
  - unfold phase_ok. cbn [phase out set_sub]. split_and!; try done; [|by rewrite highest_snoc].
    rewrite <-app_assoc. exact Ho.
Qed.

Lemma replayed_ok s position lst :
  phase s = Replaying position [] lst -> stream_ok s -> stream_ok (set_sub (Live position lst) (out s) s).
Proof using Type.
  intros Hph Hok. apply (stream_moves s); [by split|by left|done|]. intros Hpub Hs Hio Hp.
  unfold phase_ok in Hp. rewrite Hph in Hp. destruct Hp as (Ho & -> & Hle & -> & Hr).
  rewrite app_nil_r in Ho.
  assert (Er : replayed s = out s) by (unfold replayed; by destruct (Nat.eqb_spec replay 0)).
  split; [by apply (in_order_same s)|]. unfold phase_ok, placed. cbn [phase out set_sub attached].
  change (replayed (set_sub (Live (attached s) (highest (out s))) (out s) s)) with (replayed s). rewrite Er.
  split_and!; try done.
  - intros e He. left. apply highest_ge. by apply list_elem_of_filter in He as [_ He].
  - exists []. by rewrite app_nil_r.
  - intros _. pose proof (relayed_start (set_sub (Live (attached s) (highest (out s))) (out s) s) (highest (out s))) as E.
    cbn [attached set_sub] in E. by rewrite E, app_nil_r.
Qed.

Lemma sent_stamped s i e : events_tx (ctx s) !! i = Some e -> stamped s !! i = Some e.
Proof using Type. apply lookup_app_l_Some. Qed.

Lemma relayed_snoc s position lst e :
  (attached s <= position)%nat -> events_tx (ctx s) !! position = Some e ->
  relayed s (S position) lst =
    relayed s position lst ++ (if monotonic_seq e <=? lst then [] else [e]).
Proof using Type.
  intros Ha He. unfold relayed. pose proof (lookup_lt_Some _ _ _ He) as Hlt.
  rewrite (take_S_r _ _ _ He), drop_app_le by (rewrite length_take; lia). rewrite filter_app. f_equal.
  destruct (Z.leb_spec (monotonic_seq e) lst) as [Hle|Hgt].
  - apply (filter_cons_False (fun e => lst < monotonic_seq e) e []). lia.
  - by apply (filter_cons_True (fun e => lst < monotonic_seq e) e []).
Qed.

Lemma recv_ok s position lst e :
  phase s = Live position lst -> events_tx (ctx s) !! position = Some e -> stream_ok s ->
  stream_ok (set_sub (Live (S position) lst) (if monotonic_seq e <=? lst then out s else out s ++ [e]) s).
Proof using Type.
  intros Hph He Hok. set (s' := set_sub _ _ s). apply (stream_moves s); [by split|by left|done|].
  intros Hpub Hs Hio Hp. unfold phase_ok in Hp. rewrite Hph in Hp.
  destruct Hp as (((Ha & Hle) & Hl & Hb) & (live & Hx) & Hu).
  destruct (stamped_seq s e position Hpub Hs (sent_stamped _ _ _ He)) as [Eseq Hm].
  pose proof (lookup_lt_Some _ _ _ He) as Hlt.
  assert (Hrel : relayed s' (S position) lst = relayed s position lst ++ (if monotonic_seq e <=? lst then [] else [e]))
    by by apply (relayed_snoc s).
  unfold phase_ok. change (phase s') with (Live (S position) lst). cbn beta iota. rewrite Hrel. unfold placed.
  change (replayed s') with (replayed s). change (attached s') with (attached s).
  change (ctx s') with (ctx s).
  destruct (Z.leb_spec (monotonic_seq e) lst) as [Hskip|Hnew].
  - change (out s') with (out s). change (delivered s') with (delivered s). rewrite app_nil_r.
    split; [by apply (in_order_same s)|]. split_and!; [lia|lia|done| |by exists live|done].
    intros x Hx'. destruct (Hb x Hx'); [by left|right; lia].
  - assert (Hio' : in_order s').
    { apply (in_order_snoc s _ e); [by split|done|done| |intros x Hx'|done].
      - eapply list_elem_of_lookup_2. by apply sent_stamped.
      - unfold before. destruct (Hb x Hx'); lia. }
    split; [done|]. change (out s') with (out s ++ [e]). split_and!; [lia|lia|done| | |].
    + intros x Hx'. unfold delivered in Hx'. change (out s') with (out s ++ [e]) in Hx'.
      rewrite filter_app in Hx'. apply elem_of_app in Hx' as [Hx'|Hx'].
      * destruct (Hb x Hx'); [by left|right; lia].
      * apply list_elem_of_filter in Hx' as [_ ->%list_elem_of_singleton]. right. lia.
    + exists (live ++ [e]). by rewrite Hx, app_assoc.
    + intros [Hun _]%Forall_app. by rewrite app_assoc, <-(Hu Hun).
Qed.

Lemma lagged_ok s position lst lagged state :
  phase s = Live position lst -> (position + N.to_nat lagged <= length (events_tx (ctx s)))%nat -> stream_ok s ->
  stream_ok (set_sub (Live (position + N.to_nat lagged) lst) (out s ++ [gap_marker (uuid (ctx s)) lagged state]) s).
Proof using Type.
  intros Hph Hlag Hok. set (s' := set_sub _ _ s). apply (stream_moves s); [by split|by left|done|].
  intros Hpub Hs Hio Hp. unfold phase_ok in Hp. rewrite Hph in Hp.
  destruct Hp as (((Ha & Hle) & Hl & Hb) & (live & Hx) & Hu).
  assert (Ed : delivered s' = delivered s) by (by eapply delivered_marker).
  split.
  - destruct Hio as [Hso Hin]. unfold in_order. by rewrite Ed.
  - unfold phase_ok. change (phase s') with (Live (position + N.to_nat lagged) lst). cbn beta iota. unfold placed.
    rewrite Ed. change (replayed s') with (replayed s). change (attached s') with (attached s).
    change (ctx s') with (ctx s). split_and!; [lia|done|done| | |].
    + intros e He. destruct (Hb e He); [by left|right; lia].
    + eexists. change (out s') with (out s ++ [gap_marker (uuid (ctx s)) lagged state]). by rewrite Hx, <-app_assoc.
    + intros [_ [Hm _]%Forall_cons]%Forall_app. done.
Qed.

Lemma step_ok s s' : Step encoded_len replay s s' -> stream_ok s -> stream_ok s'.
Proof using Type.
  intros Hstep Hok. destruct Hstep as [s now inner Hpend e|s e Hpend|s Hph|s position Hph Hr|s position Hph Hr|
    s position e rest lst Hph|s position lst Hph|s position lst e Hph He|s position lst lagged state Hph Hpos Hlag|s].
  - apply (stream_grows s _ _ [e]); [|by exists []; rewrite app_nil_r| |done].
    + unfold stamped. rewrite Hpend. cbn. by rewrite app_nil_r.
    + replace (stamped _) with (stamped s ++ [e]); [by apply keep_ok; apply Hok|].
      unfold stamped. rewrite Hpend. cbn. by rewrite app_nil_r.
  - assert (E : stamped (set_ctx (broadcast e (ctx s)) None s) = stamped s).
    { unfold stamped. rewrite Hpend. cbn. by rewrite app_nil_r. }
    apply (stream_grows s _ _ []); [by rewrite E, app_nil_r|by exists [e]| |done].
    rewrite E. apply broadcast_ok, Hok.
  - by apply attach_ok.
  - by apply live_only_ok.
  - by apply snapshot_ok.
  - by apply replay_ok.
  - by apply replayed_ok.
  - by apply recv_ok.
  - by apply lagged_ok.
  - apply (stream_moves s); [by split|by left|done|]. intros _ _ Hio _. split; [by apply (in_order_same s)|done].
Qed.

Lemma start_ok : stream_ok (start u cap max_bytes).
Proof using Type.
  split_and!; [apply new_publisher_ok|done|]. intros _. split; [|done]. split; [constructor|].
  by intros e ?%not_elem_of_nil.
Qed.

Lemma reachable_ok s : reachable encoded_len replay u cap max_bytes s -> stream_ok s.
Proof using Type.
  intros Hr. unfold reachable in Hr. remember (start u cap max_bytes) as s0 eqn:E.
  assert (H0 : stream_ok s0) by (rewrite E; apply start_ok). clear E.
  induction Hr as [|s0 s1 s Hstep _ IH]; [done|]. apply IH. by eapply step_ok.
Qed.
End invariant.

(** ** Properties *)

(** ** The publisher *)

Section drain.
Context (encoded_len : EventEnvelope -> Z) {Event : Type} (map_event : Event -> option (list WireEvent)).

(** What a job publishes, and the caller it answers. *)
Definition job_events (job : Job (Event := Event)) : list WireEvent :=
  match job with Lib e => default [] (map_event e) | Wire w _ => [w] end.

Definition job_caller (job : Job (Event := Event)) : option nat :=
  match job with Lib _ => None | Wire _ caller => Some caller end.

Lemma dispatch_events c l :
  event <$> events_tx (dispatch encoded_len c l) = (event <$> events_tx c) ++ (Some <$> l.*2).
Proof using Type.
  unfold dispatch. revert c. induction l as [|[now w] l IH]; intros c; cbn; [by rewrite app_nil_r|].
  rewrite IH. cbn. by rewrite fmap_app, <-app_assoc.
Qed.

Lemma run_job_events now c job :
  let '(c', answered) := run_job encoded_len map_event now c job in
  (event <$> events_tx c' = (event <$> events_tx c) ++ (Some <$> job_events job)) /\
  answered = option_list (job_caller job).
Proof using Type.
  destruct job as [e|w caller]; cbn.
  - destruct (map_event e) as [l|]; cbn; [|by rewrite app_nil_r]. rewrite dispatch_events. split; [|done].
    do 2 f_equal. apply list_eq. intros i. rewrite list_lookup_fmap, list_lookup_imap. by destruct (l !! i).
  - by rewrite fmap_app.
Qed.

Lemma run_job_ok u cap max_bytes now c job :
  publisher_ok encoded_len u cap max_bytes (events_tx c) c ->
  let c' := (run_job encoded_len map_event now c job).1 in
  publisher_ok encoded_len u cap max_bytes (events_tx c') c'.
Proof using Type.
  intros H. destruct job as [e|w caller]; cbn; [|by apply publish_ok].
  destruct (map_event e); cbn; [by apply dispatch_ok|done].
Qed.

Lemma drain_ok u cap max_bytes now c jobs :
  publisher_ok encoded_len u cap max_bytes (events_tx c) c ->
  let '(c', answered) := drain encoded_len map_event now c jobs in
  publisher_ok encoded_len u cap max_bytes (events_tx c') c' /\
  event <$> events_tx c' = (event <$> events_tx c) ++ (Some <$> (jobs ≫= job_events)) /\
  answered = omap job_caller jobs.
Proof using Type.
  revert c. induction jobs as [|job jobs IH]; intros c H; cbn; [by rewrite app_nil_r|].
  pose proof (run_job_events (now (length jobs)) c job) as He.
  pose proof (run_job_ok u cap max_bytes (now (length jobs)) c job H) as Hok.
  destruct (run_job encoded_len map_event (now (length jobs)) c job) as [c1 answered]. cbn [fst] in Hok.
  destruct He as [He ->]. specialize (IH c1 Hok).
  destruct (drain encoded_len map_event now c1 jobs) as [c2 later].
  destruct IH as (Hp & He2 & ->). split_and!; [done| |by destruct (job_caller job)].
  by rewrite He2, He, fmap_app, app_assoc.
Qed.
End drain.

(** C14.  The publisher of an account, whatever jobs it drains and whatever the mapping of the
    library's events answers: every wire event of every job is broadcast, in the order of the jobs
    (a mapping that panics costs its own event only), every caller of [publish_wire] is answered,
    the sequence numbers the envelopes from 0, and the ring is exactly the last [capacity] of the
    envelopes that belong in it: the [while] loop that makes room is that reference definition. *)
Theorem publisher_drains {Event} encoded_len (map_event : Event -> option (list WireEvent)) u cap max_bytes now jobs n :
  let '(c, answered) := drain encoded_len map_event now (new_ctx u cap max_bytes) jobs in
  event <$> events_tx c = Some <$> (jobs ≫= job_events map_event) /\
  answered = omap job_caller jobs /\
  (forall i e, events_tx c !! i = Some e -> monotonic_seq e = as_i64 (Z.of_nat i) /\ account_uuid e = u) /\
  (length (queue (ring c)) <= cap)%nat /\
  snapshot n (ring c) = last_n (Nat.min n cap) (filter (keeps encoded_len max_bytes) (events_tx c)).
Proof.
  pose proof (drain_ok encoded_len map_event u cap max_bytes now (new_ctx u cap max_bytes) jobs
                (new_publisher_ok encoded_len u cap max_bytes)) as H.
  destruct (drain encoded_len map_event now (new_ctx u cap max_bytes) jobs) as [c answered].
  destruct H as ((_ & Hn & _ & _ & _ & Hq) & He & ->). split_and!; [done|done|done| |].
  - rewrite Hq, length_last_n. lia.
  - by rewrite snapshot_last_n, Hq, last_n_last_n.
Qed.

(** ** A subscription *)

(** C15.  Whatever the interleaving of the account's publisher and the subscription's forwarder, a
    subscriber gets an account's envelopes in strictly increasing sequence, each at most once, the
    gap markers apart, and never one that the account did not publish. *)
Theorem subscription_in_order encoded_len replay u cap max_bytes (s : Stream) :
  reachable encoded_len replay u cap max_bytes s -> Z.of_nat (length (stamped s)) < 2 ^ 63 ->
  StronglySorted (fun x y => monotonic_seq x < monotonic_seq y) (delivered s) /\
  forall e, e ∈ delivered s -> e ∈ stamped s /\ account_uuid e = u.
Proof.
  intros Hr Hs. destruct (reachable_ok _ _ _ _ _ _ Hr) as ((_ & Hn & _) & _ & Hok).
  destruct (Hok Hs) as [[Hso Hin] _]. split; [done|]. intros e He. split; [by apply Hin|].
  apply Hin, list_elem_of_lookup in He as (i & Hi). by apply (Hn i).
Qed.

(** C16.  A subscription that was not told of a gap got exactly the replay (the last [replay] of
    what the ring holds) followed by the live envelopes numbered after it; and when all that was
    published between its [subscribe] and its snapshot was in that replay, or it asked for none,
    then it got every envelope broadcast since its [subscribe]. *)
Theorem subscription_delivers encoded_len replay u cap max_bytes (s : Stream) position last_replayed :
  reachable encoded_len replay u cap max_bytes s -> Z.of_nat (length (stamped s)) < 2 ^ 63 ->
  phase s = Live position last_replayed -> Forall (fun e => is_marker e = false) (out s) ->
  out s = replayed encoded_len replay cap max_bytes s ++ relayed s position last_replayed /\
  (replay = 0%nat \/
   (seen s - attached s <= Nat.min replay cap)%nat /\
     Forall (keeps encoded_len max_bytes) (drop (attached s) (take (seen s) (stamped s))) ->
   forall i e, (attached s <= i < position)%nat -> events_tx (ctx s) !! i = Some e -> e ∈ out s).
Proof.
  intros Hr Hs Hph Hun. destruct (reachable_ok _ _ _ _ _ _ Hr) as (Hpub & Hle & Hok).
  destruct (Hok Hs) as [_ Hp]. unfold phase_ok in Hp. rewrite Hph in Hp.
  destruct Hp as (((Ha & Hpos) & Hl & Hb) & _ & Hu). specialize (Hu Hun). split; [done|].
  intros Hwin i e Hi He. rewrite Hu. apply elem_of_app.
  destruct (stamped_seq encoded_len u cap max_bytes s e i Hpub Hs (sent_stamped _ _ _ He)) as [Eseq _].
  destruct (decide (last_replayed < monotonic_seq e)) as [Hnew|Hold].
  - right. unfold relayed. apply list_elem_of_filter. split; [done|]. apply list_elem_of_lookup.
    exists (i - attached s)%nat. rewrite lookup_drop. replace (attached s + (i - attached s))%nat with i by lia.
    rewrite lookup_take_lt by lia. done.
  - left. unfold replayed in *. destruct (Nat.eqb_spec replay 0) as [->|Hne].
    + exfalso. rewrite Hl in Hold. cbn in Hold. lia.
    + destruct Hwin as [?|[Hn HP]]; [done|].
      assert (Hseen : (i < seen s)%nat).
      { destruct (decide (i < seen s)%nat) as [?|Hge]; [done|]. exfalso. apply Hold. rewrite Hl, Eseq.
        apply highest_lt; [lia|]. intros x Hx%elem_of_last_n. apply list_elem_of_filter in Hx as [_ Hx].
        apply list_elem_of_lookup in Hx as (j & Hj). apply lookup_take_Some in Hj as [Hj Hlt].
        destruct (stamped_seq encoded_len u cap max_bytes s x j Hpub Hs Hj) as [-> _]. lia. }
      unfold window. apply (elem_of_window _ _ (attached s) _ e i); [|done|lia|].
      * rewrite length_take. lia.
      * rewrite lookup_take_lt by done. by apply sent_stamped.
Qed.

(** ** Runs *)

Definition one_byte (_ : EventEnvelope) : Z := 1.
Definition text (note : string) : WireEvent := Raw "x" [] note.

(** The overlap of replay and live loses an envelope without a gap marker in two ways: an event
    kept out of the ring is broadcast between the receiver and the snapshot, and a later one is
    replayed; or more events than the replay asked for are. *)
Definition published (w1 w2 : WireEvent) : EventCtx :=
  publish_wire_event one_byte (publish_wire_event one_byte (new_ctx "a" 8 0) 0 w1) 0 w2.

(** Attached before both, snapshot after both. *)
Definition overlap (replay : nat) (w1 w2 : WireEvent) (position : nat) : Stream :=
  MkStream (published w1 w2) None (Live position 1) [MkEnvelope "a" 1 0 (Some w2)] 0 2.

Lemma overlap_run replay w1 w2 :
  snapshot replay (ring (published w1 w2)) = [MkEnvelope "a" 1 0 (Some w2)] -> replay <> 0%nat ->
  reachable one_byte replay "a" 8 0 (overlap replay w1 w2 2).
Proof.
  intros Hsnap Hr. unfold reachable, start.
  eapply rtc_l; [by apply step_subscribe|].
  eapply rtc_l; [by apply (step_keep _ _ _ 0 w1)|]. eapply rtc_l; [by eapply step_broadcast|].
  eapply rtc_l; [by apply (step_keep _ _ _ 0 w2)|]. eapply rtc_l; [by eapply step_broadcast|].
  eapply rtc_l; [by eapply step_snapshot|].
  change (ring _) with (ring (published w1 w2)). rewrite Hsnap.
  eapply rtc_l; [by eapply step_replay|]. eapply rtc_l; [by eapply step_replayed|].
  eapply rtc_l; [by eapply step_recv|]. eapply rtc_l; [by eapply step_recv|].
  apply rtc_refl.
Qed.

Lemma overlap_loses_an_event :
  (exists s, reachable one_byte 5 "a" 8 0 s /\ phase s = Live 2 1 /\ length (events_tx (ctx s)) = 2%nat /\
     attached s = 0%nat /\ Forall (fun e => is_marker e = false) (out s) /\
     exists e, events_tx (ctx s) !! 0%nat = Some e /\ event e = Some (HistorySync []) /\ e ∉ out s) /\
  (exists s, reachable one_byte 1 "a" 8 0 s /\ phase s = Live 2 1 /\ length (events_tx (ctx s)) = 2%nat /\
     attached s = 0%nat /\ Forall (fun e => is_marker e = false) (out s) /\
     exists e, events_tx (ctx s) !! 0%nat = Some e /\ event e = Some (text "first") /\ e ∉ out s).
Proof.
  split.
  - exists (overlap 5 (HistorySync []) (text "second") 2). split; [by apply overlap_run|].
    split_and!; [done|done|done|by repeat constructor|]. eexists. split_and!; [done|done|].
    by intros ?%list_elem_of_singleton.
  - exists (overlap 1 (text "first") (text "second") 2). split; [by apply overlap_run|].
    split_and!; [done|done|done|by repeat constructor|]. eexists. split_and!; [done|done|].
    by intros ?%list_elem_of_singleton.
Qed.

(** A replayed event and a later one, each delivered once. *)
Definition served : Stream :=
  MkStream (published (text "first") (text "second")) None (Live 2 0)
    [MkEnvelope "a" 0 0 (Some (text "first")); MkEnvelope "a" 1 0 (Some (text "second"))] 0 1.

Lemma served_run : reachable one_byte 5 "a" 8 0 served.
Proof.
  unfold reachable, start.
  eapply rtc_l; [by apply step_subscribe|].
  eapply rtc_l; [by apply (step_keep _ _ _ 0 (text "first"))|].
  eapply rtc_l; [by eapply step_snapshot|]. eapply rtc_l; [by eapply step_broadcast|].
  eapply rtc_l; [by eapply step_replay|]. eapply rtc_l; [by eapply step_replayed|].
  eapply rtc_l; [by apply (step_keep _ _ _ 0 (text "second"))|]. eapply rtc_l; [by eapply step_broadcast|].
  eapply rtc_l; [by eapply step_recv|]. eapply rtc_l; [by eapply step_recv|].
  apply rtc_refl.
Qed.

Lemma subscription_in_order_witness :
  StronglySorted (fun x y => monotonic_seq x < monotonic_seq y) (delivered served) /\
  (forall e, e ∈ delivered served -> e ∈ stamped served /\ account_uuid e = "a") /\
  length (delivered served) = 2%nat.
Proof.
  destruct (subscription_in_order one_byte 5 "a" 8 0 served served_run) as [Hs Hin]; [done|].
  split_and!; [exact Hs|exact Hin|reflexivity].
Defined.

Lemma subscription_delivers_witness :
  (out served = replayed one_byte 5 8 0 served ++ relayed served 2 0) /\
  forall i e, (attached served <= i < 2)%nat -> events_tx (ctx served) !! i = Some e -> e ∈ out served.
Proof.
  destruct (subscription_delivers one_byte 5 "a" 8 0 served 2 0 served_run) as [Hout Hall];
    [done|done|by repeat constructor|].
  split; [exact Hout|]. apply Hall. right. split; [cbn; lia|]. by repeat constructor.
Defined.
