(* ===== verification/AllAccounts.v ===== *)
(** * The all-accounts subscription (services/event_service.rs, state/account_registry.rs)

    A subscription to every account, those created later included: it takes its receiver of the
    creations, then lists the registry, attaches a forwarder per listed account and follows the
    creations.  The registry inserts a handle before it announces it, and both run while the
    subscription starts.  A uuid is a [Z] here: the code compares it and nothing else. *)

From stdpp Require Import gmap.
From S2P Require Import Prelude Events EventStream.

Abbreviation Uuid := Z.

(** [usize::MAX]: a created account replays its whole ring. *)
Definition whole_ring : Z := 2 ^ 64 - 1.

Inductive Following : Type :=
| NotSubscribed
| SubscribedCreated (position : nat)
| Follows (position : nat) (snapshot_uuids : gset Uuid)
| Stopped.

Record Registry : Type := MkRegistry {
  handles : gset Uuid;
  announcing : gset Uuid;     (* inserted, not yet sent on created_tx *)
  created_tx : list Uuid;     (* every creation announced, oldest first *)
  minted : gset Uuid;         (* ghost: every uuid ever inserted *)
}.

Record AllStream : Type := MkAll {
  registry : Registry;
  follower : Following;
  forwarders : list (Uuid * Z);        (* an account and how much of its ring it replays *)
  markers : list EventEnvelope;        (* the subscription gaps told *)
  subscribed_at : nat;                 (* ghost: the creations announced before [subscribe_created] *)
}.

(** [insert_handle], its two shared effects one after the other. *)
Definition register (u : Uuid) (r : Registry) : Registry :=
  MkRegistry ({[u]} ∪ handles r) ({[u]} ∪ announcing r) (created_tx r) ({[u]} ∪ minted r).

Definition announce (u : Uuid) (r : Registry) : Registry :=
  MkRegistry (handles r) (announcing r ∖ {[u]}) (created_tx r ++ [u]) (minted r).

Definition unregister (u : Uuid) (r : Registry) : Registry :=
  MkRegistry (handles r ∖ {[u]}) (announcing r) (created_tx r) (minted r).

(** The match of [follow_created_step] on a received account. *)
Definition attach_created (snapshot_uuids : gset Uuid) (account : Uuid) (forwarders : list (Uuid * Z)) :
    list (Uuid * Z) :=
  if decide (account ∈ snapshot_uuids) then forwarders else forwarders ++ [(account, whole_ring)].

Definition forward_snapshot (replay : Z) (snapshot_uuids : gset Uuid) : list (Uuid * Z) :=
  (fun u => (u, replay)) <$> elements snapshot_uuids.

Section all_accounts.
Context (replay : Z).

Definition on_registry (f : Registry -> Registry) (s : AllStream) : AllStream :=
  MkAll (f (registry s)) (follower s) (forwarders s) (markers s) (subscribed_at s).

Definition on_follower (p : Following) (fw : list (Uuid * Z)) (m : list EventEnvelope) (s : AllStream) : AllStream :=
  MkAll (registry s) p fw m (subscribed_at s).

Inductive AllStep : AllStream -> AllStream -> Prop :=
(* Requests of other clients; [Uuid::new_v4] mints a fresh uuid. *)
| all_register s u : u ∉ minted (registry s) -> AllStep s (on_registry (register u) s)
| all_announce s u : u ∈ announcing (registry s) -> AllStep s (on_registry (announce u) s)
| all_unregister s u : AllStep s (on_registry (unregister u) s)
(* [forward_all_accounts]. *)
| all_subscribe s :
    follower s = NotSubscribed ->
    let position := length (created_tx (registry s)) in
    AllStep s (MkAll (registry s) (SubscribedCreated position) (forwarders s) (markers s) position)
| all_list s position :
    follower s = SubscribedCreated position ->
    let snapshot_uuids := handles (registry s) in
    AllStep s (on_follower (Follows position snapshot_uuids) (forward_snapshot replay snapshot_uuids) (markers s) s)
(* [follow_created_step]. *)
| all_created s position snapshot_uuids u :
    follower s = Follows position snapshot_uuids -> created_tx (registry s) !! position = Some u ->
    AllStep s (on_follower (Follows (S position) snapshot_uuids)
                 (attach_created snapshot_uuids u (forwarders s)) (markers s) s)
| all_lagged s position snapshot_uuids missed :
    follower s = Follows position snapshot_uuids -> (0 < missed)%N ->
    (position + N.to_nat missed <= length (created_tx (registry s)))%nat ->
    AllStep s (on_follower (Follows (position + N.to_nat missed) snapshot_uuids) (forwarders s)
                 (markers s ++ [created_gap_marker missed]) s)
| all_stopped s : AllStep s (on_follower Stopped (forwarders s) (markers s) s).

(** A registry whose accounts were loaded and announced before anyone listened. *)
Definition loaded (us : list Uuid) : AllStream :=
  let r := MkRegistry (list_to_set us) ∅ us (list_to_set us) in
  MkAll r NotSubscribed [] [] 0.

(** ** The invariant *)

Definition registry_ok (r : Registry) : Prop :=
  NoDup (created_tx r) /\ (forall u, u ∈ created_tx r -> u ∈ minted r /\ u ∉ announcing r) /\
  handles r ⊆ minted r /\ announcing r ⊆ minted r /\
  (forall u, u ∈ handles r -> u ∈ announcing r \/ u ∈ created_tx r).

(** The creations a follower at [position] has seen. *)
Definition followed (s : AllStream) (position : nat) : list Uuid :=
  drop (subscribed_at s) (take position (created_tx (registry s))).

Definition follower_ok (s : AllStream) : Prop :=
  let r := registry s in
  match follower s with
  | NotSubscribed => forwarders s = [] /\ markers s = []
  | SubscribedCreated position =>
      forwarders s = [] /\ markers s = [] /\ position = subscribed_at s /\ (position <= length (created_tx r))%nat
  | Follows position snapshot_uuids =>
      (subscribed_at s <= position <= length (created_tx r))%nat /\ snapshot_uuids ⊆ minted r /\
      (forall u, u ∈ (forwarders s).*1 -> u ∈ snapshot_uuids \/ (u ∈ followed s position /\ u ∉ snapshot_uuids)) /\
      (markers s = [] -> forall u, u ∈ snapshot_uuids \/ u ∈ followed s position -> u ∈ (forwarders s).*1) /\
      (forall u, u ∈ handles r -> u ∈ snapshot_uuids \/ u ∈ announcing r \/
                 u ∈ drop (subscribed_at s) (created_tx r))
  | Stopped => True
  end.

Definition all_ok (s : AllStream) : Prop :=
  registry_ok (registry s) /\ NoDup (forwarders s).*1 /\ follower_ok s.
End all_accounts.

(** ** Properties *)

Section invariant.
Context (replay : Z).
Implicit Types (s : AllStream) (r : Registry).

Lemma register_ok u r : u ∉ minted r -> registry_ok r -> registry_ok (register u r).
Proof using Type.
  intros Hu (Hnd & Hc & Hh & Ha & Hin). split_and!; cbn; [done| |set_solver|set_solver|].
  - intros v Hv. destruct (Hc v Hv). split; [set_solver|]. assert (v <> u) by (intros ->; set_solver). set_solver.
  - intros v [->%elem_of_singleton|Hv]%elem_of_union; [left; set_solver|]. destruct (Hin v Hv); [left; set_solver|by right].
Qed.

Lemma announce_ok u r : u ∈ announcing r -> registry_ok r -> registry_ok (announce u r).
Proof using Type.
  intros Hu (Hnd & Hc & Hh & Ha & Hin). split_and!; cbn; [| |done|set_solver|].
  - apply NoDup_app. split_and!; [done| |apply NoDup_singleton].
    intros v Hv ->%list_elem_of_singleton. by destruct (Hc u Hv).
  - intros v [Hv| ->%list_elem_of_singleton]%elem_of_app.
    + destruct (Hc v Hv). set_solver.
    + set_solver.
  - intros v Hv. destruct (decide (v = u)) as [->|Hne]; [right; apply elem_of_app; right; by left|].
    destruct (Hin v Hv); [left; set_solver|right; apply elem_of_app; by left].
Qed.

Lemma unregister_ok u r : registry_ok r -> registry_ok (unregister u r).
Proof using Type. intros (Hnd & Hc & Hh & Ha & Hin). split_and!; cbn; [done|done|set_solver|done|set_solver]. Qed.

Lemma followed_mono s p q u : (p <= q)%nat -> u ∈ followed s p -> u ∈ followed s q.
Proof using Type.
  unfold followed. intros Hpq (i & Hi)%list_elem_of_lookup. apply list_elem_of_lookup. exists i.
  rewrite lookup_drop in Hi |- *. apply lookup_take_Some in Hi as [Hi Hlt]. apply lookup_take_Some. split; [done|lia].
Qed.

Lemma followed_succ s p u :
  (subscribed_at s <= p)%nat -> created_tx (registry s) !! p = Some u -> followed s (S p) = followed s p ++ [u].
Proof using Type.
  intros Ha Hu. unfold followed. pose proof (lookup_lt_Some _ _ _ Hu).
  by rewrite (take_S_r _ _ _ Hu), drop_app_le by (rewrite length_take; lia).
Qed.

(** The registry moves under a follower. *)
Lemma follower_registry f s :
  (forall r, exists sent, created_tx (f r) = created_tx r ++ sent) ->
  minted (registry s) ⊆ minted (f (registry s)) ->
  (forall p snap, follower s = Follows p snap -> (subscribed_at s <= length (created_tx (registry s)))%nat ->
     forall u, u ∈ handles (f (registry s)) ->
       (u ∈ handles (registry s) -> u ∈ snap \/ u ∈ announcing (registry s) \/ u ∈ drop (subscribed_at s) (created_tx (registry s))) ->
       u ∈ snap \/ u ∈ announcing (f (registry s)) \/ u ∈ drop (subscribed_at s) (created_tx (f (registry s)))) ->
  follower_ok s -> follower_ok (on_registry f s).
Proof using Type.
  intros Hf Hm Hh. unfold follower_ok, followed. cbn [registry follower forwarders markers subscribed_at on_registry].
  destruct (Hf (registry s)) as [sent Es]. rewrite Es.
  destruct (follower s) as [|p|p snap|] eqn:Ef; [done| | |done].
  - intros (Hfw & Hmk & Hp & Hle). split_and!; [done..|]. rewrite length_app. lia.
  - intros ((Ha & Hp) & Hsnap & Hfw & Hall & Hin). rewrite (take_app_le (created_tx (registry s)) sent p) by done.
    split_and!; [done|rewrite length_app; lia|set_solver|done|done|].
    intros u Hu. rewrite <-Es. apply (Hh p snap eq_refl); [lia|done|apply Hin].
Qed.

Lemma list_ok s p :
  follower s = SubscribedCreated p -> all_ok s ->
  all_ok (on_follower (Follows p (handles (registry s))) (forward_snapshot replay (handles (registry s))) (markers s) s).
Proof using Type.
  intros Hs (Hr & Hnd & Hf).
  unfold follower_ok in Hf. rewrite Hs in Hf. destruct Hf as (Hfw & Hmk & -> & Hle).
  assert (E : (forward_snapshot replay (handles (registry s))).*1 = elements (handles (registry s))).
  { unfold forward_snapshot. rewrite <-list_fmap_compose. by rewrite list_fmap_id. }
  assert (Ez : followed s (subscribed_at s) = []) by (unfold followed; by rewrite drop_ge by (rewrite length_take; lia)).
  split_and!; [done|cbn [forwarders on_follower]; rewrite E; apply NoDup_elements|].
  unfold follower_ok. cbn [follower forwarders registry subscribed_at markers on_follower]. rewrite E.
  change (followed (on_follower _ _ _ s)) with (followed s). rewrite Ez.
  split_and!; [lia|done|by apply Hr|..].
  - intros u Hu%elem_of_elements. by left.
  - intros _ u [Hu|?%not_elem_of_nil]; [by apply elem_of_elements|done].
  - intros u Hu. by left.
Qed.

Lemma created_ok s p snap u :
  follower s = Follows p snap -> created_tx (registry s) !! p = Some u -> all_ok s ->
  all_ok (on_follower (Follows (S p) snap) (attach_created snap u (forwarders s)) (markers s) s).
Proof using Type.
  intros Hs Hu (Hr & Hnd & Hf).
  unfold follower_ok in Hf. rewrite Hs in Hf. destruct Hf as ((Ha & Hp) & Hsnap & Hfw & Hall & Hin).
  pose proof (lookup_lt_Some _ _ _ Hu) as Hlt. pose proof (followed_succ s p u Ha Hu) as Efol.
  set (s' := on_follower _ _ _ s). change (forwarders s') with (attach_created snap u (forwarders s)).
  assert (Hnew : u ∉ snap -> u ∉ (forwarders s).*1).
  { intros Hus Hin'. destruct (Hfw u Hin') as [?|[Hfo _]]; [done|].
    unfold followed in Hfo. apply list_elem_of_lookup in Hfo as (i & Hi). rewrite lookup_drop in Hi.
    apply lookup_take_Some in Hi as [Hi Hlt']. destruct Hr as (Hnd' & _).
    pose proof (NoDup_lookup _ _ _ _ Hnd' Hi Hu). lia. }
  unfold attach_created in *. split_and!; [done| |].
  - cbn [forwarders on_follower s']. unfold attach_created. case_decide as Hd; [done|].
    rewrite fmap_app. apply NoDup_app. split_and!; [done| |apply NoDup_singleton].
    intros v Hv ->%list_elem_of_singleton. by apply Hnew.
  - unfold follower_ok. cbn [follower forwarders registry subscribed_at markers on_follower s'].
    change (followed s') with (followed s). rewrite Efol. unfold attach_created. split_and!; [lia|lia|done|..].
    + intros v. case_decide as Hd.
      * intros Hv. destruct (Hfw v Hv) as [?|[Hfo ?]]; [by left|]. right. split; [apply elem_of_app; by left|done].
      * rewrite fmap_app. intros [Hv|Hv%list_elem_of_singleton]%elem_of_app.
         -- destruct (Hfw v Hv) as [?|[Hfo ?]]; [by left|]. right. split; [apply elem_of_app; by left|done].
         -- cbn in Hv. subst v. right. split; [apply elem_of_app; right; by left|done].
    + intros Hmk v Hv. specialize (Hall Hmk). case_decide as Hd.
      * destruct Hv as [Hv|[Hv|Hv%list_elem_of_singleton]%elem_of_app]; [auto..|]. subst v. auto.
      * rewrite fmap_app. apply elem_of_app.
         destruct Hv as [Hv|[Hv|Hv%list_elem_of_singleton]%elem_of_app]; [left; auto..|]. subst v. right. by left.
    + done.
Qed.

Lemma lagged_all_ok s p snap n :
  follower s = Follows p snap -> (p + N.to_nat n <= length (created_tx (registry s)))%nat -> all_ok s ->
  all_ok (on_follower (Follows (p + N.to_nat n) snap) (forwarders s) (markers s ++ [created_gap_marker n]) s).
Proof using Type.
  intros Hs Hlag (Hr & Hnd & Hf).
  unfold follower_ok in Hf. rewrite Hs in Hf. destruct Hf as ((Ha & Hp) & Hsnap & Hfw & Hall & Hin).
  split_and!; [done|done|]. unfold follower_ok. cbn [follower forwarders registry subscribed_at markers on_follower].
  change (followed (on_follower _ _ _ s)) with (followed s). split_and!; [lia|done|done|..|done].
  - intros u Hu. destruct (Hfw u Hu) as [?|[? ?]]; [by left|right]. split; [|done]. apply (followed_mono s p); [lia|done].
  - intros Habs. by apply app_eq_nil in Habs as [_ ?].
Qed.

Lemma step_all_ok s s' : AllStep replay s s' -> all_ok s -> all_ok s'.
Proof using Type.
  intros Hstep Hok. pose proof Hok as (Hr & Hnd & Hf). destruct Hstep as [s u Hu|s u Hu|s u|s Hs pos|s p Hs snap|s p snap u Hs Hu|s p snap n Hs Hn Hlag|s].
  - split_and!; [by apply register_ok|done|]. apply follower_registry; [by exists []; rewrite app_nil_r|cbn; set_solver| |done].
    intros p snap _ _ v Hv Hold. cbn in Hv |- *. apply elem_of_union in Hv as [->%elem_of_singleton|Hv]; [set_solver|].
    destruct (Hold Hv) as [?|[?|?]]; set_solver.
  - split_and!; [by apply announce_ok|done|]. apply follower_registry; [by exists [u]|cbn; set_solver| |done].
    intros p snap _ Ha v Hv Hold. cbn in Hv |- *. rewrite drop_app_le by done.
    destruct (Hold Hv) as [?|[?|?]]; [by left| |right; right; apply elem_of_app; by left].
    destruct (decide (v = u)) as [->|Hne]; [right; right; apply elem_of_app; right; by left|set_solver].
  - split_and!; [by apply unregister_ok|done|]. apply follower_registry; [by exists []; rewrite app_nil_r|done| |done].
    intros p snap _ _ v Hv Hold. cbn in Hv |- *. apply Hold. set_solver.
  - unfold follower_ok in Hf. rewrite Hs in Hf. destruct Hf as [Hfw Hmk]. split_and!; [done|done|]. cbn. by split_and!.
  - by apply list_ok.
  - by apply created_ok.
  - by apply lagged_all_ok.
  - done.
Qed.

Lemma loaded_ok us : NoDup us -> all_ok (loaded us).
Proof using Type.
  intros Hnd. split_and!; [|constructor|done]. split_and!; cbn; [done|set_solver|done|set_solver|set_solver].
Qed.

Lemma reachable_all_ok us s : NoDup us -> rtc (AllStep replay) (loaded us) s -> all_ok s.
Proof using Type.
  intros Hnd Hr. pose proof (loaded_ok us Hnd) as H0. induction Hr as [|s0 s1 s Hstep _ IH]; [done|].
  apply IH. by eapply step_all_ok.
Qed.
End invariant.

(** C17.  An all-accounts subscription, whatever accounts are created and deleted while it starts
    and runs: no account ever has two forwarders, so none of its events comes twice; and as long
    as no gap was told, a follower that has caught up with the creations has a forwarder for every
    account of the registry whose creation was announced, one that was created between the
    subscribe and the list included. *)
Theorem all_accounts_membership replay (us : list Uuid) (s : AllStream) :
  NoDup us -> rtc (AllStep replay) (loaded us) s ->
  NoDup (forwarders s).*1 /\
  (forall position snapshot_uuids, follower s = Follows position snapshot_uuids ->
     position = length (created_tx (registry s)) -> markers s = [] ->
     forall u, u ∈ handles (registry s) -> u ∉ announcing (registry s) -> u ∈ (forwarders s).*1).
Proof.
  intros Hnd Hr. destruct (reachable_all_ok replay us s Hnd Hr) as (_ & Hf & Hok). split; [done|].
  intros p snap Hs Hp Hm u Hu Hna. unfold follower_ok in Hok. rewrite Hs in Hok.
  destruct Hok as (_ & _ & _ & Hall & Hin). apply (Hall Hm). destruct (Hin u Hu) as [?|[?|Hc]]; [by left|done|right].
  unfold followed. by rewrite take_ge by lia.
Qed.

(** ** Witness: an account inserted before the list and announced after it *)

Definition joined : AllStream :=
  MkAll (MkRegistry {[2; 1]} ∅ [1; 2] {[2; 1]}) (Follows 2 {[2; 1]}) (forward_snapshot 3 {[2; 1]}) [] 1.

Lemma joined_run : rtc (AllStep 3) (loaded [1]) joined.
Proof.
  eapply rtc_l; [by apply all_subscribe|]. eapply rtc_l; [by apply (all_register _ _ 2)|].
  eapply rtc_l; [by eapply all_list|]. eapply rtc_l; [by apply (all_announce _ _ 2)|].
  eapply rtc_l; [by eapply all_created|]. apply rtc_refl.
Qed.

Lemma all_accounts_membership_witness :
  NoDup (forwarders joined).*1 /\ (2 : Z) ∈ (forwarders joined).*1 /\ length (forwarders joined) = 2%nat.
Proof.
  destruct (all_accounts_membership 3 [1] joined) as [Hnd Hall]; [apply NoDup_singleton|apply joined_run|].
  split_and!; [exact Hnd| |reflexivity].
  apply (Hall 2%nat {[2; 1]}); [reflexivity|reflexivity|reflexivity|cbn; set_solver|cbn; set_solver].
Defined.
