(* ===== verification/Frame.v ===== *)
(** * What a computation can change: frames

    [moves R m]: whatever the database and whatever statements fail, running [m] relates the
    database before to the database after by [R].  With [R] reflexive and transitive this composes
    along every construct of the storage layer, so that what each statement does is the whole
    proof; [own] is the relation of a table of which one account's rows alone may change. *)

From S2P Require Import Prelude StoreError Database StoreKey BlobCipher BatchChunks Refinement Backend SignalStore SignalSpec ProtocolStore ProtocolSpec BlobCodec AppSyncStore AppSyncSpec.

Definition moves {D A} (R : D -> D -> Prop) (m : Run D A) : Prop := forall w, R (db w) (db (m w).2).

Create HintDb frames.

Section moves.
Context {D : Type} (R : D -> D -> Prop) `{!Reflexive R} `{!Transitive R}.

Lemma moves_ret {A} (a : A) : moves R (mret a).
Proof using Reflexive0. intros w. cbn. reflexivity. Qed.

Lemma moves_bind {A B} (m : Run D A) (f : A -> Run D B) : moves R m -> (forall a, moves R (f a)) -> moves R (m ≫= f).
Proof using Transitive0.
  intros Hm Hf w. unfold mbind, run_bind. specialize (Hm w). destruct (m w) as [[a|e] w']; [|done].
  etrans; [exact Hm|]. apply Hf.
Qed.

Lemma moves_of_result {A} (r : StoreResult A) : moves R (of_result r).
Proof using Reflexive0. intros w. cbn. reflexivity. Qed.

Lemma moves_stmt {A} (f : D -> StoreResult A * D) : (forall d, R d (f d).2) -> moves R (stmt f).
Proof using Reflexive0.
  intros Hf w. unfold stmt. specialize (Hf (db w)). destruct (faults w) as [|[] rest]; cbn; try reflexivity;
    by destruct (f (db w)) as [r d].
Qed.

Lemma moves_query {A} (f : D -> A) : moves R (query f).
Proof using Reflexive0. apply moves_stmt. intros d. cbn. reflexivity. Qed.

Lemma moves_transaction {A} (body : Run D A) : moves R body -> moves R (transaction body).
Proof using Reflexive0 Transitive0.
  intros Hb w. unfold transaction. pose proof (moves_stmt (fun d => (Ok tt, d)) ltac:(intros d; cbn; reflexivity) w) as Hs.
  destruct (stmt _ w) as [[[]|e] w0]; [|exact Hs]. specialize (Hb w0).
  destruct (body w0) as [[a|e] w1]; [|cbn; reflexivity].
  destruct (faults w1) as [|[] rest]; cbn in *; (etrans; [exact Hs|exact Hb]) || reflexivity.
Qed.

Lemma moves_execute {A} (f : D -> StoreResult A * D) : (forall d, R d (f d).2) -> moves R (execute f).
Proof using Reflexive0 Transitive0. intros Hf. by apply moves_transaction, moves_stmt. Qed.

Lemma moves_each {A} (f : A -> Run D unit) l : (forall a, moves R (f a)) -> moves R (each f l).
Proof using Reflexive0 Transitive0.
  intros Hf. induction l as [|a l IH]; cbn; [apply moves_ret|]. apply moves_bind; [apply Hf|]. by intros _.
Qed.

Lemma moves_read_chunks {T Rw V} (select : list T -> D -> list Rw) decode chunks (found : list (T * V)) :
  moves R (read_chunks select decode chunks found).
Proof using Reflexive0 Transitive0.
  revert found. induction chunks as [|chunk chunks IH]; intros found; cbn [read_chunks]; [apply moves_ret|].
  apply moves_bind; [apply moves_query|]. intros rows. apply moves_bind; [apply moves_of_result|]. intros o. apply IH.
Qed.

Lemma moves_if {A} (c : bool) (m1 m2 : Run D A) : moves R m1 -> moves R m2 -> moves R (if c then m1 else m2).
Proof using Type. by destruct c. Qed.
End moves.

#[export] Hint Resolve moves_ret moves_bind moves_of_result moves_stmt moves_query moves_transaction moves_execute
  moves_each moves_read_chunks moves_if : frames.

(** ** One account's rows of a table *)

(** Only rows of [me] change, and none appears unless [may] holds. *)
Definition own {K A} `{Countable K} (me : Z) (may : Prop) (m m' : gmap (K * Z) A) : Prop :=
  (forall k, k.2 <> me -> m' !! k = m !! k) /\ (forall k, is_Some (m' !! k) -> is_Some (m !! k) \/ may).

Section own.
Context {K A : Type} `{Countable K} (me : Z) (may : Prop).
Implicit Types (m : gmap (K * Z) A).

#[global] Instance own_refl : Reflexive (own (K := K) (A := A) me may).
Proof. intros m. split; auto. Qed.

#[global] Instance own_trans : Transitive (own (K := K) (A := A) me may).
Proof.
  intros m1 m2 m3 [Ha Hb] [Ha' Hb']. split.
  - intros k Hk. by rewrite Ha', Ha.
  - intros k Hk. destruct (Hb' k Hk) as [Hk'|?]; [by apply Hb|by right].
Qed.

Lemma own_insert m k v : may -> own me may m (<[(k, me) := v]> m).
Proof using Type.
  intros Hm. split; [|by right]. intros k' Hk. apply lookup_insert_ne. intros <-. by apply Hk.
Qed.

Lemma own_delete m k : own me may m (delete (k, me) m).
Proof using Type.
  split.
  - intros k' Hk. apply lookup_delete_ne. intros <-. by apply Hk.
  - intros k' [v Hv]. apply lookup_delete_Some in Hv as [_ Hv]. left. by eexists.
Qed.

Lemma own_alter m k f : own me may m (alter f (k, me) m).
Proof using Type.
  split.
  - intros k' Hk. apply lookup_alter_ne. intros <-. by apply Hk.
  - intros k' Hv. left. by apply lookup_alter_is_Some in Hv.
Qed.

Lemma own_filter m (P : K * Z * A -> Prop) `{!forall x, Decision (P x)} :
  (forall k v, k.2 <> me -> P (k, v)) -> own me may m (filter P m).
Proof using Type.
  intros HP. split.
  - intros k Hk. rewrite map_lookup_filter. destruct (m !! k) as [v|] eqn:E; cbn; [|done].
    by rewrite option_guard_True by by apply HP.
  - intros k [v Hv]. apply map_lookup_filter_Some in Hv as [Hv _]. left. by eexists.
Qed.

Lemma own_imap m f : (forall k v, k.2 <> me -> f k v = Some v) -> own me may m (map_imap f m).
Proof using Type.
  intros Hf. split.
  - intros k Hk. rewrite map_lookup_imap. destruct (m !! k) as [v|]; cbn; [by apply Hf|done].
  - intros k [v Hv]. rewrite map_lookup_imap in Hv. destruct (m !! k); [left; by eexists|done].
Qed.

(** A table of which no row is left without its account, before and after. *)
Definition scoped (accounts : gset Z) m : Prop := forall k, is_Some (m !! k) -> k.2 ∈ accounts.

Lemma own_scoped accounts m m' : own me (me ∈ accounts) m m' -> scoped accounts m -> scoped accounts m'.
Proof using Type.
  intros [Ha Hb] Hs k Hk. destruct (decide (k.2 = me)) as [E|Hne].
  - destruct (Hb k Hk) as [Hk'|Hm]; [by apply Hs|by rewrite E].
  - apply Hs. by rewrite <-Ha.
Qed.
End own.

(** A table with one row per account. *)
Definition own_row {A} (me : Z) (may : Prop) (m m' : gmap Z A) : Prop :=
  (forall k, k <> me -> m' !! k = m !! k) /\ (is_Some (m' !! me) -> is_Some (m !! me) \/ may).

#[global] Instance own_row_refl {A} me may : Reflexive (own_row (A := A) me may).
Proof. intros m. split; auto. Qed.

#[global] Instance own_row_trans {A} me may : Transitive (own_row (A := A) me may).
Proof.
  intros m1 m2 m3 [Ha Hb] [Ha' Hb']. split; [intros k Hk; by rewrite Ha', Ha|].
  intros Hk. destruct (Hb' Hk) as [?|?]; [by apply Hb|by right].
Qed.

Lemma own_row_insert {A} me (may : Prop) (m : gmap Z A) v : may -> own_row me may m (<[me := v]> m).
Proof. intros Hm. split; [|by right]. intros k Hk. by apply lookup_insert_ne. Qed.

Definition scoped_rows {A} (accounts : gset Z) (m : gmap Z A) : Prop := forall k, is_Some (m !! k) -> k ∈ accounts.

Lemma own_row_scoped {A} accounts me (m m' : gmap Z A) :
  own_row me (me ∈ accounts) m m' -> scoped_rows accounts m -> scoped_rows accounts m'.
Proof.
  intros [Ha Hb] Hs k Hk. destruct (decide (k = me)) as [->|Hne].
  - destruct (Hb Hk) as [Hk'|?]; [by apply Hs|done].
  - apply Hs. by rewrite <-Ha.
Qed.

#[export] Hint Resolve own_row_insert own_insert own_delete own_alter own_filter : frames.

(** ** Every call of a store changes rows of its own account only

    For the Signal, the protocol and the app-state store: whatever call, whatever statement fails,
    the rows of the other accounts are untouched and no row of an account that does not exist
    appears. *)

(** The constructs of a call, down to its statements. *)
Ltac head_of t := match t with ?f _ => head_of f | _ => t end.
Ltac frame_call :=
  repeat first
    [ apply moves_ret; apply _
    | apply moves_of_result; apply _
    | apply moves_query; apply _
    | apply moves_read_chunks; apply _
    | apply moves_if
    | apply moves_execute; [apply _..|]
    | apply moves_transaction; [apply _..|]
    | apply moves_each; [apply _..|]; intros ?
    | apply moves_bind; [apply _| |intros ?]
    | apply moves_stmt; [apply _|]
    | progress case_match
    | match goal with |- moves _ ?m => let h := head_of m in unfold h end ].

(** ** Signal *)

Definition signal_own (me : Z) (d d' : SignalDb) : Prop :=
  sd_accounts d' = sd_accounts d /\
  own me (me ∈ sd_accounts d) (addr_rows d) (addr_rows d') /\
  own me (me ∈ sd_accounts d) (prekeys d) (prekeys d') /\
  own me (me ∈ sd_accounts d) (signed_prekeys d) (signed_prekeys d').

#[global] Instance signal_own_refl me : Reflexive (signal_own me).
Proof. intros d. split_and!; reflexivity. Qed.

#[global] Instance signal_own_trans me : Transitive (signal_own me).
Proof.
  intros d1 d2 d3 (E1 & H1 & H2 & H3) (E2 & K1 & K2 & K3). rewrite E1 in *.
  split_and!; [done|by etrans..].
Qed.

(** A statement: its guard, then table by table. *)
Ltac own_table :=
  first [ reflexivity | apply own_row_insert | apply own_insert | apply own_delete | apply own_alter | apply own_filter | apply own_imap ];
  cbn [fst snd] in *; intros; rewrite ?decide_False by tauto; auto; try tauto; try (f_equal; by destruct_and?).
Ltac frame_stmt :=
  intros d; cbn [snd];
  repeat first [ match goal with |- _ _ _ (snd ?s) => let h := head_of s in unfold h end | case_decide | case_match ];
  split_and!; cbn; repeat case_match; own_table.

Lemma signal_call_own `{crypto : Crypto} constraint cipher (call : SignalCall) :
  moves (signal_own (call_device call)) (signal_run constraint cipher call).
Proof.
  destruct call as [me draws op]. unfold signal_run, done. cbn [call_device call_op call_draws].
  destruct op; try (match goal with t : AddrTable |- _ => destruct t end); frame_call; frame_stmt.
Qed.

(** ** The protocol store *)

Definition proto_own (me : Z) (d d' : ProtoDb) : Prop :=
  pd_accounts d' = pd_accounts d /\
  own me (me ∈ pd_accounts d) (sender_key_devices d) (sender_key_devices d') /\
  own me (me ∈ pd_accounts d) (lid_pn_mapping d) (lid_pn_mapping d') /\
  own me (me ∈ pd_accounts d) (base_keys d) (base_keys d') /\
  own me (me ∈ pd_accounts d) (device_registry d) (device_registry d') /\
  own me (me ∈ pd_accounts d) (tc_tokens d) (tc_tokens d') /\
  own me (me ∈ pd_accounts d) (sent_messages d) (sent_messages d') /\
  own me (me ∈ pd_accounts d) (msg_secrets d) (msg_secrets d').

#[global] Instance proto_own_refl me : Reflexive (proto_own me).
Proof. intros d. split_and!; reflexivity. Qed.

#[global] Instance proto_own_trans me : Transitive (proto_own me).
Proof.
  intros d1 d2 d3 (E1 & H1) (E2 & H2). unfold proto_own. rewrite E1 in *. destruct_and?. split_and!; [done|by etrans..].
Qed.

Lemma proto_call_own `{crypto : Crypto} `{lib : Wacore} constraint cipher (call : ProtoCall) :
  moves (proto_own (pc_device call)) (proto_run constraint cipher call).
Proof.
  destruct call as [me draws op]. unfold proto_run, ProtocolSpec.done, answer. cbn [pc_device pc_op pc_draws].
  destruct op; frame_call; frame_stmt.
Qed.

(** ** App state and the device *)

Definition app_own (me : Z) (d d' : AppDb) : Prop :=
  ad_accounts d' = ad_accounts d /\
  own me (me ∈ ad_accounts d) (app_state_keys d) (app_state_keys d') /\
  own me (me ∈ ad_accounts d) (app_state_versions d) (app_state_versions d') /\
  own me (me ∈ ad_accounts d) (app_state_mutation_macs d) (app_state_mutation_macs d') /\
  own_row me (me ∈ ad_accounts d) (device_rows d) (device_rows d').

#[global] Instance app_own_refl me : Reflexive (app_own me).
Proof. intros d. split_and!; reflexivity. Qed.

#[global] Instance app_own_trans me : Transitive (app_own me).
Proof.
  intros d1 d2 d3 (E1 & H1) (E2 & H2). unfold app_own. rewrite E1 in *. destruct_and?. split_and!; [done|by etrans..].
Qed.

Lemma app_call_own `{crypto : Crypto} `{keys : Keys} `{!Message DeviceBlob} `{!Message HashStateWire}
    `{!Message AppStateSyncKeyWire} constraint cipher (call : AppCall) :
  moves (app_own (ac_device call)) (app_run constraint cipher call).
Proof.
  destruct call as [me draws op]. unfold app_run, ok_unit, answered. cbn [ac_device ac_op ac_draws].
  destruct op; frame_call; frame_stmt.
Qed.
