(* ===== verification/Engine.v ===== *)
(** * The storage engine: accounts and their stores (storage/engine.rs, sql/accounts.rs, sql/mod.rs)

    One database holds the [accounts] table and the tables of the three stores, every row of which
    carries the [device_id] of its account, with a foreign key that cascades
    ([migrations_sqlite/0001_initial.sql]).  The engine creates, lists and deletes accounts and
    hands out one account's view of the stores. *)

From stdpp Require Import sorting.
From S2P Require Import Prelude StoreError Database StoreKey BlobCipher Refinement Backend SignalStore SignalSpec ProtocolStore ProtocolSpec BlobCodec AppSyncStore AppSyncSpec.

(** A uuid is its 128-bit number: its text on SQLite reads back as itself. *)
Abbreviation Uuid := Z.

Record AccountRow : Type := MkAccountRow {
  row_uuid : Uuid;
  external_ref : option string;
  device_id : Z;
  push_name : option string;
  created_at : Z;
}.

Record EngineDb : Type := MkEngineDb {
  accounts : gmap Z AccountRow;
  last_device_id : Z;  (* what AUTOINCREMENT handed out last *)
  signal_db : SignalDb;
  proto_db : ProtoDb;
  app_db : AppDb;
}.

Definition empty_store : EngineDb :=
  MkEngineDb ∅ 0 (MkSignalDb ∅ ∅ ∅ ∅) (MkProtoDb ∅ ∅ ∅ ∅ ∅ ∅ ∅ ∅) (MkAppDb ∅ ∅ ∅ ∅ ∅).

(** ** The foreign keys *)

(** The accounts every store sees. *)
Definition set_known (f : gset Z -> gset Z) (d : EngineDb) : EngineDb :=
  MkEngineDb (accounts d) (last_device_id d)
    (MkSignalDb (f (sd_accounts (signal_db d))) (addr_rows (signal_db d)) (prekeys (signal_db d))
       (signed_prekeys (signal_db d)))
    (MkProtoDb (f (pd_accounts (proto_db d))) (sender_key_devices (proto_db d)) (lid_pn_mapping (proto_db d))
       (base_keys (proto_db d)) (device_registry (proto_db d)) (tc_tokens (proto_db d)) (sent_messages (proto_db d))
       (msg_secrets (proto_db d)))
    (MkAppDb (f (ad_accounts (app_db d))) (app_state_keys (app_db d)) (app_state_versions (app_db d))
       (app_state_mutation_macs (app_db d)) (device_rows (app_db d))).

(** The rows of a table that carry one of [dead]. *)
Definition bereft {K A} `{Countable K} (dead : gset Z) (m : gmap (K * Z) A) : gmap (K * Z) A :=
  filter (fun x => x.1.2 ∉ dead) m.

(** ON DELETE CASCADE, on every table with a [device_id]. *)
Definition cascade (dead : gset Z) (d : EngineDb) : EngineDb :=
  let s := signal_db d in let p := proto_db d in let a := app_db d in
  MkEngineDb (filter (fun x => x.1 ∉ dead) (accounts d)) (last_device_id d)
    (MkSignalDb (sd_accounts s ∖ dead) (bereft dead (addr_rows s)) (bereft dead (prekeys s))
       (bereft dead (signed_prekeys s)))
    (MkProtoDb (pd_accounts p ∖ dead) (bereft dead (sender_key_devices p)) (bereft dead (lid_pn_mapping p))
       (bereft dead (base_keys p)) (bereft dead (device_registry p)) (bereft dead (tc_tokens p))
       (bereft dead (sent_messages p)) (bereft dead (msg_secrets p)))
    (MkAppDb (ad_accounts a ∖ dead) (bereft dead (app_state_keys a)) (bereft dead (app_state_versions a))
       (bereft dead (app_state_mutation_macs a)) (filter (fun x => x.1 ∉ dead) (device_rows a))).

Section engine.
Context `{crypto : Crypto} `{lib : Wacore} `{keys : Keys}.
Context `{!Message DeviceBlob} `{!Message HashStateWire} `{!Message AppStateSyncKeyWire}.
Context (constraint : StoreError) (cipher : BlobCipher).

(** ** Statements (statements/accounts.rs) *)

(** UNIQUE on [uuid] and, NULLs apart, on [external_ref]. *)
Definition taken (uuid : Uuid) (external : option string) (row : AccountRow) : Prop :=
  row_uuid row = uuid \/ (is_Some external /\ external_ref row = external).

#[global] Instance taken_dec uuid external row : Decision (taken uuid external row).
Proof. unfold taken. apply _. Defined.

Definition INSERT_ACCOUNT (uuid : Uuid) (external : option string) (now : Z) (d : EngineDb) :
    StoreResult AccountRow * EngineDb :=
  if bool_decide (map_Exists (fun _ row => taken uuid external row) (accounts d)) then (Err constraint, d)
  else
    let id := last_device_id d + 1 in
    let row := MkAccountRow uuid external id None now in
    (Ok row, set_known (union {[id]})
       (MkEngineDb (<[id := row]> (accounts d)) id (signal_db d) (proto_db d) (app_db d))).

(** ORDER BY device_id. *)
Definition before_row (a b : AccountRow) : Prop := device_id a <= device_id b.

#[global] Instance before_row_dec a b : Decision (before_row a b).
Proof. unfold before_row. apply _. Defined.

Definition LIST_ACCOUNTS (d : EngineDb) : list AccountRow :=
  merge_sort before_row (map_to_list (accounts d)).*2.

Definition DELETE_ACCOUNT (uuid : Uuid) (d : EngineDb) : StoreResult Z * EngineDb :=
  let dead := dom (filter (fun x => row_uuid x.2 = uuid) (accounts d)) in
  (Ok (Z.of_nat (size dead)), cascade dead d).

(** ** The engine (sql/accounts.rs) *)

(** [uuid] is what [Uuid::new_v4] minted and [now] the engine's clock. *)
Definition create_account (uuid : Uuid) (external_ref : option string) (now : Z) : Run EngineDb AccountRow :=
  execute (INSERT_ACCOUNT uuid external_ref now).

Definition list_accounts : Run EngineDb (list AccountRow) := query LIST_ACCOUNTS.

Definition delete_account (uuid : Uuid) : Run EngineDb bool :=
  deleted ← execute (DELETE_ACCOUNT uuid);
  mret (0 <? deleted).

(** [device_backend]. *)
Definition device_backend (device_id : Z) : Backend := MkBackend device_id cipher.

(** ** One database, three stores *)

Definition within {D A} (get : EngineDb -> D) (set : D -> EngineDb -> EngineDb) (m : Run D A) : Run EngineDb A :=
  fun w =>
    let '(r, w') := m (MkWorld (get (db w)) (faults w)) in
    (r, MkWorld (set (db w') (db w)) (faults w')).

Definition with_signal (s : SignalDb) (d : EngineDb) : EngineDb :=
  MkEngineDb (accounts d) (last_device_id d) s (proto_db d) (app_db d).
Definition with_proto (p : ProtoDb) (d : EngineDb) : EngineDb :=
  MkEngineDb (accounts d) (last_device_id d) (signal_db d) p (app_db d).
Definition with_app (a : AppDb) (d : EngineDb) : EngineDb :=
  MkEngineDb (accounts d) (last_device_id d) (signal_db d) (proto_db d) a.

Inductive EngineOp : Type :=
| CreateAccount (uuid : Uuid) (external : option string) (now : Z)
| ListAccounts
| DeleteAccount (uuid : Uuid)
| OnSignal (call : SignalCall)
| OnProto (call : ProtoCall)
| OnApp (call : AppCall).

Inductive EngineReply : Type :=
| Created (row : AccountRow)
| Listed (rows : list AccountRow)
| Deleted (existed : bool)
| SignalReplied (r : SignalReply)
| ProtoReplied (r : ProtoReply)
| AppReplied (r : AppReply).

Definition engine_run (op : EngineOp) : Run EngineDb EngineReply :=
  match op with
  | CreateAccount uuid external now => row ← create_account uuid external now; mret (Created row)
  | ListAccounts => rows ← list_accounts; mret (Listed rows)
  | DeleteAccount uuid => existed ← delete_account uuid; mret (Deleted existed)
  | OnSignal call => r ← within signal_db with_signal (signal_run constraint cipher call); mret (SignalReplied r)
  | OnProto call => r ← within proto_db with_proto (proto_run constraint cipher call); mret (ProtoReplied r)
  | OnApp call => r ← within app_db with_app (app_run constraint cipher call); mret (AppReplied r)
  end.

(** A daemon that runs its operations whatever each answers. *)
Fixpoint engine_all (ops : list EngineOp) (w : World EngineDb) : World EngineDb :=
  match ops with
  | [] => w
  | op :: ops => engine_all ops (engine_run op w).2
  end.
End engine.

(** ** What an account has *)

Definition rows_of_table {K A} `{Countable K} (k : Z) (m : gmap (K * Z) A) : gmap (K * Z) A :=
  filter (fun x => x.1.2 = k) m.

(** Every row of one account, in every table. *)
Definition rows_of (k : Z) (d : EngineDb) :=
  let s := signal_db d in let p := proto_db d in let a := app_db d in
  ((rows_of_table k (addr_rows s), rows_of_table k (prekeys s), rows_of_table k (signed_prekeys s)),
   (rows_of_table k (sender_key_devices p), rows_of_table k (lid_pn_mapping p), rows_of_table k (base_keys p),
    rows_of_table k (device_registry p), rows_of_table k (tc_tokens p), rows_of_table k (sent_messages p),
    rows_of_table k (msg_secrets p)),
   (rows_of_table k (app_state_keys a), rows_of_table k (app_state_versions a),
    rows_of_table k (app_state_mutation_macs a), device_rows a !! k)).

(** No row without its account, ids below the sequence, uuids and references unique. *)
Definition store_ok (d : EngineDb) : Prop :=
  (forall k row, accounts d !! k = Some row -> device_id row = k /\ k <= last_device_id d) /\
  (forall k1 r1 k2 r2, accounts d !! k1 = Some r1 -> accounts d !! k2 = Some r2 ->
     row_uuid r1 = row_uuid r2 \/ (is_Some (external_ref r1) /\ external_ref r1 = external_ref r2) -> k1 = k2).
