(* ===== verification/EngineLaws.v ===== *)
(** * The engine's store stays whole *)

From stdpp Require Import sorting.
From S2P Require Import Prelude StoreError Database StoreKey BlobCipher Refinement Backend SignalStore SignalSpec ProtocolStore ProtocolSpec BlobCodec AppSyncStore AppSyncSpec Frame Engine.

(** ** Tables *)

Section tables.
Context {K A : Type} `{Countable K}.
Implicit Types (m : gmap (K * Z) A).

Lemma own_rows_of me may m m' k : own me may m m' -> k <> me -> rows_of_table k m' = rows_of_table k m.
Proof using Type.
  intros [Ha _] Hk. apply map_eq. intros i. apply option_eq. intros v. unfold rows_of_table.
  rewrite !map_lookup_filter_Some. cbn. split; intros [Hv E]; (split; [|done]).
  - by rewrite <-Ha by congruence.
  - by rewrite Ha by congruence.
Qed.

Lemma bereft_rows dead m k : k ∉ dead -> rows_of_table k (bereft dead m) = rows_of_table k m.
Proof using Type.
  intros Hk. unfold rows_of_table, bereft. rewrite map_filter_filter. apply map_filter_ext.
  intros i x _. cbn. split; [tauto|]. intros E. split; [done|]. by rewrite E.
Qed.

Lemma bereft_none dead m k : k ∈ dead -> rows_of_table k (bereft dead m) = ∅.
Proof using Type.
  intros Hk. unfold rows_of_table, bereft. apply map_eq. intros i. rewrite lookup_empty.
  apply eq_None_not_Some. intros [v Hv]. apply map_lookup_filter_Some in Hv as [Hv E].
  apply map_lookup_filter_Some in Hv as [_ Hn]. cbn in E, Hn. by rewrite E in Hn.
Qed.

Lemma scoped_none acc m k : scoped acc m -> k ∉ acc -> rows_of_table k m = ∅.
Proof using Type.
  intros Hs Hk. apply map_eq. intros i. rewrite lookup_empty. apply eq_None_not_Some. intros [v Hv].
  apply map_lookup_filter_Some in Hv as [Hv E]. cbn in E. apply Hk. rewrite <-E. apply Hs. by eexists.
Qed.

Lemma scoped_bereft acc dead m : scoped acc m -> scoped (acc ∖ dead) (bereft dead m).
Proof using Type.
  intros Hs i [v Hv]. apply map_lookup_filter_Some in Hv as [Hv Hn]. cbn in Hn.
  apply elem_of_difference. split; [apply Hs; by eexists|done].
Qed.

Lemma scoped_mono acc acc' m : acc ⊆ acc' -> scoped acc m -> scoped acc' m.
Proof using Type. intros Hsub Hs i Hi. by apply Hsub, Hs. Qed.
End tables.

(** ** Whole *)

(** Every table's rows belong to accounts that exist, and every store knows exactly those. *)
Definition signal_rooted (acc : gset Z) (s : SignalDb) : Prop :=
  sd_accounts s = acc /\ scoped acc (addr_rows s) /\ scoped acc (prekeys s) /\ scoped acc (signed_prekeys s).

Definition proto_rooted (acc : gset Z) (p : ProtoDb) : Prop :=
  pd_accounts p = acc /\ scoped acc (sender_key_devices p) /\ scoped acc (lid_pn_mapping p) /\
  scoped acc (base_keys p) /\ scoped acc (device_registry p) /\ scoped acc (tc_tokens p) /\
  scoped acc (sent_messages p) /\ scoped acc (msg_secrets p).

Definition app_rooted (acc : gset Z) (a : AppDb) : Prop :=
  ad_accounts a = acc /\ scoped acc (app_state_keys a) /\ scoped acc (app_state_versions a) /\
  scoped acc (app_state_mutation_macs a) /\ scoped_rows acc (device_rows a).

Definition rooted (acc : gset Z) (d : EngineDb) : Prop :=
  signal_rooted acc (signal_db d) /\ proto_rooted acc (proto_db d) /\ app_rooted acc (app_db d).

Definition whole (d : EngineDb) : Prop := store_ok d /\ rooted (dom (accounts d)) d.

Lemma signal_own_rooted me acc s s' : signal_own me s s' -> signal_rooted acc s -> signal_rooted acc s'.
Proof.
  intros (E & H1 & H2 & H3) (Ea & K1 & K2 & K3). rewrite Ea in *. split_and!; [done|by eapply own_scoped..].
Qed.

Lemma proto_own_rooted me acc p p' : proto_own me p p' -> proto_rooted acc p -> proto_rooted acc p'.
Proof.
  intros (E & Ho) (Ea & Hk). rewrite Ea in *. destruct_and?. split_and!; [done|by eapply own_scoped..].
Qed.

Lemma app_own_rooted me acc a a' : app_own me a a' -> app_rooted acc a -> app_rooted acc a'.
Proof.
  intros (E & H1 & H2 & H3 & H4) (Ea & K1 & K2 & K3 & K4). rewrite Ea in *.
  split_and!; [done|by eapply own_scoped..|by eapply own_row_scoped].
Qed.

Lemma rooted_none acc d k : rooted acc d -> k ∉ acc -> rows_of k d = rows_of k empty_store.
Proof.
  intros ((_ & H1) & (_ & H2) & (_ & H3)) Hk. destruct_and?. unfold rows_of.
  cbn [signal_db proto_db app_db empty_store].
  rewrite !(scoped_none acc _ k) by (done || (intros i [v Hv]; by rewrite lookup_empty in Hv)).
  f_equal. f_equal. cbn. rewrite lookup_empty. apply eq_None_not_Some. intros Hr. apply Hk.
  by match goal with H : scoped_rows _ _ |- _ => apply H end.
Qed.

(** ** A statement on its own *)

Lemma execute_cases {D A} (f : D -> StoreResult A * D) (w : World D) :
  match execute f w with
  | (Ok a, w') => f (db w) = (Ok a, db w')
  | (Err _, w') => db w' = db w \/ exists a, f (db w) = (Ok a, db w')
  end.
Proof.
  pose proof (post_execute false f (db w) (fun a d => f (db w) = (Ok a, d))
    (fun d => d = db w \/ exists a, f (db w) = (Ok a, d))) as H.
  specialize (H ltac:(by left)).
  destruct (f (db w)) as [r d] eqn:E.
  specialize (H ltac:(destruct r; [split; [done|intros _; right; by eexists]|by left]) w ltac:(done) eq_refl).
  destruct (execute f w) as [[a|e] w']; [by destruct H|done].
Qed.

(** ** Creation and deletion *)

Lemma rooted_grow d id row :
  rooted (dom (accounts d)) d -> last_device_id d < id ->
  let d' := set_known (union {[id]}) (MkEngineDb (<[id := row]> (accounts d)) id (signal_db d) (proto_db d) (app_db d)) in
  rooted (dom (accounts d')) d'.
Proof.
  intros ((E1 & H1) & (E2 & H2) & (E3 & H3)) Hid d'. destruct_and?.
  assert (Hsub : dom (accounts d) ⊆ {[id]} ∪ dom (accounts d)) by set_solver.
  unfold rooted, signal_rooted, proto_rooted, app_rooted, d'. cbn. rewrite dom_insert_L, E1, E2, E3.
  split_and!; try done; try (by eapply scoped_mono).
  intros k Hk. apply Hsub. by match goal with H : scoped_rows _ _ |- _ => apply H end.
Qed.

Lemma dom_without {A} (m : gmap Z A) dead : dom (filter (fun x => x.1 ∉ dead) m) = dom m ∖ dead.
Proof.
  apply set_eq. intros k. rewrite elem_of_difference, !elem_of_dom. split.
  - intros [v Hv]. apply map_lookup_filter_Some in Hv as [Hv Hn]. split; [by eexists|done].
  - intros [[v Hv] Hn]. exists v. by apply map_lookup_filter_Some.
Qed.

Lemma rooted_cascade dead d :
  rooted (dom (accounts d)) d -> rooted (dom (accounts (cascade dead d))) (cascade dead d).
Proof.
  intros ((E1 & H1) & (E2 & H2) & (E3 & H3)). destruct_and?. unfold rooted, signal_rooted, proto_rooted, app_rooted, cascade. cbn.
  rewrite dom_without, E1, E2, E3. split_and!; try done; try (by apply scoped_bereft).
  intros k [v Hv]. apply map_lookup_filter_Some in Hv as [Hv Hn]. apply elem_of_difference.
  split; [|done]. match goal with H : scoped_rows _ _ |- _ => apply H end. by eexists.
Qed.

Lemma cascade_rows dead d k : k ∉ dead -> rows_of k (cascade dead d) = rows_of k d.
Proof.
  intros Hk. unfold rows_of, cascade. cbn. rewrite !bereft_rows by done. f_equal. f_equal.
  rewrite map_lookup_filter. destruct (device_rows (app_db d) !! k); cbn; by rewrite ?option_guard_True.
Qed.

Lemma store_ok_cascade dead d : store_ok d -> store_ok (cascade dead d).
Proof.
  intros [Hid Hun]. split; cbn.
  - intros k row [Hr _]%map_lookup_filter_Some. by apply Hid.
  - intros k1 r1 k2 r2 [H1 _]%map_lookup_filter_Some [H2 _]%map_lookup_filter_Some. by apply Hun.
Qed.
