(* ===== verification/EngineProps.v ===== *)
(** * What the storage engine promises of its accounts *)

From stdpp Require Import sorting.
From S2P Require Import Prelude StoreError Database StoreKey BlobCipher Refinement Backend SignalStore SignalSpec ProtocolStore ProtocolSpec BlobCodec AppSyncStore AppSyncSpec Frame Engine EngineLaws ProtocolProps.

Section engine.
Context `{crypto : Crypto} `{lib : Wacore} `{keys : Keys}.
Context `{!Message DeviceBlob} `{!Message HashStateWire} `{!Message AppStateSyncKeyWire}.
Context (constraint : StoreError) (cipher : BlobCipher).

Abbreviation run := (engine_run constraint cipher).
Abbreviation run_ops := (engine_all constraint cipher).

(** The account whose store a call is on. *)
Definition store_of (op : EngineOp) : option Z :=
  match op with
  | OnSignal call => Some (call_device call)
  | OnProto call => Some (pc_device call)
  | OnApp call => Some (ac_device call)
  | _ => None
  end.

(** What a store call does to the database, whatever fails. *)
Lemma store_call_effect op me w :
  store_of op = Some me ->
  let d := db w in let d' := db (run op w).2 in
  accounts d' = accounts d /\ last_device_id d' = last_device_id d /\
  signal_own me (signal_db d) (signal_db d') /\ proto_own me (proto_db d) (proto_db d') /\
  app_own me (app_db d) (app_db d').
Proof using Type.
  destruct op as [| | |call|call|call]; try discriminate; intros [= <-]; cbn; unfold within, mbind, run_bind.
  - pose proof (signal_call_own constraint cipher call (MkWorld (signal_db (db w)) (faults w))) as H.
    destruct (signal_run _ _ _ _) as [[r|e] w']; cbn in *; by split_and!.
  - pose proof (proto_call_own constraint cipher call (MkWorld (proto_db (db w)) (faults w))) as H.
    destruct (proto_run _ _ _ _) as [[r|e] w']; cbn in *; by split_and!.
  - pose proof (app_call_own constraint cipher call (MkWorld (app_db (db w)) (faults w))) as H.
    destruct (app_run _ _ _ _) as [[r|e] w']; cbn in *; by split_and!.
Qed.

Lemma store_call_rows op me k w :
  store_of op = Some me -> k <> me -> rows_of k (db (run op w).2) = rows_of k (db w).
Proof using Type.
  intros Hop Hk. destruct (store_call_effect op me w Hop) as (_ & _ & (_ & H1) & (_ & H2) & (_ & H3)).
  destruct_and?. unfold rows_of.
  repeat (match goal with H : own me _ ?m ?m' |- context [rows_of_table k ?m'] => rewrite (own_rows_of me _ m m' k H Hk) end).
  f_equal. f_equal. by match goal with H : own_row me _ _ _ |- _ => apply H end.
Qed.

(** The three operations on accounts. *)
Lemma account_op_effect op w :
  store_of op = None ->
  let d := db w in let d' := db (run op w).2 in
  d' = d \/
  (exists uuid ext now row, op = CreateAccount uuid ext now /\ INSERT_ACCOUNT constraint uuid ext now d = (Ok row, d')) \/
  (exists uuid, op = DeleteAccount uuid /\ d' = (DELETE_ACCOUNT uuid d).2).
Proof using Type.
  destruct op as [uuid ext now| |uuid|call|call|call]; try discriminate; intros _; cbn; unfold mbind, run_bind.
  - unfold create_account. pose proof (execute_cases (INSERT_ACCOUNT constraint uuid ext now) w) as H.
    destruct (execute _ w) as [[row|e] w']; cbn.
    + right. left. by exists uuid, ext, now, row.
    + destruct H as [->|[row H]]; [by left|right; left]. by exists uuid, ext, now, row.
  - left. unfold list_accounts, query, stmt. by destruct (faults w) as [|[] rest].
  - unfold delete_account, mbind, run_bind. pose proof (execute_cases (DELETE_ACCOUNT uuid) w) as H.
    destruct (execute _ w) as [[n|e] w']; cbn in *.
    + right. right. exists uuid. split; [done|]. by injection H.
    + destruct H as [->|[n H]]; [by left|right; right]. exists uuid. split; [done|]. by injection H.
Qed.

(** ** Creation *)

Lemma insert_effect uuid ext now d row d' :
  INSERT_ACCOUNT constraint uuid ext now d = (Ok row, d') ->
  let id := last_device_id d + 1 in
  row = MkAccountRow uuid ext id None now /\
  (forall k r, accounts d !! k = Some r -> ~ taken uuid ext r) /\
  d' = set_known (union {[id]}) (MkEngineDb (<[id := row]> (accounts d)) id (signal_db d) (proto_db d) (app_db d)).
Proof using Type.
  unfold INSERT_ACCOUNT. case_bool_decide as Hex; [discriminate|]. intros [= <- <-]. cbn. split_and!; [done| |done].
  intros k r Hr Ht. apply Hex. by exists k, r.
Qed.

Lemma insert_store_ok uuid ext now d row d' :
  INSERT_ACCOUNT constraint uuid ext now d = (Ok row, d') -> whole d -> whole d'.
Proof using Type.
  intros H [[Hid Hun] Hroot]. destruct (insert_effect _ _ _ _ _ _ H) as (-> & Hfree & ->).
  split; [|by apply rooted_grow; [|lia]]. split; cbn.
  - intros k r [[<- <-]|[Hne Hr]]%lookup_insert_Some; [by split|]. destruct (Hid k r Hr). split; [done|lia].
  - intros k1 r1 k2 r2 [[<- <-]|[Hne1 H1]]%lookup_insert_Some [[<- <-]|[Hne2 H2]]%lookup_insert_Some; cbn; [done| | |by eapply Hun].
    + intros Hs. exfalso. apply (Hfree k2 r2 H2). destruct Hs as [Hu|[He E]]; [by left|]. right. by rewrite <-E.
    + intros Hs. exfalso. apply (Hfree k1 r1 H1). destruct Hs as [Hu|[He E]]; [by left|]. right. by rewrite <-E.
Qed.

Lemma insert_rows uuid ext now d row d' k :
  INSERT_ACCOUNT constraint uuid ext now d = (Ok row, d') -> rows_of k d' = rows_of k d.
Proof using Type. by intros (_ & _ & ->)%insert_effect. Qed.

(** ** The history *)

Lemma run_whole op w : whole (db w) -> whole (db (run op w).2).
Proof using Type.
  intros Hw. destruct (store_of op) as [me|] eqn:E.
  - destruct (store_call_effect op me w E) as (Ea & El & H1 & H2 & H3). destruct Hw as [[Hid Hun] (K1 & K2 & K3)].
    split.
    + unfold store_ok. by rewrite Ea, El.
    + rewrite Ea. split_and!; [by eapply signal_own_rooted|by eapply proto_own_rooted|by eapply app_own_rooted].
  - destruct (account_op_effect op w E) as [->|[(uuid & ext & now & row & _ & H)|(uuid & _ & ->)]]; [done| |].
    + by eapply insert_store_ok.
    + destruct Hw. split; [by apply store_ok_cascade|by apply rooted_cascade].
Qed.

Lemma run_ops_whole ops w : whole (db w) -> whole (db (run_ops ops w)).
Proof using Type. revert w. induction ops as [|op ops IH]; intros w Hw; cbn; [done|]. by apply IH, run_whole. Qed.

(** An operation that is not about account [k] of uuid [u]. *)
Definition elsewhere (k : Z) (u : Uuid) (op : EngineOp) : Prop :=
  store_of op <> Some k /\ op <> DeleteAccount u.

Lemma run_elsewhere op w k row :
  whole (db w) -> accounts (db w) !! k = Some row -> elsewhere k (row_uuid row) op ->
  let d' := db (run op w).2 in
  accounts d' !! k = Some row /\ rows_of k d' = rows_of k (db w).
Proof using Type.
  intros [[Hid Hun] _] Hk [Hop Hdel]. cbv zeta. destruct (store_of op) as [me|] eqn:E.
  - split; [|by apply (store_call_rows op me); congruence].
    destruct (store_call_effect op me w E) as (-> & _). done.
  - destruct (account_op_effect op w E) as [->|[(uuid & ext & now & r & _ & H)|(uuid & -> & ->)]]; [done| |].
    + split; [|by eapply insert_rows]. destruct (insert_effect _ _ _ _ _ _ H) as (_ & _ & ->). cbn.
      rewrite lookup_insert_ne; [done|]. destruct (Hid k row Hk). lia.
    + unfold DELETE_ACCOUNT. cbn [snd]. set (dead := dom _).
      assert (Hn : k ∉ dead).
      { intros [r Hr]%elem_of_dom. apply map_lookup_filter_Some in Hr as [Hr Eu]. cbn in Eu.
        apply Hdel. f_equal. congruence. }
      split; [|by apply cascade_rows]. cbn. by apply map_lookup_filter_Some.
Qed.
End engine.

(** C18.  Whatever operations run on the engine, creations, deletions and the calls of every
    account's stores, and whatever statements fail on the way, the store stays whole: no table has
    a row of an account that does not exist, each store knows exactly the accounts there are, a
    row's id is its key and below the ids to come, and no uuid or external reference has two rows. *)
Theorem engine_keeps_store_whole `{crypto : Crypto} `{lib : Wacore} `{keys : Keys}
    `{!Message DeviceBlob} `{!Message HashStateWire} `{!Message AppStateSyncKeyWire}
    constraint cipher (ops : list EngineOp) (w : World EngineDb) :
  whole (db w) -> whole (db (engine_all constraint cipher ops w)).
Proof. apply run_ops_whole. Qed.

(** C19.  One account's rows are its own: while other accounts are created, deleted and written to,
    in any order and with any failures, an account stays, and every row of it in every table stays
    as it is. *)
Theorem account_isolated `{crypto : Crypto} `{lib : Wacore} `{keys : Keys}
    `{!Message DeviceBlob} `{!Message HashStateWire} `{!Message AppStateSyncKeyWire}
    constraint cipher (ops : list EngineOp) (w : World EngineDb) (k : Z) (row : AccountRow) :
  whole (db w) -> accounts (db w) !! k = Some row -> Forall (elsewhere k (row_uuid row)) ops ->
  let d' := db (engine_all constraint cipher ops w) in
  accounts d' !! k = Some row /\ rows_of k d' = rows_of k (db w).
Proof.
  intros Hw Hk Hops. revert w Hw Hk. induction Hops as [|op ops Hop _ IH]; intros w Hw Hk; [done|]. cbn.
  destruct (run_elsewhere constraint cipher op w k row Hw Hk Hop) as [Hk' Er].
  rewrite <-Er. apply IH; [by apply run_whole|done].
Qed.

(** ** The account operations *)

#[global] Instance before_row_total : Total before_row.
Proof. intros a b. unfold before_row. lia. Qed.

#[global] Instance before_row_trans : Transitive before_row.
Proof. intros a b c. unfold before_row. lia. Qed.

(** The life of an account, on a whole store.  A creation answers with a row of the uuid and
    reference asked, under an id above every id handed out before (a deleted account's id never
    comes back), and the account starts with no row in any table; on a database that does not fail
    it is refused only for a uuid or reference that is taken.  A deletion says whether there was
    such an account, and leaves no row of it in any table.  The list is every account, ordered by
    id. *)
Theorem account_lifecycle constraint (w : World EngineDb) :
  whole (db w) ->
  (forall uuid ext now row w', create_account constraint uuid ext now w = (Ok row, w') ->
     row = MkAccountRow uuid ext (device_id row) None now /\ last_device_id (db w) < device_id row /\
     last_device_id (db w') = device_id row /\
     accounts (db w') = <[device_id row := row]> (accounts (db w)) /\
     rows_of (device_id row) (db w') = rows_of (device_id row) empty_store) /\
  (forall uuid ext now, faults w = [] -> (forall k row, accounts (db w) !! k = Some row -> ~ taken uuid ext row) ->
     exists row w', create_account constraint uuid ext now w = (Ok row, w')) /\
  (forall uuid existed w', delete_account uuid w = (Ok existed, w') ->
     (existed = true <-> exists k row, accounts (db w) !! k = Some row /\ row_uuid row = uuid) /\
     last_device_id (db w') = last_device_id (db w) /\
     (forall k row, accounts (db w') !! k = Some row -> row_uuid row <> uuid) /\
     (forall k row, accounts (db w) !! k = Some row -> row_uuid row = uuid ->
        rows_of k (db w') = rows_of k empty_store)) /\
  (forall rows w', list_accounts w = (Ok rows, w') ->
     StronglySorted before_row rows /\ rows ≡ₚ (map_to_list (accounts (db w))).*2).
Proof.
  intros Hw. pose proof Hw as [[Hid Hun] Hroot]. split_and!.
  - intros uuid ext now row w' Hc. pose proof (execute_cases (INSERT_ACCOUNT constraint uuid ext now) w) as H.
    unfold create_account in Hc. rewrite Hc in H. pose proof (insert_rows constraint uuid ext now (db w) row (db w')) as Hrows.
    destruct (insert_effect _ _ _ _ _ _ _ H) as (-> & _ & Ed). cbn [device_id]. split_and!; [done|lia|by rewrite Ed..|].
    rewrite Hrows by done. apply (rooted_none (dom (accounts (db w)))); [done|].
    intros [r Hr]%elem_of_dom. destruct (Hid _ _ Hr). lia.
  - intros uuid ext now Hf Hfree. unfold create_account, execute, transaction, stmt. rewrite Hf. cbn. rewrite ?Hf. cbn.
    unfold INSERT_ACCOUNT. rewrite bool_decide_false; [cbn; rewrite ?Hf; by eexists _, _|].
    intros (k & row & Hr & Ht). by eapply Hfree.
  - intros uuid existed w' Hdel. unfold delete_account, mbind, run_bind in Hdel.
    pose proof (execute_cases (DELETE_ACCOUNT uuid) w) as H. destruct (execute _ w) as [[n|e] w1]; [|discriminate].
    injection Hdel as <- <-. unfold DELETE_ACCOUNT in H. set (dead := dom _) in H. injection H as <- Ed. rewrite <-Ed.
    assert (Hdead : forall k, k ∈ dead <-> exists row, accounts (db w) !! k = Some row /\ row_uuid row = uuid).
    { intros k. unfold dead. rewrite elem_of_dom. unfold is_Some. by setoid_rewrite map_lookup_filter_Some. }
    split_and!; [split|done| |].
    + rewrite Z.ltb_lt. intros Hn. assert (Hne : dead <> ∅) by (intros E; rewrite E in Hn; by rewrite size_empty in Hn).
      apply set_choose_L in Hne as [k Hk]. exists k. by apply Hdead.
    + intros (k & row & Hk). apply Z.ltb_lt. assert (Hin : k ∈ dead) by (apply Hdead; by exists row).
      assert (size dead <> 0%nat); [|lia]. intros E%size_empty_inv. set_solver.
    + intros k row [Hr Hn]%map_lookup_filter_Some Hu. apply Hn, Hdead. by exists row.
    + intros k row Hr Hu. assert (Hin : k ∈ dead) by (apply Hdead; by exists row).
      apply (rooted_none (dom (accounts (cascade dead (db w))))); [by apply rooted_cascade|].
      intros [r [_ Hn]%map_lookup_filter_Some]%elem_of_dom. done.
  - intros rows w' Hl. assert (rows = LIST_ACCOUNTS (db w)) as ->.
    { unfold list_accounts, query, stmt in Hl. destruct (faults w) as [|[] rest]; by inversion Hl. }
    split; [apply (StronglySorted_merge_sort before_row)|apply merge_sort_Permutation].
Qed.

(** ** Witnesses *)

Definition engine_error : StoreError := Database "constraint".

Lemma empty_whole : whole empty_store.
Proof. unfold whole, store_ok, rooted, signal_rooted, proto_rooted, app_rooted. cbn. rewrite !dom_empty_L.
  split_and!; try done; try (intros k [v Hv]; by rewrite lookup_empty in Hv).
Qed.

(** Two accounts, and a protocol-store row of the first. *)
Definition two_accounts : list EngineOp :=
  [ CreateAccount 11 (Some "alice") 5; CreateAccount 22 None 6; CreateAccount 33 (Some "alice") 7;
    OnProto (toy_proto 1 (StoreSent 9 "chat" "m" (str_bytes "hello"))) ].

Definition two_db : EngineDb :=
  db (engine_all (keys := toy_keys) engine_error (sealing toy_key) two_accounts (MkWorld empty_store [])).

Lemma engine_keeps_store_whole_witness :
  whole two_db /\ dom (accounts two_db) = {[1; 2]} /\ size (sent_messages (proto_db two_db)) = 1%nat.
Proof.
  split; [|split; vm_compute; reflexivity].
  apply (engine_keeps_store_whole (keys := toy_keys) engine_error (sealing toy_key) two_accounts (MkWorld empty_store [])).
  apply empty_whole.
Defined.

Lemma two_whole : whole two_db.
Proof. apply run_ops_whole, empty_whole. Qed.

Lemma account_isolated_witness :
  let ops := [ OnProto (toy_proto 2 (StoreSent 9 "chat" "m" [])); DeleteAccount 22; CreateAccount 44 None 8 ] in
  let d' := db (engine_all (keys := toy_keys) engine_error (sealing toy_key) ops (MkWorld two_db [])) in
  (accounts d' !! 1 = Some (MkAccountRow 11 (Some "alice") 1 None 5) /\ rows_of 1 d' = rows_of 1 two_db) /\
  dom (accounts d') = {[1; 3]}.
Proof.
  cbv zeta. split; [|vm_compute; reflexivity].
  apply (account_isolated (keys := toy_keys) engine_error (sealing toy_key) _ (MkWorld two_db []) 1
    (MkAccountRow 11 (Some "alice") 1 None 5)).
  - apply two_whole.
  - vm_compute. reflexivity.
  - repeat constructor; discriminate.
Defined.

Lemma account_lifecycle_witness :
  exists row w', create_account engine_error 55 (Some "bob") 9 (MkWorld two_db []) = (Ok row, w') /\ device_id row = 3.
Proof.
  destruct (account_lifecycle engine_error (MkWorld two_db []) two_whole) as (Hcreate & Hok & _ & _).
  destruct (Hok 55 (Some "bob") 9) as (row & w' & Hrun); [reflexivity| |].
  - intros k row Hr Ht.
    assert (H : bool_decide (map_Exists (fun _ r => taken 55 (Some "bob") r) (accounts two_db)) = false)
      by (vm_compute; reflexivity).
    apply bool_decide_eq_false in H. apply H. by exists k, row.
  - exists row, w'. split; [exact Hrun|]. pose proof (Hcreate _ _ _ _ _ Hrun) as (_ & _ & Hlast & _ & _).
    rewrite <-Hlast. vm_compute in Hrun. injection Hrun as <- <-. reflexivity.
Defined.
