(* ===== verification/Errors.v ===== *)
(** * Errors and the status a client sees (wamux-types/src/error.rs, wamux/src/error.rs)

    [WamuxError], its [tonic::Status], and how an error of a whatsapp-rust call becomes one.  What
    an [anyhow::Error] is made of is what the code asks of it: the chain of its causes, each of
    the one type it downcasts to, and its full text.  Which strings tonic takes as a metadata
    value is a parameter. *)

From Stdlib Require Strings.Ascii.
From S2P Require Import Prelude StoreError.

Definition in_u16 (z : Z) : Prop := 0 <= z < 2 ^ 16.

#[global] Instance in_u16_dec z : Decision (in_u16 z).
Proof. unfold in_u16. apply _. Defined.

(** What a cause in the chain downcasts to, with the fields the code reads; [display] is the
    library's own text of it. *)
Inductive Cause : Type :=
| ServerErrorCode (code : Z) (text : string)
| ClientIqServerError (code : Z) (text : string)
| WacoreIqServerError (code : Z) (text : string)
| DescriptionConflict (display : string)
| MexGraphQl (code : Z) (message : string)
| PollInvalidPoll (display : string)
| AppStateInvalidRequest (display : string)
| OtherCause.

(** The codes are [u16]s, a MEX code an [i32]. *)
Definition cause_ok (c : Cause) : Prop :=
  match c with
  | ServerErrorCode code _ | ClientIqServerError code _ | WacoreIqServerError code _ => in_u16 code
  | MexGraphQl code _ => in_i32 code
  | _ => True
  end.

Record AnyError : Type := MkAnyError { chain : list Cause; full_text : string (* [{:#}] *) }.

Inductive WamuxError : Type :=
| AccountNotFound (id : string)
| NotFound (message : string)
| NotConnected
| InvalidArgument (message : string)
| FailedPrecondition (message : string)
| ResourceExhausted (message : string)
| PeerNotAllowed (uid gid : option Z)
| Store (error : StoreError)
| Client (message : string)
| WaServer (code : Z) (text : string)
| Other (error : AnyError).

Abbreviation WamuxResult := (result WamuxError).

(** ** [tonic::Status] *)

Module Code.
Inductive t : Type :=
| InvalidArgument | NotFound | PermissionDenied | ResourceExhausted | FailedPrecondition
| Internal | Unavailable | Unauthenticated.
End Code.

Record Status : Type := MkStatus {
  st_code : Code.t;
  st_message : string;
  st_metadata : gmap string string;
}.

(** [str::is_ascii]. *)
Definition is_ascii (s : string) : bool := forallb (fun b => byte_val b <? 128) (str_bytes s).

Section status.
(** [MetadataValue::try_from(s).is_ok()]. *)
Context (metadata_value : string -> bool).

(** The [Display] of [WaServer]. *)
Definition wa_server_text (code : Z) (text : string) : string :=
  "whatsapp server rejected the request: code=" +:+ pretty code +:+ ", text='" +:+ text +:+ "'".

Definition grpc_code (code : Z) : Code.t :=
  if code =? 400 then Code.InvalidArgument
  else if code =? 401 then Code.Unauthenticated
  else if code =? 403 then Code.PermissionDenied
  else if code =? 404 then Code.NotFound
  else if code =? 405 then Code.PermissionDenied
  else if code =? 429 then Code.ResourceExhausted
  else Code.Unavailable.

Definition wa_server_status (code : Z) (text message : string) : Status :=
  let metadata : gmap string string :=
    if metadata_value (pretty code) then {["wa-code" := pretty code]} else ∅ in
  let metadata :=
    if is_ascii text && metadata_value text then <["wa-text" := text]> metadata else metadata in
  MkStatus (grpc_code code) message metadata.

Definition plain (code : Code.t) (message : string) : Status := MkStatus code message ∅.

(** [impl From<WamuxError> for tonic::Status], its logging apart. *)
Definition status_of (err : WamuxError) : Status :=
  match err with
  | AccountNotFound id => plain Code.NotFound ("account " +:+ id +:+ " not found")
  | NotFound message => plain Code.NotFound message
  | NotConnected => plain Code.FailedPrecondition "account is not connected"
  | InvalidArgument message => plain Code.InvalidArgument message
  | FailedPrecondition message => plain Code.FailedPrecondition message
  | ResourceExhausted message => plain Code.ResourceExhausted message
  | PeerNotAllowed _ _ => plain Code.PermissionDenied "peer not allowed"
  | Store _ | Other _ => plain Code.Internal "internal error"
  | Client _ => plain Code.Unavailable "whatsapp operation failed"
  | WaServer code text => wa_server_status code text (wa_server_text code text)
  end.
End status.

(** ** The errors of whatsapp-rust *)

Definition mex_server_rejection (cause : Cause) : option (Z * string) :=
  match cause with
  | MexGraphQl code message => if decide (in_u16 code) then Some (code, message) else None
  | _ => None
  end.

Definition iq_server_rejection (cause : Cause) : option (Z * string) :=
  match cause with
  | ServerErrorCode code text | ClientIqServerError code text | WacoreIqServerError code text =>
      Some (code, text)
  | DescriptionConflict display => Some (409, display)
  | _ => mex_server_rejection cause
  end.

Definition invalid_request_message (cause : Cause) : option string :=
  match cause with
  | PollInvalidPoll display | AppStateInvalidRequest display => Some display
  | _ => None
  end.

(** [Iterator::find_map]. *)
Definition find_map {A B} (f : A -> option B) (l : list A) : option B := head (omap f l).

Definition client_err (err : AnyError) : WamuxError :=
  match find_map iq_server_rejection (chain err) with
  | Some (code, text) => WaServer code text
  | None =>
      match find_map invalid_request_message (chain err) with
      | Some reason => InvalidArgument reason
      | None => Client (full_text err)
      end
  end.

(** ** What holds of them *)

Lemma find_map_skip {A B} (f : A -> option B) pre x b post :
  Forall (fun a => f a = None) pre -> f x = Some b -> find_map f (pre ++ x :: post) = Some b.
Proof.
  unfold find_map. intros Hpre Hx. induction Hpre as [|a pre Ha _ IH]; cbn; [by rewrite Hx|]. by rewrite Ha.
Qed.

Lemma find_map_none {A B} (f : A -> option B) l : Forall (fun a => f a = None) l -> find_map f l = None.
Proof. unfold find_map. induction 1 as [|a l Ha _ IH]; cbn; [done|]. by rewrite Ha. Qed.

Lemma find_map_from {A B} (f : A -> option B) l b : find_map f l = Some b -> exists a, a ∈ l /\ f a = Some b.
Proof.
  unfold find_map. induction l as [|a l IH]; cbn; [done|]. destruct (f a) as [c|] eqn:E; cbn.
  - intros [= <-]. exists a. split; [left|done].
  - intros H. destruct (IH H) as (x & Hx & Hfx). exists x. split; [by right|done].
Qed.

(** A decimal number is made of digits. *)
Definition is_digit (b : byte) : bool := (48 <=? byte_val b) && (byte_val b <=? 57).

Lemma str_bytes_cons c s : str_bytes (String c s) = Strings.Ascii.byte_of_ascii c :: str_bytes s.
Proof. done. Qed.

Lemma decimal_go_digits x s :
  forallb is_digit (str_bytes s) = true -> forallb is_digit (str_bytes (pretty_N_go x s)) = true.
Proof.
  revert s. induction (N.lt_wf_0 x) as [x _ IH]; intros s Hs.
  assert (x = 0 \/ 0 < x)%N as [->|Hx] by lia; [done|].
  rewrite pretty_N_go_step by done. apply IH; [by apply N.div_lt|].
  rewrite str_bytes_cons. cbn [forallb]. rewrite Hs, andb_true_r. unfold pretty_N_char. by repeat case_match.
Qed.

Lemma decimal_digits z : 0 <= z -> forallb is_digit (str_bytes (pretty z)) = true.
Proof.
  intros Hz. destruct z as [|p|p]; [done| |lia].
  change (forallb is_digit (str_bytes (pretty_N (N.pos p))) = true). unfold pretty_N.
  case_decide; [done|]. by apply decimal_go_digits.
Qed.

Lemma decimal_forallb (f : byte -> bool) z :
  0 <= z -> (forall b, is_digit b = true -> f b = true) -> forallb f (str_bytes (pretty z)) = true.
Proof.
  intros Hz Hf. pose proof (decimal_digits z Hz) as Hd. rewrite forallb_forall in Hd |- *.
  intros b Hb. by apply Hf, Hd.
Qed.

Lemma decimal_ascii code : in_u16 code -> is_ascii (pretty code) = true.
Proof. intros [H0 _]. apply decimal_forallb; [done|]. unfold is_digit. intros b Hb. lia. Qed.

Lemma rejection_code_ok cause code text :
  cause_ok cause -> iq_server_rejection cause = Some (code, text) -> in_u16 code.
Proof. destruct cause; cbn; intros Hok H; simplify_eq; try done; by case_decide; simplify_eq. Qed.

(** A cause that says nothing of the server's answer or of a refused request. *)
Definition opaque (c : Cause) : Prop :=
  iq_server_rejection c = None /\ invalid_request_message c = None.

(** C20.  No internal detail reaches a client.  A storage error, an internal error and an opaque
    error of a WhatsApp call are told apart by nothing but their kind, and a refused peer learns
    nothing of the credentials seen.  Only a rejection of the WhatsApp server carries metadata:
    its number always, as ASCII digits, and its text only when it is ASCII.  The first rejection
    in a chain of causes decides, whatever context wraps it, before any refused request; its
    number decides the code, and 409 and every number without a code of its own are told as
    unavailable with the number in the metadata. *)
Theorem status_hides_internals (metadata_value : string -> bool)
    (digits : forall code, in_u16 code -> metadata_value (pretty code) = true) :
  let status := status_of metadata_value in
  (forall e1 e2 x1, status (Store e1) = status (Store e2) /\ status (Other x1) = status (Store e1)) /\
  (forall u1 g1 u2 g2, status (PeerNotAllowed u1 g1) = status (PeerNotAllowed u2 g2)) /\
  (forall x1 x2, Forall opaque (chain x1) -> Forall opaque (chain x2) ->
     status (client_err x1) = status (client_err x2)) /\
  (forall x pre cause post code text, chain x = pre ++ cause :: post ->
     Forall (fun c => iq_server_rejection c = None) pre -> iq_server_rejection cause = Some (code, text) ->
     Forall cause_ok (chain x) ->
     let s := status (client_err x) in
     st_code s = grpc_code code /\ st_metadata s !! "wa-code" = Some (pretty code) /\
     st_metadata s !! "wa-text" = (if is_ascii text && metadata_value text then Some text else None)) /\
  (forall x key value, Forall cause_ok (chain x) -> st_metadata (status (client_err x)) !! key = Some value ->
     (key = "wa-code" \/ key = "wa-text") /\ is_ascii value = true) /\
  (forall e key value, st_metadata (status e) !! key = Some value -> exists code text, e = WaServer code text).
Proof.
  intros status. subst status. split_and!.
  - done.
  - done.
  - intros x1 x2 H1 H2. assert (Hc : forall x, Forall opaque (chain x) -> client_err x = Client (full_text x)).
    { intros x Hx. unfold client_err. rewrite !find_map_none; [done|..]; apply (Forall_impl _ _ _ Hx); by intros c []. }
    by rewrite !Hc.
  - intros x pre cause post code text Hx Hpre Hcause Hok. cbv zeta. unfold client_err. rewrite Hx.
    rewrite (find_map_skip _ pre cause (code, text)) by done. cbn.
    assert (Hcode : in_u16 code).
    { eapply rejection_code_ok; [|done]. rewrite Hx in Hok. rewrite Forall_app, Forall_cons in Hok. by destruct_and?. }
    rewrite digits by done. split_and!; [done|..]; destruct (is_ascii text && metadata_value text); by simplify_map_eq.
  - intros x key value Hok. unfold client_err.
    destruct (find_map iq_server_rejection (chain x)) as [[code text]|] eqn:E; [|by case_match].
    apply find_map_from in E as (cause & Hin & Hcause).
    assert (Hcode : in_u16 code) by (eapply rejection_code_ok; [|done]; by eapply Forall_forall in Hok).
    cbn. rewrite digits by done. pose proof (decimal_ascii code Hcode) as Hd.
    destruct (is_ascii text) eqn:Ha, (metadata_value text); cbn; intros H;
      repeat (apply lookup_insert_Some in H as [[<- <-]|[_ H]]); try (apply lookup_singleton_Some in H as [<- <-]);
      try done; (split; [by eauto|done]).
  - intros e key value. destruct e; cbn; rewrite ?lookup_empty; try done. eauto.
Qed.

(** ** Witness *)

(** Printable ASCII and the tab, or a byte above 0x7f. *)
Definition header_value (s : string) : bool :=
  forallb (fun b => (32 <=? byte_val b) && negb (byte_val b =? 127) || (byte_val b =? 9)) (str_bytes s).

Lemma header_digits code : in_u16 code -> header_value (pretty code) = true.
Proof. intros [H0 _]. apply decimal_forallb; [done|]. unfold is_digit. intros b Hb. lia. Qed.

Definition forbidden : AnyError :=
  MkAnyError [OtherCause; MexGraphQl (-1) "weird"; PollInvalidPoll "no options"; ClientIqServerError 403 "forbidden"] "query invite".

Lemma status_hides_internals_witness :
  status_of header_value (Store (Validation "secret")) = status_of header_value (Store (Connection "")) /\
  st_code (status_of header_value (client_err forbidden)) = Code.PermissionDenied.
Proof.
  pose proof (status_hides_internals header_value header_digits) as (Hint & _ & _ & Hrej & _ & _).
  split; [by apply (Hint (Validation "secret") (Connection "") forbidden)|].
  destruct (Hrej forbidden [OtherCause; MexGraphQl (-1) "weird"; PollInvalidPoll "no options"]
    (ClientIqServerError 403 "forbidden") [] 403 "forbidden") as (-> & _); [reflexivity| |reflexivity| |reflexivity].
  - by repeat constructor.
  - repeat constructor; unfold in_i32, in_u16; lia.
Defined.
