(* ===== verification/Wire.v ===== *)
(** * The wire schema the conversions read (crates/wamux-proto/proto)

    The messages and enums of the proto files, as prost gives them: an unset message field is
    [None], a string or number that is unset is its zero, an enum field is a raw [i32]. *)

From S2P Require Import Prelude.

Module pb.
(** ** common.proto *)

Record Jid : Type := MkJid { value : string }.

(** [Option<pb::Jid>::unwrap_or_default]. *)
Definition jid_or_default (jid : option Jid) : Jid := default (MkJid "") jid.

Inductive Ref : Type := Uuid (uuid : string) | ExternalRef (external : string).

Record AccountRef : Type := MkAccountRef { ref : option Ref }.

Record MessageKey : Type := MkMessageKey {
  key_chat : option Jid;
  key_id : string;
  key_from_me : bool;
  key_participant : option Jid;
}.

Record Mention : Type := MkMention { mention_jid : option Jid }.

Record QuoteContext : Type := MkQuoteContext {
  quoted : option MessageKey;
  quote_participant : option Jid;
}.

Record MediaDescriptor : Type := MkMediaDescriptor {
  md_direct_path : string;
  md_media_key : bytes;
  md_file_enc_sha256 : bytes;
  md_file_sha256 : bytes;
  md_file_length : Z;
  md_mime_type : string;
  md_media_type : Z;
}.

(** ** messaging.proto *)

Record LinkPreview : Type := MkLinkPreview {
  lp_matched_text : string;
  lp_title : string;
  lp_description : string;
  lp_jpeg_thumbnail : bytes;
  lp_preview_type : Z;
}.

Record SendTextRequest : Type := MkSendTextRequest {
  stx_account : option AccountRef;
  stx_to : option Jid;
  stx_text : string;
  stx_mentions : list Mention;
  stx_quote : option QuoteContext;
  stx_link_preview : option LinkPreview;
  stx_ephemeral_seconds : Z;
  stx_quoted_message : bytes;
}.

Record SendMediaHeader : Type := MkSendMediaHeader {
  smh_account : option AccountRef;
  smh_to : option Jid;
  smh_mime_type : string;
  smh_caption : string;
  smh_mentions : list Mention;
  smh_quote : option QuoteContext;
  smh_media_type : Z;
  smh_filename : string;
  smh_ptt : bool;
  smh_seconds : Z;
  smh_waveform : bytes;
  smh_ephemeral_seconds : Z;
  smh_ptv : bool;
  smh_quoted_message : bytes;
}.

Record SendContactRequest : Type := MkSendContactRequest {
  sc_account : option AccountRef;
  sc_to : option Jid;
  sc_display_name : string;
  sc_vcard : string;
  sc_quote : option QuoteContext;
  sc_quoted_message : bytes;
}.

Record SendPollRequest : Type := MkSendPollRequest {
  sp_account : option AccountRef;
  sp_to : option Jid;
  sp_name : string;
  sp_options : list string;
  sp_selectable_count : Z;
}.

Record SendPollVoteRequest : Type := MkSendPollVoteRequest {
  spv_account : option AccountRef;
  spv_chat : option Jid;
  spv_poll_id : string;
  spv_poll_creator : option Jid;
  spv_message_secret : bytes;
  spv_options : list string;
}.

Record PollVote : Type := MkPollVote {
  pv_voter : option Jid;
  pv_enc_payload : bytes;
  pv_enc_iv : bytes;
}.

Record AggregatePollVotesRequest : Type := MkAggregatePollVotesRequest {
  ap_account : option AccountRef;
  ap_poll_id : string;
  ap_poll_creator : option Jid;
  ap_message_secret : bytes;
  ap_options : list string;
  ap_votes : list PollVote;
}.

Record PostStatusTextRequest : Type := MkPostStatusTextRequest {
  pst_account : option AccountRef;
  pst_text : string;
  pst_background_argb : Z;
  pst_font : Z;
  pst_recipients : list Jid;
}.

Record PostStatusMediaHeader : Type := MkPostStatusMediaHeader {
  psm_account : option AccountRef;
  psm_media_type : Z;
  psm_mime_type : string;
  psm_thumbnail : bytes;
  psm_caption : string;
  psm_seconds : Z;
  psm_recipients : list Jid;
}.

Record RevokeStatusRequest : Type := MkRevokeStatusRequest {
  rs_account : option AccountRef;
  rs_message_id : string;
  rs_recipients : list Jid;
}.

(** The reply messages of the [oneof]. *)
Inductive Reply : Type :=
| ReplyButton (selected_id display_text : string)
| ReplyList (selected_row_id title description : string)
| ReplyTemplate (selected_id display_text : string) (selected_index : Z)
| ReplyNativeFlow (name params_json body_text : string) (version : Z).

Record SendInteractiveReplyRequest : Type := MkSendInteractiveReplyRequest {
  sir_account : option AccountRef;
  sir_to : option Jid;
  sir_quote : option QuoteContext;
  sir_quoted_message : bytes;
  sir_reply : option Reply;
}.

(** ** newsletters.proto *)

Record GetNewsletterMessagesRequest : Type := MkGetNewsletterMessagesRequest {
  gnm_account : option AccountRef;
  gnm_jid : option Jid;
  gnm_count : Z;
  gnm_before : Z;
}.

Record SendNewsletterPollVoteRequest : Type := MkSendNewsletterPollVoteRequest {
  snv_account : option AccountRef;
  snv_jid : option Jid;
  snv_server_id : Z;
  snv_option_hashes : list bytes;
}.

Record GetMyNewsletterAddOnsRequest : Type := MkGetMyNewsletterAddOnsRequest {
  gma_account : option AccountRef;
  gma_jid : option Jid;
  gma_limit : Z;
}.
End pb.

(** ** Enums

    [i32] to variant ([TryFrom<i32>]), variant to [i32] and to its proto name. *)
Class WireEnum (E : Type) : Type := {
  variants : list E;
  number : E -> Z;
  as_str_name : E -> string;
}.

(** prost's [TryFrom<i32>]: the variant of that number. *)
Definition try_from {E} `{WireEnum E} (value : Z) : option E :=
  head (filter (fun e => number e = value) variants).

(** Every variant is listed, and no two have a number in common. *)
Class WireEnumLaws (E : Type) `{WireEnum E} : Prop := {
  variants_all e : e ∈ variants;
  number_inj : Inj (=) (=) number;
}.

#[export] Existing Instance number_inj.

Lemma try_from_some {E} `{WireEnumLaws E} (value : Z) (e : E) : try_from value = Some e <-> number e = value.
Proof.
  unfold try_from. set (l := filter _ variants).
  assert (Hl : forall x, x ∈ l <-> number x = value).
  { intros x. unfold l. rewrite list_elem_of_filter. pose proof (variants_all x). naive_solver. }
  destruct l as [|x l']; cbn.
  - split; [done|]. intros H1%Hl. by apply elem_of_nil in H1.
  - assert (Hx : number x = value) by (apply Hl; left). split; [by intros [= ->]|].
    intros He. f_equal. apply number_inj. congruence.
Qed.

(** The laws of a concrete enum, by enumeration. *)
Ltac wire_enum :=
  split; [by intros []; unfold variants; cbn; set_solver|by intros [] []].

Module MediaType.
Inductive t : Type :=
| Unspecified | Unknown | Image | Video | Audio | Document | Sticker | StickerPack | StickerPackThumbnail.
End MediaType.

#[export] Instance media_type_enum : WireEnum MediaType.t := {
  variants := [MediaType.Unspecified; MediaType.Unknown; MediaType.Image; MediaType.Video; MediaType.Audio;
               MediaType.Document; MediaType.Sticker; MediaType.StickerPack; MediaType.StickerPackThumbnail];
  number e := match e with
    | MediaType.Unspecified => 0 | MediaType.Unknown => 1 | MediaType.Image => 2 | MediaType.Video => 3
    | MediaType.Audio => 4 | MediaType.Document => 5 | MediaType.Sticker => 6 | MediaType.StickerPack => 7
    | MediaType.StickerPackThumbnail => 8 end;
  as_str_name e := match e with
    | MediaType.Unspecified => "MEDIA_TYPE_UNSPECIFIED" | MediaType.Unknown => "MEDIA_TYPE_UNKNOWN"
    | MediaType.Image => "MEDIA_TYPE_IMAGE" | MediaType.Video => "MEDIA_TYPE_VIDEO"
    | MediaType.Audio => "MEDIA_TYPE_AUDIO" | MediaType.Document => "MEDIA_TYPE_DOCUMENT"
    | MediaType.Sticker => "MEDIA_TYPE_STICKER" | MediaType.StickerPack => "MEDIA_TYPE_STICKER_PACK"
    | MediaType.StickerPackThumbnail => "MEDIA_TYPE_STICKER_PACK_THUMBNAIL" end;
}.

#[export] Instance media_type_laws : WireEnumLaws MediaType.t.
Proof. wire_enum. Qed.

Module PresenceWire.
Inductive t : Type := Unspecified | Unknown | Available | Unavailable | Composing | Recording | Paused.
End PresenceWire.

#[export] Instance presence_enum : WireEnum PresenceWire.t := {
  variants := [PresenceWire.Unspecified; PresenceWire.Unknown; PresenceWire.Available; PresenceWire.Unavailable;
               PresenceWire.Composing; PresenceWire.Recording; PresenceWire.Paused];
  number e := match e with
    | PresenceWire.Unspecified => 0 | PresenceWire.Unknown => 1 | PresenceWire.Available => 2
    | PresenceWire.Unavailable => 3 | PresenceWire.Composing => 4 | PresenceWire.Recording => 5
    | PresenceWire.Paused => 6 end;
  as_str_name e := match e with
    | PresenceWire.Unspecified => "PRESENCE_STATE_UNSPECIFIED" | PresenceWire.Unknown => "PRESENCE_STATE_UNKNOWN"
    | PresenceWire.Available => "PRESENCE_STATE_AVAILABLE" | PresenceWire.Unavailable => "PRESENCE_STATE_UNAVAILABLE"
    | PresenceWire.Composing => "PRESENCE_STATE_COMPOSING" | PresenceWire.Recording => "PRESENCE_STATE_RECORDING"
    | PresenceWire.Paused => "PRESENCE_STATE_PAUSED" end;
}.

#[export] Instance presence_laws : WireEnumLaws PresenceWire.t.
Proof. wire_enum. Qed.

(** The three group settings share one shape: two modes, by who may act. *)
Module AddModeWire.
Inductive t : Type := Unspecified | Unknown | AdminAdd | AllMemberAdd.
End AddModeWire.

#[export] Instance add_mode_enum : WireEnum AddModeWire.t := {
  variants := [AddModeWire.Unspecified; AddModeWire.Unknown; AddModeWire.AdminAdd; AddModeWire.AllMemberAdd];
  number e := match e with
    | AddModeWire.Unspecified => 0 | AddModeWire.Unknown => 1 | AddModeWire.AdminAdd => 2
    | AddModeWire.AllMemberAdd => 3 end;
  as_str_name e := match e with
    | AddModeWire.Unspecified => "GROUP_MEMBER_ADD_MODE_UNSPECIFIED"
    | AddModeWire.Unknown => "GROUP_MEMBER_ADD_MODE_UNKNOWN"
    | AddModeWire.AdminAdd => "GROUP_MEMBER_ADD_MODE_ADMIN_ADD"
    | AddModeWire.AllMemberAdd => "GROUP_MEMBER_ADD_MODE_ALL_MEMBER_ADD" end;
}.

#[export] Instance add_mode_laws : WireEnumLaws AddModeWire.t.
Proof. wire_enum. Qed.

Module LinkModeWire.
Inductive t : Type := Unspecified | Unknown | AdminLink | AllMemberLink.
End LinkModeWire.

#[export] Instance link_mode_enum : WireEnum LinkModeWire.t := {
  variants := [LinkModeWire.Unspecified; LinkModeWire.Unknown; LinkModeWire.AdminLink; LinkModeWire.AllMemberLink];
  number e := match e with
    | LinkModeWire.Unspecified => 0 | LinkModeWire.Unknown => 1 | LinkModeWire.AdminLink => 2
    | LinkModeWire.AllMemberLink => 3 end;
  as_str_name e := match e with
    | LinkModeWire.Unspecified => "GROUP_MEMBER_LINK_MODE_UNSPECIFIED"
    | LinkModeWire.Unknown => "GROUP_MEMBER_LINK_MODE_UNKNOWN"
    | LinkModeWire.AdminLink => "GROUP_MEMBER_LINK_MODE_ADMIN_LINK"
    | LinkModeWire.AllMemberLink => "GROUP_MEMBER_LINK_MODE_ALL_MEMBER_LINK" end;
}.

#[export] Instance link_mode_laws : WireEnumLaws LinkModeWire.t.
Proof. wire_enum. Qed.

Module ShareWire.
Inductive t : Type := Unspecified | Unknown | AdminShare | AllMemberShare.
End ShareWire.

#[export] Instance share_enum : WireEnum ShareWire.t := {
  variants := [ShareWire.Unspecified; ShareWire.Unknown; ShareWire.AdminShare; ShareWire.AllMemberShare];
  number e := match e with
    | ShareWire.Unspecified => 0 | ShareWire.Unknown => 1 | ShareWire.AdminShare => 2
    | ShareWire.AllMemberShare => 3 end;
  as_str_name e := match e with
    | ShareWire.Unspecified => "GROUP_MEMBER_SHARE_HISTORY_MODE_UNSPECIFIED"
    | ShareWire.Unknown => "GROUP_MEMBER_SHARE_HISTORY_MODE_UNKNOWN"
    | ShareWire.AdminShare => "GROUP_MEMBER_SHARE_HISTORY_MODE_ADMIN_SHARE"
    | ShareWire.AllMemberShare => "GROUP_MEMBER_SHARE_HISTORY_MODE_ALL_MEMBER_SHARE" end;
}.

#[export] Instance share_laws : WireEnumLaws ShareWire.t.
Proof. wire_enum. Qed.
