(* ===== verification/RequestEnums.v ===== *)
(** * Request enums: media kinds, presence states, group settings

    wamux-types' request_enum.rs, media_kind.rs, presence_state.rs and group_setting_modes.rs:
    every operation takes its own subset of a wire enum and refuses everything else with one
    message. *)

From S2P Require Import Prelude Errors Wire.

(** ** request_enum.rs *)

Definition refusal (field : string) (accepted : list string) (shown : string) : WamuxError :=
  InvalidArgument (field +:+ " must be one of " +:+ String.concat "|" accepted +:+ ", got " +:+ shown).

Definition shown_value (name : option string) (value : Z) : string :=
  match name with
  | Some name => name
  | None => pretty value
  end.

(** ** media_kind.rs *)

Inductive MediaKind : Type :=
| Image | Video | Audio | Document | Sticker | StickerPack | StickerPackThumbnail.

#[global] Instance MediaKind_eq_dec : EqDecision MediaKind.
Proof. solve_decision. Defined.

Definition ALL_MEDIA : list MediaKind :=
  [Image; Video; Audio; Document; Sticker; StickerPack; StickerPackThumbnail].

Definition media_to_wire (kind : MediaKind) : MediaType.t :=
  match kind with
  | Image => MediaType.Image
  | Video => MediaType.Video
  | Audio => MediaType.Audio
  | Document => MediaType.Document
  | Sticker => MediaType.Sticker
  | StickerPack => MediaType.StickerPack
  | StickerPackThumbnail => MediaType.StickerPackThumbnail
  end.

Definition MEDIA_TYPE_FIELD : string := "media_type".
Definition STATUS_FIELD : string := "status media_type".

Definition media_from_wire (value : Z) : option MediaKind :=
  match try_from value with
  | Some MediaType.Image => Some Image
  | Some MediaType.Video => Some Video
  | Some MediaType.Audio => Some Audio
  | Some MediaType.Document => Some Document
  | Some MediaType.Sticker => Some Sticker
  | Some MediaType.StickerPack => Some StickerPack
  | Some MediaType.StickerPackThumbnail => Some StickerPackThumbnail
  | Some (MediaType.Unspecified | MediaType.Unknown) | None => None
  end.

(** [shown], of any wire enum. *)
Definition shown (E : Type) `{WireEnum E} (value : Z) : string :=
  shown_value (as_str_name <$> (try_from value : option E)) value.

Definition media_refuse (field : string) (subset : list MediaKind) (got : string) : WamuxError :=
  refusal field ((fun kind => as_str_name (media_to_wire kind)) <$> subset) got.

Definition parse_within (value : Z) (field : string) (subset : list MediaKind) : WamuxResult MediaKind :=
  ok_or (kind ← media_from_wire value; if decide (kind ∈ subset) then Some kind else None)
    (media_refuse field subset (shown MediaType.t value)).

Definition parse_sendable (value : Z) : WamuxResult MediaKind :=
  parse_within value MEDIA_TYPE_FIELD (take 5 ALL_MEDIA).
Definition parse_status (value : Z) : WamuxResult MediaKind :=
  parse_within value STATUS_FIELD (take 2 ALL_MEDIA).
Definition parse_downloadable (value : Z) : WamuxResult MediaKind :=
  parse_within value MEDIA_TYPE_FIELD ALL_MEDIA.

Definition refused_as_sendable (kind : MediaKind) : WamuxError :=
  media_refuse MEDIA_TYPE_FIELD (take 5 ALL_MEDIA) (as_str_name (media_to_wire kind)).
Definition refused_as_status (kind : MediaKind) : WamuxError :=
  media_refuse STATUS_FIELD (take 2 ALL_MEDIA) (as_str_name (media_to_wire kind)).

(** ** presence_state.rs *)

Inductive PresenceState : Type := Available | Unavailable | Composing | Recording | Paused.

Definition ALL_PRESENCE : list PresenceState := [Available; Unavailable; Composing; Recording; Paused].

Definition presence_to_wire (state : PresenceState) : PresenceWire.t :=
  match state with
  | Available => PresenceWire.Available
  | Unavailable => PresenceWire.Unavailable
  | Composing => PresenceWire.Composing
  | Recording => PresenceWire.Recording
  | Paused => PresenceWire.Paused
  end.

Definition refuse_state (value : Z) : WamuxError :=
  refusal "state" ((fun state => as_str_name (presence_to_wire state)) <$> ALL_PRESENCE)
    (shown PresenceWire.t value).

Definition parse_presence (value : Z) : WamuxResult PresenceState :=
  let parsed := match try_from value with
    | Some PresenceWire.Available => Some Available
    | Some PresenceWire.Unavailable => Some Unavailable
    | Some PresenceWire.Composing => Some Composing
    | Some PresenceWire.Recording => Some Recording
    | Some PresenceWire.Paused => Some Paused
    | Some (PresenceWire.Unspecified | PresenceWire.Unknown) | None => None
    end in
  ok_or parsed (refuse_state value).

(** ** group_setting_modes.rs *)

(** wacore's modes. *)
Inductive MemberAddMode : Type := AdminAdd | AllMemberAdd.
Inductive MemberLinkMode : Type := AdminLink | AllMemberLink.
Inductive MemberShareHistoryMode : Type := AdminShare | AllMemberShare.

Definition refuse_mode (value : Z) (name : option string) (accepted : list string) : WamuxError :=
  refusal "mode" accepted (shown_value name value).

Definition parse_member_add_mode (value : Z) : WamuxResult MemberAddMode :=
  let parsed := match try_from value with
    | Some AddModeWire.AdminAdd => Some AdminAdd
    | Some AddModeWire.AllMemberAdd => Some AllMemberAdd
    | Some (AddModeWire.Unspecified | AddModeWire.Unknown) | None => None
    end in
  ok_or parsed (refuse_mode value (as_str_name <$> (try_from value : option AddModeWire.t))
    [as_str_name AddModeWire.AdminAdd; as_str_name AddModeWire.AllMemberAdd]).

Definition parse_member_link_mode (value : Z) : WamuxResult MemberLinkMode :=
  let parsed := match try_from value with
    | Some LinkModeWire.AdminLink => Some AdminLink
    | Some LinkModeWire.AllMemberLink => Some AllMemberLink
    | Some (LinkModeWire.Unspecified | LinkModeWire.Unknown) | None => None
    end in
  ok_or parsed (refuse_mode value (as_str_name <$> (try_from value : option LinkModeWire.t))
    [as_str_name LinkModeWire.AdminLink; as_str_name LinkModeWire.AllMemberLink]).

Definition parse_member_share_history_mode (value : Z) : WamuxResult MemberShareHistoryMode :=
  let parsed := match try_from value with
    | Some ShareWire.AdminShare => Some AdminShare
    | Some ShareWire.AllMemberShare => Some AllMemberShare
    | Some (ShareWire.Unspecified | ShareWire.Unknown) | None => None
    end in
  ok_or parsed (refuse_mode value (as_str_name <$> (try_from value : option ShareWire.t))
    [as_str_name ShareWire.AdminShare; as_str_name ShareWire.AllMemberShare]).

(** ** What the parsers accept *)

(** A parser that takes exactly the wire values of [accepted] and refuses any other value with the
    names of [accepted] and what it got. *)
Definition accepts_exactly {E K} `{WireEnum E} (field : string) (accepted : list K) (to_wire : K -> E)
    (parse : Z -> WamuxResult K) : Prop :=
  (forall value kind, parse value = Ok kind <-> kind ∈ accepted /\ value = number (to_wire kind)) /\
  (forall value e, parse value = Err e ->
     e = refusal field ((fun kind => as_str_name (to_wire kind)) <$> accepted) (shown E value)).

(** The shape every parser has: a partial map from variants, refused when undefined. *)
Lemma accepts_exactly_intro {E K} `{WireEnumLaws E} field (accepted : list K) (to_wire : K -> E)
    (named : E -> option K) parse :
  (forall value, parse value =
     ok_or (e ← try_from value; named e)
       (refusal field ((fun kind => as_str_name (to_wire kind)) <$> accepted) (shown E value))) ->
  (forall e kind, named e = Some kind <-> kind ∈ accepted /\ e = to_wire kind) ->
  accepts_exactly field accepted to_wire parse.
Proof.
  intros Hparse Hnamed. split.
  - intros value kind. rewrite Hparse. destruct (try_from value) as [e|] eqn:E1; cbn.
    + apply try_from_some in E1 as <-. split.
      * destruct (named e) as [k|] eqn:E2; cbn; [|done]. intros [= <-].
        apply Hnamed in E2 as [Hk ->]. done.
      * intros [Hk Ee]. apply number_inj in Ee as ->.
        by rewrite (proj2 (Hnamed (to_wire kind) kind)).
    + split; [done|]. intros [_ ->].
      pose proof (proj2 (try_from_some _ (to_wire kind)) eq_refl). congruence.
  - intros value e. rewrite Hparse. destruct (_ ≫= _); cbn; congruence.
Qed.

Definition media_named (subset : list MediaKind) (e : MediaType.t) : option MediaKind :=
  kind ← match e with
    | MediaType.Image => Some Image
    | MediaType.Video => Some Video
    | MediaType.Audio => Some Audio
    | MediaType.Document => Some Document
    | MediaType.Sticker => Some Sticker
    | MediaType.StickerPack => Some StickerPack
    | MediaType.StickerPackThumbnail => Some StickerPackThumbnail
    | MediaType.Unspecified | MediaType.Unknown => None
    end;
  if decide (kind ∈ subset) then Some kind else None.

Lemma parse_within_accepts field subset :
  accepts_exactly field subset media_to_wire (fun value => parse_within value field subset).
Proof.
  apply (accepts_exactly_intro _ _ _ (media_named subset)).
  - intros value. unfold parse_within, media_refuse, media_from_wire, media_named.
    by destruct (try_from value) as [[]|].
  - intros e kind. unfold media_named. destruct e, kind; cbn; try case_decide; naive_solver.
Qed.

(** Close a parser over a closed enum. *)
Ltac accepts named :=
  apply (accepts_exactly_intro _ _ _ named);
  [ intros value; unfold parse_presence, refuse_state, parse_member_add_mode, parse_member_link_mode,
      parse_member_share_history_mode, refuse_mode, shown; destruct (try_from value) as [[]|]; reflexivity
  | intros e kind; split;
    [destruct e; cbn; intros [= <-]; (split; [repeat constructor|done])|intros [_ ->]; by destruct kind] ].

(** Every request enum is read exactly.  Each parser takes a number if and only if it is the
    wire number of a value its operation accepts, and gives that value: five kinds of media can
    be sent, two posted as a status and all seven downloaded, five presence states set, and two
    modes for each group setting.  Every other [i32], the unset and the unknown variant and the
    numbers outside the enum alike, is refused with the one message that lists the accepted names
    and shows the name or the number that came; the refusals the domain gives for a kind that got
    that far are the parsers' own. *)
Theorem request_enums_exact :
  accepts_exactly "media_type" [Image; Video; Audio; Document; Sticker] media_to_wire parse_sendable /\
  accepts_exactly "status media_type" [Image; Video] media_to_wire parse_status /\
  accepts_exactly "media_type" ALL_MEDIA media_to_wire parse_downloadable /\
  accepts_exactly "state" ALL_PRESENCE presence_to_wire parse_presence /\
  accepts_exactly "mode" [AdminAdd; AllMemberAdd]
    (fun m => match m with AdminAdd => AddModeWire.AdminAdd | AllMemberAdd => AddModeWire.AllMemberAdd end)
    parse_member_add_mode /\
  accepts_exactly "mode" [AdminLink; AllMemberLink]
    (fun m => match m with AdminLink => LinkModeWire.AdminLink | AllMemberLink => LinkModeWire.AllMemberLink end)
    parse_member_link_mode /\
  accepts_exactly "mode" [AdminShare; AllMemberShare]
    (fun m => match m with AdminShare => ShareWire.AdminShare | AllMemberShare => ShareWire.AllMemberShare end)
    parse_member_share_history_mode /\
  (forall kind, parse_sendable (number (media_to_wire kind)) =
     if decide (kind ∈ take 5 ALL_MEDIA) then Ok kind else Err (refused_as_sendable kind)) /\
  (forall kind, parse_status (number (media_to_wire kind)) =
     if decide (kind ∈ take 2 ALL_MEDIA) then Ok kind else Err (refused_as_status kind)).
Proof.
  split_and!; [apply parse_within_accepts..| | | | |by intros []|by intros []].
  - accepts (fun e => match e with
      | PresenceWire.Available => Some Available | PresenceWire.Unavailable => Some Unavailable
      | PresenceWire.Composing => Some Composing | PresenceWire.Recording => Some Recording
      | PresenceWire.Paused => Some Paused | _ => None end).
  - accepts (fun e => match e with
      | AddModeWire.AdminAdd => Some AdminAdd | AddModeWire.AllMemberAdd => Some AllMemberAdd | _ => None end).
  - accepts (fun e => match e with
      | LinkModeWire.AdminLink => Some AdminLink | LinkModeWire.AllMemberLink => Some AllMemberLink | _ => None end).
  - accepts (fun e => match e with
      | ShareWire.AdminShare => Some AdminShare | ShareWire.AllMemberShare => Some AllMemberShare | _ => None end).
Qed.
