(* ===== verification/Jids.v ===== *)
(** * Identifiers, parsed once at the boundary

    wamux-types' jid.rs, account.rs, message_id.rs and lid.rs.  The library's [Jid] and the [uuid]
    crate are parameters: their parse, their [Display] and the server of a jid. *)

From S2P Require Import Prelude Errors Wire.

(** wacore_binary's [Jid] and [uuid::Uuid]. *)
Class LibIds : Type := {
  LJid : Type;
  ljid_eq_dec :: EqDecision LJid;
  from_str : string -> result string LJid;   (* the error by its [Display] *)
  jid_display : LJid -> string;
  Server : Type;
  server_eq_dec :: EqDecision Server;
  server : LJid -> Server;
  ServerGroup : Server;
  ServerNewsletter : Server;
  LUuid : Type;
  parse_str : string -> option LUuid;
  uuid_display : LUuid -> string;
}.

(** What is printed parses back. *)
Class LibIdsLaws (ids : LibIds) : Prop := {
  jid_roundtrip s j : from_str s = Ok j -> from_str (jid_display j) = Ok j;
  jid_display_nonempty s j : from_str s = Ok j -> jid_display j <> "";
  uuid_roundtrip u : parse_str (uuid_display u) = Some u;
}.

Section ids.
Context `{ids : LibIds}.

Record Jid : Type := MkJid { as_lib : LJid }.
Record GroupJid : Type := MkGroupJid { group_as_jid : Jid }.
Record NewsletterJid : Type := MkNewsletterJid { newsletter_as_jid : Jid }.

#[global] Instance Jid_eq_dec : EqDecision Jid.
Proof. solve_decision. Defined.

(** ** jid.rs *)

Definition jid_parse (value : string) : WamuxResult Jid :=
  if str_is_empty value then Err (InvalidArgument "empty jid")
  else map_err (fun e => InvalidArgument ("invalid jid '" +:+ value +:+ "': " +:+ e)) (MkJid <$> from_str value).

Definition parse_optional (value : string) : WamuxResult (option Jid) :=
  if str_is_empty value then Ok None else Some <$> jid_parse value.

(** [impl TryFrom<pb::Jid> for Jid]. *)
Definition jid_try_from (jid : pb.Jid) : WamuxResult Jid :=
  map_err (fun err => match err with
    | InvalidArgument message =>
        if decide (message = "empty jid") then InvalidArgument "missing jid" else InvalidArgument message
    | other => other
    end) (jid_parse (pb.value jid)).

Definition from_required_wire (jid : option pb.Jid) : WamuxResult Jid := jid_try_from (pb.jid_or_default jid).

Definition from_required_wire_list (jids : list pb.Jid) : WamuxResult (list Jid) :=
  mapM (fun jid => from_required_wire (Some jid)) jids.

Definition from_optional_wire (jid : option pb.Jid) : WamuxResult (option Jid) :=
  match jid with
  | Some jid => if str_is_empty (pb.value jid) then Ok None else Some <$> jid_parse (pb.value jid)
  | None => Ok None
  end.

Definition relay_jid (value : string) : option pb.Jid :=
  if str_is_empty value then None else Some (pb.MkJid value).

Definition relay_lib_jid (jid : LJid) : option pb.Jid := relay_jid (jid_display jid).

Definition relay_optional_lib_jid (jid : option LJid) : option pb.Jid := jid ≫= relay_lib_jid.

(** [impl From<Jid> for pb::Jid]. *)
Definition jid_to_wire (jid : Jid) : pb.Jid := pb.MkJid (jid_display (as_lib jid)).

Definition group_parse (value : string) : WamuxResult GroupJid :=
  jid ← jid_parse value;
  if decide (server (as_lib jid) <> ServerGroup) then
    Err (InvalidArgument ("'" +:+ value +:+ "' is not a group: expected a jid ending in @g.us"))
  else Ok (MkGroupJid jid).

Definition group_from_required_wire (jid : option pb.Jid) : WamuxResult GroupJid :=
  let value := pb.value (pb.jid_or_default jid) in
  if str_is_empty value then Err (InvalidArgument "missing jid") else group_parse value.

Definition newsletter_parse (value : string) : WamuxResult NewsletterJid :=
  jid ← jid_parse value;
  if decide (server (as_lib jid) <> ServerNewsletter) then
    Err (InvalidArgument ("'" +:+ value +:+ "' is not a channel: expected a jid ending in @newsletter"))
  else Ok (MkNewsletterJid jid).

Definition newsletter_from_required_wire (jid : option pb.Jid) : WamuxResult NewsletterJid :=
  let value := pb.value (pb.jid_or_default jid) in
  if str_is_empty value then Err (InvalidArgument "missing jid") else newsletter_parse value.

(** ** account.rs *)

Record AccountId : Type := MkAccountId { as_uuid : LUuid }.
Record ExternalRef : Type := MkExternalRef { external_as_str : string }.

Inductive AccountRef : Type := RefId (id : AccountId) | RefExternal (external : ExternalRef).

Definition account_id_parse (value : string) : WamuxResult AccountId :=
  MkAccountId <$> ok_or (parse_str value) (InvalidArgument ("bad uuid '" +:+ value +:+ "'")).

Definition account_from_proto (account : option pb.AccountRef) : WamuxResult AccountRef :=
  match account ≫= pb.ref with
  | Some (pb.Uuid uuid) => RefId <$> account_id_parse uuid
  | Some (pb.ExternalRef external) => Ok (RefExternal (MkExternalRef external))
  | None => Err (InvalidArgument "missing account ref")
  end.

Definition account_try_from (account : pb.AccountRef) : WamuxResult AccountRef := account_from_proto (Some account).

(** [impl From<AccountRef> for pb::AccountRef]. *)
Definition account_to_wire (account : AccountRef) : pb.AccountRef :=
  pb.MkAccountRef (Some (match account with
    | RefId id => pb.Uuid (uuid_display (as_uuid id))
    | RefExternal external => pb.ExternalRef (external_as_str external)
    end)).

(** ** message_id.rs *)

Record MessageId : Type := MkMessageId { id_as_str : string }.

Definition message_id_new (value : string) : WamuxResult MessageId :=
  if str_is_empty value then Err (InvalidArgument "empty message id") else Ok (MkMessageId value).

(** ** lid.rs *)

Record LidPnQuery : Type := MkLidPnQuery { lq_query : string; lq_jid : Jid }.

Definition lid_pn_query_try_from (query : pb.Jid) : WamuxResult LidPnQuery :=
  jid ← jid_try_from query;
  Ok (MkLidPnQuery (pb.value query) jid).

(** ** Well-formed identifiers *)

(** A jid the library accepts. *)
Definition jid_ok (jid : Jid) : Prop := exists value, from_str value = Ok (as_lib jid).
Definition group_ok (jid : GroupJid) : Prop :=
  jid_ok (group_as_jid jid) /\ server (as_lib (group_as_jid jid)) = ServerGroup.
Definition newsletter_ok (jid : NewsletterJid) : Prop :=
  jid_ok (newsletter_as_jid jid) /\ server (as_lib (newsletter_as_jid jid)) = ServerNewsletter.
Definition message_id_ok (id : MessageId) : Prop := id_as_str id <> "".
End ids.
