(* ===== verification/Messaging.v ===== *)
(** * What a request carries into the domain

    wamux-types' messaging/ (key.rs, text.rs, media.rs, status.rs, polls.rs, rich.rs) and
    newsletter.rs: one type per request, and its conversion from the generated message.  A
    conversion checks in a fixed order and stops at the first thing wrong. *)

From S2P Require Import Prelude Errors Wire RequestEnums Jids.

Section messaging.
Context `{ids : LibIds}.

(** ** key.rs *)

Record MessageTarget : Type := MkMessageTarget {
  mt_chat : Jid;
  mt_id : MessageId;
  mt_from_me : bool;
  mt_participant : option Jid;
}.

Record QuotedRef : Type := MkQuotedRef {
  q_id : MessageId;
  q_participant : option Jid;
  q_remote_chat : option Jid;
  q_message : bytes;
}.

Record OutgoingContext : Type := MkOutgoingContext {
  oc_mentions : list Jid;
  oc_quote : option QuotedRef;
  oc_ephemeral_seconds : Z;
}.

Definition target_try_from (key : pb.MessageKey) : WamuxResult MessageTarget :=
  chat ← from_required_wire (pb.key_chat key);
  participant ← from_optional_wire (pb.key_participant key);
  id ← message_id_new (pb.key_id key);
  Ok (MkMessageTarget chat id (pb.key_from_me key) participant).

Definition ORPHAN_QUOTED : string := "quoted_message without a quote; set quote.quoted to the message it is".
Definition EMPTY_QUOTED_ID : string := "empty quote.quoted.id; expected the id of the quoted message".

Definition refuse_orphan_quoted_message (quoted_message : bytes) : WamuxResult (option QuotedRef) :=
  if bool_decide (quoted_message = []) then Ok None else Err (InvalidArgument ORPHAN_QUOTED).

(** [Result::ok().flatten()]: a destination that does not parse is no destination. *)
Definition destination_of (destination : option pb.Jid) : option Jid :=
  match from_optional_wire destination with
  | Ok d => d
  | Err _ => None
  end.

Definition remote_chat_of (quoted_key : pb.MessageKey) (destination : option pb.Jid) :
    WamuxResult (option Jid) :=
  chat ← from_optional_wire (pb.key_chat quoted_key);
  match chat with
  | None => Ok None
  | Some chat => Ok (if decide (destination_of destination = Some chat) then None else Some chat)
  end.

(** [QuotedRef::from_proto]. *)
Definition quote_from_proto (quote : option pb.QuoteContext) (quoted_message : bytes)
    (destination : option pb.Jid) : WamuxResult (option QuotedRef) :=
  match quote ≫= pb.quoted with
  | None => refuse_orphan_quoted_message quoted_message
  | Some quoted_key =>
      if str_is_empty (pb.key_id quoted_key) then Err (InvalidArgument EMPTY_QUOTED_ID)
      else
        own ← from_optional_wire (quote ≫= pb.quote_participant);
        participant ← (match own with
                       | Some own => Ok (Some own)
                       | None => from_optional_wire (pb.key_participant quoted_key)
                       end);
        id ← message_id_new (pb.key_id quoted_key);
        remote_chat ← remote_chat_of quoted_key destination;
        Ok (Some (MkQuotedRef id participant remote_chat quoted_message))
  end.

(** [OutgoingContext::from_proto]. *)
Definition context_from_proto (mentions : list pb.Mention) (quote : option pb.QuoteContext)
    (quoted_message : bytes) (ephemeral_seconds : Z) (destination : option pb.Jid) :
    WamuxResult OutgoingContext :=
  mentions ← mapM (fun mention => from_required_wire (pb.mention_jid mention)) mentions;
  quote ← quote_from_proto quote quoted_message destination;
  Ok (MkOutgoingContext mentions quote ephemeral_seconds).

(** ** text.rs *)

Record LinkPreview : Type := MkLinkPreview {
  pr_matched_text : string;
  pr_title : string;
  pr_description : string;
  pr_jpeg_thumbnail : bytes;
  pr_preview_type : Z;
}.

Record OutgoingText : Type := MkOutgoingText {
  ot_text : string;
  ot_context : OutgoingContext;
  ot_link_preview : option LinkPreview;
}.

Definition link_preview_from (p : pb.LinkPreview) : LinkPreview :=
  MkLinkPreview (pb.lp_matched_text p) (pb.lp_title p) (pb.lp_description p) (pb.lp_jpeg_thumbnail p)
    (pb.lp_preview_type p).

Definition text_try_from (r : pb.SendTextRequest) : WamuxResult OutgoingText :=
  context ← context_from_proto (pb.stx_mentions r) (pb.stx_quote r) (pb.stx_quoted_message r)
              (pb.stx_ephemeral_seconds r) (pb.stx_to r);
  Ok (MkOutgoingText (pb.stx_text r) context (link_preview_from <$> pb.stx_link_preview r)).

(** ** media.rs *)

Record OutgoingMedia : Type := MkOutgoingMedia {
  om_kind : MediaKind;
  om_mime_type : string;
  om_caption : string;
  om_filename : string;
  om_ptt : bool;
  om_seconds : Z;
  om_waveform : bytes;
  om_ptv : bool;
  om_context : OutgoingContext;
}.

Record DownloadableMedia : Type := MkDownloadableMedia {
  dm_kind : MediaKind;
  dm_direct_path : string;
  dm_media_key : bytes;
  dm_file_enc_sha256 : bytes;
  dm_file_sha256 : bytes;
  dm_file_length : Z;
  dm_mime_type : string;
}.

Definition media_try_from (h : pb.SendMediaHeader) : WamuxResult OutgoingMedia :=
  kind ← parse_sendable (pb.smh_media_type h);
  context ← context_from_proto (pb.smh_mentions h) (pb.smh_quote h) (pb.smh_quoted_message h)
              (pb.smh_ephemeral_seconds h) (pb.smh_to h);
  Ok (MkOutgoingMedia kind (pb.smh_mime_type h) (pb.smh_caption h) (pb.smh_filename h) (pb.smh_ptt h)
        (pb.smh_seconds h) (pb.smh_waveform h) (pb.smh_ptv h) context).

Definition downloadable_try_from (d : pb.MediaDescriptor) : WamuxResult DownloadableMedia :=
  kind ← parse_downloadable (pb.md_media_type d);
  Ok (MkDownloadableMedia kind (pb.md_direct_path d) (pb.md_media_key d) (pb.md_file_enc_sha256 d)
        (pb.md_file_sha256 d) (pb.md_file_length d) (pb.md_mime_type d)).

(** ** status.rs *)

Record StatusText : Type := MkStatusText {
  stt_text : string;
  stt_background_argb : Z;
  stt_font : Z;
  stt_recipients : list Jid;
}.

Record StatusMedia : Type := MkStatusMedia {
  sm_kind : MediaKind;
  sm_recipients : list Jid;
  sm_caption : string;
  sm_thumbnail : bytes;
  sm_seconds : Z;
}.

Record StatusRevoke : Type := MkStatusRevoke {
  sr_message_id : MessageId;
  sr_recipients : list Jid;
}.

Definition POSTED_TO : string := "is posted to".
Definition WAS_POSTED_TO : string := "was posted to".
Definition EMPTY_STATUS_ID : string := "message_id is empty; expected the status's own id (PostStatus* key.id)".

Definition parse_recipients (values : list pb.Jid) : WamuxResult (list Jid) :=
  mapM (fun value => from_required_wire (Some value)) values.

Definition no_recipients (verb : string) : WamuxError :=
  InvalidArgument ("recipients is empty; expected the device set the status " +:+ verb).

Definition require_recipients (values : list pb.Jid) (verb : string) : WamuxResult (list Jid) :=
  if bool_decide (values = []) then Err (no_recipients verb) else parse_recipients values.

Definition status_text_try_from (r : pb.PostStatusTextRequest) : WamuxResult StatusText :=
  recipients ← require_recipients (pb.pst_recipients r) POSTED_TO;
  Ok (MkStatusText (pb.pst_text r) (pb.pst_background_argb r) (pb.pst_font r) recipients).

Definition status_media_try_from (h : pb.PostStatusMediaHeader) : WamuxResult StatusMedia :=
  kind ← parse_status (pb.psm_media_type h);
  recipients ← require_recipients (pb.psm_recipients h) POSTED_TO;
  Ok (MkStatusMedia kind recipients (pb.psm_caption h) (pb.psm_thumbnail h) (pb.psm_seconds h)).

Definition status_revoke_try_from (r : pb.RevokeStatusRequest) : WamuxResult StatusRevoke :=
  if str_is_empty (pb.rs_message_id r) then Err (InvalidArgument EMPTY_STATUS_ID)
  else
    recipients ← require_recipients (pb.rs_recipients r) WAS_POSTED_TO;
    message_id ← message_id_new (pb.rs_message_id r);
    Ok (MkStatusRevoke message_id recipients).

(** ** polls.rs *)

Definition POLL_SECRET_LEN : nat := 32.

Record PollVoteCast : Type := MkPollVoteCast {
  vc_poll_id : MessageId;
  vc_creator : Jid;
  vc_message_secret : bytes;
  vc_options : list string;
}.

Record EncryptedVote : Type := MkEncryptedVote {
  ev_voter : Jid;
  ev_enc_payload : bytes;
  ev_enc_iv : bytes;
}.

Record PollVotesToTally : Type := MkPollVotesToTally {
  vt_poll_id : MessageId;
  vt_creator : Jid;
  vt_message_secret : bytes;
  vt_options : list string;
  vt_votes : list EncryptedVote;
}.

Record NewPoll : Type := MkNewPoll {
  np_name : string;
  np_options : list string;
  np_selectable_count : Z;
}.

(** [<[u8; N]>::try_from(slice)]: the same bytes, if there are that many. *)
Definition array_try_from (n : nat) (slice : bytes) : option bytes :=
  if decide (length slice = n) then Some slice else None.

Definition bad_secret (secret : bytes) : WamuxError :=
  InvalidArgument ("message_secret must be " +:+ pretty POLL_SECRET_LEN +:+ " bytes, got " +:+ pretty (length secret)).

Definition vote_identity (creator : option pb.Jid) (poll_id : string) (secret : bytes) :
    WamuxResult (Jid * MessageId * bytes) :=
  creator ← from_required_wire creator;
  poll_id ← map_err (fun _ => InvalidArgument "empty poll_id") (message_id_new poll_id);
  secret ← ok_or (array_try_from POLL_SECRET_LEN secret) (bad_secret secret);
  Ok (creator, poll_id, secret).

Definition poll_vote_cast_try_from (r : pb.SendPollVoteRequest) : WamuxResult PollVoteCast :=
  '(creator, poll_id, message_secret) ←
    vote_identity (pb.spv_poll_creator r) (pb.spv_poll_id r) (pb.spv_message_secret r);
  Ok (MkPollVoteCast poll_id creator message_secret (pb.spv_options r)).

Definition encrypted_vote_try_from (v : pb.PollVote) : WamuxResult EncryptedVote :=
  voter ← from_required_wire (pb.pv_voter v);
  Ok (MkEncryptedVote voter (pb.pv_enc_payload v) (pb.pv_enc_iv v)).

Definition NO_OPTIONS : string := "no options to tally against".

Definition votes_to_tally_try_from (r : pb.AggregatePollVotesRequest) : WamuxResult PollVotesToTally :=
  '(creator, poll_id, message_secret) ←
    vote_identity (pb.ap_poll_creator r) (pb.ap_poll_id r) (pb.ap_message_secret r);
  if bool_decide (pb.ap_options r = []) then Err (InvalidArgument NO_OPTIONS)
  else
    votes ← mapM encrypted_vote_try_from (pb.ap_votes r);
    Ok (MkPollVotesToTally poll_id creator message_secret (pb.ap_options r) votes).

Definition new_poll_from (r : pb.SendPollRequest) : NewPoll :=
  MkNewPoll (pb.sp_name r) (pb.sp_options r) (pb.sp_selectable_count r).

(** ** rich.rs *)

Record ContactCard : Type := MkContactCard {
  cc_display_name : string;
  cc_vcard : string;
  cc_quote : option QuotedRef;
}.

Inductive ReplyChoice : Type :=
| Button (selected_id display_text : string)
| ListRow (selected_row_id title description : string)
| Template (selected_id display_text : string) (selected_index : Z)
| NativeFlow (name params_json body_text : string) (version : Z).

Record InteractiveReply : Type := MkInteractiveReply {
  ir_quote : QuotedRef;
  ir_choice : ReplyChoice;
}.

Definition contact_try_from (r : pb.SendContactRequest) : WamuxResult ContactCard :=
  quote ← quote_from_proto (pb.sc_quote r) (pb.sc_quoted_message r) (pb.sc_to r);
  Ok (MkContactCard (pb.sc_display_name r) (pb.sc_vcard r) quote).

Definition NO_OFFER : string := "quote.quoted.id must name the offer being answered".

Definition offer_quote (quote : option pb.QuoteContext) (quoted_message : bytes)
    (destination : option pb.Jid) : WamuxResult QuotedRef :=
  let names_the_offer :=
    match quote ≫= pb.quoted with
    | Some key => negb (str_is_empty (pb.key_id key))
    | None => false
    end in
  if negb names_the_offer then Err (InvalidArgument NO_OFFER)
  else
    quoted ← quote_from_proto quote quoted_message destination;
    ok_or quoted (InvalidArgument NO_OFFER).

Definition choice_try_from (reply : option pb.Reply) : WamuxResult ReplyChoice :=
  reply ← ok_or reply (InvalidArgument "no reply shape set");
  Ok (match reply with
      | pb.ReplyButton selected_id display_text => Button selected_id display_text
      | pb.ReplyList selected_row_id title description => ListRow selected_row_id title description
      | pb.ReplyTemplate selected_id display_text selected_index => Template selected_id display_text selected_index
      | pb.ReplyNativeFlow name params_json body_text version => NativeFlow name params_json body_text version
      end).

Definition interactive_reply_try_from (r : pb.SendInteractiveReplyRequest) : WamuxResult InteractiveReply :=
  quote ← offer_quote (pb.sir_quote r) (pb.sir_quoted_message r) (pb.sir_to r);
  choice ← choice_try_from (pb.sir_reply r);
  Ok (MkInteractiveReply quote choice).

(** ** newsletter.rs *)

Definition MAX_NEWSLETTER_VOTE_OPTIONS : nat := 1000.

Record NewsletterHistoryQuery : Type := MkNewsletterHistoryQuery {
  nh_jid : NewsletterJid;
  nh_count : Z;
  nh_before : option Z;
}.

Record NewsletterPollVote : Type := MkNewsletterPollVote {
  nv_jid : NewsletterJid;
  nv_server_id : Z;
  nv_option_hashes : list bytes;
}.

Record NewsletterAddOnsQuery : Type := MkNewsletterAddOnsQuery {
  na_jid : NewsletterJid;
  na_limit : Z;
}.

Definition below_one (field : string) : WamuxError := InvalidArgument (field +:+ " must be at least 1, got 0").

Definition require_at_least_one (field : string) (value : Z) : WamuxResult unit :=
  if value =? 0 then Err (below_one field) else Ok tt.

Definition too_many_hashes (n : nat) : WamuxError :=
  InvalidArgument ("a poll vote names at most " +:+ pretty MAX_NEWSLETTER_VOTE_OPTIONS +:+ " options, got " +:+ pretty n).
Definition bad_hash (index n : nat) : WamuxError :=
  InvalidArgument ("option_hashes[" +:+ pretty index +:+ "] must be 32 bytes (sha256 of the option name), got " +:+ pretty n).
Definition repeated_hash (index : nat) : WamuxError :=
  InvalidArgument ("option_hashes[" +:+ pretty index +:+ "] repeats an earlier option").

(** The loop, [hashes] being what is pushed so far. *)
Fixpoint hash_loop (index : nat) (hashes : list bytes) (raw : list bytes) : WamuxResult (list bytes) :=
  match raw with
  | [] => Ok hashes
  | b :: rest =>
      hash ← ok_or (array_try_from 32 b) (bad_hash index (length b));
      if decide (hash ∈ hashes) then Err (repeated_hash index)
      else hash_loop (S index) (hashes ++ [hash]) rest
  end.

Definition option_hashes (raw : list bytes) : WamuxResult (list bytes) :=
  if decide (MAX_NEWSLETTER_VOTE_OPTIONS < length raw)%nat then Err (too_many_hashes (length raw))
  else hash_loop 0 [] raw.

Definition history_query_try_from (r : pb.GetNewsletterMessagesRequest) : WamuxResult NewsletterHistoryQuery :=
  jid ← newsletter_from_required_wire (pb.gnm_jid r);
  _ ← require_at_least_one "count" (pb.gnm_count r);
  Ok (MkNewsletterHistoryQuery jid (pb.gnm_count r)
        (if pb.gnm_before r =? 0 then None else Some (pb.gnm_before r))).

Definition NO_SERVER_ID : string := "server_id must name the poll, got 0".

Definition newsletter_vote_try_from (r : pb.SendNewsletterPollVoteRequest) : WamuxResult NewsletterPollVote :=
  jid ← newsletter_from_required_wire (pb.snv_jid r);
  if pb.snv_server_id r =? 0 then Err (InvalidArgument NO_SERVER_ID)
  else
    hashes ← option_hashes (pb.snv_option_hashes r);
    Ok (MkNewsletterPollVote jid (pb.snv_server_id r) hashes).

Definition add_ons_query_try_from (r : pb.GetMyNewsletterAddOnsRequest) : WamuxResult NewsletterAddOnsQuery :=
  jid ← newsletter_from_required_wire (pb.gma_jid r);
  _ ← require_at_least_one "limit" (pb.gma_limit r);
  Ok (MkNewsletterAddOnsQuery jid (pb.gma_limit r)).
End messaging.
