(* ===== verification/MessagingLaws.v ===== *)
(** * The checks of a conversion, and what it makes

    First a small logic of conversions; then each conversion of Messaging.v: its checks in order, and what it makes
    when all of them pass. *)

From S2P Require Import Prelude Errors Wire RequestEnums Jids Messaging.

(** ** Checks in order: a small logic of fallible conversions

    [checked m cs P] says that [m] gives the first error of the checks [cs], in order, and when
    every check passes a value in [P]; one rule per construct of the code. *)

Definition first_error {E} (cs : list (option E)) : option E := head (omap id cs).

Definition checked {E A} (m : result E A) (cs : list (option E)) (P : A -> Prop) : Prop :=
  match first_error cs with
  | Some e => m = Err e
  | None => exists v, m = Ok v /\ P v
  end.

(** The check that a condition does not hold. *)
Definition refuse_if {E} (b : bool) (e : E) : option E := if b then Some e else None.

Lemma first_error_cons {E} (c : option E) cs : first_error (c :: cs) = match c with Some e => Some e | None => first_error cs end.
Proof. by destruct c. Qed.

Lemma first_error_app {E} (cs ds : list (option E)) :
  first_error (cs ++ ds) = match first_error cs with Some e => Some e | None => first_error ds end.
Proof. induction cs as [|[e|] cs IH]; cbn; rewrite ?first_error_cons; by rewrite ?IH. Qed.

Lemma checked_ok {E A} (v : A) (P : A -> Prop) : P v -> checked (Ok v : result E A) [] P.
Proof. intros. by exists v. Qed.

Lemma checked_bind {E A B} (m : result E A) (f : A -> result E B) cs ds P Q :
  checked m cs P -> (forall v, P v -> checked (f v) ds Q) -> checked (m ≫= f) (cs ++ ds) Q.
Proof.
  unfold checked. rewrite first_error_app. destruct (first_error cs) as [e|]; [by intros ->|].
  intros (v & -> & Hv) Hf. by apply Hf.
Qed.

Lemma checked_fmap {E A B} (m : result E A) (f : A -> B) cs P Q :
  checked m cs P -> (forall v, P v -> Q (f v)) -> checked (f <$> m) cs Q.
Proof.
  unfold checked. destruct (first_error cs); [by intros ->|]. intros (v & -> & Hv) Hf. exists (f v). split; [done|by apply Hf].
Qed.

Lemma checked_mono {E A} (m : result E A) cs (P Q : A -> Prop) :
  checked m cs P -> (forall v, P v -> Q v) -> checked m cs Q.
Proof. unfold checked. destruct (first_error cs); [done|]. intros (v & -> & Hv) HPQ. eauto. Qed.

Lemma checked_refuse {E A} (b : bool) e (m : result E A) cs P :
  (b = false -> checked m cs P) -> checked (if b then Err e else m) (refuse_if b e :: cs) P.
Proof. unfold checked, refuse_if. rewrite first_error_cons. destruct b; [done|]. intros H. by apply H. Qed.

Lemma checked_decide {E A} (Q : Prop) `{Decision Q} e (m : result E A) cs P :
  (~ Q -> checked m cs P) -> checked (if decide Q then Err e else m) (refuse_if (bool_decide Q) e :: cs) P.
Proof. intros HQ. rewrite (decide_bool_decide Q). apply checked_refuse. intros Hn%bool_decide_eq_false. by apply HQ. Qed.

Lemma checked_mapM {E A B} (f : A -> result E B) (cs : A -> list (option E)) (R : A -> B -> Prop) l :
  (forall x, checked (f x) (cs x) (R x)) -> checked (mapM f l) (concat (cs <$> l)) (Forall2 R l).
Proof.
  intros Hf. induction l as [|x l IH]; [by apply checked_ok|]. cbn [mapM list_fmap fmap concat].
  eapply checked_bind; [apply Hf|]. intros v Hv.
  rewrite <-(app_nil_r (concat _)). eapply checked_bind; [apply IH|]. intros vs Hvs. apply checked_ok. by constructor.
Qed.

(** What it means for the two outcomes. *)
Lemma checked_err {E A} (m : result E A) cs P e : checked m cs P -> (m = Err e <-> first_error cs = Some e).
Proof.
  unfold checked. destruct (first_error cs) as [e'|]; [intros ->; split; congruence|].
  intros (v & -> & _). by split.
Qed.

Lemma checked_value {E A} (m : result E A) cs P v : checked m cs P -> m = Ok v -> P v.
Proof. unfold checked. destruct (first_error cs); [intros ->; done|]. intros (w & -> & Hw) [= <-]. done. Qed.

(** One check, of the computation itself. *)
Definition err_of {E A} (m : result E A) : option E := match m with Ok _ => None | Err e => Some e end.

Lemma checked_self {E A} (m : result E A) : checked m [err_of m] (fun v => m = Ok v).
Proof. destruct m as [v|e]; [by exists v|done]. Qed.

Lemma checked_map_err {E F A} (f : E -> F) (m : result E A) cs P :
  checked m cs P -> checked (map_err f m) ((fun c : option E => f <$> c) <$> cs) P.
Proof.
  unfold checked. assert (first_error ((fun c : option E => f <$> c) <$> cs) = f <$> first_error cs) as ->.
  { induction cs as [|[e|] cs IH]; [done|done|]. cbn [fmap list_fmap]. by rewrite !first_error_cons. }
  destruct (first_error cs) as [e|]; cbn; [by intros ->|]. intros (v & -> & Hv). by exists v.
Qed.

(** The last step of a conversion, after a bind. *)
Ltac conv_ret := apply checked_ok.

Abbreviation Check := (option WamuxError).

Section conversions.
Context `{ids : LibIds}.

(** ** Identifiers *)

Definition jid_text (jid : option pb.Jid) : string := pb.value (pb.jid_or_default jid).

(** [j] is what the library makes of the text. *)
Definition parsed (text : string) (j : Jid) : Prop := from_str text = Ok (as_lib j).

Definition parse_check (text : string) : Check :=
  match from_str text with
  | Ok _ => None
  | Err e => Some (InvalidArgument ("invalid jid '" +:+ text +:+ "': " +:+ e))
  end.

Definition required_checks (jid : option pb.Jid) : list Check :=
  [refuse_if (str_is_empty (jid_text jid)) (InvalidArgument "missing jid"); parse_check (jid_text jid)].

Definition optional_checks (jid : option pb.Jid) : list Check :=
  if str_is_empty (jid_text jid) then [] else [parse_check (jid_text jid)].

Definition required_made (jid : option pb.Jid) (j : Jid) : Prop :=
  jid_text jid <> "" /\ parsed (jid_text jid) j.

Definition optional_made (jid : option pb.Jid) (o : option Jid) : Prop :=
  match o with
  | None => jid_text jid = ""
  | Some j => required_made jid j
  end.

Lemma str_is_empty_false s : str_is_empty s = false <-> s <> "".
Proof. unfold str_is_empty. by rewrite bool_decide_eq_false. Qed.

Lemma str_is_empty_true s : str_is_empty s = true <-> s = "".
Proof. unfold str_is_empty. by rewrite bool_decide_eq_true. Qed.

Lemma checked_parse text : str_is_empty text = false -> checked (jid_parse text) [parse_check text] (parsed text).
Proof.
  intros He. unfold jid_parse, checked, parse_check, parsed. rewrite He, first_error_cons.
  destruct (from_str text) as [j|e]; cbn; [|done]. by exists (MkJid j).
Qed.

Lemma checked_required jid : checked (from_required_wire jid) (required_checks jid) (required_made jid).
Proof.
  unfold from_required_wire, jid_try_from, required_checks, required_made. fold (jid_text jid).
  destruct (str_is_empty (jid_text jid)) eqn:E.
  - unfold jid_parse. rewrite E. done.
  - pose proof (checked_parse _ E) as H. apply str_is_empty_false in E. unfold checked in *.
    rewrite !first_error_cons in *. cbn [refuse_if]. unfold parse_check in *.
    destruct (from_str (jid_text jid)) as [j|e]; [destruct H as (v & -> & Hv); by exists v|].
    rewrite H. cbn [map_err]. rewrite decide_False by done. done.
Qed.

Lemma checked_optional jid : checked (from_optional_wire jid) (optional_checks jid) (optional_made jid).
Proof.
  unfold from_optional_wire, optional_checks. destruct jid as [jid|]; [|by conv_ret].
  change (pb.value jid) with (jid_text (Some jid)). destruct (str_is_empty _) eqn:E.
  - conv_ret. by apply str_is_empty_true.
  - eapply checked_fmap; [by apply checked_parse|]. intros v Hv. split; [by apply str_is_empty_false|done].
Qed.

Definition server_checks (s : Server) (text refused : string) : list Check :=
  match from_str text with
  | Ok j => [refuse_if (bool_decide (server j <> s)) (InvalidArgument ("'" +:+ text +:+ refused))]
  | Err _ => []
  end.

Definition NOT_A_GROUP : string := "' is not a group: expected a jid ending in @g.us".
Definition NOT_A_CHANNEL : string := "' is not a channel: expected a jid ending in @newsletter".

Definition group_checks (jid : option pb.Jid) : list Check :=
  required_checks jid ++ server_checks ServerGroup (jid_text jid) NOT_A_GROUP.
Definition newsletter_checks (jid : option pb.Jid) : list Check :=
  required_checks jid ++ server_checks ServerNewsletter (jid_text jid) NOT_A_CHANNEL.

Definition group_made (jid : option pb.Jid) (g : GroupJid) : Prop :=
  required_made jid (group_as_jid g) /\ server (as_lib (group_as_jid g)) = ServerGroup.
Definition newsletter_made (jid : option pb.Jid) (n : NewsletterJid) : Prop :=
  required_made jid (newsletter_as_jid n) /\ server (as_lib (newsletter_as_jid n)) = ServerNewsletter.

(** The two jids of one server, with their messages. *)
Lemma checked_on_server {G} (wrap : Jid -> G) (unwrap : G -> Jid) s refused jid :
  (forall j, unwrap (wrap j) = j) ->
  checked
    (if str_is_empty (jid_text jid) then Err (InvalidArgument "missing jid")
     else j ← jid_parse (jid_text jid);
          if decide (server (as_lib j) <> s) then Err (InvalidArgument ("'" +:+ jid_text jid +:+ refused))
          else Ok (wrap j))
    (required_checks jid ++ server_checks s (jid_text jid) refused)
    (fun g => required_made jid (unwrap g) /\ server (as_lib (unwrap g)) = s).
Proof.
  intros Hw. apply checked_refuse. intros E. apply (checked_bind _ _ [_] _ (parsed (jid_text jid))); [by apply checked_parse|].
  intros j Hj. unfold server_checks. rewrite Hj. unfold checked. rewrite first_error_cons. unfold refuse_if.
  case_decide as D.
  - by rewrite bool_decide_true.
  - rewrite bool_decide_false by (by intros []). exists (wrap j). rewrite Hw.
    apply str_is_empty_false in E. done.
Qed.

Lemma checked_group jid : checked (group_from_required_wire jid) (group_checks jid) (group_made jid).
Proof. by apply (checked_on_server MkGroupJid group_as_jid). Qed.

Lemma checked_newsletter jid :
  checked (newsletter_from_required_wire jid) (newsletter_checks jid) (newsletter_made jid).
Proof. by apply (checked_on_server MkNewsletterJid newsletter_as_jid). Qed.

Definition id_made (text : string) (id : MessageId) : Prop := text <> "" /\ id_as_str id = text.

Lemma checked_message_id text :
  checked (message_id_new text) [refuse_if (str_is_empty text) (InvalidArgument "empty message id")] (id_made text).
Proof. apply checked_refuse. intros E. conv_ret. split; [by apply str_is_empty_false|done]. Qed.

(** A text already known not to be empty. *)
Lemma checked_known_id text : str_is_empty text = false -> checked (message_id_new text) [] (id_made text).
Proof. intros E. unfold message_id_new. rewrite E. conv_ret. split; [by apply str_is_empty_false|done]. Qed.

Definition account_checks (account : option pb.AccountRef) : list Check :=
  match account ≫= pb.ref with
  | Some (pb.Uuid uuid) =>
      [refuse_if (bool_decide (parse_str uuid = None)) (InvalidArgument ("bad uuid '" +:+ uuid +:+ "'"))]
  | Some (pb.ExternalRef _) => []
  | None => [Some (InvalidArgument "missing account ref")]
  end.

Definition account_made (account : option pb.AccountRef) (a : AccountRef) : Prop :=
  match a with
  | RefId id => exists uuid, account ≫= pb.ref = Some (pb.Uuid uuid) /\ parse_str uuid = Some (as_uuid id)
  | RefExternal external => account ≫= pb.ref = Some (pb.ExternalRef (external_as_str external))
  end.

Lemma checked_account account : checked (account_from_proto account) (account_checks account) (account_made account).
Proof.
  unfold account_from_proto, account_checks, account_made. destruct (account ≫= pb.ref) as [[uuid|external]|].
  - unfold account_id_parse, checked. rewrite first_error_cons. destruct (parse_str uuid) as [u|] eqn:E; [|done].
    unfold refuse_if. rewrite bool_decide_false by done. exists (RefId (MkAccountId u)). split; [done|by exists uuid].
  - by conv_ret.
  - done.
Qed.

Definition lid_made (query : pb.Jid) (q : LidPnQuery) : Prop :=
  lq_query q = pb.value query /\ required_made (Some query) (lq_jid q).

Lemma checked_lid query : checked (lid_pn_query_try_from query) (required_checks (Some query)) (lid_made query).
Proof.
  rewrite <-(app_nil_r (required_checks _)). eapply checked_bind; [apply (checked_required (Some query))|].
  intros j Hj. by conv_ret.
Qed.
End conversions.

(** The last bind of a conversion. *)
Lemma checked_last {A B} (m : WamuxResult A) (f : A -> B) cs P Q :
  checked m cs P -> (forall v, P v -> Q (f v)) -> checked (v ← m; Ok (f v)) cs Q.
Proof. intros Hm Hf. rewrite <-(app_nil_r cs). eapply checked_bind; [done|]. intros v Hv. by apply checked_ok, Hf. Qed.

(** A request enum. *)
Definition enum_checks {K} (parse : Z -> WamuxResult K) (value : Z) : list Check :=
  [match parse value with Ok _ => None | Err e => Some e end].

Lemma checked_enum {K} (parse : Z -> WamuxResult K) value :
  checked (parse value) (enum_checks parse value) (fun kind => parse value = Ok kind).
Proof. unfold checked, enum_checks. rewrite first_error_cons. destruct (parse value) as [k|e]; [by exists k|done]. Qed.

#[export] Hint Resolve checked_required checked_optional checked_group checked_newsletter checked_message_id
  checked_known_id checked_account checked_enum : checked.

(** One more step of a conversion: the rule of a bind whose first half has a [checked] lemma. *)
Ltac conv_step :=
  match goal with
  | |- checked (_ ≫= (fun v => Ok (@?f v))) _ _ => eapply checked_last; [solve [eauto with checked]|]
  | |- checked (_ ≫= _) (_ ++ _) _ => eapply checked_bind; [solve [eauto with checked]|]
  end.

Section requests.
Context `{ids : LibIds}.

(** ** key.rs *)

Definition target_checks (key : pb.MessageKey) : list Check :=
  required_checks (pb.key_chat key) ++ optional_checks (pb.key_participant key) ++
  [refuse_if (str_is_empty (pb.key_id key)) (InvalidArgument "empty message id")].

Definition target_made (key : pb.MessageKey) (t : MessageTarget) : Prop :=
  required_made (pb.key_chat key) (mt_chat t) /\ optional_made (pb.key_participant key) (mt_participant t) /\
  id_made (pb.key_id key) (mt_id t) /\ mt_from_me t = pb.key_from_me key.

Lemma checked_target key : checked (target_try_from key) (target_checks key) (target_made key).
Proof. unfold target_try_from, target_checks. do 3 (conv_step; intros ? ?). done. Qed.

(** The context's own participant when it is set, else the quoted key's. *)
Definition quote_author (quote : option pb.QuoteContext) (key : pb.MessageKey) : option pb.Jid :=
  let own := quote ≫= pb.quote_participant in
  if str_is_empty (jid_text own) then pb.key_participant key else own.

Definition quote_checks (quote : option pb.QuoteContext) (quoted_message : bytes) : list Check :=
  match quote ≫= pb.quoted with
  | None => [refuse_if (bool_decide (quoted_message <> [])) (InvalidArgument ORPHAN_QUOTED)]
  | Some key =>
      refuse_if (str_is_empty (pb.key_id key)) (InvalidArgument EMPTY_QUOTED_ID) ::
      optional_checks (quote_author quote key) ++ optional_checks (pb.key_chat key)
  end.

(** The quoted message's chat, when it is not the chat the reply goes to. *)
Definition remote_made (key : pb.MessageKey) (destination : option pb.Jid) (remote : option Jid) : Prop :=
  match remote with
  | Some chat => required_made (pb.key_chat key) chat /\ ~ required_made destination chat
  | None => jid_text (pb.key_chat key) = "" \/
            exists chat, required_made (pb.key_chat key) chat /\ required_made destination chat
  end.

Definition quote_made (quote : option pb.QuoteContext) (quoted_message : bytes) (destination : option pb.Jid)
    (q : option QuotedRef) : Prop :=
  match quote ≫= pb.quoted, q with
  | None, None => quoted_message = []
  | Some key, Some q =>
      id_made (pb.key_id key) (q_id q) /\ optional_made (quote_author quote key) (q_participant q) /\
      remote_made key destination (q_remote_chat q) /\ q_message q = quoted_message
  | _, _ => False
  end.

Lemma required_made_fun jid j1 j2 : required_made jid j1 -> required_made jid j2 -> j1 = j2.
Proof. unfold required_made, parsed. destruct j1, j2; cbn. intros [_ H1] [_ H2]. congruence. Qed.

Lemma destination_spec destination d : destination_of destination = Some d <-> required_made destination d.
Proof.
  unfold destination_of, required_made, parsed, from_optional_wire.
  destruct destination as [jid|]; cbn; [|by split; [|intros []]]. fold (jid_text (Some jid)).
  unfold jid_text, pb.jid_or_default. cbn. destruct (str_is_empty (pb.value jid)) eqn:E.
  - apply str_is_empty_true in E. by split; [|intros []].
  - pose proof (proj1 (str_is_empty_false _) E) as Hne. unfold jid_parse. rewrite E.
    destruct (from_str (pb.value jid)) as [j|e]; cbn; [|by split; [|intros [_ ?]]].
    split; [intros [= <-]; done|]. intros [_ [= ->]]. by destruct d.
Qed.

Lemma checked_remote_chat key destination :
  checked (remote_chat_of key destination) (optional_checks (pb.key_chat key)) (remote_made key destination).
Proof.
  unfold remote_chat_of. rewrite <-(app_nil_r (optional_checks _)). conv_step. intros [chat|] Hchat; conv_ret; cbn.
  - case_decide as D; cbn; rewrite destination_spec in D; [right; eauto|done].
  - by left.
Qed.

Lemma checked_author quote key :
  checked
    (own ← from_optional_wire (quote ≫= pb.quote_participant);
     match own with
     | Some own => Ok (Some own)
     | None => from_optional_wire (pb.key_participant key)
     end)
    (optional_checks (quote_author quote key)) (optional_made (quote_author quote key)).
Proof.
  unfold quote_author. set (own := quote ≫= pb.quote_participant).
  pose proof (checked_optional own) as H. destruct (str_is_empty (jid_text own)) eqn:E.
  - unfold optional_checks in H. rewrite E in H. destruct H as ([j|] & -> & Hj); [|apply checked_optional].
    exfalso. apply str_is_empty_true in E. by destruct Hj.
  - rewrite <-(app_nil_r (optional_checks own)). eapply checked_bind; [apply H|].
    intros [j|] Hj; [by conv_ret|]. apply str_is_empty_false in E. done.
Qed.

Lemma result_bind_assoc {A B C} (m : WamuxResult A) (f : A -> WamuxResult B) (g : B -> WamuxResult C) :
  (x ← m; y ← f x; g y) = (y ← (x ← m; f x); g y).
Proof. by destruct m. Qed.

Lemma checked_quote quote quoted_message destination :
  checked (quote_from_proto quote quoted_message destination) (quote_checks quote quoted_message)
    (quote_made quote quoted_message destination).
Proof.
  unfold quote_from_proto, quote_checks, quote_made. destruct (quote ≫= pb.quoted) as [key|].
  - apply checked_refuse. intros E. rewrite result_bind_assoc.
    eapply checked_bind; [apply checked_author|]. intros participant Hp.
    rewrite <-(app_nil_l (optional_checks (pb.key_chat key))).
    eapply checked_bind; [by apply checked_known_id|]. intros id Hid.
    eapply checked_last; [apply checked_remote_chat|]. intros remote Hr. done.
  - unfold refuse_orphan_quoted_message, checked. rewrite first_error_cons. unfold refuse_if.
    destruct quoted_message; [by exists None|done].
Qed.

Definition mentions_checks (mentions : list pb.Mention) : list Check :=
  concat ((fun m => required_checks (pb.mention_jid m)) <$> mentions).

Definition mentions_made (mentions : list pb.Mention) (js : list Jid) : Prop :=
  Forall2 (fun m j => required_made (pb.mention_jid m) j) mentions js.

Definition context_checks mentions quote quoted_message : list Check :=
  mentions_checks mentions ++ quote_checks quote quoted_message.

Definition context_made mentions quote quoted_message seconds destination (c : OutgoingContext) : Prop :=
  mentions_made mentions (oc_mentions c) /\ quote_made quote quoted_message destination (oc_quote c) /\
  oc_ephemeral_seconds c = seconds.

Lemma checked_context mentions quote quoted_message seconds destination :
  checked (context_from_proto mentions quote quoted_message seconds destination)
    (context_checks mentions quote quoted_message)
    (context_made mentions quote quoted_message seconds destination).
Proof.
  unfold context_from_proto, context_checks. eapply checked_bind.
  - apply (checked_mapM _ (fun m => required_checks (pb.mention_jid m)) (fun m j => required_made (pb.mention_jid m) j)).
    intros m. apply checked_required.
  - intros js Hjs. eapply checked_last; [apply checked_quote|]. intros q Hq. done.
Qed.
End requests.

#[export] Hint Resolve checked_quote checked_context : checked.

(** ** The checks of every request, and what it makes *)

Section requests.
Context `{ids : LibIds}.

(** ** text.rs and media.rs *)

Definition text_made (r : pb.SendTextRequest) (t : OutgoingText) : Prop :=
  context_made (pb.stx_mentions r) (pb.stx_quote r) (pb.stx_quoted_message r) (pb.stx_ephemeral_seconds r)
    (pb.stx_to r) (ot_context t) /\
  ot_text t = pb.stx_text r /\ ot_link_preview t = link_preview_from <$> pb.stx_link_preview r.

Lemma checked_text r :
  checked (text_try_from r) (context_checks (pb.stx_mentions r) (pb.stx_quote r) (pb.stx_quoted_message r)) (text_made r).
Proof. unfold text_try_from. conv_step. intros c Hc. done. Qed.

Definition media_checks (h : pb.SendMediaHeader) : list Check :=
  enum_checks parse_sendable (pb.smh_media_type h) ++
  context_checks (pb.smh_mentions h) (pb.smh_quote h) (pb.smh_quoted_message h).

Definition media_made (h : pb.SendMediaHeader) (m : OutgoingMedia) : Prop :=
  parse_sendable (pb.smh_media_type h) = Ok (om_kind m) /\
  context_made (pb.smh_mentions h) (pb.smh_quote h) (pb.smh_quoted_message h) (pb.smh_ephemeral_seconds h)
    (pb.smh_to h) (om_context m) /\
  (om_mime_type m, om_caption m, om_filename m, om_ptt m, om_seconds m, om_waveform m, om_ptv m) =
  (pb.smh_mime_type h, pb.smh_caption h, pb.smh_filename h, pb.smh_ptt h, pb.smh_seconds h, pb.smh_waveform h,
   pb.smh_ptv h).

Lemma checked_media h : checked (media_try_from h) (media_checks h) (media_made h).
Proof. unfold media_try_from, media_checks. conv_step. intros kind Hk. conv_step. intros c Hc. done. Qed.

Definition downloadable_made (d : pb.MediaDescriptor) (m : DownloadableMedia) : Prop :=
  parse_downloadable (pb.md_media_type d) = Ok (dm_kind m) /\
  (dm_direct_path m, dm_media_key m, dm_file_enc_sha256 m, dm_file_sha256 m, dm_file_length m, dm_mime_type m) =
  (pb.md_direct_path d, pb.md_media_key d, pb.md_file_enc_sha256 d, pb.md_file_sha256 d, pb.md_file_length d,
   pb.md_mime_type d).

Lemma checked_downloadable d :
  checked (downloadable_try_from d) (enum_checks parse_downloadable (pb.md_media_type d)) (downloadable_made d).
Proof. unfold downloadable_try_from. conv_step. intros kind Hk. done. Qed.

(** ** status.rs *)

Definition recipients_checks (values : list pb.Jid) (verb : string) : list Check :=
  refuse_if (bool_decide (values = [])) (no_recipients verb) :: concat ((fun v => required_checks (Some v)) <$> values).

Definition recipients_made (values : list pb.Jid) (js : list Jid) : Prop :=
  values <> [] /\ Forall2 (fun v j => required_made (Some v) j) values js.

Lemma checked_recipients values verb :
  checked (require_recipients values verb) (recipients_checks values verb) (recipients_made values).
Proof.
  apply checked_refuse. intros E%bool_decide_eq_false. eapply checked_mono; [|intros js Hjs; by split].
  apply (checked_mapM _ (fun v => required_checks (Some v)) (fun v j => required_made (Some v) j)).
  intros v. apply checked_required.
Qed.

#[local] Hint Resolve checked_recipients : checked.

Definition status_text_made (r : pb.PostStatusTextRequest) (s : StatusText) : Prop :=
  recipients_made (pb.pst_recipients r) (stt_recipients s) /\
  (stt_text s, stt_background_argb s, stt_font s) = (pb.pst_text r, pb.pst_background_argb r, pb.pst_font r).

Lemma checked_status_text r :
  checked (status_text_try_from r) (recipients_checks (pb.pst_recipients r) POSTED_TO) (status_text_made r).
Proof. unfold status_text_try_from. conv_step. intros js Hjs. done. Qed.

Definition status_media_checks (h : pb.PostStatusMediaHeader) : list Check :=
  enum_checks parse_status (pb.psm_media_type h) ++ recipients_checks (pb.psm_recipients h) POSTED_TO.

Definition status_media_made (h : pb.PostStatusMediaHeader) (s : StatusMedia) : Prop :=
  parse_status (pb.psm_media_type h) = Ok (sm_kind s) /\
  recipients_made (pb.psm_recipients h) (sm_recipients s) /\
  (sm_caption s, sm_thumbnail s, sm_seconds s) = (pb.psm_caption h, pb.psm_thumbnail h, pb.psm_seconds h).

Lemma checked_status_media h : checked (status_media_try_from h) (status_media_checks h) (status_media_made h).
Proof. unfold status_media_try_from, status_media_checks. conv_step. intros k Hk. conv_step. intros js Hjs. done. Qed.

Definition revoke_checks (r : pb.RevokeStatusRequest) : list Check :=
  refuse_if (str_is_empty (pb.rs_message_id r)) (InvalidArgument EMPTY_STATUS_ID) ::
  recipients_checks (pb.rs_recipients r) WAS_POSTED_TO.

Definition revoke_made (r : pb.RevokeStatusRequest) (s : StatusRevoke) : Prop :=
  id_made (pb.rs_message_id r) (sr_message_id s) /\ recipients_made (pb.rs_recipients r) (sr_recipients s).

Lemma checked_revoke r : checked (status_revoke_try_from r) (revoke_checks r) (revoke_made r).
Proof.
  apply checked_refuse. intros E. rewrite <-(app_nil_r (recipients_checks _ _)). conv_step. intros js Hjs.
  eapply checked_last; [by apply checked_known_id|]. intros id Hid. done.
Qed.

(** ** polls.rs *)

Definition identity_checks (creator : option pb.Jid) (poll_id : string) (secret : bytes) : list Check :=
  required_checks creator ++
  [refuse_if (str_is_empty poll_id) (InvalidArgument "empty poll_id");
   refuse_if (bool_decide (length secret <> POLL_SECRET_LEN)) (bad_secret secret)].

Definition identity_made creator poll_id secret (x : Jid * MessageId * bytes) : Prop :=
  required_made creator x.1.1 /\ id_made poll_id x.1.2 /\ x.2 = secret /\ length secret = 32%nat.

Lemma checked_array n (slice : bytes) (e : WamuxError) :
  checked (ok_or (array_try_from n slice) e) [refuse_if (bool_decide (length slice <> n)) e]
    (fun a => a = slice /\ length slice = n).
Proof.
  unfold array_try_from, checked. rewrite first_error_cons. unfold refuse_if. case_decide as D.
  - rewrite bool_decide_false by (by intros []). by exists slice.
  - by rewrite bool_decide_true.
Qed.

Lemma checked_poll_id poll_id :
  checked (map_err (fun _ => InvalidArgument "empty poll_id") (message_id_new poll_id))
    [refuse_if (str_is_empty poll_id) (InvalidArgument "empty poll_id")] (id_made poll_id).
Proof.
  unfold message_id_new, checked. rewrite first_error_cons. unfold refuse_if. destruct (str_is_empty poll_id) eqn:E; [done|].
  eexists. split; [done|]. split; [by apply str_is_empty_false|done].
Qed.

Lemma checked_identity creator poll_id secret :
  checked (vote_identity creator poll_id secret) (identity_checks creator poll_id secret)
    (identity_made creator poll_id secret).
Proof.
  unfold vote_identity, identity_checks. conv_step. intros j Hj.
  eapply (checked_bind _ _ [_] [_]); [apply checked_poll_id|]. intros id Hid.
  eapply checked_last; [apply checked_array|]. intros s [-> Hs]. done.
Qed.

Definition cast_made (r : pb.SendPollVoteRequest) (v : PollVoteCast) : Prop :=
  identity_made (pb.spv_poll_creator r) (pb.spv_poll_id r) (pb.spv_message_secret r)
    (vc_creator v, vc_poll_id v, vc_message_secret v) /\ vc_options v = pb.spv_options r.

Lemma checked_cast r :
  checked (poll_vote_cast_try_from r)
    (identity_checks (pb.spv_poll_creator r) (pb.spv_poll_id r) (pb.spv_message_secret r)) (cast_made r).
Proof.
  unfold poll_vote_cast_try_from. rewrite <-(app_nil_r (identity_checks _ _ _)).
  eapply checked_bind; [apply checked_identity|]. intros [[creator id] secret] H. by conv_ret.
Qed.

Definition vote_made (v : pb.PollVote) (e : EncryptedVote) : Prop :=
  required_made (pb.pv_voter v) (ev_voter e) /\
  (ev_enc_payload e, ev_enc_iv e) = (pb.pv_enc_payload v, pb.pv_enc_iv v).

Lemma checked_vote v : checked (encrypted_vote_try_from v) (required_checks (pb.pv_voter v)) (vote_made v).
Proof. unfold encrypted_vote_try_from. conv_step. intros j Hj. done. Qed.

Definition tally_checks (r : pb.AggregatePollVotesRequest) : list Check :=
  identity_checks (pb.ap_poll_creator r) (pb.ap_poll_id r) (pb.ap_message_secret r) ++
  refuse_if (bool_decide (pb.ap_options r = [])) (InvalidArgument NO_OPTIONS) ::
  concat ((fun v => required_checks (pb.pv_voter v)) <$> pb.ap_votes r).

Definition tally_made (r : pb.AggregatePollVotesRequest) (t : PollVotesToTally) : Prop :=
  identity_made (pb.ap_poll_creator r) (pb.ap_poll_id r) (pb.ap_message_secret r)
    (vt_creator t, vt_poll_id t, vt_message_secret t) /\
  vt_options t <> [] /\ vt_options t = pb.ap_options r /\ Forall2 vote_made (pb.ap_votes r) (vt_votes t).

Lemma checked_tally r : checked (votes_to_tally_try_from r) (tally_checks r) (tally_made r).
Proof.
  unfold votes_to_tally_try_from, tally_checks. eapply checked_bind; [apply checked_identity|].
  intros [[creator id] secret] H. apply checked_refuse. intros E%bool_decide_eq_false.
  eapply checked_last; [apply (checked_mapM _ (fun v => required_checks (pb.pv_voter v)) vote_made), checked_vote|].
  intros votes Hv. done.
Qed.

(** ** rich.rs *)

Definition contact_made (r : pb.SendContactRequest) (c : ContactCard) : Prop :=
  quote_made (pb.sc_quote r) (pb.sc_quoted_message r) (pb.sc_to r) (cc_quote c) /\
  (cc_display_name c, cc_vcard c) = (pb.sc_display_name r, pb.sc_vcard r).

Lemma checked_contact r :
  checked (contact_try_from r) (quote_checks (pb.sc_quote r) (pb.sc_quoted_message r)) (contact_made r).
Proof. unfold contact_try_from. conv_step. intros q Hq. done. Qed.

Definition names_offer (quote : option pb.QuoteContext) : bool :=
  match quote ≫= pb.quoted with
  | Some key => negb (str_is_empty (pb.key_id key))
  | None => false
  end.

Definition choice_of (reply : pb.Reply) : ReplyChoice :=
  match reply with
  | pb.ReplyButton a b => Button a b
  | pb.ReplyList a b c => ListRow a b c
  | pb.ReplyTemplate a b i => Template a b i
  | pb.ReplyNativeFlow a b c v => NativeFlow a b c v
  end.

Definition reply_checks (r : pb.SendInteractiveReplyRequest) : list Check :=
  (refuse_if (negb (names_offer (pb.sir_quote r))) (InvalidArgument NO_OFFER) ::
   quote_checks (pb.sir_quote r) (pb.sir_quoted_message r)) ++
  [refuse_if (bool_decide (pb.sir_reply r = None)) (InvalidArgument "no reply shape set")].

Definition reply_made (r : pb.SendInteractiveReplyRequest) (i : InteractiveReply) : Prop :=
  quote_made (pb.sir_quote r) (pb.sir_quoted_message r) (pb.sir_to r) (Some (ir_quote i)) /\
  exists reply, pb.sir_reply r = Some reply /\ ir_choice i = choice_of reply.

Lemma checked_offer quote quoted_message destination :
  checked (offer_quote quote quoted_message destination)
    (refuse_if (negb (names_offer quote)) (InvalidArgument NO_OFFER) :: quote_checks quote quoted_message)
    (fun q => quote_made quote quoted_message destination (Some q)).
Proof.
  unfold offer_quote. fold (names_offer quote). apply checked_refuse. intros E%negb_false_iff.
  rewrite <-(app_nil_r (quote_checks _ _)). eapply checked_bind; [apply checked_quote|].
  intros [q|] Hq; cbn; [by conv_ret|]. unfold names_offer, quote_made in *. by destruct (quote ≫= pb.quoted).
Qed.

Lemma checked_reply r : checked (interactive_reply_try_from r) (reply_checks r) (reply_made r).
Proof.
  unfold interactive_reply_try_from, reply_checks. eapply checked_bind; [apply checked_offer|]. intros q Hq.
  unfold checked. rewrite first_error_cons. unfold refuse_if, choice_try_from.
  destruct (pb.sir_reply r) as [reply|] eqn:E; [|done].
  rewrite bool_decide_false by done. exists (MkInteractiveReply q (choice_of reply)).
  split; [by destruct reply|]. split; [done|]. exists reply. by rewrite E.
Qed.
End requests.

(** ** newsletter.rs *)

Section newsletter.
Context `{ids : LibIds}.

Definition hash_checks (before : list bytes) (index : nat) (b : bytes) : list Check :=
  [refuse_if (bool_decide (length b <> 32%nat)) (bad_hash index (length b));
   refuse_if (bool_decide (b ∈ before)) (repeated_hash index)].

(** Each hash against the ones before it. *)
Definition hashes_checks (raw : list bytes) : list Check :=
  refuse_if (bool_decide (MAX_NEWSLETTER_VOTE_OPTIONS < length raw)%nat) (too_many_hashes (length raw)) ::
  concat (imap (fun i b => hash_checks (take i raw) i b) raw).

Definition hashes_made (raw hashes : list bytes) : Prop :=
  hashes = raw /\ NoDup raw /\ Forall (fun h => length h = 32%nat) raw /\ (length raw <= MAX_NEWSLETTER_VOTE_OPTIONS)%nat.

Lemma checked_hash_loop (done_ raw : list bytes) :
  checked (hash_loop (length done_) done_ raw)
    (concat (imap (fun i b => hash_checks (done_ ++ take i raw) (length done_ + i) b) raw))
    (fun hashes => hashes = done_ ++ raw /\ Forall (fun h => length h = 32%nat) raw /\ NoDup raw /\
                   forall h, h ∈ raw -> h ∉ done_).
Proof.
  revert done_. induction raw as [|b raw IH]; intros done_; cbn [hash_loop imap concat].
  - conv_ret. rewrite app_nil_r. split_and!; [done|constructor|constructor|set_solver].
  - unfold hash_checks at 1. cbn [take]. rewrite app_nil_r, Nat.add_0_r. rewrite <-app_comm_cons.
    eapply (checked_bind _ _ [_]); [apply checked_array|]. intros h [-> Hlen]. cbn [app].
    apply checked_decide. intros Hnew.
    specialize (IH (done_ ++ [b])). rewrite length_app, Nat.add_1_r in IH. eapply checked_mono.
    + replace (imap _ raw) with (imap (fun i b0 => hash_checks ((done_ ++ [b]) ++ take i raw) (S (length done_) + i) b0) raw);
        [apply IH|]. apply imap_ext. intros i x _. cbn. by rewrite <-app_assoc, Nat.add_succ_r.
    + intros hashes (-> & Hall & Hnd & Hnotin). split_and!.
      * by rewrite <-app_assoc.
      * by constructor.
      * constructor; [|done]. intros Hb. apply (Hnotin b Hb). set_solver.
      * intros x [->|Hx]%elem_of_cons; [done|]. intros Hd. apply (Hnotin x Hx). set_solver.
Qed.

Lemma checked_hashes raw : checked (option_hashes raw) (hashes_checks raw) (hashes_made raw).
Proof.
  unfold option_hashes, hashes_checks. apply checked_decide. intros E.
  eapply checked_mono; [apply (checked_hash_loop [] raw)|]. intros hashes (-> & Hall & Hnd & _). cbn.
  unfold hashes_made. split_and!; try done. lia.
Qed.

Lemma checked_at_least_one field value :
  checked (require_at_least_one field value) [refuse_if (value =? 0) (below_one field)] (fun _ => value <> 0).
Proof. apply checked_refuse. intros E. conv_ret. lia. Qed.

Definition history_checks (r : pb.GetNewsletterMessagesRequest) : list Check :=
  newsletter_checks (pb.gnm_jid r) ++ [refuse_if (pb.gnm_count r =? 0) (below_one "count")].

Definition history_made (r : pb.GetNewsletterMessagesRequest) (q : NewsletterHistoryQuery) : Prop :=
  newsletter_made (pb.gnm_jid r) (nh_jid q) /\ nh_count q = pb.gnm_count r /\ nh_count q <> 0 /\
  (forall row, nh_before q = Some row <-> row = pb.gnm_before r /\ row <> 0).

Lemma checked_history r : checked (history_query_try_from r) (history_checks r) (history_made r).
Proof.
  unfold history_query_try_from, history_checks. conv_step. intros jid Hjid.
  eapply checked_last; [apply checked_at_least_one|]. intros ? Hc. unfold history_made. cbn. split_and!; [done|done|done|].
  intros row. destruct (pb.gnm_before r =? 0) eqn:E; [split; [done|lia]|]. split; [intros [= <-]; lia|by intros [-> _]].
Qed.

Definition vote_checks (r : pb.SendNewsletterPollVoteRequest) : list Check :=
  newsletter_checks (pb.snv_jid r) ++
  refuse_if (pb.snv_server_id r =? 0) (InvalidArgument NO_SERVER_ID) :: hashes_checks (pb.snv_option_hashes r).

Definition newsletter_vote_made (r : pb.SendNewsletterPollVoteRequest) (v : NewsletterPollVote) : Prop :=
  newsletter_made (pb.snv_jid r) (nv_jid v) /\ nv_server_id v = pb.snv_server_id r /\ nv_server_id v <> 0 /\
  hashes_made (pb.snv_option_hashes r) (nv_option_hashes v).

Lemma checked_newsletter_vote r : checked (newsletter_vote_try_from r) (vote_checks r) (newsletter_vote_made r).
Proof.
  unfold newsletter_vote_try_from, vote_checks. conv_step. intros jid Hjid. apply checked_refuse. intros E.
  eapply checked_last; [apply checked_hashes|]. intros hashes Hh. unfold newsletter_vote_made. cbn.
  split_and!; [done|done|lia|done].
Qed.

Definition add_ons_checks (r : pb.GetMyNewsletterAddOnsRequest) : list Check :=
  newsletter_checks (pb.gma_jid r) ++ [refuse_if (pb.gma_limit r =? 0) (below_one "limit")].

Definition add_ons_made (r : pb.GetMyNewsletterAddOnsRequest) (q : NewsletterAddOnsQuery) : Prop :=
  newsletter_made (pb.gma_jid r) (na_jid q) /\ na_limit q = pb.gma_limit r /\ na_limit q <> 0.

Lemma checked_add_ons r : checked (add_ons_query_try_from r) (add_ons_checks r) (add_ons_made r).
Proof.
  unfold add_ons_query_try_from, add_ons_checks. conv_step. intros jid Hjid.
  eapply checked_last; [apply checked_at_least_one|]. intros ? Hc. done.
Qed.
End newsletter.
