(* ===== verification/BoundaryProps.v ===== *)
(** * What the boundary promises: the values it lets in, its refusals, the references it prints *)

From S2P Require Import Prelude Errors Wire RequestEnums Jids Messaging MessagingLaws.

Section boundary.
Context `{ids : LibIds}.

(** ** Well-formed values *)

Definition jid_ok (j : Jid) : Prop := exists text, text <> "" /\ from_str text = Ok (as_lib j).
Definition group_ok (g : GroupJid) : Prop := jid_ok (group_as_jid g) /\ server (as_lib (group_as_jid g)) = ServerGroup.
Definition newsletter_ok (n : NewsletterJid) : Prop :=
  jid_ok (newsletter_as_jid n) /\ server (as_lib (newsletter_as_jid n)) = ServerNewsletter.
Definition id_ok (id : MessageId) : Prop := id_as_str id <> "".
Definition option_ok {A} (P : A -> Prop) (o : option A) : Prop := forall a, o = Some a -> P a.

Definition target_ok (t : MessageTarget) : Prop :=
  jid_ok (mt_chat t) /\ option_ok jid_ok (mt_participant t) /\ id_ok (mt_id t).
Definition quote_ok (q : QuotedRef) : Prop :=
  id_ok (q_id q) /\ option_ok jid_ok (q_participant q) /\ option_ok jid_ok (q_remote_chat q).
Definition context_ok (c : OutgoingContext) : Prop :=
  Forall jid_ok (oc_mentions c) /\ option_ok quote_ok (oc_quote c).
Definition recipients_ok (js : list Jid) : Prop := js <> [] /\ Forall jid_ok js.
Definition identity_ok (creator : Jid) (id : MessageId) (secret : bytes) : Prop :=
  jid_ok creator /\ id_ok id /\ length secret = 32%nat.
Definition hashes_ok (hashes : list bytes) : Prop :=
  NoDup hashes /\ Forall (fun h => length h = 32%nat) hashes /\ (length hashes <= 1000)%nat.

Lemma required_ok jid j : required_made jid j -> jid_ok j.
Proof. intros []. by eexists. Qed.

Lemma optional_ok jid o : optional_made jid o -> option_ok jid_ok o.
Proof. intros H j ->. by eapply required_ok. Qed.

Lemma id_made_ok text id : id_made text id -> id_ok id.
Proof. unfold id_ok. by intros [? ->]. Qed.

Lemma remote_ok key destination o : remote_made key destination o -> option_ok jid_ok o.
Proof. intros H j ->. destruct H as [H _]. by eapply required_ok. Qed.

Lemma quote_made_ok quote m d o : quote_made quote m d o -> option_ok quote_ok o.
Proof.
  intros H q ->. unfold quote_made in H. destruct (quote ≫= pb.quoted) as [key|]; [|done].
  destruct H as (H1 & H2 & H3 & _). split_and!; [by eapply id_made_ok|by eapply optional_ok|by eapply remote_ok].
Qed.

Lemma Forall2_made_ok {A} (get : A -> option pb.Jid) (l : list A) js :
  Forall2 (fun a j => required_made (get a) j) l js -> Forall jid_ok js.
Proof. induction 1; constructor; [by eapply required_ok|done]. Qed.

Lemma context_made_ok ms q m s d c : context_made ms q m s d c -> context_ok c.
Proof. intros (H1 & H2 & _). split; [by eapply Forall2_made_ok|by eapply quote_made_ok]. Qed.

Lemma recipients_made_ok values js : recipients_made values js -> recipients_ok js.
Proof.
  intros [Hne H]. split; [|by eapply (Forall2_made_ok Some)].
  intros ->. by apply Forall2_nil_inv_r in H.
Qed.

Lemma identity_made_ok c p s x : identity_made c p s x -> identity_ok x.1.1 x.1.2 x.2.
Proof. intros (H1 & H2 & -> & H3). split_and!; [by eapply required_ok|by eapply id_made_ok|done]. Qed.

Lemma hashes_made_ok raw hashes : hashes_made raw hashes -> hashes_ok hashes.
Proof. by intros (-> & ? & ? & ?). Qed.

Lemma parse_within_ok value field subset kind : parse_within value field subset = Ok kind -> kind ∈ subset.
Proof. intros H. by apply (parse_within_accepts field subset) in H as [? _]. Qed.

(** Every value a conversion gives is in [P]. *)
Definition gives {R V} (conv : R -> WamuxResult V) (P : V -> Prop) : Prop := forall r v, conv r = Ok v -> P v.

Lemma gives_intro {R V} (conv : R -> WamuxResult V) checks made P :
  (forall r, checked (conv r) (checks r) (made r)) -> (forall r v, made r v -> P v) -> gives conv P.
Proof. intros Hc Hm r v Hr. eapply Hm, checked_value; [apply Hc|done]. Qed.

#[local] Hint Resolve required_ok optional_ok id_made_ok quote_made_ok context_made_ok recipients_made_ok
  hashes_made_ok parse_within_ok : made.

Lemma identity_of_made creator id secret c p s : identity_made c p s (creator, id, secret) -> identity_ok creator id secret.
Proof. by intros H%identity_made_ok. Qed.

#[local] Hint Resolve identity_of_made : made.

(** The values of a conversion, from its [checked] lemma and what its parts made. *)
Ltac gives_by lemma :=
  eapply gives_intro; [intros; apply lemma|intros r v H; hnf in H; destruct_and?; try unfold target_ok; split_and?; eauto with made].

Lemma newsletter_made_ok jid n : newsletter_made jid n -> newsletter_ok n.
Proof. intros [H Hs]. split; [by eapply required_ok|done]. Qed.
#[local] Hint Resolve newsletter_made_ok : made.

Lemma required_gives : gives from_required_wire jid_ok.
Proof. eapply gives_intro; [apply checked_required|]. intros. by eapply required_ok. Qed.
Lemma group_gives : gives group_from_required_wire group_ok.
Proof. eapply gives_intro; [apply checked_group|]. intros r g [H Hs]. split; [by eapply required_ok|done]. Qed.
Lemma newsletter_gives : gives newsletter_from_required_wire newsletter_ok.
Proof. eapply gives_intro; [apply checked_newsletter|]. intros. by eapply newsletter_made_ok. Qed.
Lemma lid_gives : gives lid_pn_query_try_from (fun q => jid_ok (lq_jid q)).
Proof. gives_by checked_lid. Qed.
Lemma history_gives : gives history_query_try_from (fun q => newsletter_ok (nh_jid q) /\ nh_count q <> 0 /\ nh_before q <> Some 0).
Proof. gives_by checked_history. match goal with H : forall row, _ |- _ => intros [_ []]%H; done end. Qed.
Lemma newsletter_vote_gives :
  gives newsletter_vote_try_from (fun v => newsletter_ok (nv_jid v) /\ nv_server_id v <> 0 /\ hashes_ok (nv_option_hashes v)).
Proof. gives_by checked_newsletter_vote. Qed.
Lemma add_ons_gives : gives add_ons_query_try_from (fun q => newsletter_ok (na_jid q) /\ na_limit q <> 0).
Proof. gives_by checked_add_ons. Qed.
#[local] Hint Resolve required_gives group_gives newsletter_gives lid_gives history_gives newsletter_vote_gives add_ons_gives : gives.

(** C21.  Whatever a client sends, a request that is let in is well formed.  Every jid in it is one the
    library accepts, a group is on the group server and a channel on the newsletter server; no
    message id is empty; a quote has its id; the media can be sent, posted or downloaded, as the
    request asks; a status has recipients; a poll secret is 32 bytes, and a tally has options; a
    channel poll vote has at most 1000 distinct hashes of 32 bytes and names a poll, and a page of
    a channel has at least one row. *)
Theorem conversions_well_formed :
  gives from_required_wire jid_ok /\ gives from_optional_wire (option_ok jid_ok) /\
  gives group_from_required_wire group_ok /\ gives newsletter_from_required_wire newsletter_ok /\
  gives lid_pn_query_try_from (fun q => jid_ok (lq_jid q)) /\
  gives target_try_from target_ok /\
  gives text_try_from (fun t => context_ok (ot_context t)) /\
  gives media_try_from (fun m => om_kind m ∈ [Image; Video; Audio; Document; Sticker] /\ context_ok (om_context m)) /\
  gives downloadable_try_from (fun d => dm_kind d ∈ ALL_MEDIA) /\
  gives status_text_try_from (fun s => recipients_ok (stt_recipients s)) /\
  gives status_media_try_from (fun s => sm_kind s ∈ [Image; Video] /\ recipients_ok (sm_recipients s)) /\
  gives status_revoke_try_from (fun s => id_ok (sr_message_id s) /\ recipients_ok (sr_recipients s)) /\
  gives poll_vote_cast_try_from (fun v => identity_ok (vc_creator v) (vc_poll_id v) (vc_message_secret v)) /\
  gives votes_to_tally_try_from (fun t => identity_ok (vt_creator t) (vt_poll_id t) (vt_message_secret t) /\
    vt_options t <> [] /\ Forall (fun e => jid_ok (ev_voter e)) (vt_votes t)) /\
  gives contact_try_from (fun c => option_ok quote_ok (cc_quote c)) /\
  gives interactive_reply_try_from (fun i => quote_ok (ir_quote i)) /\
  gives history_query_try_from (fun q => newsletter_ok (nh_jid q) /\ nh_count q <> 0 /\ nh_before q <> Some 0) /\
  gives newsletter_vote_try_from (fun v => newsletter_ok (nv_jid v) /\ nv_server_id v <> 0 /\ hashes_ok (nv_option_hashes v)) /\
  gives add_ons_query_try_from (fun q => newsletter_ok (na_jid q) /\ na_limit q <> 0).
Proof.
  split_and!; try solve [eauto with gives].
  - eapply gives_intro; [apply checked_optional|]. intros. by eapply optional_ok.
  - gives_by checked_target.
  - gives_by checked_text.
  - gives_by checked_media.
  - gives_by checked_downloadable.
  - gives_by checked_status_text.
  - gives_by checked_status_media.
  - gives_by checked_revoke.
  - gives_by checked_cast.
  - gives_by checked_tally. match goal with H : Forall2 _ _ _ |- _ => clear -H; induction H as [|? ? ? ? [? _]]; constructor end;
      [by eapply required_ok|done].
  - gives_by checked_contact.
  - eapply gives_intro; [apply checked_reply|]. intros r v [H _]. by eapply quote_made_ok.
Qed.

(** ** Refusals *)

Definition invalid (c : Check) : Prop := forall e, c = Some e -> exists message, e = InvalidArgument message.

(** A conversion that gives the first error of its checks, each an InvalidArgument, and otherwise
    a value that is [made] of the request. *)
Definition converts {R V} (conv : R -> WamuxResult V) (checks : R -> list Check) (made : R -> V -> Prop) : Prop :=
  forall r, checked (conv r) (checks r) (made r) /\ Forall invalid (checks r).

Lemma invalid_refuse b message : invalid (refuse_if b (InvalidArgument message)).
Proof. intros e. unfold refuse_if. destruct b; [|done]. intros [= <-]. by eexists. Qed.

Lemma invalid_parse text : invalid (parse_check text).
Proof. intros e. unfold parse_check. destruct (from_str text); [done|]. intros [= <-]. by eexists. Qed.

Lemma invalid_some message : invalid (Some (InvalidArgument message)).
Proof. intros e [= <-]. by eexists. Qed.

Lemma invalid_required jid : Forall invalid (required_checks jid).
Proof. repeat constructor; [apply invalid_refuse|apply invalid_parse]. Qed.

Lemma invalid_optional jid : Forall invalid (optional_checks jid).
Proof. unfold optional_checks. case_match; repeat constructor. apply invalid_parse. Qed.

Lemma invalid_server s text refused : Forall invalid (server_checks s text refused).
Proof. unfold server_checks. case_match; repeat constructor. apply invalid_refuse. Qed.

Lemma invalid_enum field subset value : Forall invalid (enum_checks (fun v => parse_within v field subset) value).
Proof.
  repeat constructor. intros e. case_match eqn:E; [done|]. intros [= <-].
  apply (parse_within_accepts field subset) in E as ->. by eexists.
Qed.

Lemma invalid_concat {A} (f : A -> list Check) (l : list A) :
  (forall a, Forall invalid (f a)) -> Forall invalid (concat (f <$> l)).
Proof. intros Hf. induction l; cbn; [constructor|]. by apply Forall_app. Qed.

Lemma invalid_imap {A} (f : nat -> A -> list Check) (l : list A) :
  (forall i a, Forall invalid (f i a)) -> Forall invalid (concat (imap f l)).
Proof. revert f. induction l as [|a l IH]; intros f Hf; cbn; [constructor|]. apply Forall_app. split; [done|]. apply IH. intros. apply Hf. Qed.

#[local] Hint Resolve invalid_refuse invalid_parse invalid_some invalid_required invalid_optional invalid_server
  invalid_concat invalid_imap Forall_nil_2 Forall_cons_2 Forall_app_2 : invalid.
#[local] Hint Extern 1 (Forall invalid (enum_checks _ _)) => apply invalid_enum : invalid.

Lemma invalid_quote quote message : Forall invalid (quote_checks quote message).
Proof. unfold quote_checks. case_match; auto 6 with invalid. Qed.

Lemma invalid_recipients values verb : Forall invalid (recipients_checks values verb).
Proof. unfold recipients_checks, no_recipients. auto with invalid. Qed.

Lemma invalid_account account : Forall invalid (account_checks account).
Proof. unfold account_checks. repeat case_match; auto with invalid. Qed.

#[local] Hint Resolve invalid_quote invalid_recipients invalid_account : invalid.

Ltac converts_by lemma :=
  intros r; split; [apply lemma|];
  unfold media_checks, status_media_checks, revoke_checks, tally_checks, identity_checks, reply_checks, history_checks,
    vote_checks, add_ons_checks, hashes_checks, hash_checks, context_checks, mentions_checks, group_checks,
    newsletter_checks, target_checks, bad_secret, too_many_hashes, bad_hash, repeated_hash, below_one;
  auto 9 with invalid.

(** A refused request is told the first thing wrong with it, and nothing else is: each
    conversion makes its checks in one order, gives the error of the first that fails, always an
    InvalidArgument, and when none fails it answers with a value made of the request.  The orders
    are the code's: the kind of a media, then the mentions one by one, then the quote; of a quote
    its id, its author (the context's own if it is set, else the key's), then the quoted chat,
    which is kept only when it is not the chat the reply goes to; the creator of a poll, its id,
    its secret, then the options and the voters; the channel, then what is asked of it, and each
    option hash for its length and then against the ones before it. *)
Theorem conversions_check_in_order :
  converts from_required_wire required_checks required_made /\
  converts from_optional_wire optional_checks optional_made /\
  converts group_from_required_wire group_checks group_made /\
  converts newsletter_from_required_wire newsletter_checks newsletter_made /\
  converts account_from_proto account_checks account_made /\
  converts lid_pn_query_try_from (fun q => required_checks (Some q)) lid_made /\
  converts target_try_from target_checks target_made /\
  converts text_try_from (fun r => context_checks (pb.stx_mentions r) (pb.stx_quote r) (pb.stx_quoted_message r)) text_made /\
  converts media_try_from media_checks media_made /\
  converts downloadable_try_from (fun d => enum_checks parse_downloadable (pb.md_media_type d)) downloadable_made /\
  converts status_text_try_from (fun r => recipients_checks (pb.pst_recipients r) POSTED_TO) status_text_made /\
  converts status_media_try_from status_media_checks status_media_made /\
  converts status_revoke_try_from revoke_checks revoke_made /\
  converts poll_vote_cast_try_from
    (fun r => identity_checks (pb.spv_poll_creator r) (pb.spv_poll_id r) (pb.spv_message_secret r)) cast_made /\
  converts votes_to_tally_try_from tally_checks tally_made /\
  converts contact_try_from (fun r => quote_checks (pb.sc_quote r) (pb.sc_quoted_message r)) contact_made /\
  converts interactive_reply_try_from reply_checks reply_made /\
  converts history_query_try_from history_checks history_made /\
  converts newsletter_vote_try_from vote_checks newsletter_vote_made /\
  converts add_ons_query_try_from add_ons_checks add_ons_made.
Proof.
  split_and!.
  - converts_by checked_required.
  - converts_by checked_optional.
  - converts_by checked_group.
  - converts_by checked_newsletter.
  - converts_by checked_account.
  - converts_by checked_lid.
  - converts_by checked_target.
  - converts_by checked_text.
  - converts_by checked_media.
  - converts_by checked_downloadable.
  - converts_by checked_status_text.
  - converts_by checked_status_media.
  - converts_by checked_revoke.
  - converts_by checked_cast.
  - converts_by checked_tally.
  - converts_by checked_contact.
  - converts_by checked_reply.
  - converts_by checked_history.
  - converts_by checked_newsletter_vote.
  - converts_by checked_add_ons.
Qed.

End boundary.

(** ** References the core prints *)

(** What the core prints it takes back.  An account reference it puts on the wire converts back
    to the same reference, an external one whatever its text, the empty one too; a jid it relays
    out is never an empty message, and sent back in a request it is the same jid. *)
Theorem references_roundtrip `{ids : LibIds} `{!LibIdsLaws ids} :
  (forall a, account_try_from (account_to_wire a) = Ok a) /\
  (forall j, jid_ok j -> relay_lib_jid (as_lib j) = Some (jid_to_wire j) /\
     from_required_wire (relay_lib_jid (as_lib j)) = Ok j /\
     from_optional_wire (relay_optional_lib_jid (Some (as_lib j))) = Ok (Some j)).
Proof.
  split.
  - intros [[u]|[external]]; cbn; [|done]. unfold account_id_parse. by rewrite uuid_roundtrip.
  - intros j (text & _ & Hj). destruct j as [j]. cbn in Hj.
    pose proof (jid_display_nonempty _ _ Hj) as Hne%str_is_empty_false.
    pose proof (jid_roundtrip _ _ Hj) as Hr.
    unfold relay_optional_lib_jid, from_required_wire, jid_try_from, jid_to_wire. cbn [mbind option_bind].
    unfold relay_lib_jid, relay_jid. cbn [as_lib]. rewrite !Hne. cbn. unfold jid_parse. rewrite Hne, Hr. done.
Qed.

(** ** Witness *)

(** Jids as the texts themselves, by the server at their end. *)
Definition toy_server (s : string) : nat :=
  if String.prefix "su.g@" (String.rev s) then 1%nat else if String.prefix "rettelswen@" (String.rev s) then 2%nat else 0%nat.

#[export] Instance toy_ids : LibIds := {
  LJid := string;
  from_str s := if String.prefix "!" s || str_is_empty s then Err "no user" else Ok s;
  jid_display s := s;
  Server := nat;
  server := toy_server;
  ServerGroup := 1%nat;
  ServerNewsletter := 2%nat;
  LUuid := string;
  parse_str := Some;
  uuid_display s := s;
}.

#[export] Instance toy_ids_laws : LibIdsLaws toy_ids.
Proof.
  split; cbn; [|intros s j|done].
  - intros s j. destruct (_ || _) eqn:E; [done|]. intros [= ->]. by rewrite E.
  - destruct (_ || _) eqn:E; [done|]. intros [= ->] ->. done.
Qed.

Lemma references_roundtrip_witness :
  let channel : Jid := MkJid "12@newsletter" in
  jid_ok channel /\ from_required_wire (relay_lib_jid (as_lib channel)) = Ok channel /\
  is_ok (group_from_required_wire (Some (pb.MkJid "1@g.us"))) = true /\
  group_from_required_wire (Some (pb.MkJid "12@newsletter")) =
    Err (InvalidArgument "'12@newsletter' is not a group: expected a jid ending in @g.us").
Proof.
  intros channel. assert (Hok : jid_ok channel) by (by exists "12@newsletter").
  split_and!; [exact Hok|by apply (references_roundtrip (ids := toy_ids))|reflexivity|reflexivity].
Defined.
