(* ===== verification/RelayedEnums.v ===== *)
(** * Library enums on the wire

    wamux-types' group_enums.rs, call_enums.rs, event_enums.rs, business_enums.rs and
    newsletter_enums.rs, and [MediaKind::media_type]: each value the library hands over as the
    contract's enum, with the server's own token or code next to UNKNOWN.  The library's enums are
    inductives of the variants the code names; a [non_exhaustive] one has a constructor more, for
    the variants this build does not name. *)

From S2P Require Import Prelude RequestEnums.

Module wa.
(** The library's enums (wacore). *)
Inductive AddressingMode : Type := Pn | Lid.
Inductive ParticipantType : Type := Member | Admin | SuperAdmin.
Inductive GroupParticipantType : Type := NParticipant | NAdmin | NSuperAdmin.
Inductive GroupAppealStatus : Type := Approved | InReview | NoAppeal | Rejected.
Inductive MembershipRequestMethod : Type := InviteLink | LinkedGroupJoin | NonAdminAdd.
Inductive GroupHistorySentState : Type := HistoryNotSent | HistorySent | NoticeSent.
Inductive VideoState : Type :=
| VideoUnknown (code : Z) | VideoDisabled | VideoEnabled | VideoPaused | UpgradeRequest | UpgradeAccept
| UpgradeReject | VideoStopped | UpgradeRejectByTimeout | UpgradeCancel | UpgradeCancelByTimeout
| UnknownPeer | UpgradeRequestV2 | VideoError.
Inductive ScreenShareState : Type := ShareStarted | ShareStopped.
Inductive CallLinkMedia : Type := LinkAudio | LinkVideo.
Inductive ReceiptType : Type :=
| Delivered | Sent | Sender | Retry | EncRekeyRetry | Read | ReadSelf | Played | PlayedSelf | ServerError
| Inactive | PeerMsg | HistorySync | ReceiptOther (raw : string) | ReceiptUnnamed (as_wire_str : string).
Inductive ChatActivity : Type := Typing | RecordingAudio | Idle | ActivityUnnamed.
Inductive UnavailableType : Type := UnavailableUnknown | ViewOnce | Hosted | Bot.
Inductive ConnectFailureReason : Type :=
| Generic | LoggedOut | TempBanned | AccountLocked | UnknownLogout | ClientOutdated | BadUserAgent
| CatExpired | CatInvalid | FailNotFound | ClientUnknown | InternalServerError | Experimental
| ServiceUnavailable | FailUnknown (code : Z).
Inductive TempBanReason : Type :=
| SentToTooManyPeople | BlockedByUsers | CreatedTooManyGroups | SentTooManySameMessage | BroadcastList
| BanUnknown (code : Z).
Inductive DayOfWeek : Type :=
| Sunday | Monday | Tuesday | Wednesday | Thursday | Friday | Saturday | DayOther (token : string).
Inductive BusinessHourMode : Type := Open24H | SpecificHours | AppointmentOnly | HourOther (token : string).
Inductive PollType : Type := Creation | QuizCreation | Vote | ResultSnapshot | Edit.
Inductive EditAttribute : Type :=
| EditEmpty | MessageEdit | PinInChat | AdminEdit | SenderRevoke | AdminRevoke | EditUnknown (token : string).
Inductive MediaType : Type := Image | Video | Audio | Document | Sticker | StickerPack | StickerPackThumbnail.
End wa.

(** The contract's enums, with the two variants every one has. *)
Inductive Wire (K : Type) : Type := Unspecified | Unknown | Known (k : K).
Arguments Unspecified {K}.
Arguments Unknown {K}.
Arguments Known {K}.

Module contract.
Inductive GroupAddressingMode : Type := Pn | Lid.
Inductive GroupParticipantType : Type := Member | Admin | Superadmin.
Inductive GroupMemberAddMode : Type := AdminAdd | AllMemberAdd.
Inductive GroupMemberLinkMode : Type := AdminLink | AllMemberLink.
Inductive GroupMemberShareHistoryMode : Type := AdminShare | AllMemberShare.
Inductive GroupAppealStatus : Type := Approved | InReview | NoAppeal | Rejected.
Inductive MembershipRequestMethod : Type := InviteLink | LinkedGroupJoin | NonAdminAdd.
Inductive GroupHistorySentState : Type := HistoryNotSent | HistorySent | NoticeSent.
Inductive CallVideoStateKind : Type :=
| Disabled | Enabled | Paused | UpgradeRequest | UpgradeAccept | UpgradeReject | Stopped
| UpgradeRejectByTimeout | UpgradeCancel | UpgradeCancelByTimeout | UnknownPeer | UpgradeRequestV2 | Error.
Inductive ScreenShareState : Type := ShareStarted | ShareStopped.
Inductive CallLinkMedia : Type := LinkAudio | LinkVideo.
Inductive ReceiptType : Type :=
| Delivered | Sent | Sender | Retry | EncRekeyRetry | Read | ReadSelf | Played | PlayedSelf | ServerError
| Inactive | PeerMsg | HistorySync.
Inductive ChatState : Type := Composing | Recording | ChatPaused.
Inductive UnavailableReason : Type := ViewOnce | Hosted | Bot.
Inductive LogoutReason : Type :=
| Generic | LoggedOut | TempBanned | AccountLocked | UnknownLogout | ClientOutdated | BadUserAgent
| CatExpired | CatInvalid | NotFound | ClientUnknown | InternalServerError | Experimental | ServiceUnavailable.
Inductive BanReason : Type :=
| SentToTooManyPeople | BlockedByUsers | CreatedTooManyGroups | SentTooManySameMessage | BroadcastList.
Inductive BusinessDayOfWeek : Type := Sunday | Monday | Tuesday | Wednesday | Thursday | Friday | Saturday.
Inductive BusinessHourMode : Type := Open24h | SpecificHours | AppointmentOnly.
Inductive NewsletterPollType : Type := Creation | QuizCreation | Vote | ResultSnapshot | Edit.
Inductive EditAttribute : Type := MessageEdit | PinInChat | AdminEdit | SenderRevoke | AdminRevoke.
End contract.

(** ** group_enums.rs *)

Definition addressing_mode_of (mode : wa.AddressingMode) : Wire contract.GroupAddressingMode :=
  Known (match mode with wa.Pn => contract.Pn | wa.Lid => contract.Lid end).

Definition participant_type_of (t : wa.ParticipantType) : Wire contract.GroupParticipantType :=
  Known (match t with
    | wa.Member => contract.Member | wa.Admin => contract.Admin | wa.SuperAdmin => contract.Superadmin end).

Definition member_add_mode_of (mode : MemberAddMode) : Wire contract.GroupMemberAddMode :=
  Known (match mode with AdminAdd => contract.AdminAdd | AllMemberAdd => contract.AllMemberAdd end).

Definition member_link_mode_of (mode : MemberLinkMode) : Wire contract.GroupMemberLinkMode :=
  Known (match mode with AdminLink => contract.AdminLink | AllMemberLink => contract.AllMemberLink end).

Definition member_share_history_mode_of (mode : MemberShareHistoryMode) : Wire contract.GroupMemberShareHistoryMode :=
  Known (match mode with AdminShare => contract.AdminShare | AllMemberShare => contract.AllMemberShare end).

Definition appeal_status_of (status : wa.GroupAppealStatus) : Wire contract.GroupAppealStatus :=
  Known (match status with
    | wa.Approved => contract.Approved | wa.InReview => contract.InReview | wa.NoAppeal => contract.NoAppeal
    | wa.Rejected => contract.Rejected end).

Definition notification_participant_type_of (t : wa.GroupParticipantType) : Wire contract.GroupParticipantType :=
  Known (match t with
    | wa.NParticipant => contract.Member | wa.NAdmin => contract.Admin | wa.NSuperAdmin => contract.Superadmin end).

Definition membership_request_method_of (m : wa.MembershipRequestMethod) : Wire contract.MembershipRequestMethod :=
  Known (match m with
    | wa.InviteLink => contract.InviteLink | wa.LinkedGroupJoin => contract.LinkedGroupJoin
    | wa.NonAdminAdd => contract.NonAdminAdd end).

Definition history_sent_state_of (s : wa.GroupHistorySentState) : Wire contract.GroupHistorySentState :=
  Known (match s with
    | wa.HistoryNotSent => contract.HistoryNotSent | wa.HistorySent => contract.HistorySent
    | wa.NoticeSent => contract.NoticeSent end).

Section tokens.
(** The library's own exact match of a token ([MemberAddMode::try_from], [PollType::try_from]). *)
Context (add_mode_try_from : string -> option MemberAddMode) (poll_type_try_from : string -> option wa.PollType).

Definition member_add_mode_token_of (token : string) : Wire contract.GroupMemberAddMode * string :=
  if str_is_empty token then (Unspecified, "")
  else
    match add_mode_try_from token with
    | Some mode => (member_add_mode_of mode, "")
    | None => (Unknown, token)
    end.

(** ** newsletter_enums.rs *)

Definition named_poll_type (t : wa.PollType) : Wire contract.NewsletterPollType :=
  Known (match t with
    | wa.Creation => contract.Creation | wa.QuizCreation => contract.QuizCreation | wa.Vote => contract.Vote
    | wa.ResultSnapshot => contract.ResultSnapshot | wa.Edit => contract.Edit end).

Definition poll_type_of (raw : option string) : Wire contract.NewsletterPollType * string :=
  match raw with
  | None => (Unspecified, "")
  | Some token =>
      match poll_type_try_from token with
      | Some poll_type => (named_poll_type poll_type, "")
      | None => (Unknown, token)
      end
  end.
End tokens.

Definition edit_attribute_of (edit : wa.EditAttribute) : Wire contract.EditAttribute * string :=
  match edit with
  | wa.EditEmpty => (Unspecified, "")
  | wa.MessageEdit => (Known contract.MessageEdit, "")
  | wa.PinInChat => (Known contract.PinInChat, "")
  | wa.AdminEdit => (Known contract.AdminEdit, "")
  | wa.SenderRevoke => (Known contract.SenderRevoke, "")
  | wa.AdminRevoke => (Known contract.AdminRevoke, "")
  | wa.EditUnknown token => (Unknown, token)
  end.

(** ** call_enums.rs *)

Definition video_state_of (state : wa.VideoState) : Wire contract.CallVideoStateKind * Z :=
  match state with
  | wa.VideoUnknown code => (Unknown, code)
  | wa.VideoDisabled => (Known contract.Disabled, 0)
  | wa.VideoEnabled => (Known contract.Enabled, 0)
  | wa.VideoPaused => (Known contract.Paused, 0)
  | wa.UpgradeRequest => (Known contract.UpgradeRequest, 0)
  | wa.UpgradeAccept => (Known contract.UpgradeAccept, 0)
  | wa.UpgradeReject => (Known contract.UpgradeReject, 0)
  | wa.VideoStopped => (Known contract.Stopped, 0)
  | wa.UpgradeRejectByTimeout => (Known contract.UpgradeRejectByTimeout, 0)
  | wa.UpgradeCancel => (Known contract.UpgradeCancel, 0)
  | wa.UpgradeCancelByTimeout => (Known contract.UpgradeCancelByTimeout, 0)
  | wa.UnknownPeer => (Known contract.UnknownPeer, 0)
  | wa.UpgradeRequestV2 => (Known contract.UpgradeRequestV2, 0)
  | wa.VideoError => (Known contract.Error, 0)
  end.

Definition screen_share_state_of (s : wa.ScreenShareState) : Wire contract.ScreenShareState :=
  Known (match s with wa.ShareStarted => contract.ShareStarted | wa.ShareStopped => contract.ShareStopped end).

Definition call_link_media_of (m : wa.CallLinkMedia) : Wire contract.CallLinkMedia :=
  Known (match m with wa.LinkAudio => contract.LinkAudio | wa.LinkVideo => contract.LinkVideo end).

(** ** event_enums.rs *)

Definition receipt_type_of (receipt : wa.ReceiptType) : Wire contract.ReceiptType * string :=
  match receipt with
  | wa.Delivered => (Known contract.Delivered, "")
  | wa.Sent => (Known contract.Sent, "")
  | wa.Sender => (Known contract.Sender, "")
  | wa.Retry => (Known contract.Retry, "")
  | wa.EncRekeyRetry => (Known contract.EncRekeyRetry, "")
  | wa.Read => (Known contract.Read, "")
  | wa.ReadSelf => (Known contract.ReadSelf, "")
  | wa.Played => (Known contract.Played, "")
  | wa.PlayedSelf => (Known contract.PlayedSelf, "")
  | wa.ServerError => (Known contract.ServerError, "")
  | wa.Inactive => (Known contract.Inactive, "")
  | wa.PeerMsg => (Known contract.PeerMsg, "")
  | wa.HistorySync => (Known contract.HistorySync, "")
  | wa.ReceiptOther raw => (Unknown, raw)
  | wa.ReceiptUnnamed as_wire_str => (Unknown, as_wire_str)
  end.

Definition chat_state_of (activity : wa.ChatActivity) : Wire contract.ChatState :=
  match activity with
  | wa.Typing => Known contract.Composing
  | wa.RecordingAudio => Known contract.Recording
  | wa.Idle => Known contract.ChatPaused
  | wa.ActivityUnnamed => Unknown
  end.

Definition unavailable_reason_of (reason : wa.UnavailableType) : Wire contract.UnavailableReason :=
  match reason with
  | wa.UnavailableUnknown => Unknown
  | wa.ViewOnce => Known contract.ViewOnce
  | wa.Hosted => Known contract.Hosted
  | wa.Bot => Known contract.Bot
  end.

Definition logout_reason_of (reason : wa.ConnectFailureReason) : Wire contract.LogoutReason * Z :=
  match reason with
  | wa.Generic => (Known contract.Generic, 0)
  | wa.LoggedOut => (Known contract.LoggedOut, 0)
  | wa.TempBanned => (Known contract.TempBanned, 0)
  | wa.AccountLocked => (Known contract.AccountLocked, 0)
  | wa.UnknownLogout => (Known contract.UnknownLogout, 0)
  | wa.ClientOutdated => (Known contract.ClientOutdated, 0)
  | wa.BadUserAgent => (Known contract.BadUserAgent, 0)
  | wa.CatExpired => (Known contract.CatExpired, 0)
  | wa.CatInvalid => (Known contract.CatInvalid, 0)
  | wa.FailNotFound => (Known contract.NotFound, 0)
  | wa.ClientUnknown => (Known contract.ClientUnknown, 0)
  | wa.InternalServerError => (Known contract.InternalServerError, 0)
  | wa.Experimental => (Known contract.Experimental, 0)
  | wa.ServiceUnavailable => (Known contract.ServiceUnavailable, 0)
  | wa.FailUnknown code => (Unknown, code)
  end.

Definition ban_reason_of (reason : wa.TempBanReason) : Wire contract.BanReason * Z :=
  match reason with
  | wa.SentToTooManyPeople => (Known contract.SentToTooManyPeople, 0)
  | wa.BlockedByUsers => (Known contract.BlockedByUsers, 0)
  | wa.CreatedTooManyGroups => (Known contract.CreatedTooManyGroups, 0)
  | wa.SentTooManySameMessage => (Known contract.SentTooManySameMessage, 0)
  | wa.BroadcastList => (Known contract.BroadcastList, 0)
  | wa.BanUnknown code => (Unknown, code)
  end.

(** ** business_enums.rs *)

Definition day_of_week_of (day : wa.DayOfWeek) : Wire contract.BusinessDayOfWeek * string :=
  match day with
  | wa.Sunday => (Known contract.Sunday, "")
  | wa.Monday => (Known contract.Monday, "")
  | wa.Tuesday => (Known contract.Tuesday, "")
  | wa.Wednesday => (Known contract.Wednesday, "")
  | wa.Thursday => (Known contract.Thursday, "")
  | wa.Friday => (Known contract.Friday, "")
  | wa.Saturday => (Known contract.Saturday, "")
  | wa.DayOther token => (Unknown, token)
  end.

Definition business_hour_mode_of (mode : wa.BusinessHourMode) : Wire contract.BusinessHourMode * string :=
  match mode with
  | wa.Open24H => (Known contract.Open24h, "")
  | wa.SpecificHours => (Known contract.SpecificHours, "")
  | wa.AppointmentOnly => (Known contract.AppointmentOnly, "")
  | wa.HourOther token => (Unknown, token)
  end.

(** ** media_kind.rs *)

Definition media_type (kind : MediaKind) : wa.MediaType :=
  match kind with
  | Image => wa.Image
  | Video => wa.Video
  | Audio => wa.Audio
  | Document => wa.Document
  | Sticker => wa.Sticker
  | StickerPack => wa.StickerPack
  | StickerPackThumbnail => wa.StickerPackThumbnail
  end.

(** ** Nothing is dropped *)

(** The text of a receipt the build does not name. *)
Definition receipt_text (r : wa.ReceiptType) : option string :=
  match r with
  | wa.ReceiptOther raw | wa.ReceiptUnnamed raw => Some raw
  | _ => None
  end.

(** The text an empty or unset token stands for. *)
Definition token_text {K} (parse : string -> option K) (raw : option string) : option (K + string) :=
  token ← raw; Some (match parse token with Some k => inl k | None => inr token end).

Ltac injective := intros x y; destruct x, y; cbv; congruence.

(** The relay never drops what the server said.  Two values of the library that differ are
    told apart on the wire, by the contract's value or by the token or number next to UNKNOWN, in
    every enum the events and answers carry: a receipt type the build does not name by its text,
    a failure code by its number, a poll type or a mode by the library's own reading of the token
    or else by the token itself.  Only a chat activity this build does not name is UNKNOWN
    without more. *)
Theorem relay_never_drops add_mode_try_from poll_type_try_from :
  (Inj (=) (=) addressing_mode_of /\ Inj (=) (=) participant_type_of /\ Inj (=) (=) notification_participant_type_of /\
   Inj (=) (=) member_add_mode_of /\ Inj (=) (=) member_link_mode_of /\ Inj (=) (=) member_share_history_mode_of /\
   Inj (=) (=) appeal_status_of /\ Inj (=) (=) membership_request_method_of /\ Inj (=) (=) history_sent_state_of) /\
  (Inj (=) (=) video_state_of /\ Inj (=) (=) screen_share_state_of /\ Inj (=) (=) call_link_media_of) /\
  (Inj (=) (=) logout_reason_of /\ Inj (=) (=) ban_reason_of /\ Inj (=) (=) unavailable_reason_of /\
   Inj (=) (=) chat_state_of /\
   (forall r1 r2, receipt_type_of r1 = receipt_type_of r2 ->
      r1 = r2 \/ exists text, receipt_text r1 = Some text /\ receipt_text r2 = Some text)) /\
  (Inj (=) (=) day_of_week_of /\ Inj (=) (=) business_hour_mode_of /\ Inj (=) (=) edit_attribute_of /\
   Inj (=) (=) media_type) /\
  (forall r1 r2, poll_type_of poll_type_try_from r1 = poll_type_of poll_type_try_from r2 ->
     token_text poll_type_try_from r1 = token_text poll_type_try_from r2) /\
  (forall t1 t2, member_add_mode_token_of add_mode_try_from t1 = member_add_mode_token_of add_mode_try_from t2 ->
     t1 = t2 \/ exists mode, add_mode_try_from t1 = Some mode /\ add_mode_try_from t2 = Some mode).
Proof.
  split_and!; try injective.
  - intros [] []; cbn; intros [= ]; subst; eauto.
  - intros [t1|] [t2|]; cbn; repeat case_match; intros [= ]; subst; try done.
    all: do 2 f_equal; by repeat match goal with p : wa.PollType |- _ => destruct p end.
  - intros t1 t2. unfold member_add_mode_token_of, str_is_empty. repeat case_bool_decide; subst; repeat case_match; intros [= ]; subst; eauto.
    right. repeat match goal with m : MemberAddMode |- _ => destruct m end; try done; eauto.
Qed.
