(* ===== verification/EngineServes.v ===== *)
(** * The engine serves the stores of its accounts

    One statement over the three stores of a database: what Signal, protocol and app-state calls
    of an account answer when no statement fails. *)

From S2P Require Import Prelude StoreError Database StoreKey BlobCipher Refinement Backend SignalStore SignalSpec SignalProps ProtocolStore ProtocolSpec ProtocolProps BlobCodec AppSyncStore AppSyncSpec AppSyncProps Engine EngineLaws EngineProps.

Section serves.
Context `{crypto : Crypto} `{lib : Wacore} `{keys : Keys}.
Context `{!Message DeviceBlob} `{!Message HashStateWire} `{!Message AppStateSyncKeyWire}.

(** The plaintext state of the three stores. *)
Record EngineState : Type := MkEngineState { es_signal : KeyState; es_proto : ProtoState; es_app : AppState }.

Definition engine_rep cipher (d : EngineDb) (s : EngineState) : Prop :=
  signal_rep cipher (signal_db d) (es_signal s) /\ proto_rep cipher (proto_db d) (es_proto s) /\
  app_rep cipher (app_db d) (es_app s).

(** What a store call does to the plaintexts; the other two stores keep theirs. *)
Definition engine_step (op : EngineOp) (s : EngineState) : EngineState :=
  match op with
  | OnSignal call => MkEngineState (signal_step call (es_signal s)) (es_proto s) (es_app s)
  | OnProto call => MkEngineState (es_signal s) (proto_step call (es_proto s)) (es_app s)
  | OnApp call => MkEngineState (es_signal s) (es_proto s) (app_step call (es_app s))
  | _ => s
  end.

Definition engine_reply (op : EngineOp) (s : EngineState) (r : EngineReply) : Prop :=
  match op, r with
  | OnSignal call, SignalReplied r => signal_reply call (es_signal s) r
  | OnProto call, ProtoReplied r => proto_reply call (es_proto s) r
  | OnApp call, AppReplied r => app_reply call (es_app s) r
  | _, _ => False
  end.

(** The arguments have their types, and the randomness drawn can seal. *)
Definition engine_op_ok cipher (op : EngineOp) : Prop :=
  match op with
  | OnSignal call => signal_ok call /\ forall i, can_seal cipher (call_draws call i)
  | OnProto call => proto_ok call /\ forall i, can_seal cipher (pc_draws call i)
  | OnApp call => app_ok call /\ forall i, can_seal cipher (ac_draws call i)
  | _ => False
  end.
End serves.

(** The calls of one account, one after another: each answer is the state's, and the state follows. *)
Fixpoint served `{crypto : Crypto} `{lib : Wacore} `{keys : Keys}
    `{!Message DeviceBlob} `{!Message HashStateWire} `{!Message AppStateSyncKeyWire}
    constraint cipher (ops : list EngineOp) (d : EngineDb) (s : EngineState) : Prop :=
  match ops with
  | [] => True
  | op :: ops =>
      exists r d', engine_run constraint cipher op (MkWorld d []) = (Ok r, MkWorld d' []) /\
        engine_reply op s r /\ engine_rep cipher d' (engine_step op s) /\ accounts d' = accounts d /\
        served constraint cipher ops d' (engine_step op s)
  end.

Section laws.
Context `{crypto : Crypto} `{!CryptoLaws crypto} `{lib : Wacore} `{!WacoreLaws lib} `{keys : Keys} `{!KeysLaws keys}.
Context `{!Message DeviceBlob} `{!Message HashStateWire} `{!Message AppStateSyncKeyWire}.
Context `{!MessageLaw DeviceBlob} `{!MessageLaw HashStateWire} `{!MessageLaw AppStateSyncKeyWire}.
Context (constraint : StoreError) (cipher : BlobCipher).

Lemma store_call_served op me d s :
  store_of op = Some me -> me ∈ dom (accounts d) -> whole d -> engine_rep cipher d s -> engine_op_ok cipher op ->
  exists r d', engine_run constraint cipher op (MkWorld d []) = (Ok r, MkWorld d' []) /\
    engine_reply op s r /\ engine_rep cipher d' (engine_step op s).
Proof using Type*.
  intros Hop Hme [_ ((E1 & _) & (E2 & _) & (E3 & _))] (H1 & H2 & H3) Hok.
  destruct op as [| | |call|call|call]; try done; injection Hop as Hdev; destruct Hok as [Hok Hseal];
    unfold engine_run, within, mbind, run_bind; cbn [db faults].
  - destruct (signal_call_succeeds constraint cipher call (signal_db d) (es_signal s)) as (r & d' & Hrun & Hrep & Hr);
      [done|by rewrite E1, Hdev|done|done|].
    rewrite Hrun. eexists _, _. split; [reflexivity|]. by split_and!.
  - destruct (protocol_call_succeeds constraint cipher call (proto_db d) (es_proto s)) as (r & d' & Hrun & Hrep & Hr);
      [done|by rewrite E2, Hdev|done|done|].
    rewrite Hrun. eexists _, _. split; [reflexivity|]. by split_and!.
  - destruct (app_call_succeeds constraint cipher call (app_db d) (es_app s)) as (r & d' & Hrun & Hrep & Hr);
      [done|by rewrite E3, Hdev|done|done|].
    rewrite Hrun. eexists _, _. split; [reflexivity|]. by split_and!.
Qed.
End laws.

(** C22.  A database that does not fail serves its accounts.  Any sequence of calls of existing
    accounts on the three stores, with arguments of their types, succeeds call by call: no refused
    row, no unreadable blob; each answers by the plaintext state of its store and has its effect
    there, and leaves the accounts and the state of the other two stores as they were. *)
Theorem engine_serves_accounts `{crypto : Crypto} `{!CryptoLaws crypto} `{lib : Wacore} `{!WacoreLaws lib}
    `{keys : Keys} `{!KeysLaws keys}
    `{!Message DeviceBlob} `{!Message HashStateWire} `{!Message AppStateSyncKeyWire}
    `{!MessageLaw DeviceBlob} `{!MessageLaw HashStateWire} `{!MessageLaw AppStateSyncKeyWire}
    constraint cipher (ops : list EngineOp) (d : EngineDb) (s : EngineState) :
  whole d -> engine_rep cipher d s ->
  Forall (fun op => engine_op_ok cipher op /\ exists me, store_of op = Some me /\ me ∈ dom (accounts d)) ops ->
  served constraint cipher ops d s.
Proof.
  intros Hw Hrep Hops. revert d s Hw Hrep Hops. induction ops as [|op ops IH]; intros d s Hw Hrep Hops; cbn; [done|].
  apply Forall_cons in Hops as [(Hok & me & Hme & Hin) Hops].
  destruct (store_call_served constraint cipher op me d s Hme Hin Hw Hrep Hok) as (r & d' & Hrun & Hr & Hrep').
  pose proof (run_whole constraint cipher op (MkWorld d []) Hw) as Hw'. rewrite Hrun in Hw'. cbn in Hw'.
  destruct (store_call_effect constraint cipher op me (MkWorld d []) Hme) as (Ea & _). rewrite Hrun in Ea. cbn in Ea.
  exists r, d'. split_and!; [done..|]. apply IH; [done|done|]. by rewrite Ea.
Qed.

(** ** Witness *)

#[local] Instance toy_device_law : MessageLaw DeviceBlob := toy_message_law DeviceBlob.
#[local] Instance toy_hash_law : MessageLaw HashStateWire := toy_message_law HashStateWire.
#[local] Instance toy_key_law : MessageLaw AppStateSyncKeyWire := toy_message_law AppStateSyncKeyWire.

(** Two accounts without rows. *)
Definition new_accounts : EngineDb :=
  db (engine_all (keys := toy_keys) engine_error (sealing toy_key) [CreateAccount 11 None 5; CreateAccount 22 None 6]
        (MkWorld empty_store [])).

Definition no_state : EngineState := MkEngineState no_keys no_values empty_app_state.

Definition mixed_calls : list EngineOp :=
  [ OnSignal (SignalProps.toy_call 1 (OpPut Sessions "bob" (str_bytes "ratchet")));
    OnProto (toy_proto 2 (StoreSent 9 "chat" "m" (str_bytes "hello")));
    OnApp (AppSyncProps.toy_call 1 (SetVersion "regular" toy_hash_state));
    OnSignal (SignalProps.toy_call 1 (OpGet Sessions "bob")) ].

Lemma engine_serves_accounts_witness :
  served (keys := toy_keys) engine_error (sealing toy_key) mixed_calls new_accounts no_state.
Proof.
  apply (engine_serves_accounts (keys := toy_keys) engine_error (sealing toy_key)).
  - apply run_ops_whole, empty_whole.
  - split_and!; [exact (no_keys_rep _)|exact (no_values_rep _)|exact (empty_app_rep _)].
  - assert (Hdom : dom (accounts new_accounts) = {[1; 2]}) by (vm_compute; reflexivity).
    rewrite Hdom. unfold mixed_calls.
    repeat (apply Forall_cons; split); [..|by apply Forall_nil];
      (split; [split; [split; [intros; apply toy_draws_ok|done]|intros i; split_and!; [done|by eexists|by eexists]]|]);
      eexists; (split; [reflexivity|set_solver]).
Defined.
