(* ===== verification/Connections.v ===== *)
(** * Connections: the calls on account handles, their bots and supervisors

    state/account_handle.rs and the [connect], [disconnect] and [logout] of
    state/account_registry.rs.  The calls of any number of clients run at the same time as the
    supervisors and the library's bots, and every await and every shared atomic of the code is a
    point where another task may run: [step] is one step of one task, so a run of the daemon is a
    list of labels.  A connect, the bot it builds and the supervisor it spawns share one number.
    What the library does to a bot is a label too: a build that fails, an event, an exit at any
    time, asked for or not. *)

From S2P Require Import Prelude Errors Events.

(** ** State *)

Record Handle : Type := MkHandle {
  client : option nat;
  running : option nat;               (* the supervisor a [RunningBot] holds *)
  conn_state : ConnectionState;       (* the watch channel *)
}.

Definition new_handle : Handle := MkHandle None None Disconnected.

(** Where a call is; each names what it does next. *)
Inductive Pc : Type :=
(* [AccountRegistry::connect] *)
| Asking                              (* handle.is_running() *)
| Budgeting                           (* within_connection_budget *)
| Reading                             (* let before = handle.current_state() *)
| Announcing (before : ConnectionState) (* state_tx.send(Connecting) *)
| Building (before : ConnectionState)   (* build_bot *)
| Restoring (before : ConnectionState)  (* its failure: state_tx.send(before) *)
| SettingClient
| Spawning
| Counting                            (* connected.fetch_add *)
| Supervising                         (* tokio::spawn *)
| SettingRunning
(* [AccountRegistry::logout] *)
| LoggingOut
(* [AccountHandle::stop] *)
| Stopping                            (* let client = self.client() *)
| Taking (asked : option nat)         (* self.running.take() *)
| ShuttingDown (asked supervisor : option nat)
| Waiting (supervisor : option nat)
| ClearingClient
| Checking                            (* is_terminal_state() *)
| Marking                             (* state_tx.send(Disconnected) *)
| Returned (r : WamuxResult unit)
| Gone.                               (* the client hung up: the future was dropped at an await *)

Record Call : Type := MkCall { call_account : Z; call_pc : Pc }.

Inductive Bot : Type := Built | Live | Exited | Dropped.

(** The supervisor's task: the bot's exit, [on_bot_exited], the release of the slot. *)
Inductive SupPc : Type :=
| Watching                            (* bot_handle.await *)
| TakingRunning
| DroppingClient
| CheckingState
| MarkingDown
| Releasing                           (* connected.fetch_sub *)
| Finished
| Cancelled.

Record Supervisor : Type := MkSupervisor { sup_account : Z; sup_pc : SupPc; aborted : bool }.

Record System : Type := MkSystem {
  handles : gmap Z Handle;
  connected : Z;                      (* AtomicUsize *)
  calls : gmap nat Call;
  bots : gmap nat Bot;
  sups : gmap nat Supervisor;
}.

Definition start : System := MkSystem ∅ 0 ∅ ∅ ∅.

Definition handle_of (s : System) (a : Z) : Handle := default new_handle (handles s !! a).

Definition on_handle (a : Z) (f : Handle -> Handle) (s : System) : System :=
  MkSystem (<[a := f (handle_of s a)]> (handles s)) (connected s) (calls s) (bots s) (sups s).
Definition set_connected (n : Z) (s : System) : System :=
  MkSystem (handles s) n (calls s) (bots s) (sups s).
Definition set_call (i : nat) (c : Call) (s : System) : System :=
  MkSystem (handles s) (connected s) (<[i := c]> (calls s)) (bots s) (sups s).
Definition set_bot (i : nat) (b : Bot) (s : System) : System :=
  MkSystem (handles s) (connected s) (calls s) (<[i := b]> (bots s)) (sups s).
Definition set_sup (i : nat) (x : Supervisor) (s : System) : System :=
  MkSystem (handles s) (connected s) (calls s) (bots s) (<[i := x]> (sups s)).

Definition set_client (c : option nat) (h : Handle) : Handle := MkHandle c (running h) (conn_state h).
Definition put_running (r : option nat) (h : Handle) : Handle := MkHandle (client h) r (conn_state h).
Definition send_state (st : ConnectionState) (h : Handle) : Handle := MkHandle (client h) (running h) st.

(** ** Operations *)

Definition within_connection_budget (current cap : Z) : bool := (cap =? 0) || (current <? cap).

Definition budget_reached (cap : Z) : WamuxError :=
  ResourceExhausted ("connection budget reached (" +:+ pretty cap +:+ ")").

(** [AccountHandle::set_running]: a supervisor that was there is aborted. *)
Definition set_running (a : Z) (supervisor : nat) (s : System) : System :=
  let s := match running (handle_of s a) with
    | Some previous =>
        match sups s !! previous with
        | Some x => set_sup previous (MkSupervisor (sup_account x) (sup_pc x) true) s
        | None => s
        end
    | None => s
    end in
  on_handle a (put_running (Some supervisor)) s.

(** What a task is told where the outcome is not its own: [Refused] is a failed build, a socket
    that is not connected, a wait that timed out. *)
Inductive Answer : Type := Granted | Refused.

(** The join handle of the supervisor is ready. *)
Definition over (s : System) (supervisor : option nat) : bool :=
  match supervisor with
  | None => true
  | Some j =>
      match sups s !! j with
      | Some (MkSupervisor _ (Finished | Cancelled) _) => true
      | _ => false
      end
  end.

Section system.
Context (cap : Z) (client_error : WamuxError).

(** [AccountRegistry::connect]. *)
Definition connect (i : nat) (a : Z) (pc : Pc) (answer : Answer) (s : System) : option System :=
  let next pc s := Some (set_call i (MkCall a pc) s) in
  match pc, answer with
  | Asking, Granted =>
      match running (handle_of s a) with
      | Some _ => next (Returned (Ok tt)) s
      | None => next Budgeting s
      end
  | Budgeting, Granted =>
      if within_connection_budget (connected s) cap then next Reading s
      else next (Returned (Err (budget_reached cap))) s
  | Reading, Granted => next (Announcing (conn_state (handle_of s a))) s
  | Announcing before, Granted => next (Building before) (on_handle a (send_state Connecting) s)
  | Building _, Granted => next SettingClient (set_bot i Built s)
  | Building before, Refused => next (Restoring before) s
  | Restoring before, Granted => next (Returned (Err client_error)) (on_handle a (send_state before) s)
  | SettingClient, Granted => next Spawning (on_handle a (set_client (Some i)) s)
  | Spawning, Granted => next Counting (set_bot i Live s)
  | Counting, Granted => next Supervising (set_connected (as_u64 (connected s + 1)) s)
  | Supervising, Granted => next SettingRunning (set_sup i (MkSupervisor a Watching false) s)
  | SettingRunning, Granted => next (Returned (Ok tt)) (set_running a i s)
  | _, _ => None
  end.

(** [AccountHandle::stop]. *)
Definition stop (i : nat) (a : Z) (pc : Pc) (answer : Answer) (s : System) : option System :=
  let next pc s := Some (set_call i (MkCall a pc) s) in
  match pc, answer with
  | Stopping, Granted => next (Taking (client (handle_of s a))) s
  | Taking asked, Granted =>
      next (ShuttingDown asked (running (handle_of s a))) (on_handle a (put_running None) s)
  | ShuttingDown _ supervisor, Granted => next (Waiting supervisor) s
  | Waiting supervisor, Granted => if over s supervisor then next ClearingClient s else None
  | Waiting (Some _), Refused => next ClearingClient s
  | ClearingClient, Granted => next Checking (on_handle a (set_client None) s)
  | Checking, Granted =>
      if is_terminal (conn_state (handle_of s a)) then next (Returned (Ok tt)) s else next Marking s
  | Marking, Granted => next (Returned (Ok tt)) (on_handle a (send_state Disconnected) s)
  | _, _ => None
  end.

(** [AccountRegistry::logout] up to its stop. *)
Definition logout (i : nat) (a : Z) (answer : Answer) (s : System) : option System :=
  let next pc s := Some (set_call i (MkCall a pc) s) in
  match client (handle_of s a), answer with
  | None, Granted => next (Returned (Err NotConnected)) s
  | Some _, Refused => next (Returned (Err NotConnected)) s
  | Some _, Granted => next Stopping s
  | None, Refused => None
  end.

Definition advance (i : nat) (answer : Answer) (s : System) : option System :=
  c ← calls s !! i;
  match call_pc c with
  | LoggingOut => logout i (call_account c) answer s
  | Stopping | Taking _ | ShuttingDown _ _ | Waiting _ | ClearingClient | Checking | Marking =>
      stop i (call_account c) (call_pc c) answer s
  | pc => connect i (call_account c) pc answer s
  end.

(** The supervisor's task, with [AccountHandle::on_bot_exited]. *)
Definition supervise (j : nat) (s : System) : option System :=
  x ← sups s !! j;
  let a := sup_account x in
  let next pc s := Some (set_sup j (MkSupervisor a pc (aborted x)) s) in
  match sup_pc x with
  | Watching => match bots s !! j with Some Exited => next TakingRunning s | _ => None end
  | TakingRunning => next DroppingClient (on_handle a (put_running None) s)
  | DroppingClient => next CheckingState (on_handle a (set_client None) s)
  | CheckingState =>
      if is_terminal (conn_state (handle_of s a)) then next Releasing s else next MarkingDown s
  | MarkingDown => next Releasing (on_handle a (send_state Disconnected) s)
  | Releasing => next Finished (set_connected (as_u64 (connected s - 1)) s)
  | Finished | Cancelled => None
  end.

(** An aborted task ends at an await: its bot handle is dropped with it, which aborts the bot. *)
Definition cancel (j : nat) (s : System) : option System :=
  x ← sups s !! j;
  if aborted x then
    match sup_pc x with
    | Watching | TakingRunning | DroppingClient =>
        Some (set_sup j (MkSupervisor (sup_account x) Cancelled true)
               (set_bot j (match sup_pc x with Watching => Dropped | _ => Exited end) s))
    | _ => None
    end
  else None.

(** The awaits of a call, where its future may be dropped; what it holds goes with it, and a
    supervisor that is not in its slot yet runs on detached. *)
Definition at_await (pc : Pc) : bool :=
  match pc with
  | Asking | Building _ | SettingClient | SettingRunning | LoggingOut | Stopping | Taking _
  | ShuttingDown _ _ | Waiting _ | ClearingClient => true
  | _ => false
  end.

Definition hang_up (i : nat) (s : System) : option System :=
  c ← calls s !! i;
  if at_await (call_pc c) then Some (set_call i (MkCall (call_account c) Gone) s) else None.

Inductive Label : Type :=
| HangUp (i : nat)
| StartConnect (i : nat) (a : Z)
| StartStop (i : nat) (a : Z)
| StartLogout (i : nat) (a : Z)
| Advance (i : nat) (answer : Answer)
| Supervise (j : nat)
| Cancel (j : nat)
| BotEvent (c : nat) (kind : LibKind)
| BotExits (c : nat).

(** A new call: its number was never used. *)
Definition begin (i : nat) (a : Z) (pc : Pc) (s : System) : option System :=
  match calls s !! i with
  | None => Some (set_call i (MkCall a pc) s)
  | Some _ => None
  end.

Definition step (l : Label) (s : System) : option System :=
  match l with
  | StartConnect i a => begin i a Asking s
  | StartStop i a => begin i a Stopping s
  | StartLogout i a => begin i a LoggingOut s
  | Advance i answer => advance i answer s
  | HangUp i => hang_up i s
  | Supervise j => supervise j s
  | Cancel j => cancel j s
  | BotEvent c kind =>
      match bots s !! c, calls s !! c with
      | Some Live, Some call =>
          Some (on_handle (call_account call) (fun h => send_state (update_state kind (conn_state h)) h) s)
      | _, _ => None
      end
  | BotExits c =>
      match bots s !! c with
      | Some Live => Some (set_bot c Exited s)
      | _ => None
      end
  end.

Fixpoint steps (ls : list Label) (s : System) : option System :=
  match ls with
  | [] => Some s
  | l :: ls => s' ← step l s; steps ls s'
  end.
End system.

(** [AccountRegistry::stop_all]: one stop for each handle, all at the same time, under the numbers
    from [first]. *)
Definition stop_all (first : nat) (accounts : list Z) : list Label :=
  imap (fun n a => StartStop (first + n) a) accounts.

(** ** What the budget counts *)

(** The connects that have not returned. *)
Definition connecting (pc : Pc) : bool :=
  match pc with
  | Asking | Budgeting | Reading | Announcing _ | Building _ | Restoring _ | SettingClient | Spawning
  | Counting | Supervising | SettingRunning => true
  | _ => false
  end.

Definition flies (c : Call) : Z := if connecting (call_pc c) then 1 else 0.
Definition in_flight (s : System) : Z := total flies (calls s).

(** A slot is held from the increment to the decrement: by a connect about to spawn its
    supervisor, and by every supervisor that has not released it. *)
Definition call_holds (c : Call) : Z := match call_pc c with Supervising => 1 | _ => 0 end.
Definition sup_holds (x : Supervisor) : Z := match sup_pc x with Finished => 0 | _ => 1 end.
Definition slots_held (s : System) : Z := total call_holds (calls s) + total sup_holds (sups s).

(** The calls that a client may start: never more than [k] connects at a time. *)
Definition at_most (k : Z) (l : Label) (s : System) : Prop :=
  match l with
  | StartConnect _ _ => in_flight s < k
  | _ => True
  end.

(** Never two connects of one account at a time. *)
Definition one_per_account (l : Label) (s : System) : Prop :=
  match l with
  | StartConnect _ a => forall i c, calls s !! i = Some c -> call_account c = a -> connecting (call_pc c) = false
  | _ => True
  end.

(** The states of a daemon whose clients keep to [allowed]. *)
Inductive reachable (cap : Z) (client_error : WamuxError) (allowed : Label -> System -> Prop) : System -> Prop :=
| reachable_start : reachable cap client_error allowed start
| reachable_step s l s' :
    reachable cap client_error allowed s -> allowed l s -> step cap client_error l s = Some s' ->
    reachable cap client_error allowed s'.
