(* ===== verification/ConnectionProps.v ===== *)
(** * What the connection budget promises, and what overlapping calls cost *)

From S2P Require Import Prelude Errors Events Connections.

(** ** The counter *)

Section budget.
Context (cap : Z) (client_error : WamuxError).

Abbreviation step := (step cap client_error).

(** Every case of a step. *)
Ltac step_cases H :=
  unfold Connections.step, advance, connect, stop, logout, supervise, cancel, hang_up, begin, mbind, option_bind in H;
  repeat (case_match; simplify_eq/=).

(** A supervisor is spawned by a connect of its own number, once. *)
Definition spawned (pc : Pc) : bool :=
  match pc with
  | SettingRunning | Returned _ | Gone => true
  | _ => false
  end.

Definition sups_spawned (s : System) : Prop :=
  forall j x, sups s !! j = Some x -> exists c, calls s !! j = Some c /\ spawned (call_pc c) = true.

Lemma set_running_calls a j s : calls (set_running a j s) = calls s.
Proof. unfold set_running. by repeat case_match. Qed.

Lemma set_running_sups a j s k x' :
  sups (set_running a j s) !! k = Some x' ->
  exists x, sups s !! k = Some x /\ sup_pc x' = sup_pc x /\ sup_account x' = sup_account x.
Proof.
  unfold set_running. repeat case_match; cbn; try by eexists.
  intros [[<- <-]|[_ Hk]]%lookup_insert_Some; by eexists.
Qed.

Lemma sups_spawned_step l s s' : step l s = Some s' -> sups_spawned s -> sups_spawned s'.
Proof.
  intros Hstep Hinv j x. step_cases Hstep; intros Hj; repeat apply lookup_insert_Some in Hj as [[<- <-]|[? Hj]];
    try (destruct (Hinv _ _ Hj) as (c0 & Hc0 & Hs));
    try match goal with H : sups _ !! _ = Some ?x |- exists _, calls _ !! _ = _ /\ _ => apply (Hinv _ _ H) end;
    try match goal with |- context [<[?i := _]> _ !! ?j] => destruct (decide (i = j)) as [->|?] end;
    simplify_map_eq/=; try (by eexists); try (eapply Hinv; eassumption);
    match goal with E : call_pc ?c = _, Hs : spawned (call_pc ?c) = true |- _ => rewrite E in Hs; discriminate end.
Qed.

Lemma slots_set_call i c s :
  slots_held (set_call i c s) = slots_held s + call_holds c - from_option call_holds 0 (calls s !! i).
Proof. unfold slots_held, set_call. cbn. rewrite total_insert. lia. Qed.

Lemma slots_set_sup j x s :
  slots_held (set_sup j x s) = slots_held s + sup_holds x - from_option sup_holds 0 (sups s !! j).
Proof. unfold slots_held, set_sup. cbn. rewrite total_insert. lia. Qed.

Lemma slots_on_handle a f s : slots_held (on_handle a f s) = slots_held s.
Proof. done. Qed.

Lemma slots_set_bot i b s : slots_held (set_bot i b s) = slots_held s.
Proof. done. Qed.

Lemma slots_set_connected n s : slots_held (set_connected n s) = slots_held s.
Proof. done. Qed.

Lemma slots_set_running a j s : slots_held (set_running a j s) = slots_held s.
Proof.
  unfold set_running. repeat case_match; rewrite slots_on_handle; [|done..].
  rewrite slots_set_sup. match goal with H : sups s !! _ = Some _ |- _ => rewrite H end. cbn. unfold sup_holds. cbn. lia.
Qed.

(** The connects past the budget check that have not counted themselves. *)
Definition passes (pc : Pc) : bool :=
  match pc with
  | Reading | Announcing _ | Building _ | SettingClient | Spawning | Counting => true
  | _ => false
  end.
Definition call_passes (c : Call) : Z := if passes (call_pc c) then 1 else 0.
Definition passed (s : System) : Z := total call_passes (calls s).

Lemma passed_set_call i c s :
  passed (set_call i c s) = passed s + call_passes c - from_option call_passes 0 (calls s !! i).
Proof. unfold passed, set_call. cbn. by rewrite total_insert. Qed.

Lemma in_flight_set_call i c s :
  in_flight (set_call i c s) = in_flight s + flies c - from_option flies 0 (calls s !! i).
Proof. unfold in_flight, set_call. cbn. by rewrite total_insert. Qed.

(** The other updates leave the calls alone. *)
Lemma passed_calls s s' : calls s' = calls s -> passed s' = passed s.
Proof. unfold passed. by intros ->. Qed.

Lemma in_flight_calls s s' : calls s' = calls s -> in_flight s' = in_flight s.
Proof. unfold in_flight. by intros ->. Qed.

Lemma connected_set_running a j s : connected (set_running a j s) = connected s.
Proof. unfold set_running. by repeat case_match. Qed.

(** What one step does to the counter, the slots held and the connects past the check. *)
Definition counted (s s' : System) : Prop :=
  (connected s' = connected s /\ slots_held s' = slots_held s /\
   (passed s' <= passed s \/
    passed s' = passed s + 1 /\ within_connection_budget (connected s) cap = true)) \/
  (connected s' = as_u64 (connected s + 1) /\ slots_held s' = slots_held s + 1 /\ passed s' = passed s - 1) \/
  (connected s' = as_u64 (connected s - 1) /\ slots_held s' = slots_held s - 1 /\ passed s' = passed s).

(** One call's new place, and what else its step did. *)
Lemma counted_call i c pc s s0 :
  calls s !! i = Some c -> calls s0 = calls s -> connected s0 = connected s -> slots_held s0 = slots_held s ->
  call_pc c <> Supervising -> pc <> Supervising ->
  (passes pc = true -> passes (call_pc c) = true \/ within_connection_budget (connected s) cap = true) ->
  counted s (set_call i (MkCall (call_account c) pc) s0).
Proof.
  intros Hc Ecalls Econn Eslots Hn1 Hn2 Hp. left.
  rewrite slots_set_call, passed_set_call, (passed_calls s s0), Ecalls, Hc by done. cbn [from_option connected set_call].
  split_and!; [done| |].
  - rewrite Eslots. unfold call_holds. cbn. destruct (call_pc c), pc; try done; lia.
  - unfold call_passes. cbn. destruct (passes pc); [|left; destruct (passes (call_pc c)); lia].
    destruct (passes (call_pc c)); [left; lia|]. destruct Hp as [?|?]; [done|done|right]. split; [lia|done].
Qed.

Lemma counted_new i a pc s :
  calls s !! i = None -> pc <> Supervising -> passes pc = false -> counted s (set_call i (MkCall a pc) s).
Proof.
  intros Hc Hn Hp. left. rewrite slots_set_call, passed_set_call, Hc. cbn [from_option].
  split_and!; [done| |left]; unfold call_holds, call_passes; cbn; [by destruct pc; try lia|rewrite Hp; lia].
Qed.

(** A supervisor's step that releases nothing. *)
Lemma counted_sup j x a pc b s s0 :
  sups s !! j = Some x -> calls s0 = calls s -> sups s0 = sups s -> connected s0 = connected s ->
  sup_pc x <> Finished -> pc <> Finished -> counted s (set_sup j (MkSupervisor a pc b) s0).
Proof.
  intros Hx Ec Es En Hn1 Hn2. left. split_and!; [done| |left; by rewrite (passed_calls s)].
  rewrite slots_set_sup, Es, Hx. unfold slots_held. rewrite Ec, Es. unfold sup_holds. cbn.
  destruct (sup_pc x), pc; try done; lia.
Qed.

Lemma step_counted l s s' : step l s = Some s' -> sups_spawned s -> counted s s'.
Proof.
  intros Hstep Hsp.
  unfold Connections.step, advance, connect, stop, logout, supervise, cancel, hang_up, begin, mbind, option_bind in Hstep.
  repeat (case_match; simplify_eq);
    try (eapply counted_call; [eassumption|by rewrite ?set_running_calls|by rewrite ?connected_set_running
          |by rewrite ?slots_set_running|congruence|done|];
         match goal with E : call_pc _ = _ |- _ => rewrite E; cbn; auto; done end);
    try (by apply counted_new);
    try (eapply counted_sup; [eassumption|done|done|done|congruence|done]).
  - eapply counted_call; [eassumption|done..| | |]; [by destruct (call_pc c)|done|done].
  - right. left. rewrite slots_set_call, passed_set_call. cbn [calls set_connected].
    rewrite slots_set_connected, (passed_calls s) by done.
    match goal with Hc : calls s !! i = Some c, E : call_pc c = _ |- _ => rewrite Hc; unfold call_holds, call_passes; cbn; rewrite E end.
    cbn. split_and!; [done|lia|lia].
  - left. rewrite slots_set_call, passed_set_call, slots_set_sup. cbn [calls set_sup].
    match goal with Hc : calls s !! i = Some c, E : call_pc c = _ |- _ =>
      rewrite Hc; unfold call_holds, call_passes; cbn; rewrite E end.
    assert (sups s !! i = None) as ->.
    { apply eq_None_not_Some. intros [x Hx]. destruct (Hsp i x Hx) as (c' & Hc' & Hs). simplify_eq.
      match goal with E : call_pc _ = Supervising |- _ => by rewrite E in Hs end. }
    rewrite (passed_calls s) by done. cbn. split_and!; [done|lia|left; lia].
  - right. right. rewrite slots_set_sup, (passed_calls s) by done. cbn [sups set_connected].
    rewrite slots_set_connected. unfold sup_holds.
    match goal with Hx : sups s !! j = Some ?x, E : sup_pc ?x = _ |- _ => rewrite Hx; cbn; rewrite E end.
    split_and!; [done|lia|done].
  - left. split_and!; [done|done|left; by rewrite (passed_calls s)].
  - left. split_and!; [done|done|left; by rewrite (passed_calls s)].
Qed.

Lemma passed_in_flight s : passed s <= in_flight s.
Proof using Type.
  apply total_mono. intros j c _. unfold call_passes, flies. destruct (passes (call_pc c)) eqn:E; [|by case_match].
  by destruct (call_pc c).
Qed.

Lemma slots_nonneg s : 0 <= slots_held s.
Proof using Type.
  unfold slots_held. pose proof (total_nonneg call_holds (calls s)) as H1. pose proof (total_nonneg sup_holds (sups s)) as H2.
  unfold call_holds, sup_holds in *. assert (forall c, 0 <= match call_pc c with Supervising => 1 | _ => 0 end) by (by intros c; case_match).
  assert (forall x, 0 <= match sup_pc x with Finished => 0 | _ => 1 end) by (by intros x; case_match). specialize (H1 ltac:(done)).
  specialize (H2 ltac:(done)). lia.
Qed.

Lemma passed_nonneg s : 0 <= passed s.
Proof using Type. apply total_nonneg. intros c. unfold call_passes. by case_match. Qed.

Lemma flight_call i c pc s s0 :
  calls s !! i = Some c -> calls s0 = calls s -> (connecting pc = true -> connecting (call_pc c) = true) ->
  in_flight (set_call i (MkCall (call_account c) pc) s0) <= in_flight s.
Proof using Type.
  intros Hc Ec Hp. rewrite in_flight_set_call, (in_flight_calls s s0), Ec, Hc by done. cbn [from_option].
  unfold flies. cbn. destruct (connecting pc); [rewrite Hp by done; lia|]. case_match; lia.
Qed.

Lemma flight_new i a pc s :
  calls s !! i = None -> in_flight (set_call i (MkCall a pc) s) = in_flight s + if connecting pc then 1 else 0.
Proof using Type. intros Hc. rewrite in_flight_set_call, Hc. cbn. unfold flies. cbn. lia. Qed.

Lemma step_in_flight l s s' :
  step l s = Some s' -> in_flight s' <= in_flight s + match l with StartConnect _ _ => 1 | _ => 0 end.
Proof using Type.
  intros Hstep.
  unfold Connections.step, advance, connect, stop, logout, supervise, cancel, hang_up, begin, mbind, option_bind in Hstep.
  repeat (case_match; simplify_eq); rewrite ?Z.add_0_r;
    try (eapply flight_call; [eassumption|by rewrite ?set_running_calls|];
         match goal with E : call_pc _ = _ |- _ => rewrite E; done | _ => done end);
    try (rewrite flight_new by done; cbn; lia);
    by rewrite (in_flight_calls s).
Qed.

(** ** The budget *)

Definition budget_inv (k : Z) (s : System) : Prop :=
  sups_spawned s /\ connected s = as_u64 (slots_held s) /\ in_flight s <= k /\
  (0 < cap -> cap + k <= 2 ^ 64 -> slots_held s + passed s <= cap - 1 + k).

Lemma as_u64_small n : 0 <= n < 2 ^ 64 -> as_u64 n = n.
Proof using Type. apply Z.mod_small. Qed.

Lemma as_u64_shift n d : as_u64 (as_u64 n + d) = as_u64 (n + d).
Proof using Type. apply Zplus_mod_idemp_l. Qed.

Lemma budget_step k l s s' :
  at_most k l s -> step l s = Some s' -> budget_inv k s -> budget_inv k s'.
Proof using Type.
  intros Hk Hstep (Hsp & Hconn & Hfly & Hbound).
  pose proof (step_in_flight _ _ _ Hstep) as Hfly'.
  assert (in_flight s' <= k) by (destruct l; cbn in Hk; lia).
  assert (Hsp' : sups_spawned s') by by eapply sups_spawned_step.
  split_and!; [done| |done|].
  - destruct (step_counted _ _ _ Hstep Hsp) as [(-> & -> & _)|[(-> & -> & _)|(-> & -> & _)]]; [done|..];
      rewrite Hconn; [apply as_u64_shift|rewrite <-!Z.add_opp_r; apply as_u64_shift].
  - intros Hcap Hroom. specialize (Hbound Hcap Hroom).
    destruct (step_counted _ _ _ Hstep Hsp) as [(_ & Es & [Hp|[Hp Hb]])|[(_ & Es & Hp)|(_ & Es & Hp)]]; [lia| |lia|lia].
    pose proof (passed_in_flight s') as Hpf. pose proof (slots_nonneg s). pose proof (passed_nonneg s).
    unfold within_connection_budget in Hb. rewrite Hconn, as_u64_small in Hb by lia. lia.
Qed.

Lemma budget_reachable allowed k s :
  0 <= k -> (forall l s, allowed l s -> at_most k l s) -> reachable cap client_error allowed s -> budget_inv k s.
Proof using Type.
  intros Hk Hallowed. induction 1 as [|s l s' _ IH Hl Hstep].
  - split_and!; [done|done|cbn; unfold in_flight, total; cbn; rewrite map_fold_empty; lia|].
    intros. unfold slots_held, passed, total. cbn. rewrite !map_fold_empty. lia.
  - eapply budget_step; [by apply Hallowed|done|done].
Qed.
End budget.

(** ** Connects that do not overlap *)

Section serial.
Context (cap : Z) (client_error : WamuxError).

(** Past the check that nothing is running. *)
Definition guarded (pc : Pc) : bool :=
  match pc with
  | Asking => false
  | pc => connecting pc
  end.

Definition unaborted (s : System) : Prop :=
  forall j x, sups s !! j = Some x -> aborted x = false /\ sup_pc x <> Cancelled.

Definition serial_inv (s : System) : Prop :=
  (forall i j ci cj, calls s !! i = Some ci -> calls s !! j = Some cj -> call_account ci = call_account cj ->
     connecting (call_pc ci) = true -> connecting (call_pc cj) = true -> i = j) /\
  (forall i c, calls s !! i = Some c -> guarded (call_pc c) = true -> running (handle_of s (call_account c)) = None) /\
  unaborted s.

(** No account starts running. *)
Definition quiet (s s0 : System) : Prop :=
  forall a, running (handle_of s0 a) = running (handle_of s a) \/ running (handle_of s0 a) = None.

Lemma handle_on_handle a f s b :
  handle_of (on_handle a f s) b = if decide (a = b) then f (handle_of s b) else handle_of s b.
Proof using Type.
  unfold handle_of, on_handle. cbn. case_decide; subst; [by rewrite lookup_insert_eq|by rewrite lookup_insert_ne].
Qed.

Lemma quiet_refl s : quiet s s.
Proof using Type. intros a. by left. Qed.

Lemma quiet_on_handle a f s :
  (forall h, running (f h) = running h \/ running (f h) = None) -> quiet s (on_handle a f s).
Proof using Type. intros Hf b. rewrite handle_on_handle. case_decide; [apply Hf|by left]. Qed.

Lemma guarded_connecting pc : guarded pc = true -> connecting pc = true.
Proof using Type. by destruct pc. Qed.

(** A step that starts nothing running: a call moves on, or none does. *)
Lemma serial_call i c pc s s0 :
  calls s !! i = Some c -> calls s0 = calls s -> quiet s s0 -> unaborted s0 ->
  (connecting pc = true -> connecting (call_pc c) = true) ->
  (guarded pc = true -> guarded (call_pc c) = true \/ running (handle_of s (call_account c)) = None) ->
  serial_inv s -> serial_inv (set_call i (MkCall (call_account c) pc) s0).
Proof using Type.
  intros Hc Ec Hq Ha Hp Hg (HU & HG & _). split_and!; [| |done].
  - intros j k cj ck. cbn. rewrite Ec.
    intros [[<- <-]|[Hj Hcj]]%lookup_insert_Some [[<- <-]|[Hk Hck]]%lookup_insert_Some; cbn; intros E C1 C2; [done|..].
    + by apply (HU i k c ck); auto.
    + by apply (HU j i cj c); auto.
    + by apply (HU j k cj ck).
  - intros j cj. cbn. rewrite Ec. change (handle_of (set_call _ _ s0)) with (handle_of s0).
    intros [[<- <-]|[Hj Hcj]]%lookup_insert_Some Gj; cbn in *.
    + destruct (Hq (call_account c)) as [->|]; [|done]. destruct (Hg Gj) as [G|]; [by eapply HG|done].
    + destruct (Hq (call_account cj)) as [->|]; [|done]. by eapply HG.
Qed.

Lemma serial_other s s0 : calls s0 = calls s -> quiet s s0 -> unaborted s0 -> serial_inv s -> serial_inv s0.
Proof using Type.
  intros Ec Hq Ha (HU & HG & _). split_and!; [by rewrite Ec| |done].
  intros j cj. rewrite Ec. intros Hj Gj. destruct (Hq (call_account cj)) as [->|]; [|done]. by eapply HG.
Qed.

Lemma unaborted_set_sup j a pc s : pc <> Cancelled -> unaborted s -> unaborted (set_sup j (MkSupervisor a pc false) s).
Proof using Type. intros Hpc Ha k x. cbn. intros [[<- <-]|[_ Hk]]%lookup_insert_Some; [done|by eapply Ha]. Qed.

Lemma serial_new i a pc s :
  calls s !! i = None -> guarded pc = false ->
  (connecting pc = true -> forall j c, calls s !! j = Some c -> call_account c = a -> connecting (call_pc c) = false) ->
  serial_inv s -> serial_inv (set_call i (MkCall a pc) s).
Proof using Type.
  intros Hi Hg Hfree (HU & HG & Ha). split_and!; [| |done].
  - intros j k cj ck. cbn.
    intros [[<- <-]|[Hj Hcj]]%lookup_insert_Some [[<- <-]|[Hk Hck]]%lookup_insert_Some; cbn; intros E C1 C2; [done|..].
    + by rewrite (Hfree C1 k ck) in C2.
    + by rewrite (Hfree C2 j cj) in C1.
    + by apply (HU j k cj ck).
  - intros j cj. cbn. intros [[<- <-]|[Hj Hcj]]%lookup_insert_Some Gj; cbn in *; [congruence|by eapply HG].
Qed.

(** A connect that ends finds its slot empty. *)
Lemma serial_set_running i c s :
  calls s !! i = Some c -> call_pc c = SettingRunning -> serial_inv s ->
  serial_inv (set_call i (MkCall (call_account c) (Returned (Ok tt))) (set_running (call_account c) i s)).
Proof using Type.
  intros Hc Hpc (HU & HG & Ha). unfold set_running.
  rewrite (HG i c Hc ltac:(by rewrite Hpc)). split_and!; [| |exact Ha].
  - intros j k cj ck. cbn.
    intros [[<- <-]|[Hj Hcj]]%lookup_insert_Some [[<- <-]|[Hk Hck]]%lookup_insert_Some; cbn; intros E C1 C2; try done.
    by apply (HU j k cj ck).
  - intros j cj. cbn. intros [[<- <-]|[Hj Hcj]]%lookup_insert_Some Gj; [done|].
    change (handle_of (set_call ?x ?y ?z)) with (handle_of z). rewrite handle_on_handle. case_decide as D; [|by eapply HG].
    exfalso. apply Hj. apply (HU i j c cj); auto using guarded_connecting. by rewrite Hpc.
Qed.

Lemma serial_step l s s' :
  one_per_account l s -> step cap client_error l s = Some s' -> serial_inv s -> serial_inv s'.
Proof using Type.
  intros Hallowed Hstep Hinv. pose proof Hinv as (_ & _ & Ha).
  unfold Connections.step, advance, connect, stop, logout, supervise, cancel, hang_up, begin, mbind, option_bind in Hstep.
  repeat (case_match; simplify_eq);
    try (by apply serial_set_running);
    try (apply serial_new; [done|done|done|done]);
    try (eapply serial_call; [eassumption|done|first [exact (quiet_refl s)|apply quiet_on_handle; cbn; auto]
          |try exact Ha; try (by apply unaborted_set_sup)| | |done];
         match goal with E : call_pc _ = _ |- _ => rewrite E; cbn; auto; done end);
    try (match goal with Hx : sups s !! _ = Some _ |- _ => destruct (Ha _ _ Hx) as [Hab _] end;
         rewrite Hab;
         apply (serial_other s); [done|first [exact (quiet_refl s)|apply quiet_on_handle; cbn; auto]|by apply unaborted_set_sup|done]).
  - eapply serial_call; [eassumption|done|apply quiet_refl|exact Ha|done|done|done].
  - by destruct (Ha j s0) as [Hab _]; [|congruence].
  - by destruct (Ha j s0) as [Hab _]; [|congruence].
  - by destruct (Ha j s0) as [Hab _]; [|congruence].
  - apply (serial_other s); [done|apply quiet_on_handle; cbn; auto|exact Ha|done].
  - by apply (serial_other s); [|exact (quiet_refl s)| |].
Qed.

Lemma serial_reachable allowed s :
  (forall l s, allowed l s -> one_per_account l s) -> reachable cap client_error allowed s -> serial_inv s.
Proof using Type.
  intros Hallowed. induction 1 as [|s l s' _ IH Hl Hstep].
  - split_and!; [intros i j ci cj Hi|intros i c Hi|intros j x Hi]; cbn in Hi; by rewrite lookup_empty in Hi.
  - eapply serial_step; [by apply Hallowed|done|done].
Qed.
End serial.

(** ** A supervisor gives its slot back *)

(** The steps a supervisor has left. *)
Definition rank (pc : SupPc) : nat :=
  match pc with
  | Watching => 6 | TakingRunning => 5 | DroppingClient => 4 | CheckingState => 3 | MarkingDown => 2
  | Releasing => 1 | Finished | Cancelled => 0
  end.

Lemma supervise_progress j x s :
  sups s !! j = Some x -> bots s !! j = Some Exited -> (0 < rank (sup_pc x))%nat ->
  exists s' x', supervise j s = Some s' /\ sups s' !! j = Some x' /\ bots s' = bots s /\
    (rank (sup_pc x') < rank (sup_pc x))%nat /\
    (rank (sup_pc x') <> 0%nat -> connected s' = connected s) /\
    (rank (sup_pc x') = 0%nat -> sup_pc x' = Finished /\ connected s' = as_u64 (connected s - 1)).
Proof.
  intros Hx Hb Hr. unfold supervise. rewrite Hx. cbn [mbind option_bind]. rewrite Hb.
  destruct (sup_pc x); try (cbn in Hr; lia); repeat case_match; eexists _, _;
    (split; [reflexivity|]); cbn; rewrite lookup_insert_eq; (split; [reflexivity|]);
    (split_and!; [done|cbn; lia|done|done]).
Qed.

Lemma supervisor_releases cap client_error j x s :
  sups s !! j = Some x -> bots s !! j = Some Exited -> (0 < rank (sup_pc x))%nat ->
  exists n s', steps cap client_error (repeat (Supervise j) n) s = Some s' /\
    sup_pc <$> sups s' !! j = Some Finished /\ connected s' = as_u64 (connected s - 1).
Proof.
  remember (rank (sup_pc x)) as r eqn:Er. revert s x Er. induction (lt_wf r) as [r _ IH].
  intros s x -> Hx Hb Hr. destruct (supervise_progress j x s Hx Hb Hr) as (s1 & x1 & Hs & Hx1 & Hb1 & Hlt & Hkeep & Hlast).
  destruct (decide (rank (sup_pc x1) = 0%nat)) as [E|E].
  - destruct (Hlast E) as [Hf Hc]. exists 1%nat, s1. cbn. rewrite Hs. cbn. rewrite Hx1. cbn. by rewrite Hf.
  - destruct (IH _ Hlt s1 x1 eq_refl Hx1) as (n & s2 & Hrun & Hf & Hc); [by rewrite Hb1|lia|].
    exists (S n), s2. cbn. rewrite Hs. cbn. rewrite Hrun, Hf, Hc, Hkeep by done. done.
Qed.

(** C23.  The connection counter, under any interleaving of connects, stops, logouts, bots that exit
    and clients that hang up.  It counts the slots held, modulo the width of the counter: one for
    each connect about to spawn its supervisor and each supervisor that has not released it.  The
    budget is soft but bounded: with at most [k] connects at a time the counter is at most
    [cap - 1 + k], so exactly the cap when connects do not overlap.  When no two connects of one
    account overlap no supervisor is ever aborted, and a supervisor that is not aborted gives its
    slot back, by steps of its own, once its bot has exited. *)
Theorem connection_budget cap client_error (allowed : Label -> System -> Prop) (k : Z) (s : System) :
  0 <= k -> (forall l s, allowed l s -> at_most k l s) -> reachable cap client_error allowed s ->
  connected s = as_u64 (slots_held s) /\
  (0 < cap -> cap + k <= 2 ^ 64 -> connected s = slots_held s /\ connected s <= cap - 1 + k) /\
  ((forall l s, allowed l s -> one_per_account l s) ->
   forall j x, sups s !! j = Some x -> aborted x = false /\ sup_pc x <> Cancelled) /\
  (forall j x, sups s !! j = Some x -> bots s !! j = Some Exited -> sup_pc x <> Finished -> sup_pc x <> Cancelled ->
     exists n s', steps cap client_error (repeat (Supervise j) n) s = Some s' /\
       sup_pc <$> sups s' !! j = Some Finished /\ connected s' = as_u64 (connected s - 1)).
Proof.
  intros Hk Hallowed Hs. destruct (budget_reachable _ _ _ _ _ Hk Hallowed Hs) as (_ & Hc & _ & Hb). split_and!.
  - done.
  - intros Hcap Hroom. specialize (Hb Hcap Hroom). pose proof (slots_nonneg s). pose proof (passed_nonneg s).
    rewrite Hc, as_u64_small by lia. lia.
  - intros Hone. by destruct (serial_reachable _ _ _ _ Hone Hs) as (_ & _ & Ha).
  - intros j x Hx Hbot Hf Hcn. apply (supervisor_releases _ _ j x); [done|done|]. destruct (sup_pc x); cbn; try done; lia.
Qed.

(** ** Runs *)

(** A run that starts at most [k] connects at a time. *)
Fixpoint keeps_to (cap : Z) (client_error : WamuxError) (k : Z) (ls : list Label) (s : System) : bool :=
  match ls with
  | [] => true
  | l :: ls =>
      (match l with StartConnect _ _ => in_flight s <? k | _ => true end) &&
      match step cap client_error l s with
      | Some s' => keeps_to cap client_error k ls s'
      | None => false
      end
  end.

Lemma steps_reachable cap client_error k ls s s' :
  keeps_to cap client_error k ls s = true -> steps cap client_error ls s = Some s' ->
  reachable cap client_error (at_most k) s -> reachable cap client_error (at_most k) s'.
Proof.
  revert s. induction ls as [|l ls IH]; intros s; cbn; [by intros _ [= ->]|].
  destruct (step cap client_error l s) as [s1|] eqn:E; cbn; [|done]. intros [Hl Hk]%andb_true_iff Hrun Hs.
  eapply IH; [done|done|]. eapply reachable_step; [done| |done]. destruct l; cbn; try done. lia.
Qed.

Lemma one_at_a_time l s : at_most 1 l s -> one_per_account l s.
Proof.
  destruct l; cbn; try done. intros Hf j c Hc _.
  assert (Hle : flies c <= in_flight s) by (apply (total_at flies _ j); [intros x; unfold flies; by case_match|done]).
  unfold flies in Hle. case_match; [lia|done].
Qed.

Definition down : WamuxError := Client "websocket torn down".

(** [n] steps of call [i]. *)
Definition go (i n : nat) : list Label := repeat (Advance i Granted) n.

(** The whole of a connect: ten steps after its start. *)
Definition connects (i : nat) (a : Z) : list Label := StartConnect i a :: go i 10.

(** What the daemon shows of a run's end: the counter, account 7's handle and the bots. *)
Definition outcome (cap : Z) (ls : list Label) : option (Z * Handle * gmap nat Bot * gmap nat SupPc) :=
  s ← steps cap down ls start; Some (connected s, handle_of s 7, bots s, sup_pc <$> sups s).

(** Two overlapping connects of one account both find nothing running; the second aborts the
    first's supervisor, which never releases its slot: with every bot gone and every call
    returned, one slot is taken for good. *)
Lemma overlapping_connects_leak_a_slot :
  outcome 2 (StartConnect 0 7 :: StartConnect 1 7 :: go 0 1 ++ go 1 1 ++ go 0 9 ++ go 1 9 ++
             Cancel 0 :: BotExits 1 :: repeat (Supervise 1) 6) =
  Some (1, MkHandle None None Disconnected, {[0%nat := Dropped; 1%nat := Exited]},
        {[0%nat := Cancelled; 1%nat := Finished]}).
Proof. vm_compute. reflexivity. Qed.

(** A connect whose client hangs up while the bot is built leaves the account CONNECTING, with
    nothing running that would ever say otherwise. *)
Lemma hung_up_connect_stays_connecting :
  outcome 2 (StartConnect 0 7 :: go 0 4 ++ [HangUp 0]) = Some (0, MkHandle None None Connecting, ∅, ∅).
Proof. vm_compute. reflexivity. Qed.

(** A bot that exits before [set_running] leaves its finished supervisor in the slot: the account
    reads as running, and every later connect returns Ok without connecting. *)
Lemma early_exit_reads_as_running :
  outcome 2 (StartConnect 0 7 :: go 0 9 ++ BotExits 0 :: repeat (Supervise 0) 6 ++ go 0 1 ++ StartConnect 1 7 :: go 1 1) =
    Some (0, MkHandle None (Some 0%nat) Disconnected, {[0%nat := Exited]}, {[0%nat := Finished]}) /\
  (s ← steps 2 down (StartConnect 0 7 :: go 0 9 ++ BotExits 0 :: repeat (Supervise 0) 6 ++ go 0 1 ++ StartConnect 1 7 :: go 1 1) start;
   calls s !! 1%nat) = Some (MkCall 7 (Returned (Ok tt))).
Proof. split; vm_compute; reflexivity. Qed.

(** A stop that times out detaches its supervisor; when the old bot exits at last, that supervisor
    clears the client and the slot of the connection made since, which stays live, reads as
    DISCONNECTED and can be connected a second time. *)
Lemma timed_out_stop_clears_the_next_connection :
  outcome 2 (connects 0 7 ++ StartStop 5 7 :: go 5 3 ++ [Advance 5 Refused] ++ go 5 3 ++ connects 1 7 ++
             BotExits 0 :: repeat (Supervise 0) 6) =
  Some (1, MkHandle None None Disconnected, {[0%nat := Exited; 1%nat := Live]},
        {[0%nat := Finished; 1%nat := Watching]}).
Proof. vm_compute. reflexivity. Qed.

(** ** Witness *)

(** One connect at a time, a budget of one: the first account connects, the second is refused. *)
Definition one_then_refused : list Label := connects 0 7 ++ StartConnect 1 8 :: go 1 2.

Lemma connection_budget_witness :
  exists s, steps 1 down one_then_refused start = Some s /\
    calls s !! 1%nat = Some (MkCall 8 (Returned (Err (budget_reached 1)))) /\
    (connected s = slots_held s /\ connected s <= 1) /\
    (forall j x, sups s !! j = Some x -> aborted x = false /\ sup_pc x <> Cancelled).
Proof.
  destruct (steps 1 down one_then_refused start) as [s|] eqn:E; [|by vm_compute in E].
  assert (Hs : reachable 1 down (at_most 1) s).
  { apply (steps_reachable 1 down 1 one_then_refused start); [by vm_compute|exact E|constructor]. }
  pose proof (connection_budget 1 down (at_most 1) 1 s ltac:(lia) (fun _ _ H => H) Hs) as (_ & Hb & Hone & _).
  exists s. split_and!; [reflexivity| |apply Hb; lia|apply Hb; lia|apply Hone; apply one_at_a_time].
  assert (Hcall : (s ← steps 1 down one_then_refused start; calls s !! 1%nat) =
    Some (MkCall 8 (Returned (Err (budget_reached 1))))) by (vm_compute; reflexivity).
  by rewrite E in Hcall.
Defined.
