(* ===== verification/Registry.v ===== *)
(** * The account registry (state/account_registry.rs)

    The handles of the accounts by uuid, and the uuid of each external reference, in memory beside
    the store's own table.  What a handle runs (its bot, its client, its state) is Connections.v;
    here it is the account it is for.  The store's operations are those of Engine.v, with their
    failures; the maps are [DashMap]s, and a handle's announcement to the subscriptions is
    AllAccounts.v. *)

From stdpp Require Import sorting.
From S2P Require Import Prelude StoreError Database BlobCipher Backend BlobCodec AppSyncStore Engine EngineLaws EngineProps Errors Jids BoundaryProps.

Record AccountHandle : Type := MkAccountHandle {
  h_uuid : Uuid;
  h_external_ref : option string;
  h_device_id : Z;
  h_push_name : option string;
}.

(** [AccountHandle::new], of a row. *)
Definition handle_new (row : AccountRow) : AccountHandle :=
  MkAccountHandle (row_uuid row) (external_ref row) (device_id row) (push_name row).

Record Registry : Type := MkRegistry {
  handles : gmap Uuid AccountHandle;
  by_external : gmap string Uuid;
}.

Definition registry_new : Registry := MkRegistry ∅ ∅.

Definition insert_handle (row : AccountRow) (r : Registry) : Registry :=
  let handle := handle_new row in
  MkRegistry (<[h_uuid handle := handle]> (handles r))
    (match h_external_ref handle with
     | Some external => <[external := h_uuid handle]> (by_external r)
     | None => by_external r
     end).

Definition get (uuid : Uuid) (r : Registry) : option AccountHandle := handles r !! uuid.

Definition list_handles (r : Registry) : list AccountHandle := (map_to_list (handles r)).*2.

Section registry.
(** An account's id as its text ([uuid::Uuid]'s [Display]) and a request's uuid as its number. *)
Context (uuid_text : Uuid -> string) `{ids : LibIds} (number : LUuid -> Uuid).

Definition resolve (account : AccountRef) (r : Registry) : WamuxResult AccountHandle :=
  match account with
  | RefId id => ok_or (get (number (as_uuid id)) r) (AccountNotFound (uuid_text (number (as_uuid id))))
  | RefExternal external =>
      id ← ok_or (by_external r !! external_as_str external) (AccountNotFound (external_as_str external));
      ok_or (get id r) (AccountNotFound (external_as_str external))
  end.
End registry.

(** ** The operations, on the store and the maps *)

Definition Op (A : Type) : Type := World EngineDb * Registry -> WamuxResult A * (World EngineDb * Registry).

(** A store operation that ends in [?]: its error becomes [WamuxError::Store]. *)
Definition on_store {A B} (m : Run EngineDb A) (k : A -> Registry -> B * Registry) : Op B := fun x =>
  let '(w, r) := x in
  match m w with
  | (Ok a, w') => let '(b, r') := k a r in (Ok b, (w', r'))
  | (Err e, w') => (Err (Store e), (w', r))
  end.

Section operations.
Context (constraint : StoreError).

Definition load_existing : Op unit :=
  on_store list_accounts (fun rows r => (tt, foldl (fun r row => insert_handle row r) r rows)).

(** [uuid] is the id the store mints and [now] its clock. *)
Definition create_account (uuid : Uuid) (external_ref : option string) (now : Z) : Op AccountHandle :=
  on_store (Engine.create_account constraint uuid external_ref now)
    (fun row r => (handle_new row, insert_handle row r)).

Definition remove_external (h : AccountHandle) (m : gmap string Uuid) : gmap string Uuid :=
  match h_external_ref h with
  | Some external => delete external m
  | None => m
  end.

(** [delete], after its stop: whether the store had such an account is not asked. *)
Definition delete_account (handle : AccountHandle) : Op unit :=
  on_store (Engine.delete_account (h_uuid handle)) (fun _ r =>
    (tt, MkRegistry (delete (h_uuid handle) (handles r)) (remove_external handle (by_external r)))).

(** [has_stored_pn]: a store error is not an absence. *)
Definition has_stored_pn `{crypto : Crypto} `{keys : Keys} `{!Message DeviceBlob} (cipher : BlobCipher)
    (handle : AccountHandle) : Op bool :=
  on_store (within app_db with_app (load (device_backend cipher (h_device_id handle))))
    (fun device r =>
       (match device with Some device => bool_decide (is_Some (pn device)) | None => false end, r)).

(** A restart: an empty registry over the same store. *)
Definition restart (x : World EngineDb * Registry) : World EngineDb * Registry := (x.1, registry_new).

Inductive RegistryOp : Type :=
| Load
| Create (uuid : Uuid) (external : option string) (now : Z)
| Delete (uuid : Uuid)              (* of the handle the registry has *)
| Restart.

Definition registry_run (op : RegistryOp) (x : World EngineDb * Registry) :
    WamuxResult unit * (World EngineDb * Registry) :=
  match op with
  | Load => load_existing x
  | Create uuid external now => let '(r, x) := create_account uuid external now x in ((fun _ => tt) <$> r, x)
  | Delete uuid =>
      match get uuid x.2 with
      | Some handle => delete_account handle x
      | None => (Err (AccountNotFound ""), x)
      end
  | Restart => (Ok tt, restart x)
  end.
End operations.

(** The registry shows the store: a handle for each account and no other, under its uuid, and each
    external reference names the account that has it. *)
Definition mirrors (d : EngineDb) (r : Registry) : Prop :=
  (forall u h, handles r !! u = Some h <->
     exists k row, accounts d !! k = Some row /\ row_uuid row = u /\ h = handle_new row) /\
  (forall e u, by_external r !! e = Some u <->
     exists k row, accounts d !! k = Some row /\ external_ref row = Some e /\ row_uuid row = u).

(** ** Properties *)

(** ** One statement whose COMMIT is not lost *)

(** A COMMIT that fails was not applied. *)
Definition no_lost_commit (fs : list Fault) : Prop := Forall (fun f => match f with FailsAfter _ => False | _ => True end) fs.

Lemma no_lost_tail f fs : no_lost_commit (f :: fs) -> no_lost_commit fs.
Proof. by intros [_ H]%Forall_cons. Qed.

Lemma stmt_faults {D A} (f : D -> StoreResult A * D) w : no_lost_commit (faults w) -> no_lost_commit (faults (stmt f w).2).
Proof.
  intros H. unfold stmt. destruct (faults w) as [|[] fs]; try (apply no_lost_tail in H); by destruct (f (db w)).
Qed.

Lemma execute_clean {D A} (f : D -> StoreResult A * D) w :
  no_lost_commit (faults w) ->
  let '(r, w') := execute f w in
  no_lost_commit (faults w') /\ (forall e, r = Err e -> db w' = db w).
Proof.
  intros Hw. unfold execute, transaction.
  pose proof (stmt_faults (fun d : D => (Ok tt, d)) w Hw) as H0.
  assert (Hdb0 : forall e w0, stmt (fun d : D => (Ok tt, d)) w = (Err e, w0) -> db w0 = db w).
  { intros e w0. unfold stmt. by destruct (faults w) as [|[] fs]; intros [= <- <-]. }
  destruct (stmt (fun d : D => (Ok tt, d)) w) as [[[]|e] w0]; cbn in H0; [|by split; [|intros; eapply Hdb0]].
  pose proof (stmt_faults f w0 H0) as H1. destruct (stmt f w0) as [[a|e] w1]; cbn in H1; [|by split].
  destruct (faults w1) as [|[] fs] eqn:Ef; cbn.
  - rewrite Ef. by split.
  - split; [by eapply no_lost_tail|done].
  - split; [by eapply no_lost_tail|done].
  - exfalso. by apply Forall_cons in H1 as [[] _].
Qed.

(** ** The maps *)

Lemma insert_handle_mirrors row d d' r :
  mirrors d r -> (forall k row', accounts d !! k = Some row' -> ~ taken (row_uuid row) (external_ref row) row') ->
  (forall row', (exists k, accounts d' !! k = Some row') <-> row' = row \/ exists k, accounts d !! k = Some row') ->
  mirrors d' (insert_handle row r).
Proof.
  intros [Hh He] Hfree Hrows.
  assert (Hnew : exists k, accounts d' !! k = Some row) by (apply Hrows; by left).
  assert (Hold : forall row', (exists k, accounts d' !! k = Some row') -> row' = row \/
     ((exists k, accounts d !! k = Some row') /\ row_uuid row' <> row_uuid row /\
      (is_Some (external_ref row) -> external_ref row' <> external_ref row))).
  { intros row' [->|[k Hk]]%Hrows; [by left|right]. split_and!; [by exists k|..].
    - intros E. apply (Hfree k row' Hk). by left.
    - intros Hs E. apply (Hfree k row' Hk). by right. }
  split; cbn.
  - intros u h. destruct (decide (row_uuid row = u)) as [<-|Hne].
    + rewrite lookup_insert_eq. split.
      * intros [= <-]. destruct Hnew as [k Hk]. by exists k, row.
      * intros (k & row' & Hk & Eu & ->). destruct (Hold row') as [->|(_ & Hn & _)]; [by exists k|done|done].
    + rewrite lookup_insert_ne by done. rewrite Hh. split.
      * intros (k & row' & Hk & Eu & ->). destruct (proj2 (Hrows row')) as [k' Hk']; [right; by exists k|]. by exists k', row'.
      * intros (k & row' & Hk & Eu & ->). destruct (Hold row') as [->|([k' Hk'] & _)]; [by exists k|done|by exists k', row'].
  - intros e u. destruct (external_ref row) as [ext|] eqn:Ee; cbn.
    + destruct (decide (ext = e)) as [->|Hne].
      * rewrite lookup_insert_eq. split.
        -- intros [= <-]. destruct Hnew as [k Hk]. by exists k, row.
        -- intros (k & row' & Hk & Ex & <-). destruct (Hold row') as [->|(_ & _ & Hn)]; [by exists k|done|].
           by destruct (Hn ltac:(by eexists)).
      * rewrite lookup_insert_ne by done. rewrite He. split.
        -- intros (k & row' & Hk & Ex & <-). destruct (proj2 (Hrows row')) as [k' Hk']; [right; by exists k|]. by exists k', row'.
        -- intros (k & row' & Hk & Ex & <-). destruct (Hold row') as [->|([k' Hk'] & _)]; [by exists k|congruence|by exists k', row'].
    + rewrite He. split.
      * intros (k & row' & Hk & Ex & <-). destruct (proj2 (Hrows row')) as [k' Hk']; [right; by exists k|]. by exists k', row'.
      * intros (k & row' & Hk & Ex & <-). destruct (Hold row') as [->|([k' Hk'] & _)]; [by exists k|congruence|by exists k', row'].
Qed.

Lemma delete_mirrors d d' r h :
  store_ok d -> mirrors d r -> handles r !! h_uuid h = Some h ->
  (forall row', (exists k, accounts d' !! k = Some row') <-> row_uuid row' <> h_uuid h /\ exists k, accounts d !! k = Some row') ->
  mirrors d' (MkRegistry (delete (h_uuid h) (handles r)) (remove_external h (by_external r))).
Proof.
  intros [_ Hun] [Hh He] Hin Hrows.
  apply Hh in Hin as (k0 & row0 & Hk0 & Eu0 & Eh). split; cbn.
  - intros u h'. rewrite lookup_delete_Some, Hh. split.
    + intros (Hne & k & row & Hk & Eu & ->). destruct (proj2 (Hrows row)) as [k' Hk']; [split; [congruence|by exists k]|].
      by exists k', row.
    + intros (k & row & Hk & Eu & ->). destruct (proj1 (Hrows row)) as [Hne [k' Hk']]; [by exists k|].
      split; [congruence|]. by exists k', row.
  - intros e u.
    assert (Hext : (exists k row, accounts d' !! k = Some row /\ external_ref row = Some e /\ row_uuid row = u) <->
                   u <> h_uuid h /\ exists k row, accounts d !! k = Some row /\ external_ref row = Some e /\ row_uuid row = u).
    { split.
      - intros (k & row & Hk & Ex & Eu). destruct (proj1 (Hrows row)) as [Hne [k' Hk']]; [by exists k|].
        split; [congruence|]. by exists k', row.
      - intros (Hne & k & row & Hk & Ex & Eu). destruct (proj2 (Hrows row)) as [k' Hk']; [split; [congruence|by exists k]|].
        by exists k', row. }
    rewrite Hext, <-He. clear Hext. unfold remove_external.
    assert (Hown : forall e', by_external r !! e' = Some (h_uuid h) <-> h_external_ref h = Some e').
    { intros e'. rewrite He, Eh. cbn. split.
      - intros (k & row & Hk & Ex & Eu). assert (k = k0) as -> by (eapply Hun; [done|done|left; congruence]). congruence.
      - intros Ex. exists k0, row0. rewrite <-Eu0 in *. split_and!; [done|done|congruence]. }
    destruct (h_external_ref h) as [ext|] eqn:Ex.
    + rewrite lookup_delete_Some. split.
      * intros [Hne Hu]. split; [|done]. intros ->. apply Hown in Hu. congruence.
      * intros [Hne Hu]. split; [|done]. intros ->. apply Hne. pose proof (proj2 (Hown e) eq_refl). congruence.
    + split; [|by intros []]. intros Hu. split; [|done]. intros ->. by apply Hown in Hu.
Qed.

(** ** Loading *)

(** A store of just these accounts. *)
Definition store_of_rows (rows : list AccountRow) : EngineDb :=
  MkEngineDb (list_to_map ((fun row => (device_id row, row)) <$> rows)) 0 (signal_db empty_store) (proto_db empty_store)
    (app_db empty_store).

Lemma store_of_rows_elem rows row :
  NoDup (device_id <$> rows) -> (exists k, accounts (store_of_rows rows) !! k = Some row) <-> row ∈ rows.
Proof.
  intros Hnd. cbn. assert (Hnd' : NoDup ((fun row => (device_id row, row)) <$> rows).*1) by (by rewrite <-list_fmap_compose).
  split.
  - intros [k Hk]. apply elem_of_list_to_map_2, list_elem_of_fmap in Hk as (row' & [= -> ->] & Hin). done.
  - intros Hin. exists (device_id row). apply elem_of_list_to_map_1; [done|]. apply list_elem_of_fmap. by exists row.
Qed.

Lemma load_rows rows :
  NoDup (device_id <$> rows) ->
  (forall a b, a ∈ rows -> b ∈ rows -> taken (row_uuid a) (external_ref a) b -> a = b) ->
  mirrors (store_of_rows rows) (foldl (fun r row => insert_handle row r) registry_new rows).
Proof.
  induction rows as [|row rows IH] using rev_ind; intros Hnd Hone.
  - split; cbn; intros; rewrite lookup_empty; (split; [done|]); intros (k & row & Hk & _); by rewrite lookup_empty in Hk.
  - rewrite fmap_app in Hnd. apply NoDup_app in Hnd as (Hnd & Hlast & _). rewrite foldl_snoc.
    assert (Hnd2 : NoDup (device_id <$> (rows ++ [row]))).
    { rewrite fmap_app. apply NoDup_app. split_and!; [done|done|]. apply NoDup_singleton. }
    assert (Hnew : row ∉ rows).
    { intros Hin. apply (Hlast (device_id row)); [apply list_elem_of_fmap; by exists row|]. cbn. by apply list_elem_of_singleton. }
    apply (insert_handle_mirrors row (store_of_rows rows)).
    + apply IH; [done|]. intros a b Ha Hb. apply Hone; by apply elem_of_app; left.
    + intros k row' Hk Ht. assert (Hin : row' ∈ rows) by (apply store_of_rows_elem; [done|by exists k]).
      apply Hnew. rewrite (Hone row row'); [done| | |done]; apply elem_of_app; [right; by apply list_elem_of_singleton|by left].
    + intros row'. rewrite !store_of_rows_elem by done. rewrite elem_of_app, list_elem_of_singleton. tauto.
Qed.

Lemma mirrors_same_rows d d' r :
  (forall row, (exists k, accounts d !! k = Some row) <-> exists k, accounts d' !! k = Some row) ->
  mirrors d r -> mirrors d' r.
Proof.
  intros Hrows [Hh He]. split.
  - intros u h. rewrite Hh. split; intros (k & row & Hk & H); destruct (Hrows row) as [H1 H2];
      [destruct H1 as [k' Hk']|destruct H2 as [k' Hk']]; [by exists k|by exists k', row|by exists k|by exists k', row].
  - intros e u. rewrite He. split; intros (k & row & Hk & H); destruct (Hrows row) as [H1 H2];
      [destruct H1 as [k' Hk']|destruct H2 as [k' Hk']]; [by exists k|by exists k', row|by exists k|by exists k', row].
Qed.

Lemma load_mirrors d :
  store_ok d -> mirrors d (foldl (fun r row => insert_handle row r) registry_new (LIST_ACCOUNTS d)).
Proof.
  intros [Hid Hun]. set (rows := LIST_ACCOUNTS d).
  assert (Hperm : rows ≡ₚ (map_to_list (accounts d)).*2) by apply merge_sort_Permutation.
  assert (Hin : forall row, row ∈ rows <-> exists k, accounts d !! k = Some row).
  { intros row. rewrite Hperm, list_elem_of_fmap. split.
    - intros ([k row'] & -> & Hk). exists k. by apply elem_of_map_to_list.
    - intros [k Hk]. exists (k, row). split; [done|]. by apply elem_of_map_to_list. }
  assert (Hnd : NoDup (device_id <$> rows)).
  { rewrite Hperm, <-list_fmap_compose.
    rewrite (list_fmap_ext _ fst); [apply NoDup_fst_map_to_list|].
    intros i [k row] Hk. apply list_elem_of_lookup_2, elem_of_map_to_list in Hk. by destruct (Hid k row Hk). }
  apply (mirrors_same_rows (store_of_rows rows)); [intros row; by rewrite store_of_rows_elem|].
  apply load_rows; [done|]. intros a b [ka Ha]%Hin [kb Hb]%Hin Ht.
  assert (ka = kb) as ->; [|congruence]. eapply Hun; [done|done|].
  destruct Ht as [E|[Hs E]]; [by left|right]. by rewrite E.
Qed.

(** ** Operations *)

Definition changes (op : RegistryOp) : Prop :=
  match op with
  | Create _ _ _ | Delete _ => True
  | _ => False
  end.

Section ops.
Context (constraint : StoreError).

Lemma create_step uuid ext now w r :
  whole (db w) -> no_lost_commit (faults w) -> mirrors (db w) r ->
  let '(res, (w', r')) := create_account constraint uuid ext now (w, r) in
  whole (db w') /\ no_lost_commit (faults w') /\ mirrors (db w') r'.
Proof using Type.
  intros Hw Hf Hm. unfold create_account, on_store, Engine.create_account.
  pose proof (execute_clean (INSERT_ACCOUNT constraint uuid ext now) w Hf) as Hclean.
  pose proof (execute_cases (INSERT_ACCOUNT constraint uuid ext now) w) as Hcases.
  destruct (execute _ w) as [[row|e] w']; destruct Hclean as [Hf' Herr].
  - destruct (insert_effect _ _ _ _ _ _ _ Hcases) as (Erow & Hfree & Ed).
    split_and!; [by eapply insert_store_ok|done|]. apply (insert_handle_mirrors row (db w)); [done| |].
    + rewrite Erow. exact Hfree.
    + intros row'. rewrite Ed. cbn. split.
      * intros [k [[_ <-]|[_ Hk]]%lookup_insert_Some]; [by left|right; by exists k].
      * intros [->|[k Hk]]; [eexists; apply lookup_insert_eq|]. exists k. rewrite lookup_insert_ne; [done|].
        destruct Hw as [[Hid _] _]. destruct (Hid k row' Hk). lia.
  - rewrite (Herr e eq_refl). done.
Qed.

Lemma delete_step h w r :
  whole (db w) -> no_lost_commit (faults w) -> mirrors (db w) r -> handles r !! h_uuid h = Some h ->
  let '(res, (w', r')) := delete_account h (w, r) in
  whole (db w') /\ no_lost_commit (faults w') /\ mirrors (db w') r'.
Proof using Type.
  intros Hw Hf Hm Hin. unfold delete_account, on_store, Engine.delete_account, mbind, run_bind.
  pose proof (execute_clean (DELETE_ACCOUNT (h_uuid h)) w Hf) as Hclean.
  pose proof (execute_cases (DELETE_ACCOUNT (h_uuid h)) w) as Hcases.
  destruct (execute _ w) as [[n|e] w']; destruct Hclean as [Hf' Herr]; cbn.
  - unfold DELETE_ACCOUNT in Hcases. set (dead := dom _) in Hcases. injection Hcases as _ Ed. rewrite <-Ed. destruct Hw as [Hok Hroot].
    split_and!; [split; [by apply store_ok_cascade|by apply rooted_cascade]|done|].
    apply (delete_mirrors (db w)); [done|done|done|]. intros row. cbn.
    assert (Hdead : forall k row, accounts (db w) !! k = Some row -> k ∈ dead <-> row_uuid row = h_uuid h).
    { intros k row' Hk. unfold dead. rewrite elem_of_dom. split.
      - intros [row'' [Hk' Hu]%map_lookup_filter_Some]. cbn in Hu. by simplify_eq.
      - intros Hu. exists row'. by apply map_lookup_filter_Some. }
    split.
    + intros [k [Hk Hn]%map_lookup_filter_Some]. split; [|by exists k]. intros E. by apply Hn, (Hdead k row).
    + intros [Hn [k Hk]]. exists k. apply map_lookup_filter_Some. split; [done|]. by intros ?%(Hdead k row).
  - rewrite (Herr e eq_refl). done.
Qed.

Lemma registry_step op w r :
  changes op -> whole (db w) -> no_lost_commit (faults w) -> mirrors (db w) r ->
  let '(res, (w', r')) := registry_run constraint op (w, r) in
  whole (db w') /\ no_lost_commit (faults w') /\ mirrors (db w') r'.
Proof using Type.
  intros Hop Hw Hf Hm. destruct op as [|uuid ext now|uuid|]; try done; unfold registry_run.
  - pose proof (create_step uuid ext now w r Hw Hf Hm) as H.
    destruct (create_account constraint uuid ext now (w, r)) as [res [w' r']]. exact H.
  - cbn [snd]. destruct (get uuid r) as [h|] eqn:E; [|done]. apply delete_step; [done|done|done|].
    unfold get in E. pose proof (proj1 (proj1 Hm uuid h) E) as (k & row & Hk & Eu & ->). cbn. by rewrite Eu.
Qed.
End ops.

Fixpoint registry_all (constraint : StoreError) (ops : list RegistryOp) (x : World EngineDb * Registry) :
    World EngineDb * Registry :=
  match ops with
  | [] => x
  | op :: ops => registry_all constraint ops (registry_run constraint op x).2
  end.

(** C24.  The registry shows the store.  Loaded over a whole store it has a handle for each account
    and no other, and each external reference names its account; and it stays so under any
    history of creations and of deletions of the handles it has, whatever fails, as long as no
    COMMIT is applied and then reported as failed.  A reference of a request then resolves to the
    account that has it, by uuid or by external reference, and to nothing else. *)
Theorem registry_mirrors_store constraint (w0 w : World EngineDb) (r : Registry) (ops : list RegistryOp) :
  whole (db w0) -> load_existing (w0, registry_new) = (Ok tt, (w, r)) -> no_lost_commit (faults w) -> Forall changes ops ->
  let '(w', r') := registry_all constraint ops (w, r) in
  mirrors (db w') r' /\
  (forall `{ids : LibIds} uuid_text number account h,
     resolve uuid_text number account r' = Ok h <->
     exists k row, accounts (db w') !! k = Some row /\ h = handle_new row /\
       match account with
       | RefId id => row_uuid row = number (as_uuid id)
       | RefExternal external => external_ref row = Some (external_as_str external)
       end).
Proof.
  intros Hw Hload Hf Hops.
  assert (Hm : whole (db w) /\ mirrors (db w) r).
  { unfold load_existing, on_store, list_accounts in Hload.
    assert (Hq : forall rows w1, query LIST_ACCOUNTS w0 = (Ok rows, w1) -> rows = LIST_ACCOUNTS (db w0) /\ db w1 = db w0).
    { intros rows w1. unfold query, stmt. destruct (faults w0) as [|[] fs]; by intros [= <- <-]. }
    destruct (query LIST_ACCOUNTS w0) as [[rows|e] w1]; [|done]. destruct (Hq rows w1 eq_refl) as [-> E].
    injection Hload as <- <-. rewrite E. split; [done|]. by apply load_mirrors, Hw. }
  destruct Hm as [Hw' Hm]. clear w0 Hw Hload. revert w r Hw' Hf Hm. induction Hops as [|op ops Hop _ IH]; intros w r Hw Hf Hm; cbn.
  - split; [done|]. destruct Hm as [Hh He]. intros ids uuid_text number [id|external] h; cbn; unfold get.
    + destruct (handles r !! number (as_uuid id)) as [h'|] eqn:E; cbn.
      * rewrite Hh in E. destruct E as (k & row & Hk & Eu & ->). split; [intros [= <-]; by exists k, row|].
        intros (k' & row' & Hk' & -> & Eu'). assert (k' = k) as -> by (eapply (proj2 (proj1 Hw)); [done|done|left; congruence]). congruence.
      * split; [done|]. intros (k & row & Hk & -> & Eu). assert (Hs : handles r !! number (as_uuid id) = Some (handle_new row))
          by (apply Hh; by exists k, row). congruence.
    + destruct (by_external r !! external_as_str external) as [u|] eqn:E; cbn.
      * rewrite He in E. destruct E as (k & row & Hk & Ex & Eu). rewrite (proj2 (Hh u (handle_new row))) by (by exists k, row). cbn.
        split; [intros [= <-]; by exists k, row|]. intros (k' & row' & Hk' & -> & Ex').
        assert (k' = k) as ->; [|congruence]. eapply (proj2 (proj1 Hw)); [done|done|right; split; [by rewrite Ex'|congruence]].
      * split; [done|]. intros (k & row & Hk & -> & Ex).
        assert (Hs : by_external r !! external_as_str external = Some (row_uuid row)) by (apply He; by exists k, row). congruence.
  - pose proof (registry_step constraint op w r Hop Hw Hf Hm) as Hs. destruct (registry_run constraint op (w, r)) as [res [w1 r1]].
    destruct Hs as (Hw1 & Hf1 & Hm1). by apply IH.
Qed.

(** A delete holds the handle it resolved.  Two that resolved one account delete twice, and if the
    external reference was given to a new account between them, the second removes the reference of
    the new account: the store has it and no request can name it so, until a restart. *)
Lemma stale_delete_hides_an_account (constraint : StoreError) :
  let '(created, x) := create_account constraint 11 (Some "a") 5 (MkWorld empty_store [], registry_new) in
  exists h, created = Ok h /\
    let '(w, r) := (delete_account h (create_account constraint 22 (Some "a") 6 (delete_account h x).2).2).2 in
    (external_ref <$> accounts (db w) !! 2) = Some (Some "a") /\ by_external r !! "a" = None.
Proof. cbn. eexists. split; [reflexivity|]. vm_compute. by split. Qed.

(** ** Witness *)

Definition history : list RegistryOp := [Create 11 (Some "a") 5; Create 22 None 6; Create 33 (Some "a") 7; Delete 22].

(** A statement that fails, and a registry that still shows the store: account 33 is refused (the
    reference is taken), the other two are created, one is deleted. *)
Lemma registry_mirrors_store_witness :
  let x := registry_all engine_error history (MkWorld empty_store [], registry_new) in
  mirrors (db x.1) x.2 /\ dom (handles x.2) = {[11]} /\
  resolve (fun _ => "") (ids := toy_ids) (fun _ => 0) (RefExternal (MkExternalRef "a")) x.2 =
    Ok (MkAccountHandle 11 (Some "a") 1 None).
Proof.
  pose proof (registry_mirrors_store engine_error (MkWorld empty_store []) (MkWorld empty_store []) registry_new history
    empty_whole eq_refl (List.Forall_nil _) (ltac:(repeat constructor))) as H.
  destruct (registry_all engine_error history (MkWorld empty_store [], registry_new)) as [w r] eqn:E.
  destruct H as [Hm _]. split_and!; [exact Hm| |].
  - replace r with (registry_all engine_error history (MkWorld empty_store [], registry_new)).2 by (by rewrite E). by vm_compute.
  - replace r with (registry_all engine_error history (MkWorld empty_store [], registry_new)).2 by (by rewrite E). by vm_compute.
Defined.
