(* ===== verification/Spool.v ===== *)
(** * The media spool (spool/budget.rs, upload.rs, download.rs, ciphertext.rs, domain/media_transfer.rs)

    Transfers stage their bytes in unnamed files, against one budget of bytes.  The first part is
    the operations, each on the budget as it finds it; the second runs any number of transfers at
    the same time.  The media encryptor is the library's and a parameter; how a file operation
    ends is told by its caller ([Io]): all of it, or an error.  A file is its bytes. *)

From S2P Require Import Prelude StoreError Errors RelayedEnums.

(** ** The budget *)

Record SpoolBudget : Type := MkSpoolBudget { max_bytes : Z; held : Z }.

Definition budget_new (max : Z) : SpoolBudget := MkSpoolBudget max 0.

Record SpoolReservation : Type := MkSpoolReservation { res_held : Z }.

Definition budget_exhausted : WamuxError := ResourceExhausted "media spool budget exhausted".

(** [claim]: one atomic step. *)
Definition claim (bytes : Z) (b : SpoolBudget) : WamuxResult unit * SpoolBudget :=
  let total := sat_add64 (held b) bytes in
  if (max_bytes b =? 0) || (total <=? max_bytes b) then (Ok tt, MkSpoolBudget (max_bytes b) total)
  else (Err budget_exhausted, b).

Definition try_reserve (bytes : Z) (b : SpoolBudget) : WamuxResult SpoolReservation * SpoolBudget :=
  let '(r, b) := claim bytes b in ((fun _ => MkSpoolReservation bytes) <$> r, b).

Definition try_grow (bytes : Z) (r : SpoolReservation) (b : SpoolBudget) :
    WamuxResult unit * (SpoolReservation * SpoolBudget) :=
  match claim bytes b with
  | (Ok _, b) => (Ok tt, (MkSpoolReservation (as_u64 (res_held r + bytes)), b))
  | (Err e, b) => (Err e, (r, b))
  end.

(** [Drop for SpoolReservation]. *)
Definition release (r : SpoolReservation) (b : SpoolBudget) : SpoolBudget :=
  MkSpoolBudget (max_bytes b) (as_u64 (held b - res_held r)).

(** ** Files *)

Inductive Io : Type := Done | Fails (error : AnyError).

Abbreviation File := bytes.

(** [write] at a position: what is between the end and the position reads as zeros. *)
Definition write_at (position : nat) (buf : bytes) (file : File) : File :=
  take position (file ++ replicate (position - length file) Byte.x00) ++ buf ++ drop (position + length buf) file.

Definition set_len (len : nat) (file : File) : File := resize len Byte.x00 file.

(** [read_at]: what is there, up to [len] bytes. *)
Definition read_at (position len : nat) (file : File) : bytes := take len (drop position file).

(** ** The media encryptor (wacore::upload) *)

Class MediaCrypto : Type := {
  Encryptor : Type;
  EncryptedMediaInfo : Type;
  KeyDraw : Type;                      (* the random media key *)
  new_with_sidecar : KeyDraw -> wa.MediaType -> bool -> result AnyError Encryptor;
  update_to_writer : Encryptor -> bytes -> Encryptor * bytes;
  finalize_to_writer : Encryptor -> bytes * EncryptedMediaInfo;
}.

(** AES-CBC with PKCS7 padding and a 10-byte MAC: the plaintext that does not fill a block is
    held back, and the end adds 26 bytes at most; the ciphertext does not depend on how the
    plaintext was cut. *)
Class MediaCryptoLaws (mc : MediaCrypto) : Type := {
  buffered : Encryptor -> Z;
  buffered_new k t sidecar e : new_with_sidecar k t sidecar = Ok e -> buffered e = 0;
  buffered_update e p :
    let '(e', c) := update_to_writer e p in
    0 <= buffered e' /\ Z.of_nat (length c) + buffered e' = buffered e + Z.of_nat (length p);
  finalize_bound e : Z.of_nat (length (finalize_to_writer e).1) <= buffered e + 26;
  update_app e p q :
    let '(e1, c1) := update_to_writer e p in
    let '(e2, c2) := update_to_writer e1 q in
    update_to_writer e (p ++ q) = (e2, c1 ++ c2);
  update_nil e : update_to_writer e [] = (e, []);
}.

(** ** Uploads (spool/upload.rs) *)

Definition CIPHERTEXT_OVERHEAD : Z := 26.

Definition used_after_failure : WamuxError :=
  Other (MkAnyError [OtherCause] "spooled upload used after a failure").

Section upload.
Context `{mc : MediaCrypto}.

Record Stage : Type := MkStage { encryptor : Encryptor; file : File }.

Record SpooledUpload : Type := MkSpooledUpload {
  stage : option Stage;
  reservation : SpoolReservation;
  plaintext : Z;
}.

Record SpooledCiphertext : Type := MkSpooledCiphertext { ct_file : File; ct_len : Z }.

Record StagedUpload : Type := MkStagedUpload {
  source : SpooledCiphertext;
  info : EncryptedMediaInfo;
  st_reservation : SpoolReservation;
}.

(** [MediaSpool::create_file], an empty file or the error of the file system. *)
Definition create_file (io : Io) : WamuxResult File :=
  match io with
  | Done => Ok []
  | Fails e => Err (Other e)
  end.

(** [MediaSpool::begin_upload]. *)
Definition begin_upload (key : KeyDraw) (media_type : wa.MediaType) (io : Io) (b : SpoolBudget) :
    WamuxResult SpooledUpload * SpoolBudget :=
  let sidecar := match media_type with wa.Audio | wa.Video => true | _ => false end in
  match new_with_sidecar key media_type sidecar with
  | Err e => (Err (Other e), b)
  | Ok encryptor =>
      match create_file io with
      | Err e => (Err e, b)
      | Ok file =>
          let '(r, b) := try_reserve 0 b in
          ((fun r => MkSpooledUpload (Some (MkStage encryptor file)) r 0) <$> r, b)
      end
  end.

Definition take_stage (u : SpooledUpload) : WamuxResult Stage * SpooledUpload :=
  match stage u with
  | Some s => (Ok s, MkSpooledUpload None (reservation u) (plaintext u))
  | None => (Err used_after_failure, u)
  end.

Definition cover (needed : Z) (u : SpooledUpload) (b : SpoolBudget) :
    WamuxResult unit * (SpooledUpload * SpoolBudget) :=
  let shortfall := sat_sub needed (res_held (reservation u)) in
  let '(r, (res, b)) := try_grow shortfall (reservation u) b in
  (r, (MkSpooledUpload (stage u) res (plaintext u), b)).

(** [push] before its blocking task: the stage that goes to it. *)
Definition push_start (chunk : bytes) (u : SpooledUpload) (b : SpoolBudget) :
    WamuxResult Stage * (SpooledUpload * SpoolBudget) :=
  let u := MkSpooledUpload (stage u) (reservation u) (as_u64 (plaintext u + Z.of_nat (length chunk))) in
  match cover (plaintext u) u b with
  | (Err e, x) => (Err e, x)
  | (Ok _, (u, b)) => let '(s, u) := take_stage u in (s, (u, b))
  end.

(** The blocking task of a [push]. *)
Definition encrypt_chunk (chunk : bytes) (io : Io) (s : Stage) : WamuxResult Stage :=
  let '(e, c) := update_to_writer (encryptor s) chunk in
  match io with
  | Done => Ok (MkStage e (file s ++ c))
  | Fails e => Err (Other e)
  end.

Definition put_stage (s : Stage) (u : SpooledUpload) : SpooledUpload :=
  MkSpooledUpload (Some s) (reservation u) (plaintext u).

Definition push (chunk : bytes) (io : Io) (u : SpooledUpload) (b : SpoolBudget) :
    WamuxResult unit * (SpooledUpload * SpoolBudget) :=
  match push_start chunk u b with
  | (Err e, x) => (Err e, x)
  | (Ok s, (u, b)) =>
      match encrypt_chunk chunk io s with
      | Ok s => (Ok tt, (put_stage s u, b))
      | Err e => (Err e, (u, b))
      end
  end.

(** [finish] before its blocking task. *)
Definition finish_start (u : SpooledUpload) (b : SpoolBudget) :
    WamuxResult Stage * (SpooledUpload * SpoolBudget) :=
  match cover (as_u64 (plaintext u + CIPHERTEXT_OVERHEAD)) u b with
  | (Err e, x) => (Err e, x)
  | (Ok _, (u, b)) => let '(s, u) := take_stage u in (s, (u, b))
  end.

(** The blocking task of a [finish]; the file is measured at its end. *)
Definition seal_file (io : Io) (s : Stage) : WamuxResult (SpooledCiphertext * EncryptedMediaInfo) :=
  let '(c, info) := finalize_to_writer (encryptor s) in
  match io with
  | Done => let file := file s ++ c in Ok (MkSpooledCiphertext file (Z.of_nat (length file)), info)
  | Fails e => Err (Other e)
  end.

(** [finish] takes the upload: what is left of it is dropped when it fails. *)
Definition finish (io : Io) (u : SpooledUpload) (b : SpoolBudget) : WamuxResult StagedUpload * SpoolBudget :=
  match finish_start u b with
  | (Err e, (u, b)) => (Err e, release (reservation u) b)
  | (Ok s, (u, b)) =>
      match seal_file io s with
      | Ok (source, info) => (Ok (MkStagedUpload source info (reservation u)), b)
      | Err e => (Err e, release (reservation u) b)
      end
  end.

(** ** The upload body (spool/ciphertext.rs) *)

Record PositionedReader : Type := MkPositionedReader { rd_file : File; rd_offset : nat }.

Definition reader_from (offset : nat) (c : SpooledCiphertext) : PositionedReader :=
  MkPositionedReader (ct_file c) offset.

(** [read] into a buffer of [len] bytes; [available] is how many the system gives it at most. *)
Definition read (len available : nat) (io : Io) (r : PositionedReader) : result AnyError bytes * PositionedReader :=
  match io with
  | Done =>
      let got := read_at (rd_offset r) (len `min` available) (rd_file r) in
      (Ok got, MkPositionedReader (rd_file r) (rd_offset r + length got))
  | Fails e => (Err e, r)
  end.
End upload.

(** ** Downloads (spool/download.rs) *)

Record BoundedFile : Type := MkBoundedFile { bf_file : File; position : nat; limit : Z }.

Definition larger_than_reserved (limit : Z) : AnyError :=
  MkAnyError [OtherCause] ("media is larger than the " +:+ pretty limit +:+ " bytes reserved for it").

(** Its [write]; [taken] is how many of the bytes the file takes. *)
Definition bounded_write (buf : bytes) (taken : nat) (io : Io) (w : BoundedFile) : result AnyError (nat * BoundedFile) :=
  let e := sat_add64 (Z.of_nat (position w)) (Z.of_nat (length buf)) in
  if limit w <? e then Err (larger_than_reserved (limit w))
  else
    match io with
    | Done =>
        let n := (taken `min` length buf)%nat in
        Ok (n, MkBoundedFile (write_at (position w) (take n buf) (bf_file w)) (position w + n) (limit w))
    | Fails e => Err e
    end.

(** Its [seek], to the position the file system answers. *)
Definition bounded_seek (to : nat) (io : Io) (w : BoundedFile) : result AnyError BoundedFile :=
  match io with
  | Done => Ok (MkBoundedFile (bf_file w) to (limit w))
  | Fails e => Err e
  end.

Definition truncate (len : nat) (io : Io) (w : BoundedFile) : result AnyError BoundedFile :=
  match io with
  | Done => Ok (MkBoundedFile (set_len len (bf_file w)) (position w) (limit w))
  | Fails e => Err e
  end.

Record DownloadSlot : Type := MkDownloadSlot { writer : BoundedFile; ds_reservation : SpoolReservation }.

Record SpooledDownload : Type := MkSpooledDownload { dl_file : File; dl_len : Z; dl_reservation : SpoolReservation }.

(** [begin_download] on both sides of its blocking task. *)
Definition begin_download (bytes : Z) (io : Io) (b : SpoolBudget) : WamuxResult DownloadSlot * SpoolBudget :=
  match try_reserve bytes b with
  | (Err e, b) => (Err e, b)
  | (Ok r, b) =>
      match create_file io with
      | Ok file => (Ok (MkDownloadSlot (MkBoundedFile file 0 bytes) r), b)
      | Err e => (Err e, release r b)
      end
  end.

(** [seal]: the file is measured. *)
Definition seal (io : Io) (w : BoundedFile) (r : SpoolReservation) : WamuxResult SpooledDownload :=
  match io with
  | Done => Ok (MkSpooledDownload (bf_file w) (Z.of_nat (length (bf_file w))) r)
  | Fails e => Err (Other e)
  end.

(** [read_chunk]: [read_exact_at] of what is left, up to [max]. *)
Definition read_chunk (offset max : Z) (io : Io) (d : SpooledDownload) : WamuxResult bytes :=
  let want := Z.min (sat_sub (dl_len d) offset) max in
  match io with
  | Done => Ok (read_at (Z.to_nat offset) (Z.to_nat want) (dl_file d))
  | Fails e => Err (Other e)
  end.

(** [media_transfer::download] up to its reservation: what it reserves. *)
Definition size_limit_exceeded : WamuxError := ResourceExhausted "media exceeds size limit".

Definition download_reserve (file_length max : Z) : WamuxResult Z :=
  if max <? file_length then Err size_limit_exceeded
  else Ok (if file_length =? 0 then max else file_length).

(** ** Transfers at the same time

    Every atomic of the budget and every end of a blocking task is a step of one transfer.  A
    transfer whose future is dropped (its client hung up, a call failed) gives its reservation
    back at once; a blocking task it had started cannot be stopped and runs to its end,
    [detached], with the file. *)

Section transfers.
Context `{mc : MediaCrypto}.

Inductive Task : Type :=
| EncryptTask (s : Stage) (chunk : bytes)
| SealTask (s : Stage).

Inductive Transfer : Type :=
| Uploading (u : SpooledUpload)                    (* between two calls *)
| Blocked (u : SpooledUpload) (t : Task)           (* a push or the finish awaits its task *)
| Staged (s : StagedUpload)                        (* upload_staged *)
| Creating (bytes : Z) (r : SpoolReservation)      (* begin_download awaits its file *)
| Fetching (slot : DownloadSlot)
| Serving (d : SpooledDownload)
| Over.

Record Spool : Type := MkSpool {
  budget : SpoolBudget;
  transfers : gmap nat Transfer;
  detached : list Task;
}.

Definition start (max : Z) : Spool := MkSpool (budget_new max) ∅ [].

Inductive Label : Type :=
| BeginUpload (i : nat) (key : KeyDraw) (media_type : wa.MediaType) (io : Io)
| Push (i : nat) (chunk : bytes)
| Finish (i : nat)
| TaskEnds (i : nat) (io : Io)
| BeginDownload (i : nat) (file_length max : Z)
| FileCreated (i : nat) (io : Io)
| Write (i : nat) (buf : bytes) (taken : nat) (io : Io)
| Seek (i : nat) (to : nat) (io : Io)
| Truncate (i : nat) (len : nat) (io : Io)
| Fetched (i : nat) (io : Io)
| End (i : nat)                                    (* the future, or the stream, is dropped *)
| DetachedEnds.

Definition reservation_of (t : Transfer) : SpoolReservation :=
  match t with
  | Uploading u | Blocked u _ => reservation u
  | Staged s => st_reservation s
  | Creating _ r => r
  | Fetching slot => ds_reservation slot
  | Serving d => dl_reservation d
  | Over => MkSpoolReservation 0
  end.

Definition to (i : nat) (t : Transfer) (b : SpoolBudget) (s : Spool) : Spool :=
  MkSpool b (<[i := t]> (transfers s)) (detached s).

(** A transfer dropped. *)
Definition dropped (i : nat) (t : Transfer) (s : Spool) : Spool :=
  MkSpool (release (reservation_of t) (budget s)) (<[i := Over]> (transfers s))
    (match t with Blocked _ task => task :: detached s | _ => detached s end).

Definition begin (i : nat) (r : WamuxResult Transfer * SpoolBudget) (s : Spool) : option Spool :=
  match transfers s !! i, r with
  | None, (Ok t, b) => Some (to i t b s)
  | None, (Err _, b) => Some (to i Over b s)
  | Some _, _ => None
  end.

(** A call that failed: what is left of the transfer is dropped. *)
Definition called (i : nat) (make : Stage -> Task) (r : WamuxResult Stage * (SpooledUpload * SpoolBudget)) (s : Spool) :
    Spool :=
  match r with
  | (Ok st, (u, b)) => to i (Blocked u (make st)) b s
  | (Err _, (u, b)) => to i Over (release (reservation u) b) s
  end.

(** The library goes on with the writer; an error changes nothing here. *)
Definition wrote (i : nat) (slot : DownloadSlot) (r : result AnyError BoundedFile) (s : Spool) : Spool :=
  match r with
  | Ok w => to i (Fetching (MkDownloadSlot w (ds_reservation slot))) (budget s) s
  | Err _ => s
  end.

Definition step (l : Label) (s : Spool) : option Spool :=
  match l with
  | BeginUpload i key media_type io =>
      let '(r, b) := begin_upload key media_type io (budget s) in begin i (Uploading <$> r, b) s
  | Push i chunk =>
      match transfers s !! i with
      | Some (Uploading u) => Some (called i (fun st => EncryptTask st chunk) (push_start chunk u (budget s)) s)
      | _ => None
      end
  | Finish i =>
      match transfers s !! i with
      | Some (Uploading u) => Some (called i SealTask (finish_start u (budget s)) s)
      | _ => None
      end
  | TaskEnds i io =>
      match transfers s !! i with
      | Some (Blocked u (EncryptTask st chunk)) =>
          match encrypt_chunk chunk io st with
          | Ok st => Some (to i (Uploading (put_stage st u)) (budget s) s)
          | Err _ => Some (to i Over (release (reservation u) (budget s)) s)
          end
      | Some (Blocked u (SealTask st)) =>
          match seal_file io st with
          | Ok (source, info) => Some (to i (Staged (MkStagedUpload source info (reservation u))) (budget s) s)
          | Err _ => Some (to i Over (release (reservation u) (budget s)) s)
          end
      | _ => None
      end
  | BeginDownload i file_length max =>
      match download_reserve file_length max with
      | Err e => begin i (Err e, budget s) s
      | Ok bytes => let '(r, b) := try_reserve bytes (budget s) in begin i (Creating bytes <$> r, b) s
      end
  | FileCreated i io =>
      match transfers s !! i with
      | Some (Creating bytes r) =>
          match create_file io with
          | Ok file => Some (to i (Fetching (MkDownloadSlot (MkBoundedFile file 0 bytes) r)) (budget s) s)
          | Err _ => Some (dropped i (Creating bytes r) s)
          end
      | _ => None
      end
  | Write i buf taken io =>
      match transfers s !! i with
      | Some (Fetching slot) => Some (wrote i slot (snd <$> bounded_write buf taken io (writer slot)) s)
      | _ => None
      end
  | Seek i pos io =>
      match transfers s !! i with
      | Some (Fetching slot) => Some (wrote i slot (bounded_seek pos io (writer slot)) s)
      | _ => None
      end
  | Truncate i len io =>
      match transfers s !! i with
      | Some (Fetching slot) => Some (wrote i slot (truncate len io (writer slot)) s)
      | _ => None
      end
  | Fetched i io =>
      match transfers s !! i with
      | Some (Fetching slot) =>
          match seal io (writer slot) (ds_reservation slot) with
          | Ok d => Some (to i (Serving d) (budget s) s)
          | Err _ => Some (dropped i (Fetching slot) s)
          end
      | _ => None
      end
  | End i =>
      match transfers s !! i with
      | Some Over | None => None
      | Some t => Some (dropped i t s)
      end
  | DetachedEnds =>
      match detached s with
      | _ :: ts => Some (MkSpool (budget s) (transfers s) ts)
      | [] => None
      end
  end.

Fixpoint steps (ls : list Label) (s : Spool) : option Spool :=
  match ls with
  | [] => Some s
  | l :: ls => s' ← step l s; steps ls s'
  end.

(** ** What is on disk *)

Definition stage_bytes (s : Stage) : Z := Z.of_nat (length (file s)).

Definition task_bytes (t : Task) : Z :=
  match t with
  | EncryptTask s _ | SealTask s => stage_bytes s
  end.

Definition transfer_bytes (t : Transfer) : Z :=
  match t with
  | Uploading u => from_option stage_bytes 0 (stage u)
  | Blocked _ t => task_bytes t
  | Staged s => Z.of_nat (length (ct_file (source s)))
  | Fetching slot => Z.of_nat (length (bf_file (writer slot)))
  | Serving d => Z.of_nat (length (dl_file d))
  | Creating _ _ | Over => 0
  end.

(** The bytes of the transfers in flight, and those of the tasks left behind. *)
Definition bytes_in_flight (s : Spool) : Z := total transfer_bytes (transfers s).
Definition bytes_detached (s : Spool) : Z := foldr (fun t n => task_bytes t + n) 0 (detached s).

(** What the reservations of the transfers in flight sum to. *)
Definition reserved (s : Spool) : Z := total (fun t => res_held (reservation_of t)) (transfers s).
End transfers.

(** ** Laws of the media spool: the budget and the invariant of its transfers *)

Section laws.
Context `{mc : MediaCrypto} `{!MediaCryptoLaws mc}.

Definition budget_ok (b : SpoolBudget) : Prop := 0 < max_bytes b <= 2 ^ 63 /\ 0 <= held b <= max_bytes b.

Lemma claim_cases n b :
  budget_ok b -> 0 <= n ->
  claim n b = (Ok tt, MkSpoolBudget (max_bytes b) (held b + n)) /\ held b + n <= max_bytes b \/
  claim n b = (Err budget_exhausted, b) /\ max_bytes b < held b + n.
Proof.
  intros [Hm Hh] Hn. unfold claim, sat_add64, u64_max. rewrite (proj2 (Z.eqb_neq _ _)) by lia. cbn.
  case_match eqn:E; [left|right]; [apply Z.leb_le in E|apply Z.leb_gt in E]; (split; [|lia]); [|done].
  by rewrite Z.min_l by lia.
Qed.

Lemma release_held r b :
  budget_ok b -> 0 <= res_held r <= held b -> release r b = MkSpoolBudget (max_bytes b) (held b - res_held r).
Proof. intros [Hm Hh] Hr. unfold release, as_u64. by rewrite Z.mod_small by lia. Qed.

Lemma cover_cases needed u b :
  budget_ok b -> 0 <= needed -> 0 <= res_held (reservation u) <= held b ->
  (exists more, 0 <= more /\ held b + more <= max_bytes b /\ needed <= res_held (reservation u) + more /\
     cover needed u b = (Ok tt, (MkSpooledUpload (stage u) (MkSpoolReservation (res_held (reservation u) + more)) (plaintext u),
       MkSpoolBudget (max_bytes b) (held b + more)))) \/
  cover needed u b = (Err budget_exhausted, (u, b)).
Proof.
  intros Hb Hn Hr. unfold cover, try_grow. set (more := sat_sub _ _).
  assert (Hmore : 0 <= more /\ needed <= res_held (reservation u) + more) by (subst more; unfold sat_sub; lia).
  destruct (claim_cases more b Hb (proj1 Hmore)) as [[-> Hle]|[-> _]]; [left|right].
  - exists more. split_and!; [lia|lia|lia|]. destruct Hb as [Hm _]. unfold as_u64. by rewrite Z.mod_small by lia.
  - by destruct u.
Qed.

(** ** What a transfer is in the middle of *)

Definition stage_ok (s : Stage) (plain : Z) : Prop :=
  0 <= buffered (encryptor s) /\ stage_bytes s + buffered (encryptor s) = plain.

Definition transfer_ok (t : Transfer) : Prop :=
  match t with
  | Uploading u =>
      exists s, stage u = Some s /\ stage_ok s (plaintext u) /\ plaintext u <= res_held (reservation u)
  | Blocked u (EncryptTask s chunk) =>
      stage_ok s (plaintext u - Z.of_nat (length chunk)) /\ plaintext u <= res_held (reservation u)
  | Blocked u (SealTask s) =>
      stage_ok s (plaintext u) /\ plaintext u + CIPHERTEXT_OVERHEAD <= res_held (reservation u)
  | Staged s =>
      ct_len (source s) = Z.of_nat (length (ct_file (source s))) /\ ct_len (source s) <= res_held (st_reservation s)
  | Creating bytes r => 0 <= bytes /\ res_held r = bytes
  | Fetching slot =>
      limit (writer slot) = res_held (ds_reservation slot) /\
      Z.of_nat (length (bf_file (writer slot))) <= limit (writer slot)
  | Serving d => dl_len d = Z.of_nat (length (dl_file d)) /\ dl_len d <= res_held (dl_reservation d)
  | Over => True
  end.

Lemma transfer_covered t :
  transfer_ok t -> 0 <= transfer_bytes t <= res_held (reservation_of t).
Proof.
  destruct t as [u|u [s chunk|s]|s|n r|slot|d|]; cbn; unfold stage_ok, stage_bytes, CIPHERTEXT_OVERHEAD.
  - intros (s & -> & [? ?] & ?). cbn. unfold stage_bytes in *. lia.
  - intros [[? ?] ?]. lia.
  - intros [[? ?] ?]. lia.
  - lia.
  - lia.
  - lia.
  - lia.
  - lia.
Qed.

Record spool_ok (max : Z) (s : Spool) : Prop := {
  ok_max : max_bytes (budget s) = max;
  ok_budget : budget_ok (budget s);
  ok_held : held (budget s) = reserved s;
  ok_transfers : forall i t, transfers s !! i = Some t -> transfer_ok t;
}.

Lemma transfer_within max s i t :
  spool_ok max s -> transfers s !! i = Some t -> 0 <= res_held (reservation_of t) <= held (budget s).
Proof.
  intros [_ _ Hh Ht] Hi. pose proof (transfer_covered t (Ht i t Hi)). split; [lia|]. rewrite Hh. unfold reserved.
  apply (total_le_at (fun t => res_held (reservation_of t)) _ i); [|done].
  intros j x Hj. pose proof (transfer_covered x (Ht j x Hj)). lia.
Qed.

(** A transfer moves on: what it holds more is what the budget holds more. *)
Lemma to_ok max s i t held' ts :
  spool_ok max s -> transfer_ok t ->
  held' = held (budget s) + res_held (reservation_of t) -
    from_option (fun t => res_held (reservation_of t)) 0 (transfers s !! i) ->
  held' <= max ->
  spool_ok max (MkSpool (MkSpoolBudget (max_bytes (budget s)) held') (<[i := t]> (transfers s)) ts).
Proof.
  intros Hs Ht Hh' Hle. pose proof Hs as [Hm Hb Hh Hts].
  assert (Hreserved : reserved (MkSpool (MkSpoolBudget (max_bytes (budget s)) held') (<[i := t]> (transfers s)) ts) = held').
  { unfold reserved. cbn. rewrite total_insert. unfold reserved in Hh. lia. }
  split; cbn; [done| |done|].
  - split; cbn; [apply Hb|]. split; [|lia]. rewrite <-Hreserved. apply total_nonneg_in. cbn.
    intros j x [[<- <-]|[_ Hj]]%lookup_insert_Some; [pose proof (transfer_covered t Ht); lia|].
    pose proof (transfer_covered x (Hts j x Hj)). lia.
  - intros j x [[<- <-]|[_ Hj]]%lookup_insert_Some; [done|by eapply Hts].
Qed.
End laws.

(** ** Properties *)

Section system.
Context `{mc : MediaCrypto} `{!MediaCryptoLaws mc}.

(** A chunk is a [Vec], so shorter than [isize::MAX]; the declared and the configured lengths are
    [u64]s; and the library truncates a download, it does not extend it. *)
Definition fits (l : Label) (s : Spool) : Prop :=
  match l with
  | Push _ chunk => Z.of_nat (length chunk) < 2 ^ 63
  | BeginDownload _ file_length max => in_u64 file_length /\ in_u64 max
  | Truncate i len _ =>
      forall slot, transfers s !! i = Some (Fetching slot) -> (len <= length (bf_file (writer slot)))%nat
  | _ => True
  end.

(** No blocking task is left behind. *)
Definition awaits_tasks (l : Label) (s : Spool) : Prop :=
  match l with
  | End i => forall u t, transfers s !! i <> Some (Blocked u t)
  | _ => True
  end.

Inductive reachable (max : Z) (allowed : Label -> Spool -> Prop) : Spool -> Prop :=
| reachable_start : reachable max allowed (start max)
| reachable_step s l s' : reachable max allowed s -> allowed l s -> step l s = Some s' -> reachable max allowed s'.

Lemma over_ok max s i t b ts :
  spool_ok max s -> transfers s !! i = Some t -> b = release (reservation_of t) (budget s) ->
  spool_ok max (MkSpool b (<[i := Over]> (transfers s)) ts).
Proof using All.
  intros Hs Hi ->. pose proof (transfer_within max s i t Hs Hi) as Hr. pose proof (ok_budget _ _ Hs) as Hb.
  rewrite release_held by done. apply to_ok; [done|done|rewrite Hi; cbn; lia|].
  rewrite <-(ok_max _ _ Hs). destruct Hb. lia.
Qed.

Lemma stay_ok max s i t t' :
  spool_ok max s -> transfers s !! i = Some t -> transfer_ok t' -> reservation_of t' = reservation_of t ->
  spool_ok max (to i t' (budget s) s).
Proof using All.
  intros Hs Hi Ht Hr. pose proof (ok_budget _ _ Hs) as [_ Hb]. rewrite (ok_max _ _ Hs) in Hb. unfold to.
  destruct (budget s) as [m h] eqn:E; cbn in Hb |- *.
  replace (MkSpoolBudget m h) with (MkSpoolBudget (max_bytes (budget s)) h) by (by rewrite E).
  apply to_ok; [done|done| |lia]. rewrite Hi, Hr, E. cbn. lia.
Qed.

Lemma begin_ok max s i r b s' :
  spool_ok max s -> begin i (r, b) s = Some s' ->
  (forall e, r = Err e -> b = budget s) ->
  (forall t, r = Ok t -> transfer_ok t /\
     b = MkSpoolBudget (max_bytes (budget s)) (held (budget s) + res_held (reservation_of t)) /\ held b <= max) ->
  spool_ok max s'.
Proof using All.
  intros Hs Hstep Herr Hok. unfold begin in Hstep. destruct (transfers s !! i) as [?|] eqn:Hi; [done|].
  destruct r as [t|e]; injection Hstep as <-; unfold to.
  - destruct (Hok t eq_refl) as (Ht & -> & Hle). cbn in Hle. apply to_ok; [done|done|rewrite Hi; cbn; lia|lia].
  - rewrite (Herr e eq_refl). pose proof (ok_budget _ _ Hs) as [_ Hb]. rewrite (ok_max _ _ Hs) in Hb.
    destruct (budget s) as [m h] eqn:E; cbn in Hb.
    replace (MkSpoolBudget m h) with (MkSpoolBudget (max_bytes (budget s)) h) by (by rewrite E).
    apply to_ok; [done|done|rewrite Hi, E; cbn; lia|lia].
Qed.

Lemma called_ok max s i u make r :
  spool_ok max s -> transfers s !! i = Some (Uploading u) ->
  (forall st u' b', r = (Ok st, (u', b')) -> transfer_ok (Blocked u' (make st)) /\
     b' = MkSpoolBudget (max_bytes (budget s)) (held (budget s) + res_held (reservation u') - res_held (reservation u)) /\
     held b' <= max) ->
  (forall e u' b', r = (Err e, (u', b')) -> reservation u' = reservation u /\ b' = budget s) ->
  spool_ok max (called i make r s).
Proof using All.
  intros Hs Hi Hok Herr. destruct r as [[st|e] [u' b']]; cbn.
  - destruct (Hok st u' b' eq_refl) as (Ht & -> & Hle). unfold to. apply to_ok; [done|done|rewrite Hi; cbn; lia|].
    cbn in Hle. lia.
  - destruct (Herr e u' b' eq_refl) as [Hr ->]. unfold to. eapply over_ok; [done|exact Hi|]. cbn. by rewrite Hr.
Qed.

(** What [push] and [finish] share: the reservation grown, then the stage taken. *)
Lemma covered_call_ok max s i u st make needed plain r :
  spool_ok max s -> transfers s !! i = Some (Uploading u) -> stage u = Some st -> 0 <= needed ->
  (forall res, needed <= res_held res -> transfer_ok (Blocked (MkSpooledUpload None res plain) (make st))) ->
  r = (match cover needed (MkSpooledUpload (stage u) (reservation u) plain) (budget s) with
       | (Err e, x) => (Err e, x)
       | (Ok _, (u, b)) => let '(s, u) := take_stage u in (s, (u, b))
       end) ->
  spool_ok max (called i make r s).
Proof using All.
  intros Hs Hi Est Hn Hok ->. pose proof (transfer_within max s i _ Hs Hi) as Hr. cbn in Hr.
  set (u1 := MkSpooledUpload _ _ _). pose proof (ok_max _ _ Hs) as Emax.
  destruct (cover_cases needed u1 (budget s) (ok_budget _ _ Hs) Hn Hr) as [(more & H0 & H1 & H2 & ->)| ->].
  - unfold take_stage. cbn. rewrite Est. eapply called_ok; [done|exact Hi| |done]. intros st' u' b' [= <- <- <-]. cbn in *.
    split_and!; [by apply (Hok (MkSpoolReservation _))|f_equal; lia|lia].
  - eapply called_ok; [done|exact Hi|done|]. by intros e u' b' [= <- <- <-].
Qed.

Lemma push_start_ok max s i u chunk :
  spool_ok max s -> transfers s !! i = Some (Uploading u) -> Z.of_nat (length chunk) < 2 ^ 63 ->
  spool_ok max (called i (fun st => EncryptTask st chunk) (push_start chunk u (budget s)) s).
Proof using All.
  intros Hs Hi Hc. destruct (ok_transfers _ _ Hs i _ Hi) as (st & Est & [Hb0 Hb] & Hp).
  pose proof (transfer_within max s i _ Hs Hi) as Hr. cbn in Hr. pose proof (ok_budget _ _ Hs) as [Hm Hh].
  assert (Hplain : 0 <= plaintext u) by (unfold stage_bytes in Hb; lia).
  unfold push_start. unfold as_u64. rewrite Z.mod_small by lia.
  eapply covered_call_ok; [done|exact Hi|exact Est| |intros res Hres|reflexivity]; cbn; [lia|].
  cbn in Hres. unfold stage_ok. split_and!; lia.
Qed.

Lemma finish_start_ok max s i u :
  spool_ok max s -> transfers s !! i = Some (Uploading u) ->
  spool_ok max (called i SealTask (finish_start u (budget s)) s).
Proof using All.
  intros Hs Hi. destruct (ok_transfers _ _ Hs i _ Hi) as (st & Est & [Hb0 Hb] & Hp).
  pose proof (transfer_within max s i _ Hs Hi) as Hr. cbn in Hr. pose proof (ok_budget _ _ Hs) as [Hm Hh].
  assert (Hplain : 0 <= plaintext u) by (unfold stage_bytes in Hb; lia).
  unfold finish_start, as_u64. rewrite Z.mod_small by (unfold CIPHERTEXT_OVERHEAD; lia).
  eapply (covered_call_ok _ _ _ u st _ (plaintext u + CIPHERTEXT_OVERHEAD) (plaintext u));
    [done|exact Hi|exact Est|unfold CIPHERTEXT_OVERHEAD; lia|intros res Hres|by destruct u].
  cbn. unfold stage_ok. split_and!; lia.
Qed.

(** A write keeps a bounded file within its limit. *)
Lemma write_at_length p buf f :
  Z.of_nat (length (write_at p buf f)) <= Z.max (Z.of_nat (length f)) (Z.of_nat (p + length buf)).
Proof. unfold write_at. rewrite !length_app, length_take, length_app, length_replicate, length_drop. lia. Qed.

Lemma bounded_write_ok buf taken io w n w' :
  bounded_write buf taken io w = Ok (n, w') -> limit w < u64_max ->
  Z.of_nat (length (bf_file w)) <= limit w ->
  limit w' = limit w /\ Z.of_nat (length (bf_file w')) <= limit w.
Proof.
  unfold bounded_write. destruct (limit w <? _) eqn:E; [done|]. destruct io; [|done]. intros [= <- <-] Hl Hf. cbn. split; [done|].
  apply Z.ltb_ge in E. unfold sat_add64, u64_max in *.
  pose proof (write_at_length (position w) (take (taken `min` length buf) buf) (bf_file w)) as H.
  rewrite length_take in H. lia.
Qed.

Lemma spool_step_ok max s l s' : spool_ok max s -> fits l s -> step l s = Some s' -> spool_ok max s'.
Proof using All.
  intros Hs Hfit Hstep. pose proof (ok_budget _ _ Hs) as Hbud. pose proof Hbud as [Hm Hh].
  destruct l as [i key ty io|i chunk|i|i io|i fl mx|i io|i buf taken io|i pos io|i len io|i io|i|]; cbn in Hstep.
  - (* BeginUpload *)
    destruct (begin_upload key ty io (budget s)) as [r b] eqn:E. unfold begin_upload in E.
    set (sidecar := match ty with wa.Audio | wa.Video => true | _ => false end) in E.
    destruct (new_with_sidecar key ty sidecar) as [enc|e] eqn:Enew.
    2:{ injection E as <- <-. by eapply begin_ok; [done|exact Hstep|..]. }
    destruct io as [|e]; cbn in E; [|injection E as <- <-; by eapply begin_ok; [done|exact Hstep|..]].
    unfold try_reserve in E. destruct (claim_cases 0 (budget s) Hbud ltac:(lia)) as [[Ec Hle]|[Ec _]]; rewrite Ec in E;
      injection E as <- <-; (eapply begin_ok; [done|exact Hstep|..]); try done.
    intros t [= <-]. cbn. rewrite <-(ok_max _ _ Hs). split_and!; [|done|lia].
    eexists. split; [done|]. unfold stage_ok, stage_bytes. cbn. rewrite (buffered_new _ _ _ _ Enew). lia.
  - (* Push *) destruct (transfers s !! i) as [[]|] eqn:Hi; try done. injection Hstep as <-. by apply push_start_ok.
  - (* Finish *) destruct (transfers s !! i) as [[]|] eqn:Hi; try done. injection Hstep as <-. by apply finish_start_ok.
  - (* TaskEnds *)
    destruct (transfers s !! i) as [[|u [st chunk|st]| | | | |]|] eqn:Hi; try done;
      pose proof (ok_transfers _ _ Hs i _ Hi) as [[Hb0 Hb] Hp].
    + unfold encrypt_chunk in Hstep. pose proof (buffered_update (encryptor st) chunk) as Hup.
      destruct (update_to_writer (encryptor st) chunk) as [e c].
      destruct io; injection Hstep as <-; [|by eapply over_ok].
      eapply stay_ok; [done|exact Hi| |done]. exists (MkStage e (file st ++ c)). cbn. split; [done|].
      unfold stage_ok, stage_bytes in *. cbn in *. rewrite length_app. lia.
    + unfold seal_file in Hstep. pose proof (finalize_bound (encryptor st)) as Hfin.
      destruct (finalize_to_writer (encryptor st)) as [c inf]. cbn in Hfin.
      destruct io; injection Hstep as <-; [|by eapply over_ok].
      eapply stay_ok; [done|exact Hi| |done]. cbn. split; [done|].
      unfold stage_ok, stage_bytes, CIPHERTEXT_OVERHEAD in *. rewrite length_app. lia.
  - (* BeginDownload *)
    unfold download_reserve in Hstep. destruct (mx <? fl) eqn:E; [by eapply begin_ok; [done|exact Hstep|..]|].
    destruct Hfit as [Hfl Hmx]. unfold in_u64 in *.
    set (n := if fl =? 0 then mx else fl) in Hstep. assert (Hn : 0 <= n) by (unfold n; destruct (fl =? 0); lia).
    unfold try_reserve in Hstep. destruct (claim_cases n (budget s) Hbud Hn) as [[Ec Hle]|[Ec _]]; rewrite Ec in Hstep;
      (eapply begin_ok; [done|exact Hstep|..]); try done.
    intros t [= <-]. cbn. by rewrite <-(ok_max _ _ Hs).
  - (* FileCreated *)
    destruct (transfers s !! i) as [[| | |n r| | |]|] eqn:Hi; try done. pose proof (ok_transfers _ _ Hs i _ Hi) as [Hn Hr].
    destruct io; injection Hstep as <-; [|by eapply over_ok].
    eapply stay_ok; [done|exact Hi| |done]. cbn. split; [done|]. lia.
  - (* Write *)
    destruct (transfers s !! i) as [[| | | |slot| |]|] eqn:Hi; try done. injection Hstep as <-.
    pose proof (ok_transfers _ _ Hs i _ Hi) as [Hl Hf]. pose proof (transfer_within max s i _ Hs Hi) as Hr. cbn in Hr.
    destruct (bounded_write buf taken io (writer slot)) as [[n w]|] eqn:E; [|done].
    destruct (bounded_write_ok _ _ _ _ _ _ E) as [E1 E2]; [unfold u64_max; lia|done|].
    eapply stay_ok; [done|exact Hi| |done]. cbn. by rewrite E1.
  - (* Seek *)
    destruct (transfers s !! i) as [[| | | |slot| |]|] eqn:Hi; try done. injection Hstep as <-. destruct io; [|done].
    eapply stay_ok; [done|exact Hi|exact (ok_transfers _ _ Hs i _ Hi)|done].
  - (* Truncate *)
    destruct (transfers s !! i) as [[| | | |slot| |]|] eqn:Hi; try done. injection Hstep as <-. destruct io; [|done].
    pose proof (ok_transfers _ _ Hs i _ Hi) as [Hl Hf]. pose proof (Hfit slot Hi) as Hlen.
    eapply stay_ok; [done|exact Hi| |done]. cbn. unfold set_len. rewrite length_resize. lia.
  - (* Fetched *)
    destruct (transfers s !! i) as [[| | | |slot| |]|] eqn:Hi; try done. pose proof (ok_transfers _ _ Hs i _ Hi) as [Hl Hf].
    destruct io; injection Hstep as <-; [|by eapply over_ok]. eapply stay_ok; [done|exact Hi| |done]. cbn. lia.
  - (* End *)
    destruct (transfers s !! i) as [t|] eqn:Hi; [|done].
    destruct t; try done; injection Hstep as <-; by eapply over_ok.
  - (* DetachedEnds *)
    destruct (detached s) as [|t ts]; [done|]. injection Hstep as <-. by destruct Hs.
Qed.

Lemma spool_start_ok max : 0 < max <= 2 ^ 63 -> spool_ok max (start max).
Proof using All.
  intros Hm. split; [done|split; cbn; lia|done|]. cbn. intros i t Hi. by rewrite lookup_empty in Hi.
Qed.

Lemma spool_reachable_ok max (allowed : Label -> Spool -> Prop) s :
  0 < max <= 2 ^ 63 -> (forall l s, allowed l s -> fits l s) -> reachable max allowed s -> spool_ok max s.
Proof using All.
  intros Hm Hall. induction 1 as [|s l s' _ IH Hl Hstep]; [by apply spool_start_ok|].
  eapply spool_step_ok; [done|by apply Hall|done].
Qed.

Lemma begin_detached i r s s' : begin i r s = Some s' -> detached s' = detached s.
Proof using Type. unfold begin. destruct (transfers s !! i), r as [[] ?]; by intros [= <-]. Qed.

Lemma called_detached i make r s : detached (called i make r s) = detached s.
Proof using Type. by destruct r as [[] []]. Qed.

Lemma wrote_detached i slot r s : detached (wrote i slot r s) = detached s.
Proof using Type. by destruct r. Qed.

Lemma step_detached l s s' : awaits_tasks l s -> step l s = Some s' -> detached s = [] -> detached s' = [].
Proof using Type.
  intros Hl Hstep Hd. destruct l as [i key ty io|i chunk|i|i io|i fl mx|i io|i buf taken io|i pos io|i len io|i io|i|]; cbn in Hstep.
  - destruct (begin_upload _ _ _ _). by rewrite (begin_detached _ _ _ _ Hstep).
  - destruct (transfers s !! i) as [[]|]; try done. injection Hstep as <-. by rewrite called_detached.
  - destruct (transfers s !! i) as [[]|]; try done. injection Hstep as <-. by rewrite called_detached.
  - destruct (transfers s !! i) as [[|u [st chunk|st]| | | | |]|]; try done.
    + destruct (encrypt_chunk _ _ _); by injection Hstep as <-.
    + destruct (seal_file _ _) as [[]|]; by injection Hstep as <-.
  - destruct (download_reserve _ _); [|by rewrite (begin_detached _ _ _ _ Hstep)].
    destruct (try_reserve _ _). by rewrite (begin_detached _ _ _ _ Hstep).
  - destruct (transfers s !! i) as [[]|]; try done. destruct (create_file _); by injection Hstep as <-.
  - destruct (transfers s !! i) as [[]|]; try done. injection Hstep as <-. by rewrite wrote_detached.
  - destruct (transfers s !! i) as [[]|]; try done. injection Hstep as <-. by rewrite wrote_detached.
  - destruct (transfers s !! i) as [[]|]; try done. injection Hstep as <-. by rewrite wrote_detached.
  - destruct (transfers s !! i) as [[]|]; try done. destruct io; by injection Hstep as <-.
  - destruct (transfers s !! i) as [t|] eqn:Hi; [|done]. specialize (Hl : forall u t, transfers s !! i <> Some (Blocked u t)).
    destruct t as [|u t| | | | |]; try (by injection Hstep as <-); [|done]. by destruct (Hl u t).
  - rewrite Hd in Hstep. done.
Qed.

(** C25.  The spool's budget, under any interleaving of any number of uploads and downloads, with
    any file error and any hang-up.  What the budget holds is the sum of the reservations of the
    transfers in flight and never more than the configured maximum; the file of each transfer, and
    so the sum of them, stays within what it reserved; bytes are refused exactly when they do not
    fit, and when every transfer is over nothing is held.  No transfer in flight meets the error
    for an upload used after a failure.  If no future is dropped while its blocking task runs, no
    other spool file is on the disk. *)
Theorem spool_within_budget (max : Z) (allowed : Label -> Spool -> Prop) (s : Spool) :
  0 < max <= 2 ^ 63 -> (forall l s, allowed l s -> fits l s) -> reachable max allowed s ->
  (held (budget s) = reserved s /\ 0 <= held (budget s) <= max) /\
  (forall i t, transfers s !! i = Some t -> transfer_bytes t <= res_held (reservation_of t)) /\
  bytes_in_flight s <= held (budget s) /\
  (forall n, 0 <= n -> (claim n (budget s)).1 = Err budget_exhausted <-> max < held (budget s) + n) /\
  ((forall i t, transfers s !! i = Some t -> t = Over) -> held (budget s) = 0) /\
  (forall i u, transfers s !! i = Some (Uploading u) -> (take_stage u).1 <> Err used_after_failure) /\
  ((forall l s, allowed l s -> awaits_tasks l s) -> bytes_detached s = 0).
Proof using All.
  intros Hm Hall Hr. pose proof (spool_reachable_ok _ _ _ Hm Hall Hr) as Hs. destruct Hs as [Emax Hb Eh Ht] eqn:E. clear E.
  pose proof Hb as [_ Hh]. rewrite Emax in Hh. split_and!; [done|lia|lia|..].
  - intros i t Hi. by apply transfer_covered, (Ht i).
  - rewrite Eh. unfold bytes_in_flight, reserved. apply total_mono. intros i t Hi. by apply transfer_covered, (Ht i).
  - intros n Hn. destruct (claim_cases n (budget s) Hb Hn) as [[-> Hle]|[-> Hle]]; rewrite Emax in Hle; cbn.
    + split; [done|]. intros. exfalso. lia.
    + by split.
  - intros Hover. rewrite Eh. unfold reserved. assert (total (fun t => res_held (reservation_of t)) (transfers s) <= total (fun _ => 0) (transfers s)) as H1.
    { apply total_mono. intros i t Hi. by rewrite (Hover i t Hi). }
    assert (H2 : total (fun _ : Transfer => 0) (transfers s) = 0).
    { generalize (transfers s). intros m. induction m as [|i x m Hi IH] using map_ind; [done|]. rewrite total_insert, IH, Hi. done. }
    unfold reserved in Eh. lia.
  - intros i u Hi. destruct (Ht i _ Hi) as (st & Est & _). unfold take_stage. by rewrite Est.
  - intros Hwait. assert (detached s = []) as Hd; [|unfold bytes_detached; by rewrite Hd].
    clear -Hr Hwait. induction Hr as [|s l s' _ IH Hl Hstep]; [done|]. eapply step_detached; [by apply Hwait|done|done].
Qed.
End system.

(** ** A run *)

(** A cipher that only appends its 26 bytes. *)
#[local] Instance toy_media : MediaCrypto := {
  Encryptor := unit;
  EncryptedMediaInfo := unit;
  KeyDraw := unit;
  new_with_sidecar _ _ _ := Ok tt;
  update_to_writer _ p := (tt, p);
  finalize_to_writer _ := (replicate 26 Byte.x00, tt);
}.

#[local] Instance toy_media_laws : MediaCryptoLaws toy_media.
Proof.
  refine {| buffered := fun _ : @Encryptor toy_media => 0 |}; cbn; intros; try lia; try done. by destruct e.
Defined.

Definition chunk (n : nat) : bytes := replicate n Byte.x01.

(** A budget of 40 bytes.  The client of a 30-byte upload hangs up while the task writes: its
    reservation is given back at once and the next upload fills the budget, while the task still
    writes its file: 70 bytes on the disk. *)
Lemma hung_up_task_is_past_the_budget :
  (s ← steps [BeginUpload 0 tt wa.Image Done; Push 0 (chunk 30); TaskEnds 0 Done; Push 0 (chunk 10); End 0;
              BeginUpload 1 tt wa.Image Done; Push 1 (chunk 40); TaskEnds 1 Done] (start 40);
   Some (bytes_in_flight s, bytes_detached s, held (budget s))) = Some (40, 30, 40).
Proof. vm_compute. reflexivity. Qed.

Fixpoint all_fit (ls : list Label) (s : Spool) : Prop :=
  match ls with
  | [] => True
  | l :: ls => (fits l s /\ awaits_tasks l s) /\ match step l s with Some s' => all_fit ls s' | None => False end
  end.

Lemma spool_steps_reachable max ls s s' :
  all_fit ls s -> steps ls s = Some s' -> reachable max (fun l s => fits l s /\ awaits_tasks l s) s ->
  reachable max (fun l s => fits l s /\ awaits_tasks l s) s'.
Proof.
  revert s. induction ls as [|l ls IH]; intros s; [by intros _ [= <-]|]. cbn. intros [Hl Hls].
  destruct (step l s) as [s1|] eqn:E; [|done]. cbn. intros Hsteps Hs. eapply IH; [done|done|]. by eapply reachable_step.
Qed.

(** An upload and a download share 60 bytes: the upload's end is refused and drops it. *)
Definition shared : list Label :=
  [BeginDownload 0 30 100; BeginUpload 1 tt wa.Video Done; FileCreated 0 Done; Push 1 (chunk 20); Write 0 (chunk 8) 5 Done;
   TaskEnds 1 Done; Seek 0 25 Done; Write 0 (chunk 6) 6 Done; Write 0 (chunk 5) 5 Done; Finish 1;
   Fetched 0 Done].

Lemma spool_within_budget_witness :
  exists s, steps shared (start 60) = Some s /\ held (budget s) = 30 /\ bytes_in_flight s = 30 /\
    transfers s !! 1%nat = Some Over /\ bytes_detached s = 0 /\ reserved s = 30.
Proof.
  destruct (steps shared (start 60)) as [s|] eqn:E; [|by vm_compute in E].
  assert (Hr : reachable 60 (fun l s => fits l s /\ awaits_tasks l s) s).
  { eapply spool_steps_reachable; [|exact E|constructor]. vm_compute. split_and!; done. }
  destruct (spool_within_budget 60 _ s ltac:(lia) (fun l s H => proj1 H) Hr) as ([Hres _] & _ & _ & _ & _ & _ & Hdet).
  exists s. split; [done|]. specialize (Hdet (fun l s H => proj2 H)). vm_compute in E. injection E as <-. by split_and!.
Defined.
