(* ===== verification/MediaStream.v ===== *)
(** * Media in and out of the daemon (services/media_stream.rs, messaging_service.rs, media_service.rs)

    An upload is a stream of chunks: a header, then bytes that are encrypted into the spool as
    they come.  A download goes out as a frame that says what it is and frames of bytes.  The
    transfer under way is the only one here: what the others hold of the budget when it asks, and
    how each of its file operations ends, are functions of the number of the operation; how
    transfers share the budget is Spool.v. *)

From S2P Require Import Prelude StoreError Errors Wire RequestEnums Jids Messaging RelayedEnums Engine Registry Spool.

(** ** A call of a service

    It adds to the log of what was done, and ends in an answer or in a status. *)

Definition Rpc (L A : Type) : Type := list L -> result Status A * list L.

#[global] Instance rpc_ret {L} : MRet (Rpc L) := fun A a log => (Ok a, log).
#[global] Instance rpc_bind {L} : MBind (Rpc L) := fun A B k m log =>
  match m log with
  | (Ok a, log) => k a log
  | (Err e, log) => (Err e, log)
  end.

(** A conversion that ends in [?]. *)
Definition converted (metadata_value : string -> bool) {L A} (m : WamuxResult A) : Rpc L A := fun log =>
  (map_err (status_of metadata_value) m, log).

Lemma rpc_assoc {L A B C} (m : Rpc L A) (f : A -> Rpc L B) (g : B -> Rpc L C) log :
  ((m ≫= f) ≫= g) log = (m ≫= (fun a => f a ≫= g)) log.
Proof. unfold mbind, rpc_bind. by destruct (m log) as [[]]. Qed.

Lemma rpc_ret_bind {L A B} (a : A) (k : A -> Rpc L B) log : (mret a ≫= k) log = k a log.
Proof. done. Qed.

Lemma converted_ok metadata_value {L A B} (m : WamuxResult A) (k : A -> Rpc L B) log b log' :
  (converted metadata_value m ≫= k) log = (Ok b, log') -> exists a, m = Ok a /\ k a log = (Ok b, log').
Proof. unfold mbind, rpc_bind, converted. destruct m as [a|e]; cbn; [|done]. by exists a. Qed.

(** ** The streams *)

Inductive SendMediaPart : Type := SendHeader (h : pb.SendMediaHeader) | SendBytes (chunk : bytes).
Inductive PostStatusMediaPart : Type := StatusHeader (h : pb.PostStatusMediaHeader) | StatusBytes (chunk : bytes).

Record SendMediaChunk : Type := MkSendMediaChunk { send_part : option SendMediaPart }.
Record PostStatusMediaChunk : Type := MkPostStatusMediaChunk { status_part : option PostStatusMediaPart }.

Inductive MediaHeader : Type := Send (h : pb.SendMediaHeader) | StatusOf (h : pb.PostStatusMediaHeader).

Inductive MediaFrame : Type := Header (h : MediaHeader) | Bytes (chunk : bytes) | Empty.

Definition frame_of_send (chunk : SendMediaChunk) : MediaFrame :=
  match send_part chunk with
  | Some (SendHeader h) => Header (Send h)
  | Some (SendBytes bytes) => Bytes bytes
  | None => Empty
  end.

Definition frame_of_status (chunk : PostStatusMediaChunk) : MediaFrame :=
  match status_part chunk with
  | Some (StatusHeader h) => Header (StatusOf h)
  | Some (StatusBytes bytes) => Bytes bytes
  | None => Empty
  end.

Definition header_mismatch (rpc : string) : WamuxError :=
  Other (MkAnyError [OtherCause] (rpc +:+ " stream carried the other RPC's header")).

Definition into_send (h : MediaHeader) : WamuxResult pb.SendMediaHeader :=
  match h with
  | Send header => Ok header
  | StatusOf _ => Err (header_mismatch "SendMedia")
  end.

Definition into_status (h : MediaHeader) : WamuxResult pb.PostStatusMediaHeader :=
  match h with
  | StatusOf header => Ok header
  | Send _ => Err (header_mismatch "PostStatusMedia")
  end.

(** A [tonic::Streaming]: the messages to come, then the end or an error. *)
Record Streaming (C : Type) : Type := MkStreaming { messages : list C; ending : result Status unit }.

Arguments MkStreaming {C} _ _.
Arguments messages {C} _.
Arguments ending {C} _.

Definition message {C} (s : Streaming C) : result Status (option C) * Streaming C :=
  match messages s with
  | c :: cs => (Ok (Some c), MkStreaming cs (ending s))
  | [] => ((fun _ => None) <$> ending s, s)
  end.

Inductive MediaChunks : Type :=
| SendStream (s : Streaming SendMediaChunk)
| StatusStream (s : Streaming PostStatusMediaChunk).

Definition next_frame (c : MediaChunks) : result Status (option MediaFrame) * MediaChunks :=
  match c with
  | SendStream s => let '(r, s) := message s in ((fun o : option _ => frame_of_send <$> o) <$> r, SendStream s)
  | StatusStream s => let '(r, s) := message s in ((fun o : option _ => frame_of_status <$> o) <$> r, StatusStream s)
  end.

(** All the frames to come, and how they end. *)
Definition frames (c : MediaChunks) : list MediaFrame :=
  match c with
  | SendStream s => frame_of_send <$> messages s
  | StatusStream s => frame_of_status <$> messages s
  end.

Definition frames_end (c : MediaChunks) : result Status unit :=
  match c with
  | SendStream s => ending s
  | StatusStream s => ending s
  end.

Section stream.
Context (metadata_value : string -> bool).

(** [?] in a function that answers with a [Status]. *)
Definition to_status {A} (m : WamuxResult A) : result Status A := map_err (status_of metadata_value) m.

Definition read_header (empty_stream : string) (c : MediaChunks) : result Status (MediaHeader * MediaChunks) :=
  let '(r, c) := next_frame c in
  frame ← r;
  match frame with
  | None => to_status (Err (InvalidArgument empty_stream))
  | Some (Header h) => Ok (h, c)
  | Some _ => to_status (Err (InvalidArgument "first chunk must be the header"))
  end.

(** ** The upload *)

Section upload.
Context `{mc : MediaCrypto}.

(** The spool's maximum; what the other transfers hold when this one claims for the [n]-th time;
    how the [n]-th file operation ends. *)
Context (max : Z) (others : nat -> Z) (io : nat -> Io).

Definition budget_at (n : nat) (own : SpoolReservation) : SpoolBudget :=
  MkSpoolBudget max (others n + res_held own).

Definition second_header : WamuxError := InvalidArgument "unexpected second header".

(** The loop of [stage_upload]. *)
Fixpoint stage_frames (max_bytes : Z) (n : nat) (received : Z) (upload : SpooledUpload)
    (fs : list MediaFrame) (fin : result Status unit) : result Status StagedUpload :=
  match fs with
  | [] => _ ← fin; to_status (finish (io n) upload (budget_at n (reservation upload))).1
  | Bytes bytes :: fs =>
      let received := as_u64 (received + Z.of_nat (length bytes)) in
      if max_bytes <? received then to_status (Err size_limit_exceeded)
      else
        match push bytes (io n) upload (budget_at n (reservation upload)) with
        | (Ok _, (upload, _)) => stage_frames max_bytes (S n) received upload fs fin
        | (Err e, _) => to_status (Err e)
        end
  | Header _ :: _ => to_status (Err second_header)
  | Empty :: fs => stage_frames max_bytes n received upload fs fin
  end.

Definition stage_upload (key : KeyDraw) (media_type : wa.MediaType) (max_bytes : Z) (c : MediaChunks) :
    result Status StagedUpload :=
  upload ← to_status (begin_upload key media_type (io 0%nat) (budget_at 0 (MkSpoolReservation 0))).1;
  stage_frames max_bytes 1 0 upload (frames c) (frames_end c).

(** ** The two calls, up to what they hand to the library *)

Context (uuid_text : Uuid -> string) `{ids : LibIds} (number : LUuid -> Uuid).
Context {LibClient : Type} (registry : Registry) (client : AccountHandle -> option LibClient).

(** [account_of]; [client] reads the slot of a handle. *)
Definition account_of (account : option pb.AccountRef) : WamuxResult (AccountHandle * LibClient) :=
  account ← account_from_proto account;
  handle ← resolve uuid_text number account registry;
  client ← ok_or (client handle) NotConnected;
  Ok (handle, client).

Definition require_typed_jid (jid : option pb.Jid) : WamuxResult Jid :=
  jid ← ok_or jid (InvalidArgument "missing jid");
  jid_try_from jid.

Context (key : KeyDraw) (media_max_bytes : Z).

Definition send_media (c : MediaChunks) :
    result Status (AccountHandle * LibClient * Jid * OutgoingMedia * StagedUpload) :=
  '(header, c) ← read_header "empty media stream" c;
  header ← to_status (into_send header);
  '(handle, client) ← to_status (account_of (pb.smh_account header));
  to ← to_status (require_typed_jid (pb.smh_to header));
  kind ← to_status (parse_sendable (pb.smh_media_type header));
  staged ← stage_upload key (media_type kind) media_max_bytes c;
  media ← to_status (media_try_from header);
  Ok (handle, client, to, media, staged).

Definition post_status_media (c : MediaChunks) :
    result Status (AccountHandle * LibClient * StatusMedia * StagedUpload) :=
  '(header, c) ← read_header "empty status media stream" c;
  header ← to_status (into_status header);
  '(handle, client) ← to_status (account_of (pb.psm_account header));
  kind ← to_status (parse_status (pb.psm_media_type header));
  staged ← stage_upload key (media_type kind) media_max_bytes c;
  post ← to_status (status_media_try_from header);
  Ok (handle, client, post, staged).

(** [download_media], up to the reservation of [media_transfer::download]. *)
Definition download_media (account : option pb.AccountRef) (descriptor : option pb.MediaDescriptor) :
    result Status (LibClient * DownloadableMedia * Z) :=
  '(_, client) ← to_status (account_of account);
  descriptor ← to_status (ok_or descriptor (InvalidArgument "missing descriptor"));
  media ← to_status (downloadable_try_from descriptor);
  bytes ← to_status (download_reserve (dm_file_length media) media_max_bytes);
  Ok (client, media, bytes).
End upload.

(** ** The download (services/media_service.rs) *)

Definition CHUNK_SIZE : Z := 64 * 1024.

Inductive MediaPart : Type :=
| Meta (mime_type : string) (file_length : Z)
| Chunk (chunk : bytes).

(** [stream_spooled] past its meta frame.  [accepts] is how many frames more the channel takes
    before the client is gone; a chunk of [CHUNK_SIZE] at a time, so [fuel] past the chunks of
    the file is enough. *)
Fixpoint stream_chunks (fuel : nat) (io : nat -> Io) (n accepts : nat) (offset : Z) (d : SpooledDownload) :
    list (result Status MediaPart) :=
  match fuel, accepts with
  | S fuel, S accepts =>
      if offset <? dl_len d then
        match to_status (read_chunk offset CHUNK_SIZE (io n) d) with
        | Ok bytes => Ok (Chunk bytes) :: stream_chunks fuel io (S n) accepts (offset + CHUNK_SIZE) d
        | Err e => [Err e]
        end
      else []
  | _, _ => []
  end.

Definition stream_spooled (io : nat -> Io) (accepts : nat) (mime_type : string) (d : SpooledDownload) :
    list (result Status MediaPart) :=
  match accepts with
  | O => []
  | S accepts =>
      Ok (Meta mime_type (dl_len d)) :: stream_chunks (S (Z.to_nat (dl_len d / CHUNK_SIZE))) io 0 accepts 0 d
  end.
End stream.
