(* ===== verification/MediaStreamProps.v ===== *)
(** * What an upload stages and a download sends *)

From S2P Require Import Prelude StoreError Errors Wire RequestEnums Jids Messaging RelayedEnums Engine Registry Spool MessagingLaws MediaStream BoundaryProps.

Section staging.
Context (metadata_value : string -> bool) `{mc : MediaCrypto} `{!MediaCryptoLaws mc}.
Context (max : Z) (others : nat -> Z) (io : nat -> Io).
Context (Hmax : 0 < max <= 2 ^ 63) (Hothers : forall n, 0 <= others n).

Abbreviation status e := (status_of metadata_value e).
Abbreviation stage_frames := (stage_frames metadata_value max others io).

(** ** The checks of an upload, in order *)

Definition io_check (n : nat) : option Status :=
  match io n with
  | Done => None
  | Fails e => Some (status (Other e))
  end.

(** The [n]-th claim makes the reservation [total]. *)
Definition room_check (n : nat) (total : Z) : option Status :=
  refuse_if (max <? others n + total) (status budget_exhausted).

Fixpoint frame_checks (max_bytes : Z) (n : nat) (received : Z) (fs : list MediaFrame) (fin : result Status unit) :
    list (option Status) :=
  match fs with
  | [] => [err_of fin; room_check n (received + CIPHERTEXT_OVERHEAD); io_check n]
  | Bytes bytes :: fs =>
      let received := received + Z.of_nat (length bytes) in
      [refuse_if (max_bytes <? received) (status size_limit_exceeded); room_check n received; io_check n] ++
      frame_checks max_bytes (S n) received fs fin
  | Header _ :: _ => [Some (status second_header)]
  | Empty :: fs => frame_checks max_bytes n received fs fin
  end.

Definition begin_checks (key : KeyDraw) (media_type : wa.MediaType) : list (option Status) :=
  let sidecar := match media_type with wa.Audio | wa.Video => true | _ => false end in
  [(fun e => status (Other e)) <$> err_of (new_with_sidecar key media_type sidecar); io_check 0; room_check 0 0].

(** The bytes a client sent. *)
Definition plain_of (fs : list MediaFrame) : bytes :=
  concat ((fun f => match f with Bytes bytes => bytes | _ => [] end) <$> fs).

(** The encryption of [plain], whole, from the state [e]. *)
Definition encryption (e : Encryptor) (plain : bytes) : bytes * EncryptedMediaInfo :=
  let '(e, c) := update_to_writer e plain in
  let '(c', info) := finalize_to_writer e in
  (c ++ c', info).

Definition staged_made (e : Encryptor) (before : bytes) (received : Z) (fs : list MediaFrame) (s : StagedUpload) : Prop :=
  let '(c, info) := encryption e (plain_of fs) in
  let file := before ++ c in
  let reserved := received + Z.of_nat (length (plain_of fs)) + CIPHERTEXT_OVERHEAD in
  s = MkStagedUpload (MkSpooledCiphertext file (Z.of_nat (length file))) info (MkSpoolReservation reserved).

Definition small (fs : list MediaFrame) : Prop :=
  Forall (fun f => match f with Bytes bytes => Z.of_nat (length bytes) < 2 ^ 63 | _ => True end) fs.

(** ** One claim *)

Lemma cover_at n needed u :
  0 <= res_held (reservation u) <= max -> res_held (reservation u) <= needed < 2 ^ 64 ->
  (max <? others n + needed) = false /\
    (exists b, cover needed u (budget_at max others n (reservation u)) =
      (Ok tt, (MkSpooledUpload (stage u) (MkSpoolReservation needed) (plaintext u), b))) \/
  (max <? others n + needed) = true /\
    cover needed u (budget_at max others n (reservation u)) = (Err budget_exhausted, (u, budget_at max others n (reservation u))).
Proof using Hmax Hothers.
  intros Hr Hn. specialize (Hothers n). unfold cover, try_grow, claim, budget_at, sat_sub, sat_add64, u64_max. cbn.
  rewrite Z.max_r by lia. rewrite (proj2 (Z.eqb_neq _ _)) by lia. cbn.
  replace (others n + res_held (reservation u) + (needed - res_held (reservation u))) with (others n + needed) by lia.
  destruct (max <? others n + needed) eqn:E; [right|left]; (split; [done|]).
  - apply Z.ltb_lt in E. rewrite (proj2 (Z.leb_gt _ _)) by lia. by destruct u.
  - apply Z.ltb_ge in E. rewrite (proj2 (Z.leb_le _ _)) by lia. eexists. unfold as_u64. rewrite Z.mod_small by lia.
    by replace (res_held (reservation u) + (needed - res_held (reservation u))) with needed by lia.
Qed.

Lemma push_at n bytes e before r :
  0 <= r <= max -> Z.of_nat (length bytes) < 2 ^ 63 ->
  let u := MkSpooledUpload (Some (MkStage e before)) (MkSpoolReservation r) r in
  let r' := r + Z.of_nat (length bytes) in
  let '(e', c) := update_to_writer e bytes in
  checked (fst <$> match push bytes (io n) u (budget_at max others n (reservation u)) with
                   | (Ok _, x) => Ok x
                   | (Err e, _) => Err (status e)
                   end)
    [room_check n r'; io_check n]
    (fun u' => u' = MkSpooledUpload (Some (MkStage e' (before ++ c))) (MkSpoolReservation r') r' /\ r' <= max).
Proof using Hmax Hothers.
  intros Hr Hb u r'. destruct (update_to_writer e bytes) as [e' c] eqn:Eu.
  set (u1 := MkSpooledUpload (Some (MkStage e before)) (MkSpoolReservation r) r').
  assert (Ep : forall b, push_start bytes u b = match cover r' u1 b with
    | (Err e, x) => (Err e, x)
    | (Ok _, (u, b)) => let '(s, u) := take_stage u in (s, (u, b))
    end).
  { intros b. unfold push_start, as_u64. cbn. by rewrite Z.mod_small by lia. }
  unfold checked, room_check, io_check. rewrite !first_error_cons. unfold push. rewrite Ep.
  destruct (cover_at n r' u1) as [[E [b Hc]]|[E Hc]]; [cbn; lia|cbn; lia|..];
    change (reservation u) with (reservation u1); rewrite Hc, E; cbn; [|done].
  unfold encrypt_chunk. cbn. rewrite Eu. destruct (io n); cbn; [|done].
  eexists. split; [done|]. split; [done|]. apply Z.ltb_ge in E. specialize (Hothers n). lia.
Qed.

(** An upload in the middle: [r] bytes of plaintext, all of them reserved. *)
Definition upload_at (e : Encryptor) (before : bytes) (r : Z) : SpooledUpload :=
  MkSpooledUpload (Some (MkStage e before)) (MkSpoolReservation r) r.

Lemma finish_at n e before r :
  0 <= r <= max ->
  checked (to_status metadata_value (finish (io n) (upload_at e before r) (budget_at max others n (MkSpoolReservation r))).1)
    [room_check n (r + CIPHERTEXT_OVERHEAD); io_check n] (staged_made e before r []).
Proof using Hmax Hothers MediaCryptoLaws0.
  intros Hr. set (u := upload_at e before r). unfold checked, room_check, io_check. rewrite !first_error_cons.
  unfold finish, finish_start, as_u64. rewrite Z.mod_small by (unfold u, upload_at, CIPHERTEXT_OVERHEAD; cbn; lia).
  change (MkSpoolReservation r) with (reservation u). change (plaintext u) with r.
  destruct (cover_at n (r + CIPHERTEXT_OVERHEAD) u) as [[E [b Hc]]|[E Hc]];
    [cbn; lia|unfold CIPHERTEXT_OVERHEAD; cbn; lia|..]; rewrite Hc, E; cbn; [|done].
  unfold seal_file. cbn. unfold staged_made, encryption, plain_of. cbn. rewrite update_nil.
  destruct (finalize_to_writer e) as [c info]. destruct (io n); cbn; [|done]. eexists. split; [done|]. by rewrite Z.add_0_r.
Qed.

Lemma encryption_step e bytes plain :
  let '(e', c) := update_to_writer e bytes in
  encryption e (bytes ++ plain) = (c ++ (encryption e' plain).1, (encryption e' plain).2).
Proof using MediaCryptoLaws0.
  unfold encryption. pose proof (update_app e bytes plain) as H. destruct (update_to_writer e bytes) as [e' c].
  destruct (update_to_writer e' plain) as [e2 c2]. rewrite H. destruct (finalize_to_writer e2) as [c3 info]. cbn. by rewrite app_assoc.
Qed.

Lemma staged_step e before r bytes fs s :
  let '(e', c) := update_to_writer e bytes in
  staged_made e' (before ++ c) (r + Z.of_nat (length bytes)) fs s -> staged_made e before r (Bytes bytes :: fs) s.
Proof using MediaCryptoLaws0.
  pose proof (encryption_step e bytes (plain_of fs)) as H. destruct (update_to_writer e bytes) as [e' c].
  unfold staged_made. change (plain_of (Bytes bytes :: fs)) with (bytes ++ plain_of fs). rewrite H.
  destruct (encryption e' (plain_of fs)) as [c' info]. cbn. intros ->. rewrite !app_assoc, (length_app bytes).
  do 2 f_equal. lia.
Qed.

Lemma stage_frames_checked max_bytes fs fin n e before r :
  0 <= r <= max -> small fs ->
  checked (stage_frames max_bytes n r (upload_at e before r) fs fin) (frame_checks max_bytes n r fs fin)
    (fun s => staged_made e before r fs s /\ Forall (fun f => forall h, f <> Header h) fs /\ fin = Ok tt /\
       r + Z.of_nat (length (plain_of fs)) <= Z.max r max_bytes).
Proof using Hmax Hothers MediaCryptoLaws0.
  revert n e before r. induction fs as [|f fs IH]; intros n e before r Hr Hsmall.
  - cbn. unfold checked. rewrite first_error_cons. destruct fin as [[]|st]; cbn; [|done].
    eapply checked_mono; [by apply finish_at|]. intros s Hs. split_and!; [done|constructor|done|]. cbn. lia.
  - apply Forall_cons in Hsmall as [Hf Hsmall]. destruct f as [h|bytes|]; cbn [stage_frames MediaStream.stage_frames frame_checks].
    + done.
    + unfold as_u64. rewrite Z.mod_small by lia. apply checked_refuse. intros Elim%Z.ltb_ge.
      change (MkSpoolReservation r) with (reservation (upload_at e before r)).
      pose proof (push_at n bytes e before r Hr Hf) as Hpush. pose proof (staged_step e before r bytes fs) as Hstep.
      cbn zeta in Hpush. destruct (update_to_writer e bytes) as [e' c].
      change (MkSpooledUpload (Some (MkStage e before)) (MkSpoolReservation r) r) with (upload_at e before r) in Hpush.
      match goal with |- context [push bytes (io n) ?u ?b] => destruct (push bytes (io n) u b) as [[[]|err] [u' b']] end.
      * cbn in Hpush. change (?a :: ?b :: ?l) with ([a; b] ++ l).
        unfold checked in *. rewrite first_error_app. destruct (first_error [room_check _ _; io_check n]); [done|].
        destruct Hpush as (v & [= <-] & -> & Hle). eapply checked_mono; [apply IH; [lia|done]|].
        intros s (Hs & Hh & Hfin & Hmb). split_and!; [by apply (Hstep s)|by constructor|done|].
        change (plain_of (Bytes bytes :: fs)) with (bytes ++ plain_of fs). rewrite length_app. lia.
      * cbn in Hpush |- *. unfold checked in *. change (?a :: ?b :: ?l) with ([a; b] ++ l). rewrite first_error_app.
        destruct (first_error [room_check _ _; io_check n]); [by simplify_eq/=|]. by destruct Hpush as (v & ? & _).
    + eapply checked_mono; [apply IH; done|]. intros s (Hs & Hh & Hfin & Hmb). by split_and!; [|constructor|..].
Qed.

Lemma begin_checked key media_type :
  checked (to_status metadata_value (begin_upload key media_type (io 0%nat) (budget_at max others 0 (MkSpoolReservation 0))).1)
    (begin_checks key media_type)
    (fun u => exists e, u = upload_at e [] 0 /\
       new_with_sidecar key media_type (match media_type with wa.Audio | wa.Video => true | _ => false end) = Ok e).
Proof using Hmax Hothers.
  unfold begin_checks, checked, begin_upload, io_check. rewrite !first_error_cons.
  set (sidecar := match media_type with wa.Audio | wa.Video => true | _ => false end).
  destruct (new_with_sidecar key media_type sidecar) as [e|err]; cbn; [|done].
  destruct (io 0%nat); cbn; [|done].
  unfold room_check, refuse_if, try_reserve, claim, budget_at, sat_add64, u64_max. cbn.
  rewrite (proj2 (Z.eqb_neq _ _)) by lia. cbn. specialize (Hothers 0%nat). destruct (max <? others 0%nat + 0) eqn:E.
  - apply Z.ltb_lt in E. by rewrite (proj2 (Z.leb_gt _ _)) by lia.
  - apply Z.ltb_ge in E. rewrite (proj2 (Z.leb_le _ _)) by lia. eexists. split; [done|]. by exists e.
Qed.

Definition stage_checks (key : KeyDraw) (max_bytes : Z) (c : MediaChunks) (kind : WamuxResult MediaKind) :
    list (option Status) :=
  match kind with
  | Ok kind => begin_checks key (media_type kind) ++ frame_checks max_bytes 1 0 (frames c) (frames_end c)
  | Err _ => []
  end.

(** What is staged of a stream of chunks: the encryption of all its bytes, from a state of its
    own, and the bytes reserved for it. *)
Definition staged_whole (key : KeyDraw) (max_bytes : Z) (kind : MediaKind) (c : MediaChunks) (s : StagedUpload) : Prop :=
  (exists e, staged_made e [] 0 (frames c) s /\
     new_with_sidecar key (media_type kind) (bool_decide (kind = Audio) || bool_decide (kind = Video)) = Ok e) /\
  Forall (fun f => forall h, f <> Header h) (frames c) /\ frames_end c = Ok tt /\
  Z.of_nat (length (plain_of (frames c))) <= Z.max 0 max_bytes.

Lemma stage_upload_checked key max_bytes kind c :
  small (frames c) ->
  checked (stage_upload metadata_value max others io key (media_type kind) max_bytes c)
    (stage_checks key max_bytes c (Ok kind)) (staged_whole key max_bytes kind c).
Proof using Hmax Hothers MediaCryptoLaws0.
  intros Hsmall. eapply checked_bind; [apply begin_checked|]. intros u (e & -> & He).
  eapply checked_mono; [apply stage_frames_checked; [lia|done]|]. intros s (Hs & Hh & Hfin & Hmb).
  split_and!; [|done|done|done]. exists e. split; [done|]. by destruct kind.
Qed.

Definition lifted (cs : list Check) : list (option Status) := (fun c : Check => (fun e => status e) <$> c) <$> cs.

Lemma checked_status {A} (m : WamuxResult A) cs P :
  checked m cs P -> checked (to_status metadata_value m) (lifted cs) P.
Proof using Type. apply checked_map_err. Qed.

Lemma checked_result {A} (m : WamuxResult A) :
  checked (to_status metadata_value m) (lifted [err_of m]) (fun v => m = Ok v).
Proof using Type. apply checked_status, checked_self. Qed.

Context (uuid_text : Uuid -> string) `{ids : LibIds} (number : LUuid -> Uuid).
Context {LibClient : Type} (registry : Registry) (client : AccountHandle -> option LibClient).
Context (key : KeyDraw) (media_max_bytes : Z).

Abbreviation account_of := (account_of uuid_text number registry client).
Abbreviation send_media :=
  (send_media metadata_value max others io uuid_text number registry client key media_max_bytes).
Abbreviation post_status_media :=
  (post_status_media metadata_value max others io uuid_text number registry client key media_max_bytes).

Definition rest_of {C} (s : Streaming C) : Streaming C := MkStreaming (tail (messages s)) (ending s).

(** The first message of a stream, when it is a header. *)
Definition header_of (c : MediaChunks) : option MediaHeader :=
  match frames c with Header h :: _ => Some h | _ => None end.

Lemma read_header_checked empty c :
  checked (read_header metadata_value empty c)
    [match frames c, frames_end c with
     | [], Ok _ => Some (status (InvalidArgument empty))
     | [], Err st => Some st
     | Header _ :: _, _ => None
     | _, _ => Some (status (InvalidArgument "first chunk must be the header"))
     end]
    (fun x => header_of c = Some x.1 /\
       x.2 = match c with SendStream s => SendStream (rest_of s) | StatusStream s => StatusStream (rest_of s) end).
Proof using Type.
  unfold checked, read_header, header_of. destruct c as [[[|m ms] [[]|st]]|[[|m ms] [[]|st]]]; cbn; try done;
    (first [destruct (frame_of_send m)|destruct (frame_of_status m)]; cbn; [|done|done]); by eexists.
Qed.

Lemma send_media_checked (s : Streaming SendMediaChunk) (h : pb.SendMediaHeader) :
  let rest := SendStream (rest_of s) in
  small (frames rest) -> header_of (SendStream s) = Some (Send h) ->
  checked (send_media (SendStream s))
    (lifted [err_of (account_of (pb.smh_account h)); err_of (require_typed_jid (pb.smh_to h));
             err_of (parse_sendable (pb.smh_media_type h))] ++
     stage_checks key media_max_bytes rest (parse_sendable (pb.smh_media_type h)) ++ lifted (media_checks h))
    (fun '(handle, client, to, media, staged) =>
       account_of (pb.smh_account h) = Ok (handle, client) /\ require_typed_jid (pb.smh_to h) = Ok to /\
       media_made h media /\ staged_whole key media_max_bytes (om_kind media) rest staged).
Proof using Hmax Hothers MediaCryptoLaws0.
  intros rest Hsmall Hh. pose proof (read_header_checked "empty media stream" (SendStream s)) as Hread.
  unfold checked in Hread. unfold header_of in Hh, Hread. destruct (frames (SendStream s)) as [|[h0| |] fs] eqn:Ef; try done.
  injection Hh as ->. destruct Hread as ([h' c'] & Eread & E1 & E2). cbn in E1, E2. injection E1 as <-. subst c'.
  unfold send_media, MediaStream.send_media. rewrite Eread. cbn [mbind result_bind into_send to_status map_err].
  change (lifted [?a; ?b; ?c]) with (lifted [a] ++ lifted [b] ++ lifted [c]). rewrite <-!app_assoc.
  eapply checked_bind; [apply checked_result|]. intros [handle cl] Hacc.
  eapply checked_bind; [apply checked_result|]. intros to Hto.
  eapply checked_bind; [apply checked_result|]. intros kind Hkind. rewrite Hkind.
  eapply checked_bind; [by apply stage_upload_checked|]. intros staged Hst.
  rewrite <-(app_nil_r (lifted (media_checks h))).
  eapply checked_bind; [apply checked_status, checked_media|]. intros media Hmedia. apply checked_ok.
  split_and!; [done|done|done|]. replace (om_kind media) with kind; [done|].
  destruct Hmedia as [Hk _]. congruence.
Qed.

Lemma post_status_checked (s : Streaming PostStatusMediaChunk) (h : pb.PostStatusMediaHeader) :
  let rest := StatusStream (rest_of s) in
  small (frames rest) -> header_of (StatusStream s) = Some (StatusOf h) ->
  checked (post_status_media (StatusStream s))
    (lifted [err_of (account_of (pb.psm_account h)); err_of (parse_status (pb.psm_media_type h))] ++
     stage_checks key media_max_bytes rest (parse_status (pb.psm_media_type h)) ++ lifted (status_media_checks h))
    (fun '(handle, client, post, staged) =>
       account_of (pb.psm_account h) = Ok (handle, client) /\ status_media_made h post /\
       staged_whole key media_max_bytes (sm_kind post) rest staged).
Proof using Hmax Hothers MediaCryptoLaws0.
  intros rest Hsmall Hh. pose proof (read_header_checked "empty status media stream" (StatusStream s)) as Hread.
  unfold checked in Hread. unfold header_of in Hh, Hread. destruct (frames (StatusStream s)) as [|[h0| |] fs] eqn:Ef; try done.
  injection Hh as ->. destruct Hread as ([h' c'] & Eread & E1 & E2). cbn in E1, E2. injection E1 as <-. subst c'.
  unfold post_status_media, MediaStream.post_status_media. rewrite Eread. cbn [mbind result_bind into_status to_status map_err].
  change (lifted [?a; ?b]) with (lifted [a] ++ lifted [b]). rewrite <-!app_assoc.
  eapply checked_bind; [apply checked_result|]. intros [handle cl] Hacc.
  eapply checked_bind; [apply checked_result|]. intros kind Hkind. rewrite Hkind.
  eapply checked_bind; [by apply stage_upload_checked|]. intros staged Hst.
  rewrite <-(app_nil_r (lifted (status_media_checks h))).
  eapply checked_bind; [apply checked_status, checked_status_media|]. intros post Hpost. apply checked_ok.
  split_and!; [done|done|]. replace (sm_kind post) with kind; [done|]. destruct Hpost as [Hk _]. congruence.
Qed.

(** C26.  The uploads, whatever the other transfers do.  The checks of SendMedia come in a fixed
    order, and the first that fails is the answer: the header, the account, the recipient and the
    kind before any byte is asked for; then chunk by chunk the size limit, the room in the spool and
    the disk; a second header; the end of the stream; and what is left of the header last, once the
    bytes are staged.  PostStatusMedia is the same without a recipient of its own.  When all pass,
    what goes to the library is made of the header, and the staged file is the encryption of all
    the bytes sent, however they were cut into chunks, within its reservation. *)
Theorem uploads_staged :
  (forall (s : Streaming SendMediaChunk) (h : pb.SendMediaHeader),
     let rest := SendStream (rest_of s) in
     small (frames rest) -> header_of (SendStream s) = Some (Send h) ->
     checked (send_media (SendStream s))
       (lifted [err_of (account_of (pb.smh_account h)); err_of (require_typed_jid (pb.smh_to h));
                err_of (parse_sendable (pb.smh_media_type h))] ++
        stage_checks key media_max_bytes rest (parse_sendable (pb.smh_media_type h)) ++ lifted (media_checks h))
       (fun '(handle, client, to, media, staged) =>
          account_of (pb.smh_account h) = Ok (handle, client) /\ require_typed_jid (pb.smh_to h) = Ok to /\
          media_made h media /\ staged_whole key media_max_bytes (om_kind media) rest staged)) /\
  (forall (s : Streaming PostStatusMediaChunk) (h : pb.PostStatusMediaHeader),
     let rest := StatusStream (rest_of s) in
     small (frames rest) -> header_of (StatusStream s) = Some (StatusOf h) ->
     checked (post_status_media (StatusStream s))
       (lifted [err_of (account_of (pb.psm_account h)); err_of (parse_status (pb.psm_media_type h))] ++
        stage_checks key media_max_bytes rest (parse_status (pb.psm_media_type h)) ++ lifted (status_media_checks h))
       (fun '(handle, client, post, staged) =>
          account_of (pb.psm_account h) = Ok (handle, client) /\ status_media_made h post /\
          staged_whole key media_max_bytes (sm_kind post) rest staged)) /\
  (forall s, header_of (SendStream s) = None -> frames_end (SendStream s) = Ok tt ->
     send_media (SendStream s) = Err (status (InvalidArgument
       (match messages s with [] => "empty media stream" | _ => "first chunk must be the header" end)))) /\
  (forall kind c staged, staged_whole key media_max_bytes kind c staged ->
     ct_len (source staged) = Z.of_nat (length (ct_file (source staged))) /\
     ct_len (source staged) <= res_held (st_reservation staged)).
Proof using Hmax Hothers MediaCryptoLaws0.
  split_and!.
  - apply send_media_checked.
  - apply post_status_checked.
  - intros [[|m ms] fin]; cbn; [by intros _ ->|]. unfold send_media, MediaStream.send_media, read_header, header_of. cbn.
    by destruct (frame_of_send m).
  - intros kind c staged ((e & Hs & Hnew) & _). unfold staged_made, encryption in Hs.
    pose proof (buffered_update e (plain_of (frames c))) as Hup. destruct (update_to_writer e _) as [e' c1].
    pose proof (finalize_bound e') as Hfin. destruct (finalize_to_writer e') as [c2 inf]. cbn in Hfin, Hs. subst staged. cbn.
    split; [done|]. rewrite length_app. pose proof (buffered_new _ _ _ _ Hnew). unfold CIPHERTEXT_OVERHEAD. lia.
Qed.
End staging.

(** ** Downloads *)

(** A list cut in pieces of [size]. *)
Fixpoint cut (size fuel : nat) (l : bytes) : list bytes :=
  match fuel, l with
  | S fuel, _ :: _ => take size l :: cut size fuel (drop size l)
  | _, _ => []
  end.

Lemma cut_concat size fuel l : (0 < size)%nat -> (length l <= size * fuel)%nat -> concat (cut size fuel l) = l.
Proof.
  intros Hs. revert l. induction fuel as [|fuel IH]; intros [|x l] Hl; try done; [cbn in Hl; lia|].
  cbn [cut concat]. rewrite IH by (rewrite length_drop; lia). apply take_drop.
Qed.

Lemma cut_size size fuel l c : (0 < size)%nat -> c ∈ cut size fuel l -> (0 < length c <= size)%nat.
Proof.
  intros Hs. revert l. induction fuel as [|fuel IH]; intros [|x l]; cbn [cut]; try (by intros ?%not_elem_of_nil).
  rewrite elem_of_cons. intros [->|Hc]; [|by eapply IH]. rewrite length_take. cbn. lia.
Qed.

(** Every piece but the last is full. *)
Lemma cut_full size fuel l i c : cut size fuel l !! i = Some c -> is_Some (cut size fuel l !! S i) -> length c = size.
Proof.
  revert l i. induction fuel as [|fuel IH]; intros [|x l] i; cbn [cut]; try done. destruct i as [|i]; cbn; [|apply IH].
  intros [= <-]. destruct fuel as [|fuel]; [by intros []|]. cbn [cut]. destruct (drop size (x :: l)) as [|y l'] eqn:E; [by intros []|].
  intros _. apply (f_equal length) in E. rewrite length_drop in E. rewrite length_take. cbn [length] in *. lia.
Qed.

(** A sequence of frames cut short: by the client, or by a read that failed with [e]. *)
Definition cut_short (metadata_value : string -> bool) (full : list MediaPart) (out : list (result Status MediaPart)) : Prop :=
  exists k, out = Ok <$> take k full \/ exists e, out = (Ok <$> take k full) ++ [Err (status_of metadata_value (Other e))].

Lemma stream_chunks_spec metadata_value size fuel io n accepts o d :
  dl_len d = Z.of_nat (length (dl_file d)) -> size = Z.to_nat CHUNK_SIZE ->
  let full := Chunk <$> cut size fuel (drop o (dl_file d)) in
  let out := stream_chunks metadata_value fuel io n accepts (Z.of_nat o) d in
  cut_short metadata_value full out /\
  ((forall n, io n = Done) -> (length full <= accepts)%nat -> out = Ok <$> full).
Proof.
  intros Hlen Hsize. revert n accepts o. induction fuel as [|fuel IH]; intros n accepts o; cbn zeta.
  { split; [|done]. exists 0%nat. by left. }
  cbn [stream_chunks cut]. destruct accepts as [|accepts].
  { split; [exists 0%nat; by left|]. intros _. rewrite length_fmap. destruct (drop o (dl_file d)); cbn; [done|lia]. }
  destruct (Z.of_nat o <? dl_len d) eqn:E; [apply Z.ltb_lt in E|apply Z.ltb_ge in E]; rewrite Hlen in E.
  2:{ rewrite drop_ge by lia. split; [exists 0%nat; by left|done]. }
  destruct (drop o (dl_file d)) as [|x l] eqn:Ed.
  { apply (f_equal length) in Ed. rewrite length_drop in Ed. cbn in Ed. lia. }
  assert (Hread : read_chunk (Z.of_nat o) CHUNK_SIZE Done d = Ok (take size (x :: l))).
  { cbn. unfold read_at, sat_sub. rewrite Hlen, Nat2Z.id, Ed. f_equal.
    apply (f_equal length) in Ed. rewrite length_drop in Ed. cbn in Ed.
    destruct (decide (size <= length (x :: l))%nat) as [Hle|Hgt]; cbn in *.
    - f_equal. unfold CHUNK_SIZE in *. lia.
    - rewrite !take_ge; [done|cbn; lia|cbn; unfold CHUNK_SIZE in *; lia]. }
  assert (Hnext : drop (o + size) (dl_file d) = drop size (x :: l)) by (by rewrite <-Ed, drop_drop).
  assert (Eo : Z.of_nat o + CHUNK_SIZE = Z.of_nat (o + size)) by (unfold CHUNK_SIZE in *; lia).
  rewrite Eo. specialize (IH (S n) accepts (o + size)%nat). cbn zeta in IH. rewrite Hnext in IH.
  destruct IH as [(k & Hk) Hall]. unfold to_status. split.
  - destruct (io n) as [|e]; [rewrite Hread; cbn|exists 0%nat; right; by exists e].
    exists (S k). destruct Hk as [->|[e ->]]; [left|right; exists e]; done.
  - intros Hio Hacc. rewrite Hio, Hread. cbn. f_equal. apply Hall; [done|]. cbn in Hacc. lia.
Qed.

(** C27.  What a download sends.  There is one way to send a file: what it is and its length first,
    then its bytes in order, in chunks of 64 KiB of which only the last is shorter and none is
    empty.  When every read succeeds and the client stays, that is what is sent, to the end;
    otherwise it is cut short, by a client that went away, or by the error of a read as the last
    frame. *)
Theorem downloads_streamed (metadata_value : string -> bool) (mime_type : string) (d : SpooledDownload) :
  dl_len d = Z.of_nat (length (dl_file d)) ->
  exists chunks,
    concat chunks = dl_file d /\
    (forall c, c ∈ chunks -> 0 < Z.of_nat (length c) <= CHUNK_SIZE) /\
    (forall i c, chunks !! i = Some c -> is_Some (chunks !! S i) -> Z.of_nat (length c) = CHUNK_SIZE) /\
    forall io accepts,
      let full := Meta mime_type (dl_len d) :: (Chunk <$> chunks) in
      let out := stream_spooled metadata_value io accepts mime_type d in
      cut_short metadata_value full out /\
      ((forall n, io n = Done) -> (length full <= accepts)%nat -> out = Ok <$> full).
Proof.
  intros Hlen. set (size := Z.to_nat CHUNK_SIZE). set (fuel := S (Z.to_nat (dl_len d / CHUNK_SIZE))).
  assert (Hpos : (0 < size)%nat) by (unfold size, CHUNK_SIZE; lia).
  assert (Hsize : Z.of_nat size = CHUNK_SIZE) by (unfold size, CHUNK_SIZE; lia).
  exists (cut size fuel (dl_file d)). split_and!.
  - apply cut_concat; [done|]. apply Nat2Z.inj_le. rewrite Nat2Z.inj_mul, Hsize, <-Hlen. unfold fuel.
    pose proof (Z.mod_pos_bound (dl_len d) CHUNK_SIZE ltac:(done)). pose proof (Z.div_mod (dl_len d) CHUNK_SIZE ltac:(done)).
    pose proof (Z.div_pos (dl_len d) CHUNK_SIZE ltac:(lia) ltac:(done)). nia.
  - intros c Hc%cut_size; [|done]. lia.
  - intros i c Hi Hnext. by rewrite (cut_full _ _ _ _ _ Hi Hnext).
  - intros io accepts. unfold stream_spooled. destruct accepts as [|accepts].
    { split; [exists 0%nat; by left|]. cbn. lia. }
    destruct (stream_chunks_spec metadata_value size fuel io 0 accepts 0 d Hlen eq_refl) as [(k & Hk) Hall].
    rewrite drop_0 in *. change (Z.of_nat 0) with 0 in *. split.
    + exists (S k). fold fuel. destruct Hk as [->|[e ->]]; [left|right; exists e]; done.
    + intros Hio Hacc. fold fuel. rewrite Hall; [done|done|]. cbn [length] in Hacc. lia.
Qed.

(** ** Witnesses *)

#[local] Existing Instance toy_media.
#[local] Existing Instance toy_media_laws.

Definition sent_header : pb.SendMediaHeader :=
  pb.MkSendMediaHeader (Some (pb.MkAccountRef (Some (pb.ExternalRef "a")))) (Some (pb.MkJid "5@lid")) "image/png" "" [] None
    (number MediaType.Image) "" false 0 [] 0 false [].

Definition sent : Streaming SendMediaChunk :=
  MkStreaming [MkSendMediaChunk (Some (SendHeader sent_header)); MkSendMediaChunk (Some (SendBytes (chunk 5)));
               MkSendMediaChunk None; MkSendMediaChunk (Some (SendBytes (chunk 7)))] (Ok tt).

Definition one_account : Registry := insert_handle (MkAccountRow 11 (Some "a") 1 None 5) registry_new.

(** Twelve bytes in two chunks; with 3 bytes held by others and a spool of 41 they just fit. *)
Lemma uploads_staged_witness :
  exists handle client to media staged,
    send_media (fun _ => true) 41 (fun _ => 3) (fun _ => Done) (fun _ => "") (ids := toy_ids) (fun _ => 0) one_account
      (fun _ => Some 7%nat) tt 12 (SendStream sent) = Ok (handle, client, to, media, staged) /\
    h_uuid handle = 11 /\ om_kind media = Image /\ res_held (st_reservation staged) = 38 /\
    ct_len (source staged) <= 38.
Proof.
  destruct (uploads_staged (fun _ => true) (mc := toy_media) 41 (fun _ => 3) (fun _ => Done) ltac:(lia) ltac:(done)
    (fun _ => "") (ids := toy_ids) (fun _ => 0) one_account (fun _ => Some 7%nat) tt 12) as (Hsend & _ & _ & Hfit).
  specialize (Hsend sent sent_header ltac:(by repeat constructor) eq_refl).
  destruct (send_media _ _ _ _ _ _ _ _ _ _ _) as [[[[[handle client] to] media] staged]|e] eqn:E; [|by vm_compute in E].
  pose proof (checked_value _ _ _ _ Hsend eq_refl) as (Hacc & _ & Hmade & Hst).
  exists handle, client, to, media, staged. destruct (Hfit _ _ _ Hst) as [_ Hle].
  vm_compute in E. injection E as <- <- <- <- <-. by split_and!.
Defined.

Definition short : SpooledDownload := MkSpooledDownload (chunk 3) 3 (MkSpoolReservation 3).

Lemma downloads_streamed_witness :
  stream_spooled (fun _ => true) (fun _ => Done) 9 "image/png" short = [Ok (Meta "image/png" 3); Ok (Chunk (chunk 3))] /\
  exists chunks, concat chunks = chunk 3.
Proof.
  destruct (downloads_streamed (fun _ => true) "image/png" short eq_refl) as (chunks & Hc & _).
  split; [by vm_compute|by exists chunks].
Defined.
