(* ===== verification/BincodeUpgrade.v ===== *)
(** * The upgrade of bincode blobs (storage/bincode_upgrade.rs, legacy_device.rs, sql/bincode_upgrade.rs, blob_format.rs)

    Run on every opening: a store still marked bincode has its devices, hash states and app-state
    keys read with the layout that wrote them, encoded as protobuf, proved by reading them back,
    and written with the marker in one transaction.  bincode is the library's and a parameter; the
    frozen layout of an old device is [LegacyDevice]. *)

From stdpp Require Import sorting.
From S2P Require Import Prelude StoreError Database BlobCodec AppSyncStore.

Definition BLOB_FORMAT_BINCODE : string := "bincode".
Definition BLOB_FORMAT_PROTOBUF : string := "protobuf".

Inductive BincodeUpgradeError : Type :=
| Unreadable (row cause : string)
| RoundTrip (row cause : string)
| UnknownFormat (format : string)
| DatabaseFailed (context source : string).

(** Its [Display]. *)
Definition upgrade_error_text (e : BincodeUpgradeError) : string :=
  match e with
  | Unreadable row cause => row +:+ ": not readable as bincode (" +:+ cause +:+ "); nothing was converted"
  | RoundTrip row cause =>
      row +:+ ": the protobuf blob does not read back as the same value (" +:+ cause +:+ "); nothing was converted"
  | UnknownFormat format => "blob_format is '" +:+ format +:+ "', expected 'bincode' or 'protobuf'"
  | DatabaseFailed context source => context +:+ ": " +:+ source
  end.

(** ** The marker (blob_format.rs) *)

Inductive StoreBlobFormat : Type := Bincode | Protobuf.

Definition parse_blob_format (marker : string) : result BincodeUpgradeError StoreBlobFormat :=
  if decide (marker = BLOB_FORMAT_BINCODE) then Ok Bincode
  else if decide (marker = BLOB_FORMAT_PROTOBUF) then Ok Protobuf
  else Err (UnknownFormat marker).

Definition needs_bincode_upgrade (format : string) : result BincodeUpgradeError bool :=
  format ← parse_blob_format format;
  Ok (match format with Bincode => true | Protobuf => false end).

(** What the health probe reports. *)
Definition store_blob_format (marker : option string) : StoreResult StoreBlobFormat :=
  marker ← ok_or marker (Database (upgrade_error_text (UnknownFormat "<no blob_format row>")));
  map_err (fun e => Database (upgrade_error_text e)) (parse_blob_format marker).

Section upgrade.
Context `{keys : Keys} `{!Message DeviceBlob} `{!Message HashStateWire} `{!Message AppStateSyncKeyWire}.

(** ** The layout of an old device (legacy_device.rs) *)

Record LegacyDevice : Type := MkLegacyDevice {
  l_pn : option Jid; l_lid : option Jid; l_registration_id : Z;
  l_noise_key : KeyPair; l_identity_key : KeyPair; l_signed_pre_key : KeyPair;
  l_signed_pre_key_id : Z; l_signed_pre_key_signature : bytes * bytes; l_adv_secret_key : bytes;
  l_account : option Account; l_push_name : string;
  l_app_version_primary : Z; l_app_version_secondary : Z; l_app_version_tertiary : Z;
  l_app_version_last_fetched_ms : Z;
  l_edge_routing_info : option bytes; l_props_hash : option string;
  l_next_pre_key_id : Z; l_first_unupload_pre_key_id : Z; l_server_has_prekeys : bool;
  l_nct_salt : option bytes; l_server_cert_chain : option CachedServerCertChain;
  l_login_counter : Z; l_lid_migrated : bool; l_last_signed_pre_key_rotation_ms : Z;
  l_server_client_expiration : option ServerClientExpiration; l_read_receipts_disabled : bool;
}.

(** [impl From<LegacyDevice> for Device]. *)
Definition device_of_legacy (old : LegacyDevice) : Device :=
  MkDevice (l_pn old) (l_lid old) (l_registration_id old) (l_noise_key old) (l_identity_key old) (l_signed_pre_key old)
    (l_signed_pre_key_id old) (fst (l_signed_pre_key_signature old) ++ snd (l_signed_pre_key_signature old))
    (l_adv_secret_key old) (l_account old) (l_push_name old)
    (l_app_version_primary old) (l_app_version_secondary old) (l_app_version_tertiary old)
    (l_app_version_last_fetched_ms old) DEVICE_PROPS default_profile (l_edge_routing_info old) (l_props_hash old)
    (l_next_pre_key_id old) (l_first_unupload_pre_key_id old) (l_server_has_prekeys old)
    (l_nct_salt old) false (l_server_cert_chain old) (l_login_counter old)
    (l_lid_migrated old) (l_last_signed_pre_key_rotation_ms old)
    (l_server_client_expiration old) (l_read_receipts_disabled old) None.

(** [bincode::serde] in its standard configuration: a value and how many bytes it took. *)
Class BincodeOf (T : Type) : Type := decode_from_slice : bytes -> result string (T * nat).

Context `{!BincodeOf LegacyDevice} `{!BincodeOf HashState} `{!BincodeOf AppStateSyncKey}.

(** The bincode of the current [Device]. *)
Context (device_bincode : Device -> result string bytes).

(** ** One blob *)

Definition decode_whole {T} `{!BincodeOf T} (blob : bytes) (row : string) : result BincodeUpgradeError T :=
  '(value, used) ← map_err (Unreadable row) (decode_from_slice blob);
  if negb (used =? length blob)%nat then
    Err (Unreadable row ("trailing bytes: consumed " +:+ pretty used +:+ " of " +:+ pretty (length blob)))
  else Ok value.

Definition encode_bincode (value : Device) (row : string) : result BincodeUpgradeError bytes :=
  map_err (RoundTrip row) (device_bincode value).

Definition decode_legacy_device (blob : bytes) (row : string) : result BincodeUpgradeError Device :=
  old ← decode_whole (T := LegacyDevice) blob row;
  Ok (device_of_legacy old).

(** How the library prints a [StoreError]. *)
Context (show : StoreError -> string).

Definition upgrade_device_blob (blob : bytes) (row : string) : result BincodeUpgradeError bytes :=
  old ← decode_legacy_device blob row;
  let new := encode_device old in
  back ← map_err (fun e => RoundTrip row (show e)) (decode_device new);
  a ← encode_bincode back row;
  b ← encode_bincode old row;
  if decide (a <> b) then Err (RoundTrip row "a persisted field changed") else Ok new.

Definition upgrade_hash_state_blob (blob : bytes) (row : string) : result BincodeUpgradeError bytes :=
  expected ← decode_whole (T := HashState) blob row;
  let new := encode_hash_state expected in
  back ← map_err (fun e => RoundTrip row (show e)) (decode_hash_state new);
  let same :=
    bool_decide (hs_version back = hs_version expected) && bool_decide (hs_hash back = hs_hash expected) &&
    bool_decide (hs_index_value_map back = hs_index_value_map expected) &&
    bool_decide (hs_mac_mismatch_fatal back = hs_mac_mismatch_fatal expected) &&
    bool_decide (hs_bootstrapped back = hs_bootstrapped expected) in
  if negb same then Err (RoundTrip row "a field changed") else Ok new.

Definition upgrade_sync_key_blob (blob : bytes) (row : string) : result BincodeUpgradeError bytes :=
  old ← decode_whole (T := AppStateSyncKey) blob row;
  let new := encode_app_state_sync_key old in
  back ← map_err (fun e => RoundTrip row (show e)) (decode_app_state_sync_key new);
  let same :=
    bool_decide (key_data back = key_data old) && bool_decide (fingerprint back = fingerprint old) &&
    bool_decide (key_timestamp back = key_timestamp old) in
  if negb same then Err (RoundTrip row "a field changed") else Ok new.

(** ** The plan *)

(** Rows by the key of their table. *)
Record BlobRows : Type := MkBlobRows {
  devices : list (Z * bytes);
  versions : list (string * Z * bytes);
  sync_keys : list (bytes * Z * bytes);
}.

Definition device_row (device_id : Z) : string := "device.data of device " +:+ pretty device_id.
Definition version_row (key : string * Z) : string :=
  "app_state_versions '" +:+ key.1 +:+ "' of device " +:+ pretty key.2.
Definition sync_key_row (key : bytes * Z) : string := "an app_state_keys row of device " +:+ pretty key.2.

(** One loop of the plan. *)
Definition plan_rows {K} (row : K -> string) (upgrade : bytes -> string -> result BincodeUpgradeError bytes)
    (rows : list (K * bytes)) : result BincodeUpgradeError (list (K * bytes)) :=
  mapM (fun '(k, blob) => new ← upgrade blob (row k); Ok (k, new)) rows.

Definition plan_bincode_upgrade (rows : BlobRows) : result BincodeUpgradeError BlobRows :=
  ds ← plan_rows device_row upgrade_device_blob (devices rows);
  vs ← plan_rows version_row upgrade_hash_state_blob (versions rows);
  ks ← plan_rows sync_key_row upgrade_sync_key_blob (sync_keys rows);
  Ok (MkBlobRows ds vs ks).

(** ** The store (sql/bincode_upgrade.rs) *)

Record MarkedDb : Type := MkMarkedDb { format : option string; app : AppDb }.

(** ORDER BY device_id and the rest of the key. *)
Definition device_before (a b : Z * bytes) : Prop := a.1 <= b.1.
Definition version_before (a b : string * Z * bytes) : Prop :=
  a.1.2 < b.1.2 \/ (a.1.2 = b.1.2 /\ String.leb a.1.1 b.1.1 = true).
Definition sync_key_before (a b : bytes * Z * bytes) : Prop :=
  a.1.2 < b.1.2 \/ (a.1.2 = b.1.2 /\ bytes_le a.1.1 b.1.1 = true).

#[global] Instance device_before_dec a b : Decision (device_before a b).
Proof. unfold device_before. apply _. Defined.
#[global] Instance version_before_dec a b : Decision (version_before a b).
Proof. unfold version_before. apply _. Defined.
#[global] Instance sync_key_before_dec a b : Decision (sync_key_before a b).
Proof. unfold sync_key_before. apply _. Defined.

Definition SELECT_LEGACY_DEVICES (d : MarkedDb) : list (Z * bytes) :=
  merge_sort device_before (map_to_list (device_rows (app d))).
Definition SELECT_LEGACY_VERSIONS (d : MarkedDb) : list (string * Z * bytes) :=
  merge_sort version_before (map_to_list (app_state_versions (app d))).
Definition SELECT_LEGACY_SYNC_KEYS (d : MarkedDb) : list (bytes * Z * bytes) :=
  merge_sort sync_key_before (map_to_list (app_state_keys (app d))).

Definition on_app (f : AppDb -> AppDb) (d : MarkedDb) : MarkedDb := MkMarkedDb (format d) (f (app d)).

Definition UPDATE_DEVICE_BLOB (x : Z * bytes) : MarkedDb -> MarkedDb := on_app (on_device (alter (fun _ => x.2) x.1)).
Definition UPDATE_VERSION_BLOB (x : string * Z * bytes) : MarkedDb -> MarkedDb :=
  on_app (on_versions (alter (fun _ => x.2) x.1)).
Definition UPDATE_SYNC_KEY_BLOB (x : bytes * Z * bytes) : MarkedDb -> MarkedDb :=
  on_app (on_keys (alter (fun _ => x.2) x.1)).
Definition MARK_BLOB_FORMAT (marker : string) (d : MarkedDb) : MarkedDb := MkMarkedDb ((fun _ => marker) <$> format d) (app d).

(** [run_migrations] gives the error out as a migration's. *)
Definition as_migration (e : BincodeUpgradeError) : StoreError := Migration (upgrade_error_text e).

(** [map_err(upgrade_db_error(context))]. *)
Definition attempt {A} (context : string) (m : Run MarkedDb A) : Run MarkedDb A := fun w =>
  let '(r, w) := m w in (map_err (fun e => as_migration (DatabaseFailed context (show e))) r, w).

Definition convert {A} (r : result BincodeUpgradeError A) : Run MarkedDb A := of_result (map_err as_migration r).

(** What [fetch_one] answers when there is no row. *)
Context (row_not_found : StoreError).

Definition read_blob_format : Run MarkedDb string :=
  attempt "reading blob_format" (stmt (fun d => (ok_or (format d) row_not_found, d))).

Definition read_legacy_rows : Run MarkedDb BlobRows :=
  ds ← attempt "reading device" (query SELECT_LEGACY_DEVICES);
  vs ← attempt "reading app_state_versions" (query SELECT_LEGACY_VERSIONS);
  ks ← attempt "reading app_state_keys" (query SELECT_LEGACY_SYNC_KEYS);
  mret (MkBlobRows ds vs ks).

(** An UPDATE, of a row or of none. *)
Definition update (context : string) (f : MarkedDb -> MarkedDb) : Run MarkedDb unit :=
  attempt context (stmt (fun d => (Ok tt, f d))).

Definition write_plan (plan : BlobRows) : Run MarkedDb unit :=
  _ ← each (fun x => update "updating device" (UPDATE_DEVICE_BLOB x)) (devices plan);
  _ ← each (fun x => update "updating app_state_versions" (UPDATE_VERSION_BLOB x)) (versions plan);
  each (fun x => update "updating app_state_keys" (UPDATE_SYNC_KEY_BLOB x)) (sync_keys plan).

Definition mark_protobuf : Run MarkedDb unit := update "updating blob_format" (MARK_BLOB_FORMAT BLOB_FORMAT_PROTOBUF).

(** Inside the transaction; whether there was something to convert. *)
Definition upgrade_body : Run MarkedDb bool :=
  marker ← read_blob_format;
  needed ← convert (needs_bincode_upgrade marker);
  if (needed : bool) then
    rows ← read_legacy_rows;
    plan ← convert (plan_bincode_upgrade rows);
    _ ← write_plan plan;
    _ ← mark_protobuf;
    mret true
  else mret false.

(** [upgrade_bincode_blobs]: a body that fails is rolled back, one with nothing to do as well, on
    purpose. *)
Definition upgrade_bincode_blobs : Run MarkedDb unit := fun w =>
  match attempt "begin" (stmt (fun d => (Ok tt, d))) w with
  | (Err e, w0) => (Err e, w0)
  | (Ok _, w0) =>
      match upgrade_body w0 with
      | (Err e, w1) => (Err e, MkWorld (db w) (faults w1))
      | (Ok changed, w1) =>
          let failed e rest d :=
            (Err (as_migration (DatabaseFailed (if changed then "commit" else "rolling back") (show e))), MkWorld d rest) in
          let ended := if changed then db w1 else db w in
          match faults w1 with
          | Fails e :: rest => failed e rest (db w)
          | FailsAfter e :: rest => failed e rest ended
          | Fine :: rest => (Ok tt, MkWorld ended rest)
          | [] => (Ok tt, MkWorld ended [])
          end
      end
  end.
End upgrade.

(** ** Properties *)

(** ** Writing a plan *)

Section alters.
Context {K : Type} `{Countable K}.

(** The rows of a table, rewritten as the plan says. *)
Definition rewritten (l : list (K * bytes)) (m : gmap K bytes) : gmap K bytes :=
  foldl (fun m x => alter (fun _ => x.2) x.1 m) m l.

Lemma rewritten_other l m k : k ∉ l.*1 -> rewritten l m !! k = m !! k.
Proof using Type.
  revert m. induction l as [|[k' v] l IH]; intros m Hk; [done|]. cbn in *. apply not_elem_of_cons in Hk as [Hne Hk].
  unfold rewritten in IH. rewrite IH by done. by rewrite lookup_alter_ne.
Qed.

Lemma rewritten_at l m k v : NoDup l.*1 -> (k, v) ∈ l -> is_Some (m !! k) -> rewritten l m !! k = Some v.
Proof using Type.
  revert m. induction l as [|[k' v'] l IH]; intros m Hnd Hin Hs; [by apply not_elem_of_nil in Hin|].
  cbn in Hnd. apply NoDup_cons in Hnd as [Hnew Hnd]. apply elem_of_cons in Hin as [[= <- <-]|Hin].
  - change (rewritten ((k, v) :: l) m) with (rewritten l (alter (fun _ => v) k m)). rewrite rewritten_other by done.
    destruct Hs as [x Hx]. by rewrite lookup_alter_eq, Hx.
  - change (rewritten ((k', v') :: l) m) with (rewritten l (alter (fun _ => v') k' m)). apply IH; [done|done|].
    destruct (decide (k' = k)) as [->|Hne]; [|by rewrite lookup_alter_ne].
    destruct Hnew. apply list_elem_of_fmap. by exists (k, v).
Qed.

(** Every row of [m], turned by [R], and no other. *)
Definition turned (R : K -> bytes -> bytes -> Prop) (m m' : gmap K bytes) : Prop :=
  forall k, match m !! k, m' !! k with
       | Some b, Some b' => R k b b'
       | None, None => True
       | _, _ => False
       end.

Lemma rewritten_turned (R : K -> bytes -> bytes -> Prop) (m : gmap K bytes) rows l :
  rows ≡ₚ map_to_list m -> Forall2 (fun x y => y.1 = x.1 /\ R x.1 x.2 y.2) rows l -> turned R m (rewritten l m).
Proof using Type.
  intros Hrows Hl. assert (Hkeys : l.*1 = rows.*1).
  { clear Hrows. induction Hl as [|[k b] [k' b'] rows l [E _] _ IH]; [done|]. cbn in *. by rewrite E, IH. }
  assert (Hnd : NoDup l.*1) by (rewrite Hkeys, Hrows; apply NoDup_fst_map_to_list).
  intros k. destruct (m !! k) as [b|] eqn:Hk.
  - assert (Hin : (k, b) ∈ rows) by (rewrite Hrows; by apply elem_of_map_to_list).
    apply list_elem_of_lookup in Hin as [i Hi]. destruct (Forall2_lookup_l _ _ _ _ _ Hl Hi) as ([k' b'] & Hi' & E & HR).
    cbn in E, HR. subst k'. rewrite (rewritten_at l m k b'); [done|done| |by eexists]. by eapply list_elem_of_lookup_2.
  - rewrite rewritten_other, Hk; [done|]. rewrite Hkeys, Hrows. intros Hin.
    apply list_elem_of_fmap in Hin as ([k' b] & -> & Hin%elem_of_map_to_list). cbn in Hk. congruence.
Qed.
End alters.

(** ** The plan *)

Lemma plan_rows_ok {K} (row : K -> string) upgrade (rows l : list (K * bytes)) :
  plan_rows row upgrade rows = Ok l ->
  Forall2 (fun x y => y.1 = x.1 /\ upgrade x.2 (row x.1) = Ok y.2) rows l.
Proof.
  revert l. induction rows as [|[k b] rows IH]; intros l; cbn; [intros [= <-]; constructor|].
  destruct (upgrade b (row k)) as [new|] eqn:E; cbn; [|done].
  destruct (plan_rows row upgrade rows) as [l'|] eqn:El; unfold plan_rows in El; rewrite El; cbn; [|done].
  intros [= <-]. constructor; [by split|by apply IH].
Qed.

Lemma plan_rows_total {K} (row : K -> string) upgrade (rows : list (K * bytes)) :
  (forall k b, (k, b) ∈ rows -> exists new, upgrade b (row k) = Ok new) -> exists l, plan_rows row upgrade rows = Ok l.
Proof.
  induction rows as [|[k b] rows IH]; intros Hall; [by exists []|]. cbn.
  destruct (Hall k b ltac:(left)) as [new ->]. cbn.
  destruct IH as [l Hl]; [intros k' b' Hin; apply Hall; by right|]. unfold plan_rows in Hl. rewrite Hl. by eexists.
Qed.

(** The first row that does not convert is the answer. *)
Lemma plan_rows_err {K} (row : K -> string) upgrade (rows : list (K * bytes)) e :
  plan_rows row upgrade rows = Err e ->
  exists before k b after, rows = before ++ (k, b) :: after /\ upgrade b (row k) = Err e /\
    Forall (fun x => exists new, upgrade x.2 (row x.1) = Ok new) before.
Proof.
  induction rows as [|[k b] rows IH]; cbn; [done|]. destruct (upgrade b (row k)) as [new|e'] eqn:E; cbn.
  - destruct (plan_rows row upgrade rows) as [l|e'] eqn:El; unfold plan_rows in El; rewrite El; cbn; [done|].
    intros [= ->]. destruct (IH eq_refl) as (before & k' & b' & after & -> & He & Hbefore).
    exists ((k, b) :: before), k', b', after. split_and!; [done|done|]. constructor; [by exists new|done].
  - intros [= ->]. by exists [], k, b, rows.
Qed.

Section promises.
Context `{keys : Keys} `{!Message DeviceBlob} `{!Message HashStateWire} `{!Message AppStateSyncKeyWire}.
Context `{!BincodeOf LegacyDevice} `{!BincodeOf HashState} `{!BincodeOf AppStateSyncKey}.
Context (device_bincode : Device -> result string bytes) (show : StoreError -> string) (row_not_found : StoreError).

(** The bincode of a [Device] is of its persisted fields, all of them. *)
Class DeviceBincodeLaws : Prop := {
  persisted_only d : exists x, device_bincode d = Ok x /\ device_bincode (reloaded d) = Ok x;
  persisted_all d1 d2 x : device_bincode d1 = Ok x -> device_bincode d2 = Ok x -> reloaded d1 = reloaded d2;
}.

Context {laws : DeviceBincodeLaws}.

Abbreviation plan_bincode_upgrade := (plan_bincode_upgrade device_bincode show).
Abbreviation upgrade_body := (upgrade_body device_bincode show row_not_found).
Abbreviation upgrade_bincode_blobs := (upgrade_bincode_blobs device_bincode show row_not_found).

(** ** One blob *)

Lemma decoded_reloaded b d : decode_device b = Ok d -> reloaded d = d.
Proof using Type.
  unfold decode_device, device_of_wire. intros H.
  repeat match type of H with
  | _ ≫= _ = Ok _ => apply result_bind_ok in H as (? & _ & H)
  end.
  by injection H as <-.
Qed.

(** The new blob reads back as the value the old one held. *)
Definition device_upgraded (k : Z) (b b' : bytes) : Prop :=
  exists old, decode_legacy_device b (device_row k) = Ok old /\ decode_device b' = Ok old.
Definition version_upgraded (k : string * Z) (b b' : bytes) : Prop :=
  exists old, decode_whole (T := HashState) b (version_row k) = Ok old /\ decode_hash_state b' = Ok old.
Definition sync_key_upgraded (k : bytes * Z) (b b' : bytes) : Prop :=
  exists old, decode_whole (T := AppStateSyncKey) b (sync_key_row k) = Ok old /\ decode_app_state_sync_key b' = Ok old.

Lemma upgrade_device_ok k b b' :
  upgrade_device_blob device_bincode show b (device_row k) = Ok b' -> device_upgraded k b b'.
Proof using laws.
  unfold upgrade_device_blob. intros H. apply result_bind_ok in H as (old & Hold & H).
  apply result_bind_ok in H as (back & Hback & H). apply result_bind_ok in H as (x & Hx & H).
  apply result_bind_ok in H as (y & Hy & H). case_decide as Hxy; [done|]. injection H as <-.
  assert (x = y) as -> by (destruct (decide (x = y)); [done|by destruct Hxy]).
  exists old. split; [done|]. unfold encode_bincode in Hx, Hy.
  destruct (decode_device (encode_device old)) as [back'|] eqn:Ed; [|done]. injection Hback as ->. f_equal.
  destruct (device_bincode back) eqn:E1; [injection Hx as ->|done]. destruct (device_bincode old) eqn:E2; [injection Hy as ->|done].
  rewrite <-(decoded_reloaded _ _ Ed), (persisted_all _ _ _ E1 E2).
  unfold decode_legacy_device in Hold. apply result_bind_ok in Hold as (l & _ & Hl). by injection Hl as <-.
Qed.

Lemma upgrade_version_ok k b b' :
  upgrade_hash_state_blob show b (version_row k) = Ok b' -> version_upgraded k b b'.
Proof using Type.
  unfold upgrade_hash_state_blob. intros H. apply result_bind_ok in H as (old & Hold & H).
  apply result_bind_ok in H as (back & Hback & H). exists old. split; [done|].
  destruct (negb _) eqn:E; [done|]. injection H as <-. apply negb_false_iff in E.
  repeat (apply andb_true_iff in E as [E ?]). rewrite ?bool_decide_eq_true in *.
  destruct (decode_hash_state (encode_hash_state old)); [injection Hback as ->|done]. f_equal. destruct back, old; cbn in *. congruence.
Qed.

Lemma upgrade_sync_key_ok k b b' :
  upgrade_sync_key_blob show b (sync_key_row k) = Ok b' -> sync_key_upgraded k b b'.
Proof using Type.
  unfold upgrade_sync_key_blob. intros H. apply result_bind_ok in H as (old & Hold & H).
  apply result_bind_ok in H as (back & Hback & H). exists old. split; [done|].
  destruct (negb _) eqn:E; [done|]. injection H as <-. apply negb_false_iff in E.
  repeat (apply andb_true_iff in E as [E ?]). rewrite ?bool_decide_eq_true in *.
  destruct (decode_app_state_sync_key (encode_app_state_sync_key old)); [injection Hback as ->|done].
  f_equal. destruct back, old; cbn in *. congruence.
Qed.

(** ** The whole store *)

Definition rows_of (d : MarkedDb) : BlobRows :=
  MkBlobRows (SELECT_LEGACY_DEVICES d) (SELECT_LEGACY_VERSIONS d) (SELECT_LEGACY_SYNC_KEYS d).

Definition applied (plan : BlobRows) (d : MarkedDb) : MarkedDb :=
  MARK_BLOB_FORMAT BLOB_FORMAT_PROTOBUF
    (on_app (fun a => on_keys (rewritten (sync_keys plan)) (on_versions (rewritten (versions plan))
       (on_device (rewritten (devices plan)) a))) d).

(** Every blob of the store, converted, and nothing else changed. *)
Definition converted (d d' : MarkedDb) : Prop :=
  format d' = Some BLOB_FORMAT_PROTOBUF /\
  turned device_upgraded (device_rows (app d)) (device_rows (app d')) /\
  turned version_upgraded (app_state_versions (app d)) (app_state_versions (app d')) /\
  turned sync_key_upgraded (app_state_keys (app d)) (app_state_keys (app d')) /\
  ad_accounts (app d') = ad_accounts (app d) /\ app_state_mutation_macs (app d') = app_state_mutation_macs (app d).

Lemma applied_converted d plan :
  is_Some (format d) -> plan_bincode_upgrade (rows_of d) = Ok plan -> converted d (applied plan d).
Proof using laws.
  intros [f Hf] Hp. unfold plan_bincode_upgrade, BincodeUpgrade.plan_bincode_upgrade in Hp.
  apply result_bind_ok in Hp as (ds & Hds & Hp). apply result_bind_ok in Hp as (vs & Hvs & Hp).
  apply result_bind_ok in Hp as (ks & Hks & Hp). injection Hp as <-. cbn in Hds, Hvs, Hks.
  split_and!; cbn; [by rewrite Hf| | | |done|done].
  - apply (rewritten_turned _ _ (SELECT_LEGACY_DEVICES d)); [apply merge_sort_Permutation|].
    eapply Forall2_impl; [by apply plan_rows_ok|]. intros x y [E H]. split; [done|by apply upgrade_device_ok].
  - apply (rewritten_turned _ _ (SELECT_LEGACY_VERSIONS d)); [apply merge_sort_Permutation|].
    eapply Forall2_impl; [by apply plan_rows_ok|]. intros x y [E H]. split; [done|by apply upgrade_version_ok].
  - apply (rewritten_turned _ _ (SELECT_LEGACY_SYNC_KEYS d)); [apply merge_sort_Permutation|].
    eapply Forall2_impl; [by apply plan_rows_ok|]. intros x y [E H]. split; [done|by apply upgrade_sync_key_ok].
Qed.

#[local] Arguments BincodeUpgrade.plan_bincode_upgrade : simpl never.

(** ** Runs *)

(** A computation that ends as [m] says when no statement fails, and otherwise may fail. *)
Definition ends {A} (m : Run MarkedDb A) (f : MarkedDb -> StoreResult A * MarkedDb) : Prop :=
  forall w, let '(r, w') := m w in
    (faults w = [] -> (r, w') = ((f (db w)).1, MkWorld (db w') []) /\ (is_ok r = true -> db w' = (f (db w)).2)) /\
    (is_ok r = true -> r = (f (db w)).1 /\ db w' = (f (db w)).2).

Lemma ends_stmt {A} context (f : MarkedDb -> StoreResult A * MarkedDb) :
  ends (attempt show context (stmt f))
    (fun d => (map_err (fun e => as_migration (DatabaseFailed context (show e))) (f d).1, (f d).2)).
Proof using Type.
  intros w. unfold attempt, stmt. destruct (faults w) as [|[] fs] eqn:Ef; try destruct (f (db w)) as [r d'] eqn:E; cbn; rewrite ?E; cbn.
  - by split.
  - split; [done|by split].
  - split; done.
  - split; done.
Qed.

Lemma ends_convert {A} (r : result BincodeUpgradeError A) : ends (convert r) (fun d => (map_err as_migration r, d)).
Proof using Type. intros w. unfold convert, of_result. cbn. split; [intros E; by destruct w as [d fs]; cbn in *; subst|by split]. Qed.

Lemma ends_bind {A B} (m : Run MarkedDb A) f (k : A -> Run MarkedDb B) g :
  ends m f -> (forall a, ends (k a) (g a)) ->
  ends (m ≫= k) (fun d => match f d with (Ok a, d') => g a d' | (Err e, d') => (Err e, d') end).
Proof using Type.
  intros Hm Hk w. specialize (Hm w). unfold mbind, run_bind. destruct (m w) as [[a|e] w1]; destruct Hm as [Hcalm Hok].
  - specialize (Hk a w1). destruct (k a w1) as [r w2]. destruct Hk as [Hcalm' Hok']. cbn in *.
    destruct (Hok eq_refl) as [E1 E2]. destruct (f (db w)) as [r1 d1] eqn:Ef. cbn in E1, E2. subst r1 d1.
    split; [|done]. intros Hf. destruct (Hcalm Hf) as [[= E] _]. apply Hcalm'. rewrite E. done.
  - split; [|done]. intros Hf. destruct (Hcalm Hf) as [[= E1 E2] _]. destruct (f (db w)) as [r1 d1]. cbn in E1. subst r1. by rewrite E2.
Qed.

Lemma ends_ret {A} (a : A) : ends (mret a) (fun d => (Ok a, d)).
Proof using Type. intros w. cbn. split; [intros E; by destruct w; cbn in *; subst|by split]. Qed.

Lemma ends_ext {A} (m : Run MarkedDb A) f g : ends m f -> (forall d, f d = g d) -> ends m g.
Proof using Type. intros Hm Hfg w. specialize (Hm w). by rewrite Hfg in Hm. Qed.

Lemma ends_each {A} context (u : A -> MarkedDb -> MarkedDb) l :
  ends (each (fun x => update show context (u x)) l) (fun d => (Ok tt, foldl (fun d x => u x d) d l)).
Proof using Type.
  induction l as [|x l IH]; [apply ends_ret|]. cbn [each foldl].
  eapply ends_ext; [eapply ends_bind; [apply ends_stmt|intros ?; apply IH]|done].
Qed.

(** What the body comes to when no statement fails. *)
Definition outcome (d : MarkedDb) : StoreResult bool * MarkedDb :=
  match format d with
  | None => (Err (as_migration (DatabaseFailed "reading blob_format" (show row_not_found))), d)
  | Some marker =>
      match needs_bincode_upgrade marker with
      | Err e => (Err (as_migration e), d)
      | Ok false => (Ok false, d)
      | Ok true =>
          match plan_bincode_upgrade (rows_of d) with
          | Err e => (Err (as_migration e), d)
          | Ok plan => (Ok true, applied plan d)
          end
      end
  end.

Lemma write_plan_all plan d :
  MARK_BLOB_FORMAT BLOB_FORMAT_PROTOBUF
    (foldl (fun d x => UPDATE_SYNC_KEY_BLOB x d)
       (foldl (fun d x => UPDATE_VERSION_BLOB x d) (foldl (fun d x => UPDATE_DEVICE_BLOB x d) d (devices plan)) (versions plan))
       (sync_keys plan)) = applied plan d.
Proof using Type.
  assert (Hdev : forall l d, foldl (fun d x => UPDATE_DEVICE_BLOB x d) d l = on_app (on_device (rewritten l)) d).
  { induction l as [|x l IH]; intros [fm [a k v mc dv]]; [done|]. cbn [foldl]. by rewrite IH. }
  assert (Hver : forall l d, foldl (fun d x => UPDATE_VERSION_BLOB x d) d l = on_app (on_versions (rewritten l)) d).
  { induction l as [|x l IH]; intros [fm [a k v mc dv]]; [done|]. cbn [foldl]. by rewrite IH. }
  assert (Hkey : forall l d, foldl (fun d x => UPDATE_SYNC_KEY_BLOB x d) d l = on_app (on_keys (rewritten l)) d).
  { induction l as [|x l IH]; intros [fm [a k v mc dv]]; [done|]. cbn [foldl]. by rewrite IH. }
  by rewrite Hdev, Hver, Hkey.
Qed.

Definition after (needed : bool) (d : MarkedDb) : StoreResult bool * MarkedDb :=
  if needed then
    match plan_bincode_upgrade (rows_of d) with
    | Err e => (Err (as_migration e), d)
    | Ok plan => (Ok true, applied plan d)
    end
  else (Ok false, d).

Lemma after_ends (needed : bool) :
  ends
    (if needed then
       rows ← read_legacy_rows show; plan ← convert (plan_bincode_upgrade rows);
       _ ← write_plan show plan; _ ← mark_protobuf show; mret true
     else mret false)
    (after needed).
Proof using Type.
  destruct needed; [|apply ends_ret]. unfold read_legacy_rows, mark_protobuf, write_plan, query. eapply ends_ext.
  - eapply ends_bind.
    { eapply ends_bind; [apply ends_stmt|intros ds]. eapply ends_bind; [apply ends_stmt|intros vs].
      eapply ends_bind; [apply ends_stmt|intros ks]. apply ends_ret. }
    intros rows. eapply ends_bind; [apply ends_convert|]. intros plan. eapply ends_bind.
    { eapply ends_bind; [apply ends_each|intros ?]. eapply ends_bind; [apply ends_each|intros ?]. apply ends_each. }
    intros ?. eapply ends_bind; [apply ends_stmt|]. intros ?. apply ends_ret.
  - intros d. unfold after. cbn -[BincodeUpgrade.plan_bincode_upgrade]. unfold rows_of.
    destruct (plan_bincode_upgrade (MkBlobRows _ _ _)) as [plan|e]; cbn; [|done]. by rewrite <-write_plan_all.
Qed.

Lemma body_ends : ends upgrade_body outcome.
Proof using Type.
  eapply ends_ext.
  - eapply ends_bind; [apply ends_stmt|]. intros marker. eapply ends_bind; [apply ends_convert|]. intros needed.
    apply after_ends.
  - intros d. unfold outcome. destruct (format d) as [marker|]; cbn; [|done].
    by destruct (needs_bincode_upgrade marker) as [[]|e].
Qed.

Lemma upgrade_effect w :
  let '(r, w') := upgrade_bincode_blobs w in
  (db w' = db w \/ ((outcome (db w)).1 = Ok true /\ db w' = (outcome (db w)).2)) /\
  (r = Ok tt -> (exists changed, (outcome (db w)).1 = Ok changed /\ db w' = if changed then (outcome (db w)).2 else db w)) /\
  (faults w = [] -> r = (fun _ => tt) <$> (outcome (db w)).1).
Proof using Type.
  unfold upgrade_bincode_blobs, BincodeUpgrade.upgrade_bincode_blobs.
  pose proof (ends_stmt "begin" (fun d => (Ok tt, d)) w) as Hb. destruct (attempt _ _ _ w) as [[[]|e] w0] eqn:Eb; destruct Hb as [Hcalm Hok].
  2:{ split_and!; [left|done|]; [|by intros [[=] _]%Hcalm].
      unfold attempt, stmt in Eb. by destruct (faults w) as [|[] fs]; cbn in Eb; injection Eb as _ <-. }
  destruct (Hok eq_refl) as [_ Ew0]. cbn in Ew0, Hcalm.
  pose proof (body_ends w0) as Hbody. destruct (upgrade_body w0) as [[changed|e] w1]; destruct Hbody as [Hc1 Ho1]; rewrite Ew0 in *.
  2:{ split_and!; [by left|done|]. intros Hf. destruct (Hcalm Hf) as [Ew _]. injection Ew as Ew. rewrite Ew in Hc1.
      destruct (Hc1 eq_refl) as [Ep _]. injection Ep as Er _. by rewrite <-Er. }
  destruct (Ho1 eq_refl) as [E1 E2]. rewrite <-E1, E2.
  assert (Hcalm1 : faults w = [] -> faults w1 = []).
  { intros Hf. destruct (Hcalm Hf) as [Ew _]. injection Ew as Ew. rewrite Ew in Hc1. destruct (Hc1 eq_refl) as [Ep _].
    injection Ep as _ Ew1. by rewrite Ew1. }
  destruct (faults w1) as [|[] fs]; cbn; (split_and!;
    [destruct changed; auto|first [done|intros _; exists changed; by destruct changed]|intros Hf; first [done|by specialize (Hcalm1 Hf)]]).
Qed.

(** ** Which stores convert *)

Context `{!KeysLaws keys} `{!MessageLaw DeviceBlob} `{!MessageLaw HashStateWire} `{!MessageLaw AppStateSyncKeyWire}.

Definition reads_as {T} `{!BincodeOf T} (ok : T -> Prop) (b : bytes) : Prop :=
  exists v, decode_from_slice b = Ok (v, length b) /\ ok v.

(** Every blob is bincode to its last byte, of a value with the sizes its type has. *)
Definition convertible (d : MarkedDb) : Prop :=
  (forall k b, device_rows (app d) !! k = Some b -> reads_as (fun old => device_ok (device_of_legacy old)) b) /\
  (forall k b, app_state_versions (app d) !! k = Some b -> reads_as (fun s => length (hs_hash s) = 128%nat) b) /\
  (forall k b, app_state_keys (app d) !! k = Some b -> reads_as (fun s => length (key_data s) = 32%nat) b).

Lemma reads_whole {T} `{!BincodeOf T} ok b row :
  reads_as ok b -> exists v, decode_whole (T := T) b row = Ok v /\ ok v.
Proof using Type.
  intros (v & Hv & Hok). exists v. unfold decode_whole. rewrite Hv. cbn. by rewrite Nat.eqb_refl.
Qed.

Lemma convertible_plan d : convertible d -> exists plan, plan_bincode_upgrade (rows_of d) = Ok plan.
Proof using All.
  intros (Hd & Hv & Hk). unfold plan_bincode_upgrade, BincodeUpgrade.plan_bincode_upgrade, rows_of. cbn [devices versions sync_keys].
  destruct (plan_rows_total device_row (upgrade_device_blob device_bincode show) (SELECT_LEGACY_DEVICES d)) as [ds ->].
  { intros k b Hin. unfold SELECT_LEGACY_DEVICES in Hin. rewrite merge_sort_Permutation in Hin. apply elem_of_map_to_list in Hin.
    destruct (reads_whole _ _ (device_row k) (Hd k b Hin)) as (old & Hold & Hok).
    unfold upgrade_device_blob, decode_legacy_device. rewrite Hold. cbn. rewrite device_roundtrip by done. cbn.
    destruct (persisted_only (device_of_legacy old)) as (x & E1 & E2). unfold encode_bincode. rewrite E1, E2. cbn.
    rewrite decide_False by (by intros []). by eexists. }
  destruct (plan_rows_total version_row (upgrade_hash_state_blob show) (SELECT_LEGACY_VERSIONS d)) as [vs ->].
  { intros k b Hin. unfold SELECT_LEGACY_VERSIONS in Hin. rewrite merge_sort_Permutation in Hin. apply elem_of_map_to_list in Hin.
    destruct (reads_whole _ _ (version_row k) (Hv k b Hin)) as (old & Hold & Hok).
    unfold upgrade_hash_state_blob. rewrite Hold. cbn. rewrite hash_state_roundtrip by done. cbn.
    rewrite !bool_decide_true by done. by eexists. }
  destruct (plan_rows_total sync_key_row (upgrade_sync_key_blob show) (SELECT_LEGACY_SYNC_KEYS d)) as [ks ->].
  { intros k b Hin. unfold SELECT_LEGACY_SYNC_KEYS in Hin. rewrite merge_sort_Permutation in Hin. apply elem_of_map_to_list in Hin.
    destruct (reads_whole _ _ (sync_key_row k) (Hk k b Hin)) as (old & Hold & Hok).
    unfold upgrade_sync_key_blob. rewrite Hold. cbn. rewrite sync_key_roundtrip by done. cbn.
    rewrite !bool_decide_true by done. by eexists. }
  by eexists.
Qed.

(** C28.  The bincode upgrade is whole or not at all, whatever statement fails: the store is left as
    it was, or it was bincode and every device, hash state and app-state key now reads, as
    protobuf, as the value its old blob held, under the protobuf marker, with every other table and
    every key of a row as before.  It says Ok only for a store that is protobuf in the end.  A store
    already protobuf is never written, one with a marker of another build or with one row that does
    not convert is refused and left alone; and a bincode store whose rows are all whole converts
    when nothing fails. *)
Theorem bincode_upgrade_whole (w : World MarkedDb) :
  let '(r, w') := upgrade_bincode_blobs w in
  (db w' = db w \/ (format (db w) = Some BLOB_FORMAT_BINCODE /\ converted (db w) (db w'))) /\
  (r = Ok tt -> format (db w') = Some BLOB_FORMAT_PROTOBUF) /\
  (format (db w) = Some BLOB_FORMAT_PROTOBUF -> db w' = db w /\ (faults w = [] -> r = Ok tt)) /\
  (forall marker, format (db w) = Some marker -> marker <> BLOB_FORMAT_BINCODE -> marker <> BLOB_FORMAT_PROTOBUF ->
     db w' = db w /\ (faults w = [] -> r = Err (as_migration (UnknownFormat marker)))) /\
  (forall e, format (db w) = Some BLOB_FORMAT_BINCODE -> plan_bincode_upgrade (rows_of (db w)) = Err e ->
     db w' = db w /\ (faults w = [] -> r = Err (as_migration e))) /\
  (format (db w) = Some BLOB_FORMAT_BINCODE -> convertible (db w) -> faults w = [] ->
     r = Ok tt /\ converted (db w) (db w')).
Proof using All.
  pose proof (upgrade_effect w) as H. destruct (upgrade_bincode_blobs w) as [r w']. destruct H as (Hdb & Hr & Hcalm).
  assert (Hconv : forall plan, format (db w) = Some BLOB_FORMAT_BINCODE -> plan_bincode_upgrade (rows_of (db w)) = Ok plan ->
    converted (db w) (applied plan (db w))) by (intros plan Hf Hp; apply applied_converted; [by eexists|done]).
  unfold outcome in *. destruct (format (db w)) as [marker|] eqn:Ef.
  2:{ split_and!; try done; [left; by destruct Hdb as [|[? _]]|by intros (c & ? & _)%Hr]. }
  unfold needs_bincode_upgrade, parse_blob_format in *.
  destruct (decide (marker = BLOB_FORMAT_BINCODE)) as [->|Hnb]; cbn in *.
  - destruct (plan_bincode_upgrade (rows_of (db w))) as [plan|e] eqn:Ep; cbn in *.
    + specialize (Hconv plan eq_refl eq_refl). split_and!.
      * destruct Hdb as [->|[_ ->]]; [by left|by right].
      * intros (c & [= <-] & ->)%Hr. apply Hconv.
      * done.
      * by intros m [= <-] ?.
      * done.
      * intros _ _ Hf. specialize (Hcalm Hf). split; [done|]. subst r. destruct (Hr eq_refl) as (c & [= <-] & ->). done.
    + assert (db w' = db w) as Edb by (by destruct Hdb as [|[? _]]). split_and!.
      * by left.
      * by intros (c & ? & _)%Hr.
      * done.
      * by intros m [= <-] ?.
      * intros e' _ [= <-]. by split.
      * intros _ Hc%convertible_plan _. destruct Hc as [plan Hp]. congruence.
  - assert (db w' = db w) as Edb by (destruct (decide (marker = BLOB_FORMAT_PROTOBUF)); by destruct Hdb as [|[? _]]).
    split_and!.
    + by left.
    + intros (c & E & _)%Hr. rewrite Edb, Ef. by destruct (decide (marker = BLOB_FORMAT_PROTOBUF)) as [->|].
    + intros [= ->]. split; [done|]. intros Hf. rewrite (Hcalm Hf). by rewrite decide_True.
    + intros m [= <-] _ Hnp. split; [done|]. intros Hf. rewrite (Hcalm Hf). by rewrite decide_False.
    + by intros e [= ->].
    + by intros [= ->].
Qed.
End promises.

(** ** Witness: blobs of one byte, and a bincode of devices that is their wire form *)

Definition toy_legacy : LegacyDevice :=
  MkLegacyDevice (Some (MkJid "15551234" tt 0 3 0)) None 77 toy_pair toy_pair toy_pair 1
    (repeat Byte.x03 32, repeat Byte.x05 32) (repeat Byte.x04 32) None "me" 2 3000 1 0 None None 1 1 false None None 0 false 0
    None false.

#[local] Instance toy_legacy_bincode : BincodeOf LegacyDevice := fun b =>
  match b with
  | Byte.x01 :: _ => Ok (toy_legacy, 1%nat)
  | _ => Err "no device"
  end.
#[local] Instance toy_hash_bincode : BincodeOf HashState := fun _ => Err "no hash state".
#[local] Instance toy_key_bincode : BincodeOf AppStateSyncKey := fun b =>
  match b with
  | Byte.x02 :: _ => Ok (MkSyncKey (repeat Byte.x06 32) [] 9, 1%nat)
  | _ => Err "no key"
  end.

Definition toy_device_bincode (d : Device) : result string bytes := Ok (encode_device d).

Lemma toy_message_inj (M : Type) `{Countable M} (a b : M) :
  encode_to_vec (Message := toy_message M) a = encode_to_vec (Message := toy_message M) b -> a = b.
Proof.
  intros E. pose proof (toy_message_law M a) as Ha. pose proof (toy_message_law M b) as Hb. rewrite E, Hb in Ha.
  by injection Ha.
Qed.

Lemma pair_units (k1 k2 : KeyPair (keys := toy_keys)) : k1 = k2.
Proof. by destruct k1 as [[] []], k2 as [[] []]. Qed.

#[local] Instance jid_wire_inj : Inj (=) (=) (jid_to_wire (keys := toy_keys)).
Proof. by intros [? [] ? ? ?] [? [] ? ? ?] [= -> -> -> ->]. Qed.
#[local] Instance chain_wire_inj : Inj (=) (=) cert_chain_to_wire.
Proof. by intros [[] [] ?] [[] [] ?] [= -> -> -> -> -> -> ->]. Qed.
#[local] Instance expiration_wire_inj : Inj (=) (=) expiration_to_wire.
Proof. by intros [? [[? ?] ?]] [? [[? ?] ?]] [= -> -> -> ->]. Qed.
#[local] Instance unit_inj {B} (f : unit -> B) : Inj (=) (=) f.
Proof. by intros [] []. Qed.

#[local] Instance toy_bincode_laws : DeviceBincodeLaws toy_device_bincode.
Proof.
  split; [by intros d; eexists|]. intros d1 d2 x H1 H2. rewrite <-H2 in H1. clear x H2.
  apply (f_equal (fun r : result string bytes => match r with Ok b => b | Err _ => [] end)) in H1.
  unfold toy_device_bincode, encode_device in H1. cbv iota beta in H1.
  apply (toy_message_inj DeviceBlob) in H1. injection H1. clear H1. destruct d1, d2; cbn. unfold reloaded, reloaded_with; cbn.
  intros. repeat match goal with
  | H : _ <$> ?a = _ <$> ?b |- _ => apply (fmap_inj _) in H
  end.
  simplify_eq. by f_equal; apply pair_units.
Qed.

Definition old_store : MarkedDb :=
  MkMarkedDb (Some BLOB_FORMAT_BINCODE) (MkAppDb {[1]} {[([Byte.x07], 1) := [Byte.x02]]} ∅ ∅ {[1 := [Byte.x01]]}).

Lemma toy_legacy_ok : device_ok (device_of_legacy toy_legacy).
Proof.
  split_and!.
  - vm_compute. done.
  - done.
  - done.
  - vm_compute. done.
  - vm_compute. done.
Qed.

#[local] Opaque encode_device decode_device.

(** A store with a key whose value has a byte too many. *)
Definition bad_store : MarkedDb :=
  MkMarkedDb (Some BLOB_FORMAT_BINCODE) (MkAppDb {[1]} {[([Byte.x07], 1) := [Byte.x02; Byte.x00]]} ∅ ∅ ∅).

(** A store with a device and a key: it is converted; the one with the bad key is left alone. *)
Lemma bincode_upgrade_whole_witness :
  let run w := upgrade_bincode_blobs toy_device_bincode (fun _ => "") (Database "no rows") w in
  (let '(r, w) := run (MkWorld old_store []) in
   r = Ok tt /\ exists b, device_rows (app (db w)) !! 1 = Some b /\ decode_device b = Ok (device_of_legacy toy_legacy)) /\
  (let '(r, w) := run (MkWorld bad_store []) in
   r = Err (Migration "an app_state_keys row of device 1: not readable as bincode (trailing bytes: consumed 1 of 2); nothing was converted")
   /\ format (db w) = Some BLOB_FORMAT_BINCODE).
Proof.
  pose proof (bincode_upgrade_whole (keys := toy_keys) toy_device_bincode (fun _ => "") (Database "no rows")
    (MessageLaw0 := toy_message_law DeviceBlob) (MessageLaw1 := toy_message_law HashStateWire)
    (MessageLaw2 := toy_message_law AppStateSyncKeyWire)) as H. cbn zeta. split.
  - specialize (H (MkWorld old_store [])). destruct (upgrade_bincode_blobs _ _ _ _) as [r w] eqn:E.
    destruct H as (_ & _ & _ & _ & _ & Hgo). destruct Hgo as [-> (_ & Hdev & _)]; [done| |done|].
    { split_and!; cbn.
      - intros k b [<- <-]%lookup_singleton_Some. exists toy_legacy. split; [done|apply toy_legacy_ok].
      - intros k b Hk. by rewrite lookup_empty in Hk.
      - intros k b [<- <-]%lookup_singleton_Some. exists (MkSyncKey (repeat Byte.x06 32) [] 9). split; reflexivity. }
    split; [done|]. specialize (Hdev 1). change (device_rows _ !! 1) with (Some [Byte.x01]) in Hdev at 1.
    destruct (device_rows (app (db w)) !! 1) as [b|]; [|destruct Hdev]. destruct Hdev as (old & Hold & Hb). exists b. split; [reflexivity|].
    etransitivity; [exact Hb|]. symmetry.
    exact (f_equal (fun r => match r with Ok d => Ok d | Err _ => Err (Database "") end) Hold).
  - specialize (H (MkWorld bad_store [])). destruct (upgrade_bincode_blobs _ _ _ _) as [r w] eqn:E.
    destruct H as (_ & _ & _ & _ & Hbad & _). edestruct Hbad as [Hdb Hr]; [done|by vm_compute|].
    rewrite (Hr eq_refl), Hdb. by split.
Defined.
