(* ===== verification/PairingStream.v ===== *)
(** * The pairing streams (services/account_service.rs, domain/pairing_update.rs)

    PairWithQr and PairWithCode: a check of the stored device, a receiver on the account's
    broadcast, a connect, then a task that forwards pairing updates to the client through a channel
    of sixteen.  The call, the task, the client, the account's publisher and the daemon's shutdown
    take their steps in any order.  The broadcast is the relation of EventStream.v: a receiver gets
    what was sent after it was taken, in order, or is told how many it lost. *)

From S2P Require Import Prelude Events Errors.

(** [pairing_stream_ends]: nothing more can come on this flow. *)
Definition pairing_stream_ends (update : option PairingEvent) : bool :=
  match update with
  | Some (Paired _ | PairingFailed _ | CodeError _ | CodeRefresh _) => true
  | Some (QrCodesExhausted disconnected) => disconnected
  | Some (QrCode _ | PairCode _) | None => false
  end.

(** The envelope's update, when it is one of pairing. *)
Definition pairing_of (envelope : EventEnvelope) : option (option PairingEvent) :=
  match event envelope with
  | Some (Pairing update) => Some update
  | _ => None
  end.

Definition already_paired : WamuxError :=
  FailedPrecondition "account holds a paired identity: DeleteAccount and CreateAccount to pair again".

(** [mpsc::channel(16)]. *)
Definition CHANNEL : nat := 16.

(** Where [pairing_stream] stands. *)
Inductive Call : Type :=
| Checking
| Subscribing
| Connecting (position : nat)
| Streaming
| Refused (e : WamuxError)
| Abandoned.

(** Where the task of [forward_pairing_updates] stands: at [recv], at [send], or gone. *)
Inductive Task : Type :=
| NotSpawned
| Receiving (position : nat)
| Sending (position : nat) (update : option PairingEvent)
| Over.

Record PairingStream : Type := MkPairingStream {
  sent : list EventEnvelope;               (* the account's broadcast, oldest first *)
  closed : bool;                           (* its sender is gone *)
  shutdown : bool;
  call : Call;
  task : Task;
  channel : list (option PairingEvent);
  got : list (option PairingEvent);        (* what the client read *)
  client : bool;                           (* the client is there *)
  from : nat;                              (* ghost: how much was sent when the receiver was taken *)
  connects : list nat;                     (* ghost: how much was sent when each connect began *)
  read : list EventEnvelope;               (* ghost: what [recv] gave *)
  lagged : bool;                           (* ghost: whether [recv] ever lost some *)
}.

Definition open_call (sent : list EventEnvelope) (shutdown : bool) : PairingStream :=
  MkPairingStream sent false shutdown Checking NotSpawned [] [] true 0 [] [] false.

Definition set_account (l : list EventEnvelope) (c : bool) (s : PairingStream) : PairingStream :=
  MkPairingStream l c (shutdown s) (call s) (task s) (channel s) (got s) (client s) (from s) (connects s) (read s) (lagged s).
Definition set_shutdown (s : PairingStream) : PairingStream :=
  MkPairingStream (sent s) (closed s) true (call s) (task s) (channel s) (got s) (client s) (from s) (connects s) (read s) (lagged s).
Definition set_call (c : Call) (s : PairingStream) : PairingStream :=
  MkPairingStream (sent s) (closed s) (shutdown s) c (task s) (channel s) (got s) (client s) (from s) (connects s) (read s) (lagged s).
Definition set_task (t : Task) (s : PairingStream) : PairingStream :=
  MkPairingStream (sent s) (closed s) (shutdown s) (call s) t (channel s) (got s) (client s) (from s) (connects s) (read s) (lagged s).
Definition set_channel (l g : list (option PairingEvent)) (s : PairingStream) : PairingStream :=
  MkPairingStream (sent s) (closed s) (shutdown s) (call s) (task s) l g (client s) (from s) (connects s) (read s) (lagged s).
Definition set_client (c : bool) (s : PairingStream) : PairingStream :=
  MkPairingStream (sent s) (closed s) (shutdown s) (call s) (task s) (channel s) (got s) c (from s) (connects s) (read s) (lagged s).
Definition set_read (l : list EventEnvelope) (lost : bool) (s : PairingStream) : PairingStream :=
  MkPairingStream (sent s) (closed s) (shutdown s) (call s) (task s) (channel s) (got s) (client s) (from s) (connects s) l (lagged s || lost).

(** [handle.subscribe()], and the connect, which begins before anything else can run. *)
Definition subscribe_and_connect (s : PairingStream) : PairingStream :=
  let position := length (sent s) in
  MkPairingStream (sent s) (closed s) (shutdown s) (Connecting position) (task s) (channel s) (got s) (client s)
    position (connects s ++ [position]) (read s) (lagged s).

(** One turn of the loop: an envelope that is not of pairing is skipped. *)
Definition received (position : nat) (envelope : EventEnvelope) (s : PairingStream) : PairingStream :=
  set_task (match pairing_of envelope with
            | Some update => Sending (S position) update
            | None => Receiving (S position)
            end) (set_read (read s ++ [envelope]) false s).

(** The call.  The client may hang up before it is answered, at the check or at the connect. *)
Inductive CallStep (stored_pn : WamuxResult bool) : PairingStream -> PairingStream -> Prop :=
| step_paired s :
    call s = Checking -> stored_pn = Ok true -> CallStep stored_pn s (set_call (Refused already_paired) s)
| step_unread s e :
    call s = Checking -> stored_pn = Err e -> CallStep stored_pn s (set_call (Refused e) s)
| step_unpaired s :
    call s = Checking -> stored_pn = Ok false -> CallStep stored_pn s (set_call Subscribing s)
| step_connect s :
    call s = Subscribing -> CallStep stored_pn s (subscribe_and_connect s)
| step_connected s position :
    call s = Connecting position -> CallStep stored_pn s (set_task (Receiving position) (set_call Streaming s))
| step_connect_failed s position e :
    call s = Connecting position -> CallStep stored_pn s (set_call (Refused e) s)
| step_abandoned s :
    call s = Checking \/ (exists position, call s = Connecting position) ->
    CallStep stored_pn s (set_client false (set_call Abandoned s)).

Definition running (t : Task) : bool :=
  match t with
  | Receiving _ | Sending _ _ => true
  | NotSpawned | Over => false
  end.

(** The task: [relay_pairing_events], and the other arms of the select wherever that stands. *)
Inductive TaskStep : PairingStream -> PairingStream -> Prop :=
| step_recv s position envelope :
    task s = Receiving position -> sent s !! position = Some envelope -> TaskStep s (received position envelope s)
| step_lagged s position lost :
    task s = Receiving position -> (0 < lost)%nat -> (position + lost <= length (sent s))%nat ->
    TaskStep s (set_task (Receiving (position + lost)) (set_read (read s) true s))
| step_closed s position :
    task s = Receiving position -> closed s = true -> position = length (sent s) -> TaskStep s (set_task Over s)
| step_send s position update :
    task s = Sending position update -> client s = true -> (length (channel s) < CHANNEL)%nat ->
    TaskStep s (set_task (if pairing_stream_ends update then Over else Receiving position)
                  (set_channel (channel s ++ [update]) (got s) s))
| step_send_refused s position update :
    task s = Sending position update -> client s = false -> TaskStep s (set_task Over s)
| step_cut s :
    running (task s) = true -> client s = false \/ shutdown s = true -> TaskStep s (set_task Over s).

(** The client reads. *)
Inductive ClientStep : PairingStream -> PairingStream -> Prop :=
| step_read s update rest :
    call s = Streaming -> client s = true -> channel s = update :: rest ->
    ClientStep s (set_channel rest (got s ++ [update]) s).

(** What the stream does not decide: the client hanging up, the account's publisher, the daemon. *)
Inductive WorldStep : PairingStream -> PairingStream -> Prop :=
| step_hang_up s : call s = Streaming -> WorldStep s (set_client false s)
| step_publish s envelope : closed s = false -> WorldStep s (set_account (sent s ++ [envelope]) false s)
| step_close s : WorldStep s (set_account (sent s) true s)
| step_shutdown s : WorldStep s (set_shutdown s).

Inductive Step (stored_pn : WamuxResult bool) (s s' : PairingStream) : Prop :=
| by_call (H : CallStep stored_pn s s')
| by_task (H : TaskStep s s')
| by_client (H : ClientStep s s')
| by_world (H : WorldStep s s').

(** Any interleaving, from a call on an account that may have published before. *)
Definition reachable (stored_pn : WamuxResult bool) (s : PairingStream) : Prop :=
  exists before down, rtc (Step stored_pn) (open_call before down) s.

(** What is owed to a client: the pairing updates of what was read, to the first that ends the flow. *)
Fixpoint until_end (updates : list (option PairingEvent)) : list (option PairingEvent) :=
  match updates with
  | [] => []
  | u :: rest => if pairing_stream_ends u then [u] else u :: until_end rest
  end.

Definition updates_of (l : list EventEnvelope) : list (option PairingEvent) := omap pairing_of l.

(** What the client read or has still to read. *)
Definition passed (s : PairingStream) : list (option PairingEvent) := got s ++ channel s.

(** The client sees the end of the stream: the task dropped the sender and the channel is empty. *)
Definition at_end (s : PairingStream) : Prop := call s = Streaming /\ task s = Over /\ channel s = [].

(** ** Properties *)

#[local] Arguments updates_of : simpl never.

Lemma updates_of_snoc l e : updates_of (l ++ [e]) = updates_of l ++ option_list (pairing_of e).
Proof. unfold updates_of. rewrite omap_app. done. Qed.

Definition ends (u : option PairingEvent) : Prop := pairing_stream_ends u = true.
Definition goes_on (u : option PairingEvent) : Prop := pairing_stream_ends u = false.

(** ** To the first update that ends the flow *)

Lemma until_end_goes_on l : Forall goes_on l -> until_end l = l.
Proof. induction 1 as [|u l Hu _ IH]; cbn; [done|]. by rewrite Hu, IH. Qed.

Lemma until_end_snoc l u : Forall goes_on l -> until_end (l ++ [u]) = l ++ [u].
Proof. intros H. induction H as [|v l Hv _ IH]; cbn; [by destruct (pairing_stream_ends u)|]. by rewrite Hv, IH. Qed.

(** A prefix of what is owed has its end, if any, last. *)
Lemma until_end_last l l1 u l2 : l1 ++ u :: l2 `prefix_of` until_end l -> ends u -> l2 = [].
Proof.
  intros [k H] Hu. revert l1 H. induction l as [|v l IH]; intros l1 H; cbn in H.
  { by destruct l1. }
  destruct (pairing_stream_ends v) eqn:Hv.
  - destruct l1 as [|x [|? ?]]; cbn in H; [|by injection H|by injection H].
    injection H as _ H. by destruct l2.
  - destruct l1 as [|x l1]; cbn in H; injection H as -> H; [unfold ends in Hu; congruence|]. by apply (IH l1).
Qed.

Lemma until_end_before l u k : l ++ [u] `prefix_of` until_end k -> Forall goes_on l.
Proof.
  intros H. apply Forall_forall. intros v Hv. apply list_elem_of_split in Hv as (l1 & l2 & ->).
  destruct (pairing_stream_ends v) eqn:E; [|done]. rewrite <-app_assoc in H. cbn in H. apply until_end_last in H; [|done].
  by destruct l2.
Qed.

(** ** The invariant *)

(** [p] is as far as the receiver is. *)
Definition reads (p : nat) (s : PairingStream) : Prop :=
  (from s <= p <= length (sent s))%nat /\
  read s `sublist_of` take (p - from s) (drop (from s) (sent s)) /\
  (lagged s = false -> read s = take (p - from s) (drop (from s) (sent s))).

(** Why a task that is over stopped. *)
Definition reason (s : PairingStream) : Prop :=
  (exists u, last (passed s) = Some u /\ ends u) \/ client s = false \/ shutdown s = true \/
  (closed s = true /\ passed s = updates_of (read s) /\ reads (length (sent s)) s).

Definition task_ok (s : PairingStream) : Prop :=
  match task s with
  | NotSpawned => passed s = [] /\ read s = []
  | Receiving p => reads p s /\ passed s = updates_of (read s) /\ Forall goes_on (passed s)
  | Sending p u => reads p s /\ updates_of (read s) = passed s ++ [u] /\ Forall goes_on (passed s)
  | Over => (exists p, reads p s) /\ passed s `prefix_of` until_end (updates_of (read s)) /\ reason s
  end.

Definition call_ok (stored_pn : WamuxResult bool) (s : PairingStream) : Prop :=
  match call s with
  | Checking => task s = NotSpawned /\ connects s = [] /\ client s = true
  | Subscribing => task s = NotSpawned /\ connects s = [] /\ stored_pn = Ok false
  | Connecting p => task s = NotSpawned /\ connects s = [from s] /\ stored_pn = Ok false /\ p = from s
  | Streaming => task s <> NotSpawned /\ connects s = [from s] /\ stored_pn = Ok false
  | Refused e => task s = NotSpawned /\
      (connects s = [] /\ (stored_pn = Ok true /\ e = already_paired \/ stored_pn = Err e) \/
       connects s = [from s] /\ stored_pn = Ok false)
  | Abandoned => task s = NotSpawned /\ (connects s = [] \/ connects s = [from s] /\ stored_pn = Ok false)
  end.

Definition inv (stored_pn : WamuxResult bool) (s : PairingStream) : Prop :=
  call_ok stored_pn s /\ task_ok s /\ (from s <= length (sent s))%nat /\ (lagged s = true -> task s <> NotSpawned).

(** ** Reading *)

Lemma slice_snoc {A} (l : list A) from p x :
  (from <= p)%nat -> l !! p = Some x -> take (S p - from) (drop from l) = take (p - from) (drop from l) ++ [x].
Proof.
  intros Hle Hx. replace (S p - from)%nat with (S (p - from)) by lia. apply take_S_r.
  rewrite lookup_drop. by replace (from + (p - from))%nat with p by lia.
Qed.

Lemma reads_next p envelope s :
  reads p s -> sent s !! p = Some envelope -> reads (S p) (set_read (read s ++ [envelope]) false s).
Proof.
  intros (Hp & Hsub & Hall) He. apply lookup_lt_Some in He as Hlt. unfold reads; cbn. rewrite orb_false_r.
  split_and!; [lia|lia| |]; rewrite (slice_snoc _ _ _ envelope) by (done || lia).
  - by apply sublist_app.
  - intros Hl. by rewrite <-(Hall Hl).
Qed.

Lemma reads_lost p lost s :
  reads p s -> (p + lost <= length (sent s))%nat -> reads (p + lost) (set_read (read s) true s).
Proof.
  intros (Hp & Hsub & _) Hle. unfold reads; cbn. rewrite orb_true_r. split_and!; [lia|lia| |done].
  etrans; [exact Hsub|]. assert (take (p - from s) (drop (from s) (sent s)) =
    take (p - from s) (take (p + lost - from s) (drop (from s) (sent s)))) as -> by (rewrite take_take; f_equal; lia).
  apply sublist_take.
Qed.

Lemma reads_more p l c s : reads p s -> reads p (set_account (sent s ++ l) c s).
Proof.
  intros (Hp & Hsub & Hall). unfold reads; cbn. rewrite length_app. split_and!; [lia|lia| |].
  - by rewrite drop_app_le, take_app_le by (rewrite ?length_drop; lia).
  - rewrite drop_app_le, take_app_le by (rewrite ?length_drop; lia). done.
Qed.

(** ** Every step keeps the invariant *)

Lemma call_step_inv stored_pn s s' : CallStep stored_pn s s' -> inv stored_pn s -> inv stored_pn s'.
Proof.
  intros Hs (Hc & Ht & Hf & Hl). unfold call_ok, task_ok in *. destruct Hs as [s E H|s e E H|s E H|s E|s p E|s p e E|s [E|[p E]]];
    rewrite E in Hc; destruct Hc as (Hnot & Hc); rewrite Hnot in Ht, Hl; destruct Ht as [Hp Hr];
    unfold inv, call_ok, task_ok, passed, subscribe_and_connect in *; cbn; rewrite ?Hnot, ?Hr; cbn.
  - split_and!; try done; tauto.
  - split_and!; try done; tauto.
  - by destruct Hc.
  - destruct Hc as [-> Hc]. split_and!; try done.
  - destruct Hc as (Hc & H & ->). rewrite Hp. split_and!; try done. unfold reads; cbn. rewrite Hr, Nat.sub_diag.
    split_and!; try done.
  - split_and!; try done; tauto.
  - split_and!; try done; tauto.
  - split_and!; try done; tauto.
Qed.

(** The task is there only once the call has answered with the stream. *)
Lemma spawned_streaming stored_pn s : call_ok stored_pn s -> task s <> NotSpawned -> call s = Streaming.
Proof. unfold call_ok. intros Hc Hn. destruct (call s); tauto. Qed.

(** An end of the task: what it had read and passed is as it was. *)
Lemma over_inv stored_pn s p :
  inv stored_pn s -> running (task s) = true -> reads p s -> passed s `prefix_of` until_end (updates_of (read s)) ->
  reason s -> inv stored_pn (set_task Over s).
Proof.
  intros (Hc & Ht & Hf & Hl) Hrun Hreads Hpre Hwhy. assert (task s <> NotSpawned) as Hn by (by intros E; rewrite E in Hrun).
  pose proof (spawned_streaming _ _ Hc Hn) as E. unfold inv, call_ok, task_ok in *. cbn. rewrite E in *. split_and!; [done|tauto|tauto| |done|done| |done].
  - by exists p.
  - by intros.
Qed.

Lemma task_step_inv stored_pn s s' : TaskStep s s' -> inv stored_pn s -> inv stored_pn s'.
Proof.
  intros Hs Hinv. pose proof Hinv as (Hc & Ht & Hf & Hl). unfold task_ok in Ht.
  destruct Hs as [s p envelope E Hin|s p lost E Hpos Hle|s p E Hclosed ->|s p u E Hclient Hroom|s p u E Hclient|s Hrun Hwhy].
  - rewrite E in Ht. destruct Ht as (Hreads & Hpassed & Hon).
    assert (call s = Streaming) as Es by (apply (spawned_streaming stored_pn); [done|congruence]).
    unfold inv, call_ok, task_ok, received in *. rewrite Es, E in Hc. cbn. rewrite Es, orb_false_r.
    pose proof (reads_next _ _ _ Hreads Hin) as Hnext.
    destruct (pairing_of envelope) as [u|] eqn:Eu; cbn; split_and!; try tauto; try done;
      unfold passed in *; cbn; by rewrite updates_of_snoc, Eu, <-Hpassed, ?app_nil_r.
  - rewrite E in Ht. destruct Ht as (Hreads & Hpassed & Hon).
    assert (call s = Streaming) as Es by (apply (spawned_streaming stored_pn); [done|congruence]).
    unfold inv, call_ok, task_ok in *. rewrite Es, E in Hc. cbn. rewrite Es.
    pose proof (reads_lost _ _ _ Hreads Hle) as Hnext. split_and!; try tauto; try done.
  - rewrite E in Ht. destruct Ht as (Hreads & Hpassed & Hon). apply (over_inv _ _ (length (sent s))); [done|by rewrite E|done| |].
    + by rewrite <-Hpassed, until_end_goes_on.
    + do 3 right. by split_and!.
  - rewrite E in Ht. destruct Ht as (Hreads & Hpassed & Hon).
    assert (call s = Streaming) as Es by (apply (spawned_streaming stored_pn); [done|congruence]).
    unfold inv, call_ok, task_ok, passed in *. rewrite Es, E in Hc. cbn. rewrite Es.
    destruct (pairing_stream_ends u) eqn:Eu; cbn; split_and!; try tauto; try done.
    + by exists p.
    + by rewrite app_assoc, Hpassed, until_end_snoc.
    + left. exists u. cbn. by rewrite app_assoc, last_snoc.
    + by rewrite app_assoc.
    + rewrite app_assoc. apply Forall_app. split; [done|by repeat constructor].
  - rewrite E in Ht. destruct Ht as (Hreads & Hpassed & Hon). apply (over_inv _ _ p); [done|by rewrite E|done| |].
    + rewrite Hpassed, until_end_snoc by done. by apply prefix_app_r.
    + right. by left.
  - assert (reason s) as Hr by (unfold reason; destruct Hwhy; auto).
    destruct (task s) as [|p|p u|] eqn:E; [done| | |done]; destruct Ht as (Hreads & Hpassed & Hon);
      (apply (over_inv _ _ p); [done|by rewrite E|done| |done]).
    + by rewrite <-Hpassed, until_end_goes_on.
    + rewrite Hpassed, until_end_snoc by done. by apply prefix_app_r.
Qed.

(** What does not change what was read, sent to the client or decided. *)
Lemma client_step_inv stored_pn s s' : ClientStep s s' -> inv stored_pn s -> inv stored_pn s'.
Proof.
  intros [s0 u rest Es Hcl Ech] (Hc & Ht & Hf & Hl). unfold inv, call_ok, task_ok, reason, passed in *. cbn. rewrite Es, Ech in *.
  rewrite <-(assoc_L (++) (got s0) [u] rest). cbn. split; [done|]. split; [exact Ht|by split].
Qed.

Lemma world_step_inv stored_pn s s' : WorldStep s s' -> inv stored_pn s -> inv stored_pn s'.
Proof.
  intros Hs (Hc & Ht & Hf & Hl). destruct Hs as [s Es|s envelope Hopen|s|s].
  - unfold inv, call_ok, task_ok, reason, passed in *. cbn. rewrite Es in *. split_and!; try tauto.
    destruct (task s); try done. destruct Ht as (? & ? & _). split_and!; try done. right. by left.
  - unfold inv. cbn. rewrite length_app. split_and!; [done| |lia|done]. unfold task_ok, reason, passed in *. cbn.
    destruct (task s); try done.
    + destruct Ht as (? & ? & ?). split_and!; [by apply reads_more|done|done].
    + destruct Ht as (? & ? & ?). split_and!; [by apply reads_more|done|done].
    + destruct Ht as ([p Hp] & ? & Hr). split_and!; [exists p; by apply reads_more|done|].
      destruct Hr as [?|[?|[?|(? & _)]]]; [by left|by right; left|by do 2 right; left|congruence].
  - unfold inv. cbn. split_and!; [done| |done|done]. unfold task_ok, reason, passed in *. cbn. destruct (task s); try done.
    destruct Ht as (? & ? & Hr). split_and!; [done|done|].
    destruct Hr as [?|[?|[?|(? & ? & ?)]]]; [by left|by right; left|by do 2 right; left|].
    do 3 right. by split_and!.
  - unfold inv. cbn. split_and!; [done| |done|done]. unfold task_ok, reason, passed in *. cbn. destruct (task s); try done.
    destruct Ht as ([p Hp] & ? & _). split_and!; [by exists p|done|]. right. right. by left.
Qed.

Lemma reachable_inv stored_pn s : reachable stored_pn s -> inv stored_pn s.
Proof.
  intros (before & down & H). remember (open_call before down) as s0 eqn:E0.
  assert (inv stored_pn s0) as H0 by (subst s0; unfold inv; cbn; split_and!; try done; lia). clear E0. induction H as [|s1 s2 s3 Hs _ IH]; [done|]. apply IH.
  destruct Hs; [by eapply call_step_inv|by eapply task_step_inv|by eapply client_step_inv|by eapply world_step_inv].
Qed.

(** ** Properties *)

(** C29.  However the call, its task, the client, the account's publisher and the shutdown interleave:
    no connect begins on an account that holds a paired identity or whose device cannot be read, at
    most one begins, and the receiver was taken at that very moment, so that no update of its flow
    can come before it; a refused call starts no task.  The client is sent the pairing updates of
    what was read and nothing else, in order, to the first that ends the flow and not past it; what
    was read is all that was broadcast since, unless the channel said it lost some.  A stream that
    ends, the client there and the daemon up, ended with such an update or with the account's
    broadcast, all of it relayed. *)
Theorem pairing_stream_relays stored_pn s :
  reachable stored_pn s ->
  (connects s = [] \/ (connects s = [from s] /\ stored_pn = Ok false)) /\
  (forall e, call s = Refused e -> task s = NotSpawned /\ passed s = [] /\
     (connects s = [] -> stored_pn = Ok true /\ e = already_paired \/ stored_pn = Err e)) /\
  read s `sublist_of` drop (from s) (sent s) /\ (lagged s = false -> read s `prefix_of` drop (from s) (sent s)) /\
  passed s `prefix_of` until_end (updates_of (read s)) /\
  (at_end s -> client s = true -> shutdown s = false ->
     (exists before u, got s = before ++ [u] /\ ends u /\ Forall goes_on before) \/
     (closed s = true /\ got s = updates_of (read s) /\ (lagged s = false -> read s = drop (from s) (sent s)))).
Proof.
  intros (Hc & Ht & Hf & Hl)%reachable_inv. unfold call_ok in Hc. unfold task_ok in Ht.
  assert (Hread : read s = [] \/ exists p, reads p s) by (destruct (task s); [left; tauto|right; eexists; apply Ht..|right; apply Ht]).
  assert (Hpre : passed s `prefix_of` until_end (updates_of (read s))).
  { destruct (task s) as [|p|p u|]; [by destruct Ht as [-> ->]| | |apply Ht]; destruct Ht as (_ & H & Hon).
    - by rewrite <-H, until_end_goes_on.
    - rewrite H, until_end_snoc by done. by apply prefix_app_r. }
  split_and!.
  - destruct (call s); tauto.
  - intros e E. rewrite E in Hc. destruct Hc as [Hn Hwhy]. rewrite Hn in Ht. split_and!; [done|apply Ht|].
    intros Enil. destruct Hwhy as [[_ Hwhy]|[Efrom _]]; [done|]. by rewrite Enil in Efrom.
  - destruct Hread as [->|(p & _ & Hsub & _)]; [apply sublist_nil_l|]. etrans; [exact Hsub|apply sublist_take].
  - intros El. destruct Hread as [->|(p & _ & _ & Hall)]; [apply prefix_nil|]. rewrite (Hall El). apply prefix_take.
  - done.
  - intros (Es & Eo & Ech) Hcl Hsh. rewrite Eo in Ht. destruct Ht as (_ & _ & Hwhy). unfold reason, passed in *. rewrite Ech, app_nil_r in *.
    destruct Hwhy as [(u & Hlast & Hu)|[?|[?|(Hcd & Hgot & (Hp & _ & Hall))]]]; [|congruence..|].
    + left. apply last_Some in Hlast as [before Eb]. exists before, u. split_and!; [done..|]. apply (until_end_before _ u (updates_of (read s))). by rewrite <-Eb.
    + right. split_and!; [done..|]. intros El. rewrite (Hall El). apply take_ge. by rewrite length_drop.
Qed.

(** What the task and the client have still to do, whatever was broadcast so far. *)
Definition work (s : PairingStream) : nat :=
  match task s with
  | Receiving p => 3 * (length (sent s) - p) + 1
  | Sending p _ => 3 * (length (sent s) - p) + 3
  | NotSpawned | Over => 0
  end + length (channel s).

Lemma own_step_works s s' : TaskStep s s' \/ ClientStep s s' -> (work s' < work s)%nat.
Proof.
  intros [H|H]; unfold work.
  - destruct H as [s p envelope E Hin|s p lost E Hpos Hle|s p E Hcd ->|s p u E Hcl Hroom|s p u E Hcl|s Hrun Hwhy]; cbn; rewrite ?E; cbn.
    + apply lookup_lt_Some in Hin. destruct (pairing_of envelope); cbn; lia.
    + lia.
    + lia.
    + rewrite length_app. destruct (pairing_stream_ends u); cbn; lia.
    + lia.
    + destruct (task s); try done; lia.
  - destruct H as [s u rest Es Hcl E]. cbn. rewrite E. cbn. destruct (task s); lia.
Qed.

(** Neither can move. *)
Definition idle (s : PairingStream) : Prop := forall s', ~ (TaskStep s s' \/ ClientStep s s').

(** Where a stream with its client stops: at its end, or caught up with an account that may say more. *)
Lemma idle_stream stored_pn s :
  inv stored_pn s -> call s = Streaming -> client s = true -> idle s ->
  channel s = [] /\ (task s = Over \/ task s = Receiving (length (sent s)) /\ closed s = false /\ shutdown s = false).
Proof.
  intros (Hc & Ht & _ & _) Es Hcl Hidle. unfold call_ok in Hc. rewrite Es in Hc. unfold task_ok in Ht.
  assert (Ech : channel s = []).
  { destruct (channel s) as [|u rest] eqn:E; [done|]. exfalso. eapply Hidle. right. by apply (step_read _ u rest). }
  assert (Hup : running (task s) = true -> shutdown s = false).
  { intros Hrun. destruct (shutdown s) eqn:E; [|done]. exfalso. eapply Hidle. left. apply step_cut; [done|by right]. }
  split; [done|]. destruct (task s) as [|p|p u|] eqn:E; [by destruct Hc|right| |by left].
  - destruct Ht as ((Hp & _) & _). destruct (decide (p = length (sent s))) as [->|Hne].
    + destruct (closed s) eqn:Ecd; [|by rewrite Hup]. exfalso. eapply Hidle. left. by eapply step_closed.
    + destruct (lookup_lt_is_Some_2 (sent s) p) as [envelope He]; [lia|]. exfalso. eapply Hidle. left. by eapply step_recv.
  - exfalso. eapply Hidle. left. eapply step_send; [done|done|]. rewrite Ech. unfold CHANNEL. cbn. lia.
Qed.

(** Steps of the task and of the client, the rest of the world standing still. *)
Abbreviation OwnStep := (fun s s' => TaskStep s s' \/ ClientStep s s').

Lemma own_steps stored_pn n s s' :
  nsteps OwnStep n s s' -> inv stored_pn s ->
  inv stored_pn s' /\ call s' = call s /\ client s' = client s /\ (n + work s' <= work s)%nat.
Proof.
  induction 1 as [s|n s1 s2 s3 H _ IH]; intros Hinv; [split_and!; done || lia|].
  pose proof (own_step_works _ _ H) as Hw.
  assert (inv stored_pn s2 /\ call s2 = call s1 /\ client s2 = client s1) as (Hinv2 & Ec & Ecl).
  { destruct H as [H|H]; split; [by eapply task_step_inv|by destruct H|by eapply client_step_inv|by destruct H]. }
  destruct (IH Hinv2) as (? & ? & ? & ?). split_and!; [done|congruence|congruence|lia].
Qed.

Lemma work_bound stored_pn s : inv stored_pn s -> (work s <= 3 * (length (sent s) - from s) + 3 + length (channel s))%nat.
Proof.
  intros (_ & Ht & _). unfold work, task_ok in *.
  destruct (task s); try lia; destruct Ht as ((Hp & _) & _); lia.
Qed.

(** C30.  A pairing stream never hangs with something to say.  Over what was broadcast so far the
    task and its client take only so many steps, in whatever order; and when neither can move, the
    client there, it has read everything it was sent, and either the stream is over or it was given
    every pairing update read so far, none of which ends the flow, with the account's broadcast open
    and nothing of it left to read.  So a stream ends once an update that ends its flow was read,
    once the broadcast closes, and once the daemon shuts down. *)
Theorem pairing_stream_finishes stored_pn s n s' :
  reachable stored_pn s -> call s = Streaming -> client s = true -> nsteps OwnStep n s s' ->
  (n <= 3 * (length (sent s) - from s) + 3 + length (channel s))%nat /\
  (idle s' -> channel s' = [] /\
     (task s' = Over \/
      got s' = updates_of (read s') /\ Forall goes_on (got s') /\ closed s' = false /\ shutdown s' = false /\
      (lagged s' = false -> read s' = drop (from s') (sent s')))).
Proof.
  intros Hinv%reachable_inv Es Hcl Hrun. pose proof (work_bound _ _ Hinv) as Hb.
  destruct (own_steps _ _ _ _ Hrun Hinv) as (Hinv' & Es' & Hcl' & Hw). split; [lia|]. intros Hidle.
  destruct (idle_stream stored_pn s') as [Ech Hend]; [done|congruence|congruence|done|]. split; [done|].
  destruct Hend as [?|(E & ? & ?)]; [by left|right]. destruct Hinv' as (_ & Ht & _). unfold task_ok in Ht. rewrite E in Ht.
  destruct Ht as ((Hp & _ & Hall) & Hgot & Hon). unfold passed in *. rewrite Ech, app_nil_r in *. split_and!; [done..|].
  intros El. rewrite (Hall El). apply take_ge. by rewrite length_drop.
Qed.

(** ** Witnesses: a code is shown, then the phone pairs *)

Definition says (n : Z) (e : PairingEvent) : EventEnvelope := MkEnvelope "a" n 0 (Some (Pairing (Some e))).
Definition noise : EventEnvelope := MkEnvelope "a" 0 0 (Some (OtherWire 4 [])).

Definition shown : list EventEnvelope := [noise; says 1 (QrCode "2@x"); noise; says 2 (Paired [])].

(** The call as it is when the account has said all that. *)
Definition paired_now : PairingStream :=
  MkPairingStream shown false false Streaming (Receiving 1) [] [] true 1 [1%nat] [] false.

Lemma paired_now_reachable : reachable (Ok false) paired_now.
Proof.
  exists [noise], false.
  eapply rtc_l; [apply by_call, step_unpaired; done|]. eapply rtc_l; [apply by_call, step_connect; done|].
  eapply rtc_l; [apply by_call; by eapply (step_connected _ _ 1)|].
  eapply rtc_l; [apply by_world, (step_publish _ (says 1 (QrCode "2@x"))); done|].
  eapply rtc_l; [apply by_world, (step_publish _ noise); done|].
  eapply rtc_l; [apply by_world, (step_publish _ (says 2 (Paired []))); done|]. apply rtc_refl.
Qed.

(** And when the client has read it all. *)
Definition paired_read : PairingStream :=
  MkPairingStream shown false false Streaming Over [] [Some (QrCode "2@x"); Some (Paired [])] true 1 [1%nat]
    [says 1 (QrCode "2@x"); noise; says 2 (Paired [])] false.

Lemma paired_read_run : nsteps OwnStep 7 paired_now paired_read.
Proof.
  eapply nsteps_l; [left; by eapply step_recv|]. eapply nsteps_l; [left; eapply step_send; [done|done|cbn; unfold CHANNEL; lia]|].
  eapply nsteps_l; [right; by eapply step_read|]. eapply nsteps_l; [left; by eapply step_recv|].
  eapply nsteps_l; [left; by eapply step_recv|]. eapply nsteps_l; [left; eapply step_send; [done|done|cbn; unfold CHANNEL; lia]|].
  eapply nsteps_l; [right; by eapply step_read|]. apply nsteps_O.
Qed.

Lemma paired_read_reachable : reachable (Ok false) paired_read.
Proof.
  destruct paired_now_reachable as (before & down & H). exists before, down. etrans; [exact H|].
  apply (rtc_subrel OwnStep); [intros s s' [?|?]; [by apply by_task|by apply by_client]|]. apply rtc_nsteps. exists 7%nat. exact paired_read_run.
Qed.

Lemma pairing_stream_relays_witness :
  reachable (Ok false) paired_read /\ at_end paired_read /\
  exists before u, got paired_read = before ++ [u] /\ ends u /\ Forall goes_on before.
Proof.
  split; [exact paired_read_reachable|]. split; [done|].
  destruct (pairing_stream_relays (Ok false) paired_read paired_read_reachable) as (_ & _ & _ & _ & _ & H).
  destruct H as [H|(H & _)]; done.
Defined.

Lemma pairing_stream_finishes_witness :
  nsteps OwnStep 7 paired_now paired_read /\ (7 <= 12)%nat.
Proof.
  split; [exact paired_read_run|].
  destruct (pairing_stream_finishes (Ok false) paired_now 7 paired_read) as [H _];
    [exact paired_now_reachable|reflexivity|reflexivity|exact paired_read_run|exact H].
Defined.
