(* ===== verification/AccountService.v ===== *)
(** * The account service (services/account_service.rs, services/mod.rs)

    Each call resolves its account, runs the registry's operation and answers with what the wire
    shows of the account.  The operations on the store and the maps are Registry.v's; connect and
    logout are Connections.v's steps, of which a call sees the answer; the pairing streams, once
    their account is resolved, are PairingStream.v.  At the end, what the service promises of an account that is paired. *)

From S2P Require Import Prelude StoreError Database Backend BlobCodec BlobCipher AppSyncStore Errors Wire Jids Engine Registry MediaStream Events PairingStream BoundaryProps.

(** ** The wire *)

Record Account : Type := MkAccount {
  a_uuid : string; a_external_ref : string; a_state : ConnectionState; a_jid : option pb.Jid; a_push_name : string }.

Record AccountStatus : Type := MkAccountStatus {
  st_uuid : string; st_state : ConnectionState; st_jid : option pb.Jid; st_push_name : string; st_paired_at : Z }.

Record PairWithQrRequest : Type := MkPairWithQr { qr_account : option pb.AccountRef; qr_backfill_history : bool }.
Record PairWithCodeRequest : Type := MkPairWithCode {
  code_account : option pb.AccountRef; code_phone_number : string; code_custom_code : option string; code_backfill_history : bool }.
Record ConnectAccountRequest : Type := MkConnectAccount { con_account : option pb.AccountRef; con_backfill_history : bool }.

(** What of [PairCodeOptions] is set; the rest is its default. *)
Record PairCodeOptions : Type := MkPairCodeOptions { phone_number : string; custom_code : option string }.

(** The arguments of [pairing_stream] and of a connect. *)
Record Connect : Type := MkConnect { pair_code : option PairCodeOptions; skip_history : bool }.

(** ** The calls *)

Definition Rpc (A : Type) : Type := World EngineDb * Registry -> result Status A * (World EngineDb * Registry).

Section service.
Context (metadata_value : string -> bool) (constraint : StoreError) (uuid_text : Uuid -> string).
Context `{ids : LibIds} (number : LUuid -> Uuid).
Context `{crypto : Crypto} `{keys : Keys} `{!Message DeviceBlob} (cipher : BlobCipher).

(** The library has one jid type: a stored device's jid is a [LJid]. *)
Context (lib_jid : BlobCodec.Jid -> LJid).

(** The state of a handle, the answer of its connect, of its logout. *)
Context (current_state : AccountHandle -> ConnectionState).
Context (connect : AccountHandle -> Connect -> WamuxResult unit) (logout_of : AccountHandle -> WamuxResult unit).

(** An operation that ends in [?]. *)
Definition asking {A} (m : Op A) : Rpc A := fun x => let '(r, x) := m x in (to_status metadata_value r, x).

Definition account_to_proto (handle : AccountHandle) : Account :=
  MkAccount (uuid_text (h_uuid handle)) (default "" (h_external_ref handle)) (current_state handle) None
    (default "" (h_push_name handle)).

(** A device that is not there or does not read is no jid here. *)
Definition load_jid (handle : AccountHandle) (x : World EngineDb * Registry) : option pb.Jid * (World EngineDb * Registry) :=
  let '(r, w) := within app_db with_app (load (device_backend cipher (h_device_id handle))) x.1 in
  (device ← mjoin (result_ok r);
   jid ← (match pn device with Some jid => Some jid | None => lid device end);
   relay_lib_jid (lib_jid jid), (w, x.2)).

Definition status_of (handle : AccountHandle) (jid : option pb.Jid) : AccountStatus :=
  MkAccountStatus (uuid_text (h_uuid handle)) (current_state handle) jid (default "" (h_push_name handle)) 0.

(** [registry.resolve(&AccountRef::from_proto(..)?)?]. *)
Definition named (account : option pb.AccountRef) (r : Registry) : result Status AccountHandle :=
  to_status metadata_value (account ← account_from_proto account; resolve uuid_text number account r).

(** A call on the account it names. *)
Definition on_account {A} (account : option pb.AccountRef) (k : AccountHandle -> Rpc A) : Rpc A := fun x =>
  match named account x.2 with
  | Ok handle => k handle x
  | Err e => (Err e, x)
  end.

(** [uuid] and [now] are what the store mints and reads. *)
Definition create_account (uuid : Uuid) (now : Z) (external_ref : option string) : Rpc Account := fun x =>
  let '(r, x) := asking (Registry.create_account constraint uuid external_ref now) x in (account_to_proto <$> r, x).

Definition list_accounts : Rpc (list Account) := fun x => (Ok (account_to_proto <$> list_handles x.2), x).

Definition get_account_status (reference : pb.AccountRef) : Rpc AccountStatus :=
  on_account (Some reference) (fun handle x => let '(jid, x) := load_jid handle x in (Ok (status_of handle jid), x)).

Definition connect_account (req : ConnectAccountRequest) : Rpc AccountStatus :=
  on_account (con_account req) (fun handle x =>
    (_ ← to_status metadata_value (connect handle (MkConnect None (negb (con_backfill_history req)))); Ok (status_of handle None), x)).

Definition disconnect_account (reference : pb.AccountRef) : Rpc AccountStatus :=
  on_account (Some reference) (fun handle x => (Ok (status_of handle None), x)).

Definition logout (reference : pb.AccountRef) : Rpc unit :=
  on_account (Some reference) (fun handle x => (to_status metadata_value (logout_of handle), x)).

Definition delete_account (reference : pb.AccountRef) : Rpc unit :=
  on_account (Some reference) (fun handle => asking (Registry.delete_account handle)).

(** The pairing calls, to the check their stream begins with: whom they connect and how, and the
    answer of the check. *)
Definition pairing (handle : AccountHandle) (c : Connect) : Rpc (AccountHandle * Connect * WamuxResult bool) := fun x =>
  let '(stored_pn, x) := has_stored_pn cipher handle x in (Ok (handle, c, stored_pn), x).

Definition pair_with_qr (req : PairWithQrRequest) : Rpc (AccountHandle * Connect * WamuxResult bool) :=
  on_account (qr_account req) (fun handle => pairing handle (MkConnect None (negb (qr_backfill_history req)))).

Definition pair_with_code (req : PairWithCodeRequest) : Rpc (AccountHandle * Connect * WamuxResult bool) :=
  on_account (code_account req) (fun handle =>
    pairing handle (MkConnect (Some (MkPairCodeOptions (code_phone_number req) (code_custom_code req)))
      (negb (code_backfill_history req)))).
End service.

(** ** What is promised of a paired account *)

Section paired.
Context (metadata_value : string -> bool) (uuid_text : Uuid -> string) `{ids : LibIds} (number : LUuid -> Uuid).
Context `{crypto : Crypto} `{keys : Keys} `{!Message DeviceBlob} (cipher : BlobCipher).

(** What the store has for a handle: nothing, or a device that opens and reads or does not. *)
Definition stored_device (handle : AccountHandle) (d : EngineDb) : option (StoreResult Device) :=
  (fun stored => plain ← open_row (device_backend cipher (h_device_id handle)) "device" "data" [] stored; decode_device plain)
    <$> LOAD_DEVICE (device_backend cipher (h_device_id handle)) (app_db d).

(** The library's own rule: a device with a phone jid logs in, any other registers. *)
Definition holds_pn (stored : option (StoreResult Device)) : WamuxResult bool :=
  match stored with
  | None => Ok false
  | Some (Ok device) => Ok (bool_decide (is_Some (pn device)))
  | Some (Err e) => Err (Store e)
  end.

Lemma has_stored_pn_cases handle (w : World EngineDb) r :
  let '(res, (w', r')) := has_stored_pn cipher handle (w, r) in
  db w' = db w /\ r' = r /\
  (res = holds_pn (stored_device handle (db w)) \/ (exists e, res = Err (Store e)) /\ faults w <> []).
Proof using Type.
  unfold has_stored_pn, on_store, within, load, query, stmt, mbind, run_bind, of_result, stored_device, holds_pn. cbn.
  assert (Hdb : with_app (app_db (db w)) (db w) = db w) by (by destruct (db w)).
  set (row := device_rows (app_db (db w)) !! h_device_id handle). clearbody row.
  destruct (faults w) as [|[|e|e] fs]; cbn;
    try (split_and!; [done..|right; split; [by eexists|done]]);
    (destruct row as [stored|]; cbn; [|split_and!; [done..|by left]];
     set (opened := open_row (device_backend cipher (h_device_id handle)) "device" "data" [] stored); clearbody opened;
     destruct opened as [plain|e]; cbn; [|split_and!; [done..|by left]];
     destruct (decode_device plain) as [device|e]; cbn; split_and!; first [done|by left]).
Qed.

(** A pairing request connects nothing for an account whose stored device holds a phone jid:
    whatever fails and however its stream runs, no connect begins and the client is sent nothing.
    The check leaves the store and the registry as they were, answers with what the store has when
    no statement fails, and never takes a failure, or a device that does not open or does not read,
    for an account that is not paired. *)
Theorem paired_account_never_connects (req : PairWithQrRequest + PairWithCodeRequest) w r h c stored_pn w' r' :
  match req with
  | inl req => pair_with_qr metadata_value uuid_text number cipher req
  | inr req => pair_with_code metadata_value uuid_text number cipher req
  end (w, r) = (Ok (h, c, stored_pn), (w', r')) ->
  db w' = db w /\ r' = r /\
  (faults w = [] -> stored_pn = holds_pn (stored_device h (db w))) /\
  (stored_pn = Ok false -> stored_device h (db w) = None \/
     exists device, stored_device h (db w) = Some (Ok device) /\ pn device = None) /\
  (forall device s, stored_device h (db w) = Some (Ok device) -> is_Some (pn device) ->
     reachable stored_pn s -> connects s = [] /\ got s = []).
Proof using Type.
  intros H. assert (Hcheck : has_stored_pn cipher h (w, r) = (stored_pn, (w', r'))).
  { destruct req as [req|req]; cbv beta iota in H; unfold pair_with_qr, pair_with_code, on_account, pairing in H; cbn [snd] in H;
      (destruct (named _ _ _ _ _) as [handle|e]; [|done]; destruct (has_stored_pn cipher handle (w, r)) as [p x] eqn:E;
       injection H as <- _ -> ->; done). }
  pose proof (has_stored_pn_cases h w r) as Hc. rewrite Hcheck in Hc. destruct Hc as (Hdb & Hr & Hres).
  assert (Hfalse : stored_pn = Ok false -> stored_device h (db w) = None \/
     exists device, stored_device h (db w) = Some (Ok device) /\ pn device = None).
  { intros ->. destruct Hres as [Hres|[[e Hres] _]]; [|done]. unfold holds_pn in Hres.
    destruct (stored_device h (db w)) as [[device|e]|]; [right|done|by left]. exists device. split; [done|].
    by destruct (pn device). }
  split_and!; [done|done| |done|].
  - intros Hf. by destruct Hres as [?|[_ ?]].
  - intros device s Hs [jid Hpn] Hreach.
    assert (Hn : stored_pn <> Ok false).
    { intros E. destruct (Hfalse E) as [E'|(d & E' & Hd)]; [congruence|]. rewrite Hs in E'. injection E' as <-. congruence. }
    destruct (reachable_inv _ _ Hreach) as (Hcall & Htask & _). unfold call_ok, task_ok, passed in *.
    assert (Hnot : task s = NotSpawned) by (destruct (call s); tauto). rewrite Hnot in Htask.
    destruct Htask as [Hp _]. apply app_nil in Hp as [-> _]. split; [|done].
    destruct (call s); tauto.
Qed.
End paired.

(** ** Witness: an account paired before the daemon started *)

#[local] Instance one_device_message : Message DeviceBlob :=
  {| encode_to_vec _ := []; decode _ := Ok (device_to_wire toy_device) |}.

Definition paired_handle : AccountHandle := MkAccountHandle 11 (Some "a") 1 None.
Definition paired_registry : Registry := MkRegistry {[11 := paired_handle]} {["a" := 11]}.
Definition paired_store : EngineDb := with_app (MkAppDb {[1]} ∅ ∅ ∅ {[1 := []]}) empty_store.

Definition refused_call : PairingStream := set_call (Refused already_paired) (open_call [] false).

Lemma paired_account_never_connects_witness :
  (pair_with_qr (fun _ => true) (fun _ => "") (ids := toy_ids) (fun _ => 0) (crypto := toy_crypto) (keys := toy_keys) passthrough
     (MkPairWithQr (Some (pb.MkAccountRef (Some (pb.ExternalRef "a")))) false) (MkWorld paired_store [], paired_registry)).1 =
    Ok (paired_handle, MkConnect None true, Ok true) /\
  reachable (Ok true) refused_call /\ connects refused_call = [] /\ got refused_call = [].
Proof.
  assert (Hr : reachable (Ok true) refused_call) by (exists [], false; eapply rtc_once, by_call, step_paired; done).
  destruct (pair_with_qr (fun _ => true) (fun _ => "") (ids := toy_ids) (fun _ => 0) (crypto := toy_crypto) (keys := toy_keys) passthrough
     (MkPairWithQr (Some (pb.MkAccountRef (Some (pb.ExternalRef "a")))) false) (MkWorld paired_store [], paired_registry))
    as [r [w' r']] eqn:E.
  assert (Er : r = Ok (paired_handle, MkConnect None true, Ok true)) by (by vm_compute in E; injection E as <- _ _).
  subst r. pose proof (paired_account_never_connects (fun _ => true) (fun _ => "") (ids := toy_ids) (fun _ => 0)
    (crypto := toy_crypto) (keys := toy_keys) passthrough
    (inl (MkPairWithQr (Some (pb.MkAccountRef (Some (pb.ExternalRef "a")))) false)) _ _ _ _ _ _ _ E) as (_ & _ & _ & _ & H).
  split; [reflexivity|]. split; [exact Hr|].
  apply (H (reloaded toy_device)); [reflexivity|by eexists|exact Hr].
Defined.
