(* ===== verification/MessageProjection.v ===== *)
(** * What of a message the wire shows (domain/event_mapping.rs, domain/sticker_packs.rs)

    A message WhatsApp delivered, one this daemon sent and one of a channel's history all go
    through [project_content].  The library's message is a parameter, seen through the fields the
    code reads; [encode_message] is its protobuf. *)

From S2P Require Import Prelude Errors Wire RequestEnums Jids.

(** ** The library's messages (waproto) *)

Module wa.
Record MessageKey : Type := MkMessageKey {
  remote_jid : option string; id : option string; from_me : option bool; participant : option string }.

Record ContextInfo : Type := MkContextInfo {
  stanza_id : option string; ctx_participant : option string; ctx_remote_jid : option string; mentioned_jid : list string }.

Record ReactionMessage : Type := MkReaction { reaction_text : option string; reaction_key : option MessageKey }.

Inductive ProtocolType : Type := REVOKE | MESSAGE_EDIT | OtherProtocol (number : Z).

(** [M] is the message the edit gives. *)
Record ProtocolMessage (M : Type) : Type := MkProtocol {
  p_type : option ProtocolType; p_key : option MessageKey; p_edited : option M }.

Inductive SecretEncType : Type := SECRET_MESSAGE_EDIT | OtherSecret (number : Z).

(** The fields the five media messages have in common; an audio and a sticker have no caption. *)
Record MediaFile : Type := MkMediaFile {
  direct_path : option string; media_key : option bytes; file_enc_sha256 : option bytes; file_sha256 : option bytes;
  file_length : option Z; mimetype : option string; m_caption : option string }.

Inductive StickerPackOrigin : Type := FIRST_PARTY | THIRD_PARTY | USER_CREATED | OriginUnnamed (number : Z).

Record Sticker : Type := MkSticker {
  file_name : option string; is_animated : option bool; emojis : list string; accessibility_label : option string;
  is_lottie : option bool; sticker_mimetype : option string }.

Record StickerPackMessage : Type := MkStickerPack {
  sp_direct_path : option string; sp_media_key : option bytes; sp_file_enc_sha256 : option bytes;
  sp_file_sha256 : option bytes; sp_file_length : option Z; sp_caption : option string;
  sticker_pack_id : option string; sp_name : option string; sp_publisher : option string; pack_description : option string;
  stickers : list Sticker; tray_icon_file_name : option string; sticker_pack_size : option Z;
  sticker_pack_origin : option StickerPackOrigin;
  thumbnail_direct_path : option string; thumbnail_enc_sha256 : option bytes; thumbnail_sha256 : option bytes;
  thumbnail_width : option Z; thumbnail_height : option Z }.
End wa.

Arguments wa.MkProtocol {M} _ _ _.
Arguments wa.p_type {M} _.
Arguments wa.p_key {M} _.
Arguments wa.p_edited {M} _.

Class WaMessages : Type := {
  Message : Type;
  encode_message : Message -> bytes;
  conversation : Message -> option string;
  extended_text_message : Message -> option (option string);          (* and its text *)
  context_info : Message -> option wa.ContextInfo;                    (* [MessageExt::context_info] *)
  reaction_message : Message -> option wa.ReactionMessage;
  protocol_message : Message -> option (wa.ProtocolMessage Message);
  edited_message : Message -> option (option Message);                (* a FutureProofMessage, and the message in it *)
  secret_encrypted_message : Message -> option (option wa.SecretEncType);
  image_message : Message -> option wa.MediaFile;
  video_message : Message -> option wa.MediaFile;
  audio_message : Message -> option wa.MediaFile;
  document_message : Message -> option wa.MediaFile;
  sticker_message : Message -> option wa.MediaFile;
  sticker_pack_message : Message -> option wa.StickerPackMessage;
}.

(** chrono's [DateTime<Utc>]. *)
Class Clock : Type := {
  DateTime : Type;
  timestamp_millis : DateTime -> Z;
  timestamp_secs : DateTime -> Z;       (* [timestamp] *)
}.

(** ** The wire (events.proto) *)

Module ev.
Inductive StickerPackOrigin : Type := OriginUnspecified | OriginUnknown | FirstParty | ThirdParty | UserCreated.

Record StickerPackEntry : Type := MkEntry {
  e_file_name : string; e_is_animated : bool; e_emojis : list string; e_accessibility_label : string;
  e_is_lottie : bool; e_mime_type : string }.

Record StickerPackInfo : Type := MkPackInfo {
  pack_id : string; pack_name : string; publisher : string; description : string; pack_stickers : list StickerPackEntry;
  pack_tray_icon_file_name : string; pack_size : Z; origin : StickerPackOrigin; thumbnail : option pb.MediaDescriptor;
  pack_thumbnail_width : Z; pack_thumbnail_height : Z }.

Record InboundMessage : Type := MkInbound {
  key : option pb.MessageKey; chat : option pb.Jid; sender : option pb.Jid; timestamp : Z; push_name : string;
  text : string; quote : option pb.QuoteContext; mentions : list pb.Mention; media : option pb.MediaDescriptor;
  caption : string; reaction : string; reaction_target : option pb.MessageKey; is_edit : bool; is_delete : bool;
  protocol_target : option pb.MessageKey; sender_alt : option pb.Jid; recipient_alt : option pb.Jid;
  sticker_pack : option StickerPackInfo; raw_message : bytes }.
End ev.

(** ** Sticker packs (domain/sticker_packs.rs) *)

Definition pack_descriptor (pack : wa.StickerPackMessage) : pb.MediaDescriptor :=
  pb.MkMediaDescriptor (default "" (wa.sp_direct_path pack)) (default [] (wa.sp_media_key pack))
    (default [] (wa.sp_file_enc_sha256 pack)) (default [] (wa.sp_file_sha256 pack)) (default 0 (wa.sp_file_length pack))
    "" (number (media_to_wire StickerPack)).

(** One media key for two files; the message declares no length for the thumbnail. *)
Definition thumbnail_descriptor (pack : wa.StickerPackMessage) : option pb.MediaDescriptor :=
  direct_path ← wa.thumbnail_direct_path pack;
  Some (pb.MkMediaDescriptor direct_path (default [] (wa.sp_media_key pack)) (default [] (wa.thumbnail_enc_sha256 pack))
          (default [] (wa.thumbnail_sha256 pack)) 0 "" (number (media_to_wire StickerPackThumbnail))).

Definition origin_of (origin : wa.StickerPackOrigin) : ev.StickerPackOrigin :=
  match origin with
  | wa.FIRST_PARTY => ev.FirstParty
  | wa.THIRD_PARTY => ev.ThirdParty
  | wa.USER_CREATED => ev.UserCreated
  | wa.OriginUnnamed _ => ev.OriginUnknown
  end.

Definition sticker_pack_entry (sticker : wa.Sticker) : ev.StickerPackEntry :=
  ev.MkEntry (default "" (wa.file_name sticker)) (default false (wa.is_animated sticker)) (wa.emojis sticker)
    (default "" (wa.accessibility_label sticker)) (default false (wa.is_lottie sticker)) (default "" (wa.sticker_mimetype sticker)).

Definition sticker_pack_info (pack : wa.StickerPackMessage) : ev.StickerPackInfo :=
  ev.MkPackInfo (default "" (wa.sticker_pack_id pack)) (default "" (wa.sp_name pack)) (default "" (wa.sp_publisher pack))
    (default "" (wa.pack_description pack)) (sticker_pack_entry <$> wa.stickers pack)
    (default "" (wa.tray_icon_file_name pack)) (default 0 (wa.sticker_pack_size pack))
    (default ev.OriginUnspecified (origin_of <$> wa.sticker_pack_origin pack)) (thumbnail_descriptor pack)
    (default 0 (wa.thumbnail_width pack)) (default 0 (wa.thumbnail_height pack)).

(** ** The projection (domain/event_mapping.rs) *)

(** [media_descriptor!]. *)
Definition media_descriptor (m : wa.MediaFile) (kind : MediaKind) : pb.MediaDescriptor :=
  pb.MkMediaDescriptor (default "" (wa.direct_path m)) (default [] (wa.media_key m)) (default [] (wa.file_enc_sha256 m))
    (default [] (wa.file_sha256 m)) (default 0 (wa.file_length m)) (default "" (wa.mimetype m)) (number (media_to_wire kind)).

Definition wa_key_to_proto (k : wa.MessageKey) : pb.MessageKey :=
  pb.MkMessageKey (relay_jid (default "" (wa.remote_jid k))) (default "" (wa.id k)) (default false (wa.from_me k))
    (relay_jid (default "" (wa.participant k))).

(** An empty mention is dropped. *)
Definition mentions_of (ci : wa.ContextInfo) : list pb.Mention :=
  (fun jid => pb.MkMention (Some jid)) <$> omap relay_jid (wa.mentioned_jid ci).

(** The quoted chat is the context's, or the reply's own when the context names none. *)
Definition quote_of (ci : wa.ContextInfo) (reply_chat : string) : option pb.QuoteContext :=
  stanza_id ← wa.stanza_id ci;
  let participant := relay_jid (default "" (wa.ctx_participant ci)) in
  let quoted_chat := jid ← wa.ctx_remote_jid ci; if str_is_empty jid then None else Some jid in
  Some (pb.MkQuoteContext
    (Some (pb.MkMessageKey (relay_jid (default reply_chat quoted_chat)) stanza_id false participant)) participant).

(** What [project_content] writes in a message already addressed. *)
Record Content : Type := MkContent {
  c_text : string; c_quote : option pb.QuoteContext; c_mentions : list pb.Mention; c_media : option pb.MediaDescriptor;
  c_caption : string; c_reaction : string; c_reaction_target : option pb.MessageKey; c_is_edit : bool; c_is_delete : bool;
  c_protocol_target : option pb.MessageKey; c_sticker_pack : option ev.StickerPackInfo }.

Section projection.
Context `{messages : WaMessages}.

Definition message_text (m : Message) : option string :=
  match conversation m with
  | Some t => Some t
  | None => mjoin (extended_text_message m)
  end.

(** A revoke is at the top, an edit one level down; the top wins. *)
Definition effective_protocol_message (msg : Message) : option (wa.ProtocolMessage Message) :=
  match protocol_message msg with
  | Some pm => Some pm
  | None => edited ← edited_message msg; inner ← edited; protocol_message inner
  end.

Definition is_secret_message_edit (msg : Message) : bool :=
  match mjoin (secret_encrypted_message msg) with
  | Some wa.SECRET_MESSAGE_EDIT => true
  | _ => false
  end.

Definition extract_media (msg : Message) : option (pb.MediaDescriptor * string) :=
  let caption_of (caption : option string) := default "" caption in
  match image_message msg, video_message msg, audio_message msg, document_message msg, sticker_message msg,
    sticker_pack_message msg with
  | Some m, _, _, _, _, _ => Some (media_descriptor m Image, caption_of (wa.m_caption m))
  | None, Some m, _, _, _, _ => Some (media_descriptor m Video, caption_of (wa.m_caption m))
  | None, None, Some m, _, _, _ => Some (media_descriptor m Audio, "")
  | None, None, None, Some m, _, _ => Some (media_descriptor m Document, caption_of (wa.m_caption m))
  | None, None, None, None, Some m, _ => Some (media_descriptor m Sticker, "")
  | None, None, None, None, None, Some m => Some (pack_descriptor m, caption_of (wa.sp_caption m))
  | None, None, None, None, None, None => None
  end.

(** [out.text] as [project_content] leaves it before an edit is looked at. *)
Definition project_text (out : string) (msg : Message) : string :=
  match conversation msg with
  | Some text => text
  | None =>
      match extended_text_message msg with
      | Some (Some text) => text
      | _ => out
      end
  end.

(** [project_protocol_message], on the text, the two flags and the target. *)
Definition project_protocol_message (out : string * bool * bool * option pb.MessageKey) (pm : wa.ProtocolMessage Message) :
    string * bool * bool * option pb.MessageKey :=
  let '(text, is_edit, is_delete, target) := out in
  match wa.p_type pm with
  | Some wa.REVOKE => (text, is_edit, true, wa_key_to_proto <$> wa.p_key pm)
  | Some wa.MESSAGE_EDIT =>
      (match wa.p_edited pm with
       | Some edited => default "" (message_text edited)
       | None => text
       end, true, is_delete, wa_key_to_proto <$> wa.p_key pm)
  | _ => out
  end.

Definition project_content (out : Content) (msg : Message) (chat : string) : Content :=
  let '(mentions, quote) := match context_info msg with
    | Some ci => (mentions_of ci, quote_of ci chat)
    | None => (c_mentions out, c_quote out)
    end in
  let '(reaction, reaction_target) := match reaction_message msg with
    | Some r => (default "" (wa.reaction_text r), wa_key_to_proto <$> wa.reaction_key r)
    | None => (c_reaction out, c_reaction_target out)
    end in
  let flags := (project_text (c_text out) msg, c_is_edit out, c_is_delete out, c_protocol_target out) in
  let '(text, is_edit, is_delete, target) := match effective_protocol_message msg with
    | Some pm => project_protocol_message flags pm
    | None => flags
    end in
  let is_edit := if is_secret_message_edit msg then true else is_edit in
  let '(media, caption) := match extract_media msg with
    | Some (descriptor, caption) => (Some descriptor, caption)
    | None => (c_media out, c_caption out)
    end in
  MkContent text quote mentions media caption reaction reaction_target is_edit is_delete target
    (sticker_pack_info <$> sticker_pack_message msg).

(** [..Default::default()]. *)
Definition no_content : Content := MkContent "" None [] None "" "" None false false None None.

(** An addressed message with its content. *)
Definition with_content (key : option pb.MessageKey) (chat sender : option pb.Jid) (timestamp : Z) (push_name : string)
    (sender_alt recipient_alt : option pb.Jid) (raw : bytes) (c : Content) : ev.InboundMessage :=
  ev.MkInbound key chat sender timestamp push_name (c_text c) (c_quote c) (c_mentions c) (c_media c) (c_caption c)
    (c_reaction c) (c_reaction_target c) (c_is_edit c) (c_is_delete c) (c_protocol_target c) sender_alt recipient_alt
    (c_sticker_pack c) raw.

Context `{ids : LibIds} `{clock : Clock}.

(** [MessageInfo], and its [MessageSource]. *)
Record MessageInfo : Type := MkMessageInfo {
  info_id : string; source_chat : LJid; source_sender : LJid; source_is_from_me : bool;
  source_sender_alt : option LJid; source_recipient_alt : option LJid; info_timestamp : DateTime; info_push_name : string }.

Definition map_message (msg : Message) (info : MessageInfo) : ev.InboundMessage :=
  let chat := jid_display (source_chat info) in
  let sender := jid_display (source_sender info) in
  let key := pb.MkMessageKey (relay_jid chat) (info_id info) (source_is_from_me info) (relay_jid sender) in
  with_content (Some key) (relay_jid chat) (relay_jid sender) (timestamp_millis (info_timestamp info)) (info_push_name info)
    (relay_optional_lib_jid (source_sender_alt info)) (relay_optional_lib_jid (source_recipient_alt info))
    (encode_message msg) (project_content no_content msg chat).

(** A message this daemon sent, as WhatsApp would have echoed it. *)
Definition map_sent (key : pb.MessageKey) (chat sender : string) (timestamp_ms : Z) (msg : Message) : ev.InboundMessage :=
  with_content (Some key) (relay_jid chat) (relay_jid sender) timestamp_ms "" None None (encode_message msg)
    (project_content no_content msg chat).
End projection.

(** ** What an edge may read off a projected message *)

Section props.
Context `{messages : WaMessages}.

(** The protocol message a message carries: its own, or else the one in the edit container. *)
Inductive carries (msg : Message) : wa.ProtocolMessage Message -> Prop :=
| CarriesOwn pm : protocol_message msg = Some pm -> carries msg pm
| CarriesWrapped inner pm :
    protocol_message msg = None -> edited_message msg = Some (Some inner) -> protocol_message inner = Some pm -> carries msg pm.

Lemma carries_effective msg pm : carries msg pm <-> effective_protocol_message msg = Some pm.
Proof.
  unfold effective_protocol_message. split.
  - intros [? ->|? ? -> -> ?]; done.
  - destruct (protocol_message msg) as [p|] eqn:E; [intros [= <-]; by constructor|].
    destruct (edited_message msg) as [[inner|]|] eqn:Ee; cbn; try done. by apply CarriesWrapped.
Qed.

(** An edit that gives the new message. *)
Definition edits (msg : Message) (edited : Message) : Prop :=
  exists pm, carries msg pm /\ wa.p_type pm = Some wa.MESSAGE_EDIT /\ wa.p_edited pm = Some edited.

Definition has_type (msg : Message) (t : wa.ProtocolType) : Prop := exists pm, carries msg pm /\ wa.p_type pm = Some t.

Lemma text_of_message msg : project_text "" msg = default "" (message_text msg).
Proof. unfold project_text, message_text. destruct (conversation msg); [done|]. by destruct (extended_text_message msg) as [[]|]. Qed.

(** The four fields an edit or a revoke decides. *)
Lemma flags_projected msg chat :
  let c := project_content no_content msg chat in
  (c_text c, c_is_edit c, c_is_delete c, c_protocol_target c) =
  match effective_protocol_message msg with
  | Some pm =>
      match wa.p_type pm with
      | Some wa.REVOKE => (default "" (message_text msg), is_secret_message_edit msg, true, wa_key_to_proto <$> wa.p_key pm)
      | Some wa.MESSAGE_EDIT =>
          (default "" (message_text (default msg (wa.p_edited pm))), true, false, wa_key_to_proto <$> wa.p_key pm)
      | _ => (default "" (message_text msg), is_secret_message_edit msg, false, None)
      end
  | None => (default "" (message_text msg), is_secret_message_edit msg, false, None)
  end.
Proof.
  unfold project_content. cbn -[project_text effective_protocol_message is_secret_message_edit]. rewrite text_of_message.
  destruct (context_info msg), (reaction_message msg), (extract_media msg) as [[]|], (effective_protocol_message msg) as [pm|];
    cbn -[is_secret_message_edit]; unfold project_protocol_message;
    try (destruct (wa.p_type pm) as [[]|]; cbn -[is_secret_message_edit]); try destruct (wa.p_edited pm); cbn -[is_secret_message_edit];
    by destruct (is_secret_message_edit msg).
Qed.

(** What is shown of a message, apart from how it is addressed. *)
Definition content_shown (m : ev.InboundMessage) : Content :=
  MkContent (ev.text m) (ev.quote m) (ev.mentions m) (ev.media m) (ev.caption m) (ev.reaction m) (ev.reaction_target m)
    (ev.is_edit m) (ev.is_delete m) (ev.protocol_target m) (ev.sticker_pack m).

Lemma context_projected msg chat :
  let c := project_content no_content msg chat in
  c_mentions c = match context_info msg with Some ci => mentions_of ci | None => [] end /\
  c_quote c = (ci ← context_info msg; quote_of ci chat) /\
  c_media c = (extract_media msg ≫= fun x => Some x.1) /\
  c_sticker_pack c = (sticker_pack_info <$> sticker_pack_message msg).
Proof.
  cbv zeta. unfold project_content.
  destruct (context_info msg), (reaction_message msg), (extract_media msg) as [[]|], (effective_protocol_message msg) as [pm|];
    cbn -[project_protocol_message]; try (destruct (project_protocol_message _ _) as [[[]]]); done.
Qed.

Lemma elem_of_mentions ci x :
  x ∈ mentions_of ci <-> exists s, s ∈ wa.mentioned_jid ci /\ s <> "" /\ x = pb.MkMention (Some (pb.MkJid s)).
Proof.
  unfold mentions_of. rewrite list_elem_of_fmap. setoid_rewrite list_elem_of_omap. unfold relay_jid, str_is_empty. split.
  - intros (j & -> & s & Hs & E). case_bool_decide; [done|]. injection E as <-. by exists s.
  - intros (s & Hs & Hf & ->). exists (pb.MkJid s). split; [done|]. exists s. split; [done|]. by rewrite bool_decide_eq_false_2.
Qed.

Lemma no_media msg :
  extract_media msg = None <->
  image_message msg = None /\ video_message msg = None /\ audio_message msg = None /\ document_message msg = None /\
  sticker_message msg = None /\ sticker_pack_message msg = None.
Proof.
  unfold extract_media. split; [|by intros (-> & -> & -> & -> & -> & ->)]. repeat case_match; try done.
Qed.

Lemma secret_edit msg : is_secret_message_edit msg = true <-> secret_encrypted_message msg = Some (Some wa.SECRET_MESSAGE_EDIT).
Proof. unfold is_secret_message_edit. by destruct (secret_encrypted_message msg) as [[[]|]|]. Qed.

Section flags.
Context (msg : Message) (chat : string).
Notation shown := (project_content no_content msg chat).

(** The four fields, by the protocol message. *)
Ltac by_flags :=
  generalize (flags_projected msg chat); cbv zeta; unfold has_type, edits; setoid_rewrite carries_effective;
  destruct (effective_protocol_message msg) as [[[[]|] key edit]|]; cbn -[project_content]; intros F;
  injection F; clear F; intros Fk Fd Fe Ft; rewrite ?Fk, ?Fd, ?Fe, ?Ft, ?secret_edit; naive_solver.

Lemma delete_shown : c_is_delete shown = true <-> has_type msg wa.REVOKE.
Proof. by_flags. Qed.
Lemma edit_shown :
  c_is_edit shown = true <-> has_type msg wa.MESSAGE_EDIT \/ secret_encrypted_message msg = Some (Some wa.SECRET_MESSAGE_EDIT).
Proof. by_flags. Qed.
Lemma target_shown k :
  c_protocol_target shown = Some k <->
  exists pm key, carries msg pm /\ (wa.p_type pm = Some wa.REVOKE \/ wa.p_type pm = Some wa.MESSAGE_EDIT) /\
    wa.p_key pm = Some key /\ k = wa_key_to_proto key.
Proof.
  generalize (flags_projected msg chat). cbv zeta. setoid_rewrite carries_effective.
  destruct (effective_protocol_message msg) as [[[[]|] [key|] edit]|]; cbn -[project_content]; intros F; injection F; intros -> _ _ _;
    naive_solver.
Qed.
Lemma text_edited edited : edits msg edited -> c_text shown = default "" (message_text edited).
Proof.
  intros (pm & Hc%carries_effective & Ht & He). generalize (flags_projected msg chat). cbv zeta. rewrite Hc, Ht, He.
  intros F. by injection F.
Qed.
Lemma text_own : ~ (exists edited, edits msg edited) -> c_text shown = default "" (message_text msg).
Proof.
  intros Hn. generalize (flags_projected msg chat). cbv zeta. destruct (effective_protocol_message msg) as [pm|] eqn:E.
  - destruct (wa.p_type pm) as [[]|] eqn:Et; [by intros [= ]|destruct (wa.p_edited pm) as [edited|] eqn:Ee|by intros [= ]..].
    + destruct Hn. exists edited, pm. by rewrite carries_effective.
    + by intros [= ].
  - by intros [= ].
Qed.
End flags.

Context `{ids : LibIds} `{clock : Clock}.

(** What an edge reads off a message is what the message says.  The whole message is in
    [raw_message]; [is_delete] is a revoke and [is_edit] an edit, or an encrypted one, wherever the
    protocol message sits (the message's own wins over the one in the edit container), and the
    target is that protocol message's key and never set otherwise; the text is the new one of an
    edit that gives it and else the message's own; a mention is each non-empty mentioned jid and
    nothing else; the quoted message's chat is the one the context names and else the chat of the
    reply; media is set when one of the six kinds is there.  An echo of the same message to the
    same chat shows the same, whoever sent it. *)
Theorem message_shown msg (info : MessageInfo) :
  let m := map_message msg info in
  let chat := jid_display (source_chat info) in
  ev.raw_message m = encode_message msg /\
  (ev.is_delete m = true <-> has_type msg wa.REVOKE) /\
  (ev.is_edit m = true <->
     has_type msg wa.MESSAGE_EDIT \/ secret_encrypted_message msg = Some (Some wa.SECRET_MESSAGE_EDIT)) /\
  (forall k, ev.protocol_target m = Some k <->
     exists pm key, carries msg pm /\ (wa.p_type pm = Some wa.REVOKE \/ wa.p_type pm = Some wa.MESSAGE_EDIT) /\
       wa.p_key pm = Some key /\ k = wa_key_to_proto key) /\
  (forall edited, edits msg edited -> ev.text m = default "" (message_text edited)) /\
  (~ (exists edited, edits msg edited) -> ev.text m = default "" (message_text msg)) /\
  (forall x, x ∈ ev.mentions m <->
     exists ci s, context_info msg = Some ci /\ s ∈ wa.mentioned_jid ci /\ s <> "" /\ x = pb.MkMention (Some (pb.MkJid s))) /\
  (forall ci id, context_info msg = Some ci -> wa.stanza_id ci = Some id ->
     exists q k, ev.quote m = Some q /\ pb.quoted q = Some k /\ pb.key_id k = id /\
       (forall quoted, wa.ctx_remote_jid ci = Some quoted -> quoted <> "" -> pb.key_chat k = Some (pb.MkJid quoted)) /\
       (wa.ctx_remote_jid ci = None \/ wa.ctx_remote_jid ci = Some "" -> pb.key_chat k = relay_jid chat)) /\
  (ev.media m = None <->
     image_message msg = None /\ video_message msg = None /\ audio_message msg = None /\ document_message msg = None /\
     sticker_message msg = None /\ sticker_pack_message msg = None) /\
  (forall key sender now, content_shown (map_sent key chat sender now msg) = content_shown m /\
     ev.raw_message (map_sent key chat sender now msg) = ev.raw_message m).
Proof.
  intros m chat. destruct (context_projected msg chat) as (Cm & Cq & Cd & _).
  split_and!; [done|apply delete_shown|apply edit_shown|apply target_shown|apply text_edited|apply text_own| | | |done].
  - intros x. change (ev.mentions m) with (c_mentions (project_content no_content msg chat)). rewrite Cm.
    destruct (context_info msg) as [ci|]; [rewrite elem_of_mentions; naive_solver|]. rewrite elem_of_nil. naive_solver.
  - intros ci id Hci Hid. change (ev.quote m) with (c_quote (project_content no_content msg chat)). rewrite Cq, Hci. cbn.
    unfold quote_of. rewrite Hid. cbn. do 2 eexists. split_and!; [done|done|done| |].
    + intros quoted -> Hq. cbn. unfold str_is_empty. rewrite bool_decide_eq_false_2 by done. cbn. unfold relay_jid, str_is_empty.
      by rewrite bool_decide_eq_false_2.
    + by intros [-> | ->].
  - change (ev.media m) with (c_media (project_content no_content msg chat)). rewrite Cd, <-no_media. by destruct (extract_media msg) as [[]|].
Qed.
End props.
