(* ===== verification/Relays.v ===== *)
(** * What every relay of an event is made of (domain/wire_time.rs, domain/stanza_node.rs)

    Times in milliseconds, stanzas as generic nodes; and what it is for a relay to lose nothing. *)

From S2P Require Import Prelude Errors Wire Jids MessageProjection.

(** ** Times (wire_time.rs) *)

Definition i64_max : Z := 2 ^ 63 - 1.
Definition i64_min : Z := - 2 ^ 63.

(** [i64::saturating_mul(1000)]. *)
Definition saturating_thousand (z : Z) : Z := Z.max i64_min (Z.min i64_max (z * 1000)).

(** Of a [u64]. *)
Definition saturating_i64 (value : Z) : Z := if value <=? i64_max then value else i64_max.
Definition millis_from_seconds (seconds : Z) : Z := saturating_thousand (saturating_i64 seconds).
(** Of an [i64]. *)
Definition millis_from_signed_seconds (seconds : Z) : Z := saturating_thousand seconds.

(** A time that is not nonsense. *)
Definition seconds_ok (z : Z) : Prop := i64_min <= z * 1000 <= i64_max.

(** ** Stanzas (stanza_node.rs) *)

(** wacore_binary's [Node]; an attribute's value is read by its [as_str]. *)
Inductive Node : Type := MkNode (node_tag : string) (attrs : list (string * string)) (content : option NodeContent)
with NodeContent : Type := NodeBytes (bytes : bytes) | NodeString (text : string) | Nodes (children : list Node).

(** [pb::StanzaNode], whose attributes are a map. *)
Inductive StanzaNode : Type := MkStanza (tag : string) (stanza_attrs : gmap string string) (stanza_content : option StanzaContent)
with StanzaContent : Type := StanzaBytes (bytes : bytes) | StanzaText (text : string) | Children (nodes : list StanzaNode).

(** [collect] into a HashMap: the last value of a key stays. *)
Definition collected (attrs : list (string * string)) : gmap string string :=
  foldl (fun m kv => <[kv.1 := kv.2]> m) ∅ attrs.

Fixpoint stanza_node_of (node : Node) : StanzaNode :=
  match node with
  | MkNode tag attrs content => MkStanza tag (collected attrs) (option_map content_of content)
  end
with content_of (content : NodeContent) : StanzaContent :=
  match content with
  | NodeBytes bytes => StanzaBytes bytes
  | NodeString text => StanzaText text
  | Nodes children => Children (map stanza_node_of children)
  end.

(** ** Relays that lose nothing

    [Lossless ok f]: two values that [ok] holds of and [f] makes alike are the same.  The instances
    are the pieces relays are made of; a record's relay follows field by field ([relays]). *)

Class Lossless {A B : Type} (ok : A -> Prop) (f : A -> B) : Prop :=
  lossless : forall a b, ok a -> ok b -> f a = f b -> a = b.

#[global] Hint Mode Lossless + + - + : typeclass_instances.

Definition opt_ok {A} (ok : A -> Prop) (o : option A) : Prop := match o with Some a => ok a | None => True end.

(** A relay that loses nothing of any value. *)
Definition anything {A} (_ : A) : Prop := True.

Lemma anything_opt {A} (o : option A) : opt_ok anything o.
Proof. by destruct o. Qed.
Lemma anything_all {A} (l : list A) : Forall anything l.
Proof. by induction l; constructor. Qed.

Create HintDb relays discriminated.
#[export] Hint Resolve anything_opt anything_all : relays.
#[export] Hint Extern 0 (anything _) => exact I : relays.

(** The instants that are whole to the millisecond, and to the second. *)
Class ClockLaws (clock : Clock) : Type := {
  whole : DateTime -> Prop;
  whole_inj : forall t u, whole t -> whole u -> timestamp_millis t = timestamp_millis u -> t = u;
  whole_second : DateTime -> Prop;
  whole_second_inj : forall t u, whole_second t -> whole_second u -> timestamp_secs t = timestamp_secs u -> t = u;
}.

#[global] Instance Lossless_opt {A B} (ok : A -> Prop) (f : A -> B) : Lossless ok f -> Lossless (opt_ok ok) (fmap (M := option) f).
Proof. intros H [a|] [b|] Ha Hb; try done. intros [= E]. f_equal. by apply H. Qed.

#[global] Instance Lossless_list {A B} (ok : A -> Prop) (f : A -> B) : Lossless ok f -> Lossless (Forall ok) (fmap (M := list) f).
Proof.
  intros H l. induction l as [|a l IH]; intros [|b k] Ha Hb; try done. cbn. intros [= E E']. inv Ha. inv Hb.
  f_equal; [by apply H|by apply IH].
Qed.

(** A relay of a value or of nothing, over the entries of a list: none is skipped. *)
#[global] Instance Lossless_omap {A B} (ok : A -> Prop) (f : A -> option B) :
  Lossless ok f -> (forall a, ok a -> is_Some (f a)) -> Lossless (Forall ok) (omap (M := list) f).
Proof.
  intros H Hs l. induction l as [|a l IH]; intros [|b k] Ha Hb; try done; cbn.
  - inv Hb as [|? ? Hb1 Hb2]. by destruct (Hs b Hb1) as [? ->].
  - inv Ha as [|? ? Ha1 Ha2]. by destruct (Hs a Ha1) as [? ->].
  - inv Ha as [|? ? Ha1 Ha2]. inv Hb as [|? ? Hb1 Hb2]. destruct (Hs a Ha1) as [x Ex], (Hs b Hb1) as [y Ey].
    rewrite Ex, Ey. intros [= -> E]. f_equal; [apply H; congruence|by apply IH].
Qed.

Definition filled (s : string) : Prop := s <> "".

Lemma relay_jid_filled s : filled s -> relay_jid s = Some (pb.MkJid s).
Proof. intros H. unfold relay_jid, str_is_empty. by rewrite bool_decide_eq_false_2. Qed.

#[global] Instance Lossless_relay_jid : Lossless filled relay_jid.
Proof. intros a b Ha Hb. rewrite !relay_jid_filled by done. congruence. Qed.

#[global] Instance Lossless_relay_opt : Lossless (opt_ok filled) (mbind (M := option) relay_jid).
Proof.
  intros [a|] [b|] Ha Hb; cbn in *; rewrite ?relay_jid_filled by done; congruence.
Qed.

#[global] Instance Lossless_default {A} (x : A) : Lossless (opt_ok (fun a => a <> x)) (default x).
Proof. intros [a|] [b|] Ha Hb; cbn in *; intros E; subst; done. Qed.

(** A jid that may be unset or empty. *)
#[global] Instance Lossless_relay_default : Lossless (opt_ok filled) (fun o => relay_jid (default "" o)).
Proof.
  assert (E : relay_jid "" = None) by done.
  intros [a|] [b|] Ha Hb; cbn in *; rewrite ?E, ?relay_jid_filled by done; congruence.
Qed.

#[global] Instance Lossless_millis_signed : Lossless seconds_ok millis_from_signed_seconds.
Proof. intros a b Ha Hb. unfold seconds_ok, millis_from_signed_seconds, saturating_thousand, i64_min, i64_max in *. lia. Qed.

#[global] Instance Lossless_millis : Lossless (fun z => 0 <= z /\ seconds_ok z) millis_from_seconds.
Proof.
  intros a b [H1 Ha] [H2 Hb]. unfold seconds_ok, millis_from_seconds, saturating_thousand, saturating_i64, i64_min, i64_max in *.
  destruct (Z.leb_spec a (2 ^ 63 - 1)), (Z.leb_spec b (2 ^ 63 - 1)); lia.
Qed.

Section jids.
Context `{ids : LibIds} `{laws : !LibIdsLaws ids}.

(** A jid with a text that parses. *)
Definition real_jid (j : LJid) : Prop := exists s, from_str s = Ok j.

Lemma real_jid_shown j : real_jid j -> filled (jid_display j).
Proof using laws. intros [s Hs]. by eapply jid_display_nonempty. Qed.

Lemma relay_real_jid j : real_jid j -> relay_lib_jid j = Some (pb.MkJid (jid_display j)).
Proof using laws. intros H. by apply relay_jid_filled, real_jid_shown. Qed.

#[global] Instance Lossless_display : Lossless real_jid jid_display.
Proof using laws. intros a b [s Ha] [t Hb] E. apply jid_roundtrip in Ha, Hb. congruence. Qed.

#[global] Instance Lossless_relay : Lossless real_jid relay_lib_jid.
Proof using laws. intros a b Ha Hb. rewrite !relay_real_jid by done. intros [= E]. by apply Lossless_display. Qed.

#[global] Instance Lossless_relay_optional : Lossless (opt_ok real_jid) relay_optional_lib_jid.
Proof using laws.
  intros [a|] [b|] Ha Hb; cbn in *; rewrite ?relay_real_jid by done; try done. intros [= E]. f_equal. by apply Lossless_display.
Qed.

Context `{clock : Clock} `{!ClockLaws clock}.

#[global] Instance Lossless_instant : Lossless whole timestamp_millis.
Proof. intros t u. apply whole_inj. Qed.
End jids.

(** ** Field by field *)

(** A relay named by its body. *)
Ltac by_field :=
  match goal with
  | |- ?a = ?a => reflexivity
  | H : ?a = ?b |- ?a = ?b => exact H
  | H : ?f ?a = ?f ?b |- ?a = ?b => eapply (lossless (f := f)); [..|exact H]; solve [assumption|auto with relays]
  | H : relay_jid (default "" ?a) = relay_jid (default "" ?b) |- ?a = ?b =>
      eapply (lossless (f := fun o => relay_jid (default "" o))); [..|exact H]; assumption
  end.

(** Two values of one constructor that a relay makes alike, the relay already unfolded. *)
Ltac lossless_fields E :=
  cbn in E; first [injection E|idtac]; clear E; intros; destruct_and?; repeat first [by_field|progress f_equal].

(** ... of a record, with the relay and the condition to unfold. *)
Tactic Notation "lossless_record" reference(ok) reference(f) :=
  intros [] [] Ha Hb E; unfold ok in Ha, Hb; cbn in Ha, Hb; unfold f in E; lossless_fields E.
