(* ===== verification/AppStateEvents.v ===== *)
(** * The account's own changes on the wire

    domain/app_state_update.rs, contact_update.rs, label_update.rs, label_sublist_update.rs,
    quick_reply_update.rs, sticker_update.rs, account_setting_update.rs, self_push_name_update.rs and
    the favorites of event_mapping.rs: what a linked device changed, one record of the library for
    each kind of change.  A record holds the fields the code reads. *)

From S2P Require Import Prelude Errors Wire RequestEnums Jids MessageProjection Relays.

Section events.
Context `{ids : LibIds} `{clock : Clock}.

(** ** Chat mutations (app_state_update.rs) *)

Record SyncActionMessage : Type := MkSyncActionMessage { sam_key : option wa.MessageKey; sam_timestamp : option Z }.

Record SyncActionMessageRange : Type := MkRange {
  last_message_timestamp : option Z; last_system_message_timestamp : option Z; range_messages : list SyncActionMessage }.

(** The chat, the times and whether a full sync brought it: what every update has. *)
Record Mutation : Type := MkMutation {
  mu_chat : LJid; mu_timestamp : DateTime; mu_action_timestamp : option DateTime; mu_from_full_sync : bool }.

Record ArchiveUpdate : Type := MkArchive { ar_mutation : Mutation; ar_archived : option bool; ar_range : option SyncActionMessageRange }.
Record PinUpdate : Type := MkPin { pin_mutation : Mutation; pin_pinned : option bool }.
Record MuteUpdate : Type := MkMute {
  mute_mutation : Mutation; mute_muted : option bool; mute_end_timestamp : option Z; auto_muted : option bool;
  mute_everyone_mention_end_timestamp : option Z }.
Record StarUpdate : Type := MkStar {
  star_mutation : Mutation; star_participant : option LJid; star_message_id : string; star_from_me : bool; star_starred : option bool }.
Record MarkChatAsReadUpdate : Type := MkMarkRead { mr_mutation : Mutation; mr_read : option bool; mr_range : option SyncActionMessageRange }.
Record DeleteChatUpdate : Type := MkDeleteChat { dc_mutation : Mutation; dc_delete_media : bool; dc_range : option SyncActionMessageRange }.
Record LockChatUpdate : Type := MkLock { lock_mutation : Mutation; lock_locked : option bool }.
Record ClearChatUpdate : Type := MkClear {
  cc_mutation : Mutation; cc_delete_starred : bool; cc_delete_media : bool; cc_range : option SyncActionMessageRange }.
Record DeleteMessageForMeUpdate : Type := MkDeleteForMe {
  df_mutation : Mutation; df_participant : option LJid; df_message_id : string; df_from_me : bool; df_delete_media : option bool;
  df_message_timestamp : option Z }.
Record UserStatusMuteUpdate : Type := MkStatusMute { um_mutation : Mutation; um_muted : option bool }.

(** The contract (app_state.proto). *)
Record PbRangeMessage : Type := MkPbRangeMessage { prm_key : option pb.MessageKey; prm_timestamp : option Z }.
Record PbRange : Type := MkPbRange {
  pr_last_message_timestamp : option Z; pr_last_system_message_timestamp : option Z; pr_messages : list PbRangeMessage }.

Inductive AppStateAction : Type :=
| ActArchive (archived : option bool) (range : option PbRange)
| ActPin (pinned : option bool)
| ActMute (muted : option bool) (end_timestamp : option Z) (auto : option bool) (mention_end : option Z)
| ActStar (participant : option pb.Jid) (message_id : string) (from_me : bool) (starred : option bool)
| ActMarkRead (read : option bool) (range : option PbRange)
| ActDeleteChat (delete_media : bool) (range : option PbRange)
| ActLock (locked : option bool)
| ActClearChat (delete_starred delete_media : bool) (range : option PbRange)
| ActDeleteMessageForMe (participant : option pb.Jid) (message_id : string) (from_me : bool) (delete_media : option bool)
    (message_timestamp : option Z)
| ActUserStatusMute (muted : option bool).

Record AppStateUpdate : Type := MkAppState {
  as_chat : option pb.Jid; as_timestamp : Z; as_action_timestamp : option Z; as_from_full_sync : bool; as_action : option AppStateAction }.

Definition app_state_of (m : Mutation) (action : AppStateAction) : AppStateUpdate :=
  MkAppState (relay_lib_jid (mu_chat m)) (timestamp_millis (mu_timestamp m)) (timestamp_millis <$> mu_action_timestamp m)
    (mu_from_full_sync m) (Some action).

Definition range_message_of (message : SyncActionMessage) : PbRangeMessage :=
  MkPbRangeMessage (wa_key_to_proto <$> sam_key message) (millis_from_signed_seconds <$> sam_timestamp message).

(** An unset range stays unset. *)
Definition message_range_of (range : option SyncActionMessageRange) : option PbRange :=
  (fun range => MkPbRange (millis_from_signed_seconds <$> last_message_timestamp range)
     (millis_from_signed_seconds <$> last_system_message_timestamp range) (range_message_of <$> range_messages range)) <$> range.

Definition archive_update_of (u : ArchiveUpdate) : AppStateUpdate :=
  app_state_of (ar_mutation u) (ActArchive (ar_archived u) (message_range_of (ar_range u))).
Definition pin_update_of (u : PinUpdate) : AppStateUpdate := app_state_of (pin_mutation u) (ActPin (pin_pinned u)).
(** Both ends cross as sent. *)
Definition mute_update_of (u : MuteUpdate) : AppStateUpdate :=
  app_state_of (mute_mutation u)
    (ActMute (mute_muted u) (mute_end_timestamp u) (auto_muted u) (mute_everyone_mention_end_timestamp u)).
Definition star_update_of (u : StarUpdate) : AppStateUpdate :=
  app_state_of (star_mutation u)
    (ActStar (relay_optional_lib_jid (star_participant u)) (star_message_id u) (star_from_me u) (star_starred u)).
Definition mark_read_update_of (u : MarkChatAsReadUpdate) : AppStateUpdate :=
  app_state_of (mr_mutation u) (ActMarkRead (mr_read u) (message_range_of (mr_range u))).
Definition delete_chat_update_of (u : DeleteChatUpdate) : AppStateUpdate :=
  app_state_of (dc_mutation u) (ActDeleteChat (dc_delete_media u) (message_range_of (dc_range u))).
Definition lock_chat_update_of (u : LockChatUpdate) : AppStateUpdate := app_state_of (lock_mutation u) (ActLock (lock_locked u)).
Definition clear_chat_update_of (u : ClearChatUpdate) : AppStateUpdate :=
  app_state_of (cc_mutation u) (ActClearChat (cc_delete_starred u) (cc_delete_media u) (message_range_of (cc_range u))).
Definition delete_message_for_me_update_of (u : DeleteMessageForMeUpdate) : AppStateUpdate :=
  app_state_of (df_mutation u)
    (ActDeleteMessageForMe (relay_optional_lib_jid (df_participant u)) (df_message_id u) (df_from_me u) (df_delete_media u)
       (millis_from_signed_seconds <$> df_message_timestamp u)).
Definition user_status_mute_update_of (u : UserStatusMuteUpdate) : AppStateUpdate :=
  app_state_of (um_mutation u) (ActUserStatusMute (um_muted u)).

(** ** Contacts (contact_update.rs) and the own push name *)

Record LibContactAction : Type := MkLibContact {
  full_name : option string; first_name : option string; lid_jid : option string; save_on_primary_addressbook : option bool;
  pn_jid : option string; username : option string }.

Record LibContactUpdate : Type := MkLibContactUpdate { lcu_mutation : Mutation; lcu_action : LibContactAction }.
Record ContactRemoved : Type := MkContactRemoved { cr_mutation : Mutation }.

Record PbContactAction : Type := MkPbContact {
  pca_full_name : option string; pca_first_name : option string; pca_lid : option pb.Jid; pca_save : option bool;
  pca_pn : option pb.Jid; pca_username : option string }.
Record PbContactUpdate : Type := MkPbContactUpdate {
  pcu_jid : option pb.Jid; pcu_timestamp : Z; pcu_action_timestamp : option Z; pcu_from_full_sync : bool;
  pcu_action : option PbContactAction; pcu_removed : bool }.

(** An empty jid is none. *)
Definition contact_action_of (action : LibContactAction) : PbContactAction :=
  MkPbContact (full_name action) (first_name action) (lid_jid action ≫= relay_jid) (save_on_primary_addressbook action)
    (pn_jid action ≫= relay_jid) (username action).

Definition contact_update_of (u : LibContactUpdate) : PbContactUpdate :=
  let m := lcu_mutation u in
  MkPbContactUpdate (relay_lib_jid (mu_chat m)) (timestamp_millis (mu_timestamp m)) (timestamp_millis <$> mu_action_timestamp m)
    (mu_from_full_sync m) (Some (contact_action_of (lcu_action u))) false.

Definition contact_removed_of (r : ContactRemoved) : PbContactUpdate :=
  let m := cr_mutation r in
  MkPbContactUpdate (relay_lib_jid (mu_chat m)) (timestamp_millis (mu_timestamp m)) (timestamp_millis <$> mu_action_timestamp m)
    (mu_from_full_sync m) None true.

Record SelfPushNameUpdated : Type := MkSelfPushName { old_name : string; new_name : string }.
Record PbSelfPushName : Type := MkPbSelfPushName { psn_old_name : string; psn_new_name : string }.
Definition self_push_name_update_of (u : SelfPushNameUpdated) : PbSelfPushName := MkPbSelfPushName (old_name u) (new_name u).

(** ** Labels and quick replies (label_update.rs, label_sublist_update.rs, quick_reply_update.rs) *)

(** [ListType], with a case for the variants this build does not name. *)
Inductive ListType : Type :=
| LNone | LUnread | LGroups | LFavorites | LPredefined | LCustom | LCommunity | LServerAssigned | LDrafted | LAiHandoff | LChannels
| LAiResponding | LArchived | LLocked | LInvites | LThirdParty | LLead | LMentionsAndReplies | LUnnamed (number : Z).

Inductive LabelListType : Type := ListUnspecified | ListUnknown | ListNamed (t : ListType).

Definition label_list_type_of (list_type : option ListType) : LabelListType :=
  match list_type with
  | None => ListUnspecified
  | Some (LUnnamed _) => ListUnknown
  | Some t => ListNamed t
  end.

Record LabelEditAction : Type := MkLabelEdit {
  le_name : option string; le_color : option Z; le_predefined_id : option Z; le_deleted : option bool; le_order_index : option Z;
  le_is_active : option bool; le_type : option ListType; le_is_immutable : option bool; le_mute_end_time_ms : option Z }.

Record LabelEditUpdate : Type := MkLabelEditUpdate {
  leu_label_id : string; leu_timestamp : DateTime; leu_from_full_sync : bool; leu_action : LabelEditAction }.
Record LabelAssociationUpdate : Type := MkLabelAssociation {
  lau_label_id : string; lau_chat : LJid; lau_timestamp : DateTime; lau_from_full_sync : bool; lau_labeled : option bool;
  lau_model_meta_data : option string }.
Record MessageLabelAssociationUpdate : Type := MkMessageLabel {
  mla_label_id : string; mla_chat : LJid; mla_message_id : string; mla_timestamp : DateTime; mla_from_full_sync : bool;
  mla_labeled : option bool; mla_model_meta_data : option string }.

Record PbLabelEdit : Type := MkPbLabelEdit {
  ple_name : option string; ple_color : option Z; ple_predefined_id : option Z; ple_deleted : option bool; ple_order_index : option Z;
  ple_is_active : option bool; ple_list_type : LabelListType; ple_is_immutable : option bool; ple_mute_end_time_ms : option Z }.

Inductive LabelAction : Type :=
| LabelEdited (edit : PbLabelEdit)
| LabelChat (chat : option pb.Jid) (labeled : option bool) (model_meta_data : option string)
| LabelMessage (chat : option pb.Jid) (message_id : string) (labeled : option bool) (model_meta_data : option string).

Record LabelUpdate : Type := MkLabelUpdate {
  lu_label_id : string; lu_timestamp : Z; lu_from_full_sync : bool; lu_action : option LabelAction }.

Definition label_update_of (label_id : string) (timestamp : DateTime) (from_full_sync : bool) (action : LabelAction) : LabelUpdate :=
  MkLabelUpdate label_id (timestamp_millis timestamp) from_full_sync (Some action).

Definition label_edit_of (a : LabelEditAction) : PbLabelEdit :=
  MkPbLabelEdit (le_name a) (le_color a) (le_predefined_id a) (le_deleted a) (le_order_index a) (le_is_active a)
    (label_list_type_of (le_type a)) (le_is_immutable a) (le_mute_end_time_ms a).

Definition label_edit_update_of (u : LabelEditUpdate) : LabelUpdate :=
  label_update_of (leu_label_id u) (leu_timestamp u) (leu_from_full_sync u) (LabelEdited (label_edit_of (leu_action u))).
Definition label_association_update_of (u : LabelAssociationUpdate) : LabelUpdate :=
  label_update_of (lau_label_id u) (lau_timestamp u) (lau_from_full_sync u)
    (LabelChat (relay_lib_jid (lau_chat u)) (lau_labeled u) (lau_model_meta_data u)).
Definition message_label_association_update_of (u : MessageLabelAssociationUpdate) : LabelUpdate :=
  label_update_of (mla_label_id u) (mla_timestamp u) (mla_from_full_sync u)
    (LabelMessage (relay_lib_jid (mla_chat u)) (mla_message_id u) (mla_labeled u) (mla_model_meta_data u)).

Inductive LabelSublistChange : Type := Upsert (sub_list_id : Z) | RemoveSublist | SublistUnnamed.

Record LabelSublistUpdate : Type := MkLabelSublist {
  ls_predefined_id : Z; ls_chat : LJid; ls_action_timestamp : option DateTime; ls_from_full_sync : bool; ls_change : LabelSublistChange }.

Inductive PbSublistChange : Type := UpsertSubListId (id : Z) | RemovedSublist.
Record PbLabelSublist : Type := MkPbLabelSublist {
  pls_predefined_id : Z; pls_chat : option pb.Jid; pls_action_timestamp : option Z; pls_from_full_sync : bool;
  pls_change : option PbSublistChange }.

Definition change_of (change : LabelSublistChange) : option PbSublistChange :=
  match change with
  | Upsert sub_list_id => Some (UpsertSubListId sub_list_id)
  | RemoveSublist => Some RemovedSublist
  | SublistUnnamed => None
  end.

Definition label_sublist_update_of (u : LabelSublistUpdate) : PbLabelSublist :=
  MkPbLabelSublist (ls_predefined_id u) (relay_lib_jid (ls_chat u)) (timestamp_millis <$> ls_action_timestamp u)
    (ls_from_full_sync u) (change_of (ls_change u)).

Record QuickReplyUpdate : Type := MkQuickReply {
  qr_id : string; qr_timestamp : DateTime; qr_from_full_sync : bool; qr_shortcut : option string; qr_message : option string;
  qr_keywords : list string; qr_count : option Z; qr_deleted : option bool; qr_associated_label_ids : list string }.
Record PbQuickReply : Type := MkPbQuickReply {
  pqr_id : string; pqr_timestamp : Z; pqr_from_full_sync : bool; pqr_shortcut : option string; pqr_message : option string;
  pqr_keywords : list string; pqr_count : option Z; pqr_deleted : option bool; pqr_associated_label_ids : list string }.

Definition quick_reply_update_of (u : QuickReplyUpdate) : PbQuickReply :=
  MkPbQuickReply (qr_id u) (timestamp_millis (qr_timestamp u)) (qr_from_full_sync u) (qr_shortcut u) (qr_message u)
    (qr_keywords u) (qr_count u) (qr_deleted u) (qr_associated_label_ids u).

(** ** Stickers (sticker_update.rs) *)

Record StickerAction : Type := MkStickerAction {
  sa_is_favorite : option bool; sa_url : option string; sa_width : option Z; sa_height : option Z; sa_is_lottie : option bool;
  sa_is_avatar_sticker : option bool; sa_image_hash : option string; sa_device_id_hint : option Z;
  sa_direct_path : option string; sa_media_key : option bytes; sa_file_enc_sha256 : option bytes; sa_file_length : option Z;
  sa_mimetype : option string }.

Record FavoriteStickerUpdate : Type := MkFavoriteSticker {
  fs_filehash : string; fs_timestamp : DateTime; fs_from_full_sync : bool; fs_action : StickerAction }.
Record RemoveRecentStickerUpdate : Type := MkRemoveRecent {
  rr_filehash : string; rr_timestamp : DateTime; rr_from_full_sync : bool; rr_last_sticker_sent_ts : option Z }.

Inductive PbStickerAction : Type :=
| Favorite (is_favorite : option bool) (media : option pb.MediaDescriptor) (url : option string) (width height : option Z)
    (is_lottie is_avatar_sticker : option bool) (image_hash : option string) (device_id_hint : option Z)
| RemoveRecent (last_sticker_sent_ts : option Z).

Record StickerUpdate : Type := MkStickerUpdate {
  su_filehash : string; su_timestamp : Z; su_from_full_sync : bool; su_action : option PbStickerAction }.

(** base64's standard decoding. *)
Context (base64_decode : string -> option bytes).

(** The hash of the decrypted bytes, when the filehash is one. *)
Definition file_sha256_of (filehash : string) : bytes :=
  match base64_decode filehash with
  | Some bytes => if (length bytes =? 32)%nat then bytes else []
  | None => []
  end.

(** Without a path there is nothing to download. *)
Definition sticker_media_of (action : StickerAction) (filehash : string) : option pb.MediaDescriptor :=
  direct_path ← sa_direct_path action;
  Some (pb.MkMediaDescriptor direct_path (default [] (sa_media_key action)) (default [] (sa_file_enc_sha256 action))
          (file_sha256_of filehash) (default 0 (sa_file_length action)) (default "" (sa_mimetype action))
          (number MediaType.Sticker)).

Definition sticker_update_of (filehash : string) (timestamp : DateTime) (from_full_sync : bool) (action : PbStickerAction) :
    StickerUpdate :=
  MkStickerUpdate filehash (timestamp_millis timestamp) from_full_sync (Some action).

Definition favorite_sticker_update_of (u : FavoriteStickerUpdate) : StickerUpdate :=
  let action := fs_action u in
  sticker_update_of (fs_filehash u) (fs_timestamp u) (fs_from_full_sync u)
    (Favorite (sa_is_favorite action) (sticker_media_of action (fs_filehash u)) (sa_url action) (sa_width action) (sa_height action)
       (sa_is_lottie action) (sa_is_avatar_sticker action) (sa_image_hash action) (sa_device_id_hint action)).

Definition remove_recent_sticker_update_of (u : RemoveRecentStickerUpdate) : StickerUpdate :=
  sticker_update_of (rr_filehash u) (rr_timestamp u) (rr_from_full_sync u) (RemoveRecent (rr_last_sticker_sent_ts u)).

(** ** Account settings (account_setting_update.rs) *)

(** [StatusDistributionMode], and buffa's [EnumValue] of it. *)
Inductive StatusDistributionMode : Type := ALLOW_LIST | DENY_LIST | CONTACTS | CLOSE_FRIENDS | CUSTOM_LIST | ModeUnnamed (number : Z).
Inductive EnumValue : Type := KnownMode (mode : StatusDistributionMode) | UnknownMode (code : Z).

Inductive StatusAudienceMode : Type := AudienceUnknown | AllowList | DenyList | Contacts | CloseFriends | CustomAudience.
Record StatusAudience : Type := MkAudience { audience_mode : StatusAudienceMode; mode_code : Z }.

Record CustomList : Type := MkCustomList {
  cl_list_id : option string; cl_name : option string; cl_emoji : option string; cl_is_selected : option bool; cl_user_jid : list string }.
Record StatusPrivacyAction : Type := MkStatusPrivacy {
  sp_mode : option EnumValue; sp_user_jid : list string; sp_share_to_fb : option bool; sp_share_to_ig : option bool;
  sp_custom_lists : list CustomList; sp_modes : list EnumValue }.

Record DisableLinkPreviewsUpdate : Type := MkLinkPreviews {
  dl_timestamp : DateTime; dl_from_full_sync : bool; is_previews_disabled : option bool }.
Record StatusPrivacyUpdate : Type := MkStatusPrivacyUpdate {
  spu_timestamp : DateTime; spu_action_timestamp : option DateTime; spu_from_full_sync : bool; spu_action : StatusPrivacyAction }.
Record UnarchiveChatsSettingUpdate : Type := MkUnarchive {
  uc_timestamp : DateTime; uc_from_full_sync : bool; unarchive_chats : bool }.

Record PbCustomList : Type := MkPbCustomList {
  pcl_list_id : option string; pcl_name : option string; pcl_emoji : option string; pcl_is_selected : option bool; pcl_users : list pb.Jid }.
Record PbStatusPrivacy : Type := MkPbStatusPrivacy {
  psp_mode : option StatusAudience; psp_users : list pb.Jid; psp_share_to_fb : option bool; psp_share_to_ig : option bool;
  psp_custom_lists : list PbCustomList; psp_modes : list StatusAudience }.

Inductive Setting : Type :=
| LinkPreviewsSetting (previews_disabled : option bool)
| StatusPrivacySetting (privacy : PbStatusPrivacy)
| UnarchiveSetting (unarchive : bool).

Record AccountSettingUpdate : Type := MkAccountSetting {
  ast_timestamp : Z; ast_action_timestamp : option Z; ast_from_full_sync : bool; ast_setting : option Setting }.

(** [known as i32]; the library's number of a variant it names is not read. *)
Definition status_audience_mode_of (mode : StatusDistributionMode) : StatusAudienceMode :=
  match mode with
  | ALLOW_LIST => AllowList
  | DENY_LIST => DenyList
  | CONTACTS => Contacts
  | CLOSE_FRIENDS => CloseFriends
  | CUSTOM_LIST => CustomAudience
  | ModeUnnamed _ => AudienceUnknown
  end.

Definition status_audience_of (mode : EnumValue) : StatusAudience :=
  match mode with
  | KnownMode (ModeUnnamed number) => MkAudience AudienceUnknown number
  | KnownMode known => MkAudience (status_audience_mode_of known) 0
  | UnknownMode code => MkAudience AudienceUnknown code
  end.

Definition jids_of (values : list string) : list pb.Jid := omap relay_jid values.

Definition custom_list_of (l : CustomList) : PbCustomList :=
  MkPbCustomList (cl_list_id l) (cl_name l) (cl_emoji l) (cl_is_selected l) (jids_of (cl_user_jid l)).

Definition status_privacy_of (action : StatusPrivacyAction) : PbStatusPrivacy :=
  MkPbStatusPrivacy (status_audience_of <$> sp_mode action) (jids_of (sp_user_jid action)) (sp_share_to_fb action)
    (sp_share_to_ig action) (custom_list_of <$> sp_custom_lists action) (status_audience_of <$> sp_modes action).

Definition link_previews_update_of (u : DisableLinkPreviewsUpdate) : AccountSettingUpdate :=
  MkAccountSetting (timestamp_millis (dl_timestamp u)) None (dl_from_full_sync u) (Some (LinkPreviewsSetting (is_previews_disabled u))).
Definition status_privacy_update_of (u : StatusPrivacyUpdate) : AccountSettingUpdate :=
  MkAccountSetting (timestamp_millis (spu_timestamp u)) (timestamp_millis <$> spu_action_timestamp u) (spu_from_full_sync u)
    (Some (StatusPrivacySetting (status_privacy_of (spu_action u)))).
Definition unarchive_chats_update_of (u : UnarchiveChatsSettingUpdate) : AccountSettingUpdate :=
  MkAccountSetting (timestamp_millis (uc_timestamp u)) None (uc_from_full_sync u) (Some (UnarchiveSetting (unarchive_chats u))).

(** ** Favorites (event_mapping.rs) *)

(** The favorites' ids and the action's protobuf. *)
Record FavoritesUpdate : Type := MkFavorites {
  fu_ids : list (option string); fu_timestamp : DateTime; fu_from_full_sync : bool; fu_raw : bytes }.
Record FavoritesChanged : Type := MkFavoritesChanged {
  fc_chats : list pb.Jid; fc_timestamp : Z; fc_from_full_sync : bool; fc_raw : bytes }.

Definition favorites_changed (u : FavoritesUpdate) : FavoritesChanged :=
  MkFavoritesChanged (omap (fun id => id ≫= relay_jid) (fu_ids u)) (timestamp_millis (fu_timestamp u)) (fu_from_full_sync u) (fu_raw u).

(** ** The call log (call_log_update.rs) *)

Inductive CallResult : Type :=
| CrConnected | CrRejected | CrCancelled | CrAcceptedElsewhere | CrMissed | CrInvalid | CrUnavailable | CrUpcoming | CrFailed
| CrAbandoned | CrOngoing | CrUnnamed (number : Z).
Inductive SilenceReason : Type := SrNone | SrScheduled | SrPrivacy | SrLightweight | SrUnnamed (number : Z).
Inductive CallType : Type := CtRegular | CtScheduledCall | CtVoiceChat | CtUnnamed (number : Z).

(** A contract enum of those. *)
Inductive Named (K : Type) : Type := NamedUnspecified | NamedUnknown | NamedAs (k : K).

Definition call_result_of (result : option CallResult) : Named CallResult :=
  match result with
  | None => NamedUnspecified _
  | Some (CrUnnamed _) => NamedUnknown _
  | Some r => NamedAs _ r
  end.
Definition silence_reason_of (reason : option SilenceReason) : Named SilenceReason :=
  match reason with
  | None => NamedUnspecified _
  | Some (SrUnnamed _) => NamedUnknown _
  | Some r => NamedAs _ r
  end.
Definition call_type_of (call_type : option CallType) : Named CallType :=
  match call_type with
  | None => NamedUnspecified _
  | Some (CtUnnamed _) => NamedUnknown _
  | Some t => NamedAs _ t
  end.

Record ParticipantInfo : Type := MkParticipantInfo { pi_user_jid : option string; pi_call_result : option CallResult }.
Record CallLogRecord : Type := MkCallLogRecord {
  rec_call_id : option string; rec_call_result : option CallResult; rec_is_dnd_mode : option bool; rec_silence_reason : option SilenceReason;
  rec_duration : option Z; rec_start_time : option Z; rec_is_video : option bool; rec_is_call_link : option bool;
  rec_call_link_token : option string; rec_scheduled_call_id : option string; rec_group_jid : option string;
  rec_participants : list ParticipantInfo; rec_call_type : option CallType }.

Record CallLogParticipant : Type := MkCallLogParticipant { clp_user : option pb.Jid; clp_result : Named CallResult }.

(** What both updates say of the record. *)
Record RecordFields : Type := MkRecordFields {
  rf_result : Named CallResult; rf_is_dnd_mode : option bool; rf_silence_reason : Named SilenceReason; rf_duration_seconds : option Z;
  rf_start_time : option Z; rf_is_video : option bool; rf_is_call_link : option bool; rf_call_link_token : option string;
  rf_scheduled_call_id : option string; rf_group : option pb.Jid; rf_participants : list CallLogParticipant;
  rf_call_type : Named CallType }.

(** A participant without a jid is skipped. *)
Definition participant_of (info : ParticipantInfo) : option CallLogParticipant :=
  user ← pi_user_jid info ≫= relay_jid;
  Some (MkCallLogParticipant (Some user) (call_result_of (pi_call_result info))).

Definition record_fields_of (r : CallLogRecord) : RecordFields :=
  MkRecordFields (call_result_of (rec_call_result r)) (rec_is_dnd_mode r) (silence_reason_of (rec_silence_reason r)) (rec_duration r)
    (millis_from_signed_seconds <$> rec_start_time r) (rec_is_video r) (rec_is_call_link r) (rec_call_link_token r)
    (rec_scheduled_call_id r) (rec_group_jid r ≫= relay_jid) (omap participant_of (rec_participants r)) (call_type_of (rec_call_type r)).

Record CallLogSync : Type := MkCallLogSync {
  cls_call_creator : LJid; cls_call_id : string; cls_from_me : bool; cls_timestamp : DateTime; cls_from_full_sync : bool;
  cls_record : CallLogRecord }.
Record CallLogHistory : Type := MkCallLogHistory {
  clh_record : CallLogRecord; clh_call_creator : option LJid; clh_from_me : option bool; clh_sync_type : option Z; clh_chunk_order : option Z }.

(** The wire's, the record's fields in one part. *)
Record CallLogUpdate : Type := MkCallLogUpdate {
  clu_call_creator : option pb.Jid; clu_call_id : string; clu_from_me : bool; clu_timestamp : Z; clu_from_full_sync : bool;
  clu_fields : RecordFields }.
Record PbCallLogHistory : Type := MkPbCallLogHistory {
  pch_call_id : option string; pch_call_creator : option pb.Jid; pch_from_me : option bool; pch_sync_type : option Z; pch_chunk_order : option Z;
  pch_fields : RecordFields }.

Definition call_log_update_of (s : CallLogSync) : CallLogUpdate :=
  MkCallLogUpdate (relay_lib_jid (cls_call_creator s)) (cls_call_id s) (cls_from_me s) (timestamp_millis (cls_timestamp s))
    (cls_from_full_sync s) (record_fields_of (cls_record s)).
Definition call_log_history_of (h : CallLogHistory) : PbCallLogHistory :=
  MkPbCallLogHistory (rec_call_id (clh_record h)) (relay_optional_lib_jid (clh_call_creator h)) (clh_from_me h) (clh_sync_type h)
    (clh_chunk_order h) (record_fields_of (clh_record h)).
End events.
