(* ===== verification/GroupEvents.v ===== *)
(** * Group notifications and group metadata (domain/group_update.rs, group_update/participants.rs, group_metadata.rs)

    One case of the wire for each action of the library; the metadata of a group in the parts the
    code assembles it from.  Records hold the fields the code reads. *)

From S2P Require Import Prelude Errors Wire RequestEnums Jids RelayedEnums MessageProjection Relays.

Section groups.
Context `{ids : LibIds}.

(** ** Metadata (group_metadata.rs) *)

Record GroupParticipantDetails : Type := MkDetails {
  participant_label : option string; participant_label_mtime : option Z; d_join_time : option Z; group_history_sent : option bool;
  d_display_name : option string; is_addressable : bool }.
Record GroupParticipant : Type := MkParticipant {
  gp_jid : LJid; gp_phone_number : option LJid; gp_lid : option LJid; gp_username : option string; gp_type : wa.ParticipantType;
  gp_details : option GroupParticipantDetails }.
Record GroupEphemeralSettings : Type := MkEphemeral { expiration : option Z; e_trigger : option Z }.
Record GrowthLockInfo : Type := MkGrowthLock { lock_type : string; lock_expiration : Z }.

Record CreatorPart : Type := MkCreator {
  creator : option LJid; creator_pn : option LJid; creator_username : option string; creator_country_code : option string;
  creation_time : option Z; participant_version_id : option string; admin_version_id : option string; open_thread_id : option string;
  has_missing_participant_identification : bool }.
Record SubjectPart : Type := MkSubject {
  subject_time : option Z; subject_owner : option LJid; subject_owner_pn : option LJid; subject_owner_username : option string;
  g_description : option string; description_id : option string; description_owner : option LJid; description_owner_pn : option LJid;
  description_owner_username : option string; description_time : option Z }.
Record SettingsPart : Type := MkSettings {
  is_locked : bool; is_announcement : bool; ephemeral : option GroupEphemeralSettings; membership_approval : bool;
  member_add_mode : option MemberAddMode; member_link_mode : option MemberLinkMode; participant_count : option Z;
  no_frequently_forwarded : bool; member_share_history_mode : option MemberShareHistoryMode }.
Record CommunityPart : Type := MkCommunity {
  is_parent_group : bool; parent_membership_approval_required : bool; parent_group_jid : option LJid; is_default_sub_group : bool;
  is_general_chat : bool; allow_non_admin_sub_group_creation : bool }.
Record ModerationPart : Type := MkModeration {
  growth_locked : option GrowthLockInfo; is_suspended : bool; suspension_can_auto_file : bool;
  appeal_status : option wa.GroupAppealStatus; appeal_update_time : option Z; is_support_group : bool; allow_admin_reports : bool }.
(** None of them is converted. *)
Record FlagsPart : Type := MkFlags {
  is_hidden_group : bool; is_incognito : bool; has_group_history : bool; is_auto_add_disabled : bool; has_capi : bool;
  evolution_version : option Z; has_group_safety_check : bool; participant_label_enabled : bool; is_limit_sharing_enabled : bool;
  limit_sharing_trigger : option Z }.

Record GroupMetadata : Type := MkMetadata {
  gm_id : LJid; gm_subject : option string; gm_notify : option string; gm_participants : list GroupParticipant;
  gm_addressing_mode : wa.AddressingMode; gm_creator : CreatorPart; gm_subject_part : SubjectPart; gm_settings : SettingsPart;
  gm_community : CommunityPart; gm_moderation : ModerationPart; gm_flags : FlagsPart }.

(** The contract's (group_metadata.proto). *)
Record PbDetails : Type := MkPbDetails {
  pd_label : option string; pd_label_mtime : option Z; pd_join_time : option Z; pd_history_sent : option bool;
  pd_display_name : option string; pd_is_addressable : bool }.
Record PbParticipant : Type := MkPbParticipant {
  pp_jid : option pb.Jid; pp_phone_number : option pb.Jid; pp_lid : option pb.Jid; pp_username : option string;
  pp_type : Wire contract.GroupParticipantType; pp_details : option PbDetails }.
Record PbEphemeral : Type := MkPbEphemeral { expiration_seconds : option Z; pe_trigger : option Z }.
Record PbGrowthLock : Type := MkPbGrowthLock { pg_lock_type : string; pg_expiration : Z }.
Record PbCreator : Type := MkPbCreator {
  pc_creator : option pb.Jid; pc_creator_pn : option pb.Jid; pc_creator_username : option string; pc_creator_country_code : option string;
  pc_creation_time : option Z; pc_participant_version_id : option string; pc_admin_version_id : option string;
  pc_open_thread_id : option string; pc_has_missing_participant_identification : bool }.
Record PbSubject : Type := MkPbSubject {
  ps_subject_time : option Z; ps_subject_owner : option pb.Jid; ps_subject_owner_pn : option pb.Jid; ps_subject_owner_username : option string;
  ps_description : option string; ps_description_id : option string; ps_description_owner : option pb.Jid;
  ps_description_owner_pn : option pb.Jid; ps_description_owner_username : option string; ps_description_time : option Z }.
Record PbSettings : Type := MkPbSettings {
  pst_is_locked : bool; pst_is_announcement : bool; pst_ephemeral : option PbEphemeral; pst_membership_approval : bool;
  pst_member_add_mode : Wire contract.GroupMemberAddMode; pst_member_link_mode : Wire contract.GroupMemberLinkMode;
  pst_size : option Z; pst_no_frequently_forwarded : bool; pst_member_share_history_mode : Wire contract.GroupMemberShareHistoryMode }.
Record PbCommunity : Type := MkPbCommunity {
  pcm_is_parent_group : bool; pcm_parent_membership_approval_required : bool; pcm_parent_group : option pb.Jid;
  pcm_is_default_sub_group : bool; pcm_is_general_chat : bool; pcm_allow_non_admin_sub_group_creation : bool }.
Record PbModeration : Type := MkPbModeration {
  pmd_growth_locked : option PbGrowthLock; pmd_is_suspended : bool; pmd_suspension_can_auto_file : bool;
  pmd_appeal_status : Wire contract.GroupAppealStatus; pmd_appeal_update_time : option Z; pmd_is_support_group : bool;
  pmd_allow_admin_reports : bool }.
Record PbGroupMetadata : Type := MkPbMetadata {
  pgm_id : option pb.Jid; pgm_subject : option string; pgm_notify : option string; pgm_participants : list PbParticipant;
  pgm_addressing_mode : Wire contract.GroupAddressingMode; pgm_creator : PbCreator; pgm_subject_part : PbSubject;
  pgm_settings : PbSettings; pgm_community : PbCommunity; pgm_moderation : PbModeration; pgm_flags : FlagsPart }.

Definition details_of (d : GroupParticipantDetails) : PbDetails :=
  MkPbDetails (participant_label d) (participant_label_mtime d) (millis_from_seconds <$> d_join_time d) (group_history_sent d)
    (d_display_name d) (is_addressable d).

Definition group_participant_of (p : GroupParticipant) : PbParticipant :=
  MkPbParticipant (relay_lib_jid (gp_jid p)) (relay_optional_lib_jid (gp_phone_number p)) (relay_optional_lib_jid (gp_lid p))
    (gp_username p) (participant_type_of (gp_type p)) (details_of <$> gp_details p).

(** A duration: renamed, not converted. *)
Definition ephemeral_of (s : GroupEphemeralSettings) : PbEphemeral := MkPbEphemeral (expiration s) (e_trigger s).
Definition growth_lock_of (l : GrowthLockInfo) : PbGrowthLock := MkPbGrowthLock (lock_type l) (lock_expiration l).

Definition creator_part (m : CreatorPart) : PbCreator :=
  MkPbCreator (relay_optional_lib_jid (creator m)) (relay_optional_lib_jid (creator_pn m)) (creator_username m) (creator_country_code m)
    (millis_from_seconds <$> creation_time m) (participant_version_id m) (admin_version_id m) (open_thread_id m)
    (has_missing_participant_identification m).
Definition subject_part (m : SubjectPart) : PbSubject :=
  MkPbSubject (millis_from_seconds <$> subject_time m) (relay_optional_lib_jid (subject_owner m)) (relay_optional_lib_jid (subject_owner_pn m))
    (subject_owner_username m) (g_description m) (description_id m) (relay_optional_lib_jid (description_owner m))
    (relay_optional_lib_jid (description_owner_pn m)) (description_owner_username m) (millis_from_seconds <$> description_time m).
Definition settings_part (m : SettingsPart) : PbSettings :=
  MkPbSettings (is_locked m) (is_announcement m) (ephemeral_of <$> ephemeral m) (membership_approval m)
    (default Unspecified (member_add_mode_of <$> member_add_mode m)) (default Unspecified (member_link_mode_of <$> member_link_mode m))
    (participant_count m) (no_frequently_forwarded m)
    (default Unspecified (member_share_history_mode_of <$> member_share_history_mode m)).
Definition community_part (m : CommunityPart) : PbCommunity :=
  MkPbCommunity (is_parent_group m) (parent_membership_approval_required m) (relay_optional_lib_jid (parent_group_jid m))
    (is_default_sub_group m) (is_general_chat m) (allow_non_admin_sub_group_creation m).
Definition moderation_part (m : ModerationPart) : PbModeration :=
  MkPbModeration (growth_lock_of <$> growth_locked m) (is_suspended m) (suspension_can_auto_file m)
    (default Unspecified (appeal_status_of <$> appeal_status m)) (appeal_update_time m) (is_support_group m) (allow_admin_reports m).

Definition group_metadata_of (m : GroupMetadata) : PbGroupMetadata :=
  MkPbMetadata (relay_lib_jid (gm_id m)) (gm_subject m) (gm_notify m) (group_participant_of <$> gm_participants m)
    (addressing_mode_of (gm_addressing_mode m)) (creator_part (gm_creator m)) (subject_part (gm_subject_part m))
    (settings_part (gm_settings m)) (community_part (gm_community m)) (moderation_part (gm_moderation m)) (gm_flags m).

Record MembershipRequest : Type := MkMembershipRequest { req_jid : LJid; req_time : option Z }.
Record PbMembershipRequest : Type := MkPbMembershipRequest { preq_jid : option pb.Jid; preq_time : option Z }.
Definition membership_request_of (r : MembershipRequest) : PbMembershipRequest :=
  MkPbMembershipRequest (relay_lib_jid (req_jid r)) (millis_from_seconds <$> req_time r).

(** ** Participants of a notification (group_update/participants.rs) *)

Record GroupParticipantInfo : Type := MkParticipantInfo {
  gi_jid : LJid; gi_phone_number : option LJid; gi_display_name : option string; gi_type : option wa.GroupParticipantType;
  gi_lid : option LJid; gi_username : option string; gi_join_time : option Z; gi_history : option wa.GroupHistorySentState }.

Record NotificationParticipant : Type := MkNotificationParticipant {
  np_jid : option pb.Jid; np_phone_number : option pb.Jid; np_display_name : option string;
  np_type : Wire contract.GroupParticipantType; np_lid : option pb.Jid; np_username : option string; np_join_time : option Z;
  np_history : Wire contract.GroupHistorySentState }.

Definition notification_participant (i : GroupParticipantInfo) : NotificationParticipant :=
  MkNotificationParticipant (relay_lib_jid (gi_jid i)) (relay_optional_lib_jid (gi_phone_number i)) (gi_display_name i)
    (default Unspecified (notification_participant_type_of <$> gi_type i)) (relay_optional_lib_jid (gi_lid i)) (gi_username i)
    (millis_from_seconds <$> gi_join_time i) (default Unspecified (history_sent_state_of <$> gi_history i)).

Definition notification_participants (l : list GroupParticipantInfo) : list NotificationParticipant := notification_participant <$> l.

Record ParticipantsChange : Type := MkParticipantsChange { ch_participants : list NotificationParticipant; ch_reason : option string }.
Definition participants_change (participants : list GroupParticipantInfo) (reason : option string) : ParticipantsChange :=
  MkParticipantsChange (notification_participants participants) reason.

(** ** The notification (group_update.rs) *)

(** [GroupNotificationAction]. *)
Inductive LibAction : Type :=
| LAdd (participants : list GroupParticipantInfo) (reason : option string)
| LRemove (participants : list GroupParticipantInfo) (reason : option string)
| LPromote (participants : list GroupParticipantInfo)
| LDemote (participants : list GroupParticipantInfo)
| LModify (participants : list GroupParticipantInfo)
| LSubject (subject : string) (owner owner_pn : option LJid) (owner_username : option string) (time : option Z)
| LDescription (id : string) (description : option string)
| LLocked (threshold : option string)
| LUnlocked | LAnnounce | LNotAnnounce
| LEphemeral (expiration : Z) (trigger : option Z)
| LMembershipApprovalMode (enabled : bool)
| LMembershipApprovalRequest (request_method : wa.MembershipRequestMethod) (parent_group : option LJid)
| LCreatedMembershipRequests (request_method : wa.MembershipRequestMethod) (parent_group : option LJid) (requests : list GroupParticipantInfo)
| LRevokedMembershipRequests (participants : list LJid)
| LMemberAddMode (mode : string)
| LNoFrequentlyForwarded | LFrequentlyForwardedOk
| LInvite (code : string)
| LRevokeInvite
| LGrowthLocked (expiration : Z) (lock_type : string)
| LGrowthUnlocked
| LCreate (raw : Node)
| LDelete (reason : option string)
| LLink (link_type : string) (raw : Node)
| LUnlink (unlink_type : string) (unlink_reason : option string) (raw : Node)
| LLinkedGroupPromote (participants : list GroupParticipantInfo)
| LLinkedGroupDemote (participants : list GroupParticipantInfo)
| LSuspended | LUnsuspended | LAutoAddDisabled | LIsCapiHostedGroup | LGroupSafetyCheck
| LLimitSharingEnabled (trigger : option Z)
| LAllowAdminReports | LNotAllowAdminReports | LReports | LAllowNonAdminSubGroupCreation | LNotAllowNonAdminSubGroupCreation
| LCreatedSubGroupSuggestion (raw : Node)
| LRevokedSubGroupSuggestions (raw : Node)
| LChangeNumber (new_owner : option LJid) (sub_group_suggestions : list LJid)
| LUnknown (tag : string).

(** [pb::group_update::Action]. *)
Inductive GroupAction : Type :=
| Add (change : ParticipantsChange) | Remove (change : ParticipantsChange) | Promote (change : ParticipantsChange)
| Demote (change : ParticipantsChange) | Modify (change : ParticipantsChange)
| Subject (subject : string) (owner owner_pn : option pb.Jid) (owner_username : option string) (time : option Z)
| Description (id : string) (description : option string)
| Locked (threshold : option string)
| Unlocked | Announcement | NotAnnouncement
| Ephemeral (settings : PbEphemeral)
| MembershipApprovalMode (enabled : bool)
| MembershipApprovalRequest (request_method : Wire contract.MembershipRequestMethod) (parent_group : option pb.Jid)
| CreatedMembershipRequests (request_method : Wire contract.MembershipRequestMethod) (parent_group : option pb.Jid)
    (requests : list NotificationParticipant)
| RevokedMembershipRequests (participants : list pb.Jid)
| MemberAddModeChange (mode : Wire contract.GroupMemberAddMode) (mode_raw : string)
| NoFrequentlyForwarded | FrequentlyForwardedOk
| Invite (code : string)
| Revoke
| GrowthLocked (lock : PbGrowthLock)
| GrowthUnlocked
| Create (metadata : option PbGroupMetadata) (stanza : option StanzaNode)
| Delete (reason : option string)
| Link (link_type : string) (stanza : option StanzaNode)
| Unlink (unlink_type : string) (unlink_reason : option string) (stanza : option StanzaNode)
| LinkedGroupPromote (change : ParticipantsChange) | LinkedGroupDemote (change : ParticipantsChange)
| Suspended | Unsuspended | AutoAddDisabled | IsCapiHostedGroup | GroupSafetyCheck
| LimitSharingEnabled (trigger : option Z)
| AllowAdminReports | NotAllowAdminReports | Reports | AllowNonAdminSubGroupCreation | NotAllowNonAdminSubGroupCreation
| CreatedSubGroupSuggestion (stanza : option StanzaNode)
| RevokedSubGroupSuggestions (stanza : option StanzaNode)
| ChangeNumber (new_owner : option pb.Jid) (sub_group_suggestions : list pb.Jid)
| UnknownAction (tag : string).

(** The library's reading of a mode's token, its search of a node's child and its public parser of
    a group. *)
Context (add_mode_try_from : string -> option MemberAddMode) (get_optional_child : Node -> string -> option Node).
Context (parse_group : Node -> option GroupMetadata).

Definition group_created_of (create : Node) : GroupAction :=
  Create (group ← get_optional_child create "group"; group_metadata_of <$> parse_group group) (Some (stanza_node_of create)).

Definition member_add_mode_change (token : string) : GroupAction :=
  let '(mode, mode_raw) := member_add_mode_token_of add_mode_try_from token in MemberAddModeChange mode mode_raw.

Definition group_action_of (action : LibAction) : GroupAction :=
  match action with
  | LAdd participants reason => Add (participants_change participants reason)
  | LRemove participants reason => Remove (participants_change participants reason)
  | LPromote participants => Promote (participants_change participants None)
  | LDemote participants => Demote (participants_change participants None)
  | LModify participants => Modify (participants_change participants None)
  | LSubject subject owner owner_pn owner_username time =>
      Subject subject (relay_optional_lib_jid owner) (relay_optional_lib_jid owner_pn) owner_username (millis_from_seconds <$> time)
  | LDescription id description => Description id description
  | LLocked threshold => Locked threshold
  | LUnlocked => Unlocked
  | LAnnounce => Announcement
  | LNotAnnounce => NotAnnouncement
  | LEphemeral expiration trigger => Ephemeral (MkPbEphemeral (Some expiration) trigger)
  | LMembershipApprovalMode enabled => MembershipApprovalMode enabled
  | LMembershipApprovalRequest request_method parent =>
      MembershipApprovalRequest (membership_request_method_of request_method) (relay_optional_lib_jid parent)
  | LCreatedMembershipRequests request_method parent requests =>
      CreatedMembershipRequests (membership_request_method_of request_method) (relay_optional_lib_jid parent)
        (notification_participants requests)
  | LRevokedMembershipRequests participants => RevokedMembershipRequests (omap relay_lib_jid participants)
  | LMemberAddMode mode => member_add_mode_change mode
  | LNoFrequentlyForwarded => NoFrequentlyForwarded
  | LFrequentlyForwardedOk => FrequentlyForwardedOk
  | LInvite code => Invite code
  | LRevokeInvite => Revoke
  | LGrowthLocked expiration lock_type => GrowthLocked (MkPbGrowthLock lock_type expiration)
  | LGrowthUnlocked => GrowthUnlocked
  | LCreate raw => group_created_of raw
  | LDelete reason => Delete reason
  | LLink link_type raw => Link link_type (Some (stanza_node_of raw))
  | LUnlink unlink_type unlink_reason raw => Unlink unlink_type unlink_reason (Some (stanza_node_of raw))
  | LLinkedGroupPromote participants => LinkedGroupPromote (participants_change participants None)
  | LLinkedGroupDemote participants => LinkedGroupDemote (participants_change participants None)
  | LSuspended => Suspended
  | LUnsuspended => Unsuspended
  | LAutoAddDisabled => AutoAddDisabled
  | LIsCapiHostedGroup => IsCapiHostedGroup
  | LGroupSafetyCheck => GroupSafetyCheck
  | LLimitSharingEnabled trigger => LimitSharingEnabled trigger
  | LAllowAdminReports => AllowAdminReports
  | LNotAllowAdminReports => NotAllowAdminReports
  | LReports => Reports
  | LAllowNonAdminSubGroupCreation => AllowNonAdminSubGroupCreation
  | LNotAllowNonAdminSubGroupCreation => NotAllowNonAdminSubGroupCreation
  | LCreatedSubGroupSuggestion raw => CreatedSubGroupSuggestion (Some (stanza_node_of raw))
  | LRevokedSubGroupSuggestions raw => RevokedSubGroupSuggestions (Some (stanza_node_of raw))
  | LChangeNumber new_owner suggestions => ChangeNumber (relay_optional_lib_jid new_owner) (omap relay_lib_jid suggestions)
  | LUnknown tag => UnknownAction tag
  end.

Context `{clock : Clock}.

Record LibGroupUpdate : Type := MkLibGroupUpdate {
  gu_group : LJid; gu_notification_id : option string; gu_notify : option string; gu_offline : option string; gu_action_index : Z;
  gu_participant : option LJid; gu_participant_pn : option LJid; gu_participant_username : option string;
  gu_participant_country_code : option string; gu_timestamp : DateTime; gu_is_lid_addressing_mode : bool;
  gu_has_incomplete : bool; gu_action : LibAction }.

Record GroupUpdate : Type := MkGroupUpdate {
  pgu_group : option pb.Jid; pgu_notification_id : option string; pgu_notify : option string; pgu_offline : option string;
  pgu_action_index : Z; pgu_participant : option pb.Jid; pgu_participant_pn : option pb.Jid; pgu_participant_username : option string;
  pgu_participant_country_code : option string; pgu_timestamp : Z; pgu_is_lid_addressing_mode : bool; pgu_has_incomplete : bool;
  pgu_action : option GroupAction }.

Definition group_update_of (u : LibGroupUpdate) : GroupUpdate :=
  MkGroupUpdate (relay_lib_jid (gu_group u)) (gu_notification_id u) (gu_notify u) (gu_offline u) (gu_action_index u)
    (relay_optional_lib_jid (gu_participant u)) (relay_optional_lib_jid (gu_participant_pn u)) (gu_participant_username u)
    (gu_participant_country_code u) (timestamp_millis (gu_timestamp u)) (gu_is_lid_addressing_mode u) (gu_has_incomplete u)
    (Some (group_action_of (gu_action u))).
End groups.
