(* ===== verification/CallEvents.v ===== *)
(** * Calls on the wire (domain/call_event.rs, domain/missed_call.rs)

    An inbound call stanza, one case of the wire for each action of the library, and a call that
    must not ring.  Records hold the fields the code reads; an action's [call_id] and [call_creator]
    are the library's accessors. *)

From S2P Require Import Prelude Errors Wire Jids RelayedEnums MessageProjection Relays.

Section calls.
Context `{ids : LibIds} `{clock : Clock}.

(** ** The library's *)

Record CallAudioCodec : Type := MkCodec { enc : string; rate : Z }.

Record GroupCallDevice : Type := MkCallDevice {
  dev_jid : LJid; dev_platform : option string; dev_pid : option Z; dev_capability_version : option Z; dev_capability : bytes }.
Record GroupCallParticipant : Type := MkCallParticipant {
  cp_jid : LJid; cp_pn : option LJid; cp_state : option string; cp_type : option string; cp_devices : list GroupCallDevice }.
Record GroupCallRelayEndpoint : Type := MkEndpoint {
  relay_id : Z; token_id : Z; auth_token_id : Z; relay_name : string; domain_name : option string; rtt_ms : option Z; is_fna : bool;
  ipv4 : option string; port : option Z }.
(** Its public half. *)
Record GroupCallRelay : Type := MkCallRelay {
  rl_transaction_id : option Z; self_pid : option Z; rl_uuid : string; participant_uuid : string; attribute_padding : bool;
  warp_mi_tag_len : option Z; endpoints : list GroupCallRelayEndpoint }.
Record LibGroupCallUpdate : Type := MkLibGroupCall {
  gc_call_id : string; gc_call_creator : LJid; gc_group_jid : option LJid; gc_transaction_id : Z; gc_media : string;
  gc_connected_limit : Z; gc_joinable : bool; gc_av_upgradable : bool; gc_rekey_requested : bool;
  gc_participants : list GroupCallParticipant; gc_relay : option GroupCallRelay }.
Record LibEncRekey : Type := MkLibEncRekey {
  rk_call_id : string; rk_call_creator : LJid; rk_transaction_id : Z; rk_key_generation : Z; rk_encryption_type : string;
  rk_encryption_version : Z; rk_ciphertext : bytes }.
Record LibWaitingRoomUser : Type := MkLibRoomUser { ru_jid : LJid; ru_pn : option LJid; ru_state : string }.
Record LibWaitingRoom : Type := MkLibWaitingRoom {
  wr_call_id : string; wr_call_creator : LJid; wr_link_token : string; wr_media : wa.CallLinkMedia; wr_enabled : bool;
  wr_is_admin : bool; wr_transaction_id : option Z; wr_users : list LibWaitingRoomUser }.
Record LibScreenShare : Type := MkLibScreenShare { ss_state : wa.ScreenShareState; ss_version : Z; screen_share_id : option Z }.

(** [CallAction], with a case for the variants this build does not name. *)
Inductive CallAction : Type :=
| CaOffer (caller_pn : option LJid) (caller_country_code device_class : option string) (joinable is_video : bool)
    (audio : list CallAudioCodec) (group_jid : option LJid)
| CaOfferNotice (is_video is_group : bool)
| CaPreAccept (audio : list CallAudioCodec)
| CaAccept (audio : list CallAudioCodec)
| CaReject (reason : option string)
| CaTerminate (reason : option string) (duration audio_duration : option Z)
| CaTransport (p2p_cand_round transport_message_type : option string)
| CaRelayLatency
| CaVideoState (state : wa.VideoState) (orientation : option Z) (dec : option string)
| CaRaiseHand (raised : bool)
| CaGroupUpdate (update : LibGroupCallUpdate)
| CaEncRekey (rekey : LibEncRekey)
| CaWaitingRoomUpdate (room : LibWaitingRoom)
| CaScreenShare (share : LibScreenShare)
| CaUnnamed (variant : Z).

Record IncomingCall : Type := MkIncomingCall {
  ic_from : LJid; ic_stanza_id : string; ic_notify : option string; ic_platform : option string; ic_version : option string;
  ic_participant : option LJid; ic_recipient : option LJid; ic_timestamp : option DateTime; ic_offline : bool;
  ic_caller_username : option string; ic_video_orientation : option Z; ic_group : option LibGroupCallUpdate;
  ic_call_id : string; ic_call_creator : LJid; ic_action : CallAction }.

(** ** The contract's (call.proto) *)

Record PbCallDevice : Type := MkPbCallDevice {
  pdev_jid : option pb.Jid; pdev_platform : option string; pdev_pid : option Z; pdev_capability_version : option Z; pdev_capability : bytes }.
Record PbCallParticipant : Type := MkPbCallParticipant {
  pcp_jid : option pb.Jid; pcp_pn : option pb.Jid; pcp_state : option string; pcp_type : option string; pcp_devices : list PbCallDevice }.
Record PbEndpoint : Type := MkPbEndpoint {
  pe_relay_id : Z; pe_token_id : Z; pe_auth_token_id : Z; pe_relay_name : string; pe_domain_name : option string; pe_rtt_ms : option Z;
  pe_is_fna : bool; pe_ipv4 : option string; pe_port : option Z }.
Record PbCallRelay : Type := MkPbCallRelay {
  prl_transaction_id : option Z; prl_self_pid : option Z; prl_uuid : string; prl_participant_uuid : string;
  prl_attribute_padding : bool; prl_warp_mi_tag_len : option Z; prl_endpoints : list PbEndpoint }.
Record PbGroupCall : Type := MkPbGroupCall {
  pgc_call_id : string; pgc_call_creator : option pb.Jid; pgc_group_jid : option pb.Jid; pgc_transaction_id : Z; pgc_media : string;
  pgc_connected_limit : Z; pgc_joinable : bool; pgc_av_upgradable : bool; pgc_rekey_requested : bool;
  pgc_participants : list PbCallParticipant; pgc_relay : option PbCallRelay }.
Record PbEncRekey : Type := MkPbEncRekey {
  prk_call_id : string; prk_call_creator : option pb.Jid; prk_transaction_id : Z; prk_key_generation : Z; prk_encryption_type : string;
  prk_encryption_version : Z; prk_ciphertext : bytes }.
Record PbRoomUser : Type := MkPbRoomUser { pru_jid : option pb.Jid; pru_pn : option pb.Jid; pru_state : string }.
Record PbWaitingRoom : Type := MkPbWaitingRoom {
  pwr_call_id : string; pwr_call_creator : option pb.Jid; pwr_link_token : string; pwr_media : Wire contract.CallLinkMedia;
  pwr_enabled : bool; pwr_is_admin : bool; pwr_transaction_id : option Z; pwr_users : list PbRoomUser }.
Record PbScreenShare : Type := MkPbScreenShare { pss_state : Wire contract.ScreenShareState; pss_version : Z; pss_id : option Z }.
Record PbVideoState : Type := MkPbVideoState {
  pv_state : Wire contract.CallVideoStateKind; pv_state_code : Z; pv_orientation : option Z; pv_dec : option string }.

Inductive MissedCallReason : Type := MissedUnspecified | MissedUnknown | MissedOffline | MissedRemote.

Inductive PbCallAction : Type :=
| Offer (caller_pn : option pb.Jid) (caller_country_code device_class : option string) (joinable is_video : bool)
    (audio : list CallAudioCodec) (group_jid : option pb.Jid)
| OfferNotice (is_video is_group : bool)
| PreAccept (audio : list CallAudioCodec)
| Accept (audio : list CallAudioCodec)
| Reject (reason : option string)
| Terminate (reason : option string) (duration audio_duration : option Z)
| Transport (p2p_cand_round transport_message_type : option string)
| RelayLatency
| VideoStateChange (state : PbVideoState)
| RaiseHand (raised : bool)
| GroupCallChange (update : PbGroupCall)
| EncRekey (rekey : PbEncRekey)
| WaitingRoomUpdate (room : PbWaitingRoom)
| ScreenShare (share : PbScreenShare)
| UnknownCallAction (tag : string)
| Missed (reason : MissedCallReason).

Record CallEvent : Type := MkCallEvent {
  ce_from : option pb.Jid; ce_call_id : string; ce_call_creator : option pb.Jid; ce_stanza_id : string; ce_notify : option string;
  ce_platform : option string; ce_version : option string; ce_participant : option pb.Jid; ce_recipient : option pb.Jid;
  ce_timestamp : Z; ce_offline : bool; ce_caller_username : option string; ce_video_orientation : option Z;
  ce_group : option PbGroupCall; ce_action : option PbCallAction }.

(** ** The relay *)

(** A [CallAudioCodec] crosses with both its fields. *)
Definition codecs (audio : list CallAudioCodec) : list CallAudioCodec := (fun codec => MkCodec (enc codec) (rate codec)) <$> audio.

Definition video_state (state : wa.VideoState) (orientation : option Z) (dec : option string) : PbVideoState :=
  let '(kind, code) := video_state_of state in MkPbVideoState kind code orientation dec.

Definition screen_share_payload (s : LibScreenShare) : PbScreenShare :=
  MkPbScreenShare (screen_share_state_of (ss_state s)) (ss_version s) (screen_share_id s).

Definition device_of (d : GroupCallDevice) : PbCallDevice :=
  MkPbCallDevice (relay_lib_jid (dev_jid d)) (dev_platform d) (dev_pid d) (dev_capability_version d) (dev_capability d).
Definition call_participant_of (p : GroupCallParticipant) : PbCallParticipant :=
  MkPbCallParticipant (relay_lib_jid (cp_jid p)) (relay_optional_lib_jid (cp_pn p)) (cp_state p) (cp_type p) (device_of <$> cp_devices p).
Definition relay_endpoint (e : GroupCallRelayEndpoint) : PbEndpoint :=
  MkPbEndpoint (relay_id e) (token_id e) (auth_token_id e) (relay_name e) (domain_name e) (rtt_ms e) (is_fna e) (ipv4 e) (port e).
Definition relay_of (r : GroupCallRelay) : PbCallRelay :=
  MkPbCallRelay (rl_transaction_id r) (self_pid r) (rl_uuid r) (participant_uuid r) (attribute_padding r) (warp_mi_tag_len r)
    (relay_endpoint <$> endpoints r).
Definition group_call_update (u : LibGroupCallUpdate) : PbGroupCall :=
  MkPbGroupCall (gc_call_id u) (relay_lib_jid (gc_call_creator u)) (relay_optional_lib_jid (gc_group_jid u)) (gc_transaction_id u)
    (gc_media u) (gc_connected_limit u) (gc_joinable u) (gc_av_upgradable u) (gc_rekey_requested u)
    (call_participant_of <$> gc_participants u) (relay_of <$> gc_relay u).
Definition enc_rekey (r : LibEncRekey) : PbEncRekey :=
  MkPbEncRekey (rk_call_id r) (relay_lib_jid (rk_call_creator r)) (rk_transaction_id r) (rk_key_generation r) (rk_encryption_type r)
    (rk_encryption_version r) (rk_ciphertext r).
Definition waiting_room_user (u : LibWaitingRoomUser) : PbRoomUser :=
  MkPbRoomUser (relay_lib_jid (ru_jid u)) (relay_optional_lib_jid (ru_pn u)) (ru_state u).
Definition waiting_room (r : LibWaitingRoom) : PbWaitingRoom :=
  MkPbWaitingRoom (wr_call_id r) (relay_lib_jid (wr_call_creator r)) (wr_link_token r) (call_link_media_of (wr_media r)) (wr_enabled r)
    (wr_is_admin r) (wr_transaction_id r) (waiting_room_user <$> wr_users r).

(** [CallAction::wire_tag]. *)
Context (wire_tag : CallAction -> string).

(** The match goes through four functions, each handing what it does not know to the next. *)
Definition group_signal_action (action : CallAction) : PbCallAction :=
  match action with
  | CaGroupUpdate update => GroupCallChange (group_call_update update)
  | CaEncRekey rekey => EncRekey (enc_rekey rekey)
  | CaWaitingRoomUpdate room => WaitingRoomUpdate (waiting_room room)
  | CaScreenShare share => ScreenShare (screen_share_payload share)
  | other => UnknownCallAction (wire_tag other)
  end.
Definition media_signal_action (action : CallAction) : PbCallAction :=
  match action with
  | CaTransport round kind => Transport round kind
  | CaRelayLatency => RelayLatency
  | CaVideoState state orientation dec => VideoStateChange (video_state state orientation dec)
  | CaRaiseHand raised => RaiseHand raised
  | _ => group_signal_action action
  end.
Definition answer_or_end_action (action : CallAction) : PbCallAction :=
  match action with
  | CaPreAccept audio => PreAccept (codecs audio)
  | CaAccept audio => Accept (codecs audio)
  | CaReject reason => Reject reason
  | CaTerminate reason duration audio_duration => Terminate reason duration audio_duration
  | _ => media_signal_action action
  end.
Definition call_action_of (action : CallAction) : PbCallAction :=
  match action with
  | CaOffer caller_pn country device_class joinable is_video audio group_jid =>
      Offer (relay_optional_lib_jid caller_pn) country device_class joinable is_video (codecs audio) (relay_optional_lib_jid group_jid)
  | CaOfferNotice is_video is_group => OfferNotice is_video is_group
  | _ => answer_or_end_action action
  end.

(** A stanza without a time is 0. *)
Definition call_event_of (c : IncomingCall) : CallEvent :=
  MkCallEvent (relay_lib_jid (ic_from c)) (ic_call_id c) (relay_lib_jid (ic_call_creator c)) (ic_stanza_id c) (ic_notify c)
    (ic_platform c) (ic_version c) (relay_optional_lib_jid (ic_participant c)) (relay_optional_lib_jid (ic_recipient c))
    (default 0 (timestamp_millis <$> ic_timestamp c)) (ic_offline c) (ic_caller_username c) (ic_video_orientation c)
    (group_call_update <$> ic_group c) (Some (call_action_of (ic_action c))).

(** ** A missed call (missed_call.rs) *)

(** [MissedReason], with a case for the ones this build does not name. *)
Inductive MissedReason : Type := MrOffline | MrRemote | MrUnnamed (variant : Z).

Record MissedCall : Type := MkMissedCall { mc_from : LJid; mc_call_id : string; mc_timestamp : DateTime; mc_reason : MissedReason }.

Definition missed_reason_of (reason : MissedReason) : MissedCallReason :=
  match reason with
  | MrOffline => MissedOffline
  | MrRemote => MissedRemote
  | MrUnnamed _ => MissedUnknown
  end.

Definition missed_call_event_of (m : MissedCall) : CallEvent :=
  MkCallEvent (relay_lib_jid (mc_from m)) (mc_call_id m) None "" None None None None None (timestamp_millis (mc_timestamp m))
    (match mc_reason m with MrOffline => true | _ => false end) None None None (Some (Missed (missed_reason_of (mc_reason m)))).
End calls.
