(* ===== verification/NoticeEvents.v ===== *)
(** * What the server says of contacts, devices and the connection

    domain/contact_notice.rs, device_notice.rs, connection_notice.rs, mex_notification.rs,
    reachout_timelock_update.rs and pairing_update.rs.  Records hold the fields the code reads. *)

From S2P Require Import Prelude Errors Wire Jids RelayedEnums MessageProjection Relays.

Section notices.
Context `{ids : LibIds} `{clock : Clock}.

(** ** Contacts (contact_notice.rs) *)

Record PictureUpdate : Type := MkPicture {
  pic_jid : LJid; pic_author : option LJid; pic_timestamp : DateTime; pic_removed : bool; picture_id : option string }.
Record UserAboutUpdate : Type := MkAbout { ab_jid : LJid; ab_status : string; ab_timestamp : DateTime }.
Record ContactUpdated : Type := MkContactUpdated { cu_jid : LJid; cu_timestamp : DateTime }.
Record ContactNumberChanged : Type := MkNumberChanged {
  nc_old_jid : LJid; nc_new_jid : LJid; nc_old_lid : option LJid; nc_new_lid : option LJid; nc_timestamp : DateTime }.
Record ContactSyncRequested : Type := MkSyncRequested { sr_after : option DateTime; sr_timestamp : DateTime }.
Record DisappearingModeChanged : Type := MkDisappearing { dm_from : LJid; dm_duration : Z; dm_setting_timestamp : DateTime }.

Inductive BusinessUpdateType : Type :=
| RemovedAsBusiness | VerifiedNameChanged | ProfileUpdated | ProductsUpdated | CollectionsUpdated | SubscriptionsUpdated | BusinessUnknown.

Record BusinessSubscription : Type := MkSubscription {
  sub_id : string; sub_status : string; sub_expiration_date : option Z; sub_creation_time : option Z }.
Record BusinessStatusUpdate : Type := MkBusiness {
  bs_jid : LJid; bs_update_type : BusinessUpdateType; bs_timestamp : DateTime; bs_target : option LJid; bs_hash : option string;
  bs_verified_name : option string; bs_product_ids : list string; bs_collection_ids : list string;
  bs_subscriptions : list BusinessSubscription }.

Record PbSubscription : Type := MkPbSubscription {
  psub_id : string; psub_status : string; psub_expiration_date : option Z; psub_creation_time : option Z }.

(** The contract's type is the same list of names. *)
Inductive PbContactNotice : Type :=
| Picture (jid author : option pb.Jid) (timestamp : Z) (removed : bool) (picture_id : option string)
| About (jid : option pb.Jid) (about : string) (timestamp : Z)
| Profile (jid : option pb.Jid) (timestamp : Z)
| Number (old_pn new_pn old_lid new_lid : option pb.Jid) (timestamp : Z)
| SyncRequested (after : option Z) (timestamp : Z)
| DisappearingMode (jid : option pb.Jid) (duration_seconds setting_timestamp : Z)
| Business (jid : option pb.Jid) (update_type : BusinessUpdateType) (timestamp : Z) (target : option pb.Jid)
    (hash verified_name : option string) (product_ids collection_ids : list string) (subscriptions : list PbSubscription).

Definition picture_notice_of (u : PictureUpdate) : PbContactNotice :=
  Picture (relay_lib_jid (pic_jid u)) (relay_optional_lib_jid (pic_author u)) (timestamp_millis (pic_timestamp u)) (pic_removed u) (picture_id u).
Definition about_notice_of (u : UserAboutUpdate) : PbContactNotice :=
  About (relay_lib_jid (ab_jid u)) (ab_status u) (timestamp_millis (ab_timestamp u)).
Definition profile_notice_of (u : ContactUpdated) : PbContactNotice :=
  Profile (relay_lib_jid (cu_jid u)) (timestamp_millis (cu_timestamp u)).
Definition number_notice_of (c : ContactNumberChanged) : PbContactNotice :=
  Number (relay_lib_jid (nc_old_jid c)) (relay_lib_jid (nc_new_jid c)) (relay_optional_lib_jid (nc_old_lid c))
    (relay_optional_lib_jid (nc_new_lid c)) (timestamp_millis (nc_timestamp c)).
Definition sync_requested_notice_of (r : ContactSyncRequested) : PbContactNotice :=
  SyncRequested (timestamp_millis <$> sr_after r) (timestamp_millis (sr_timestamp r)).
Definition disappearing_mode_notice_of (c : DisappearingModeChanged) : PbContactNotice :=
  DisappearingMode (relay_lib_jid (dm_from c)) (dm_duration c) (timestamp_millis (dm_setting_timestamp c)).

Definition business_update_type_of (kind : BusinessUpdateType) : BusinessUpdateType :=
  match kind with
  | RemovedAsBusiness => RemovedAsBusiness
  | VerifiedNameChanged => VerifiedNameChanged
  | ProfileUpdated => ProfileUpdated
  | ProductsUpdated => ProductsUpdated
  | CollectionsUpdated => CollectionsUpdated
  | SubscriptionsUpdated => SubscriptionsUpdated
  | BusinessUnknown => BusinessUnknown
  end.

(** The stanza's instants are seconds. *)
Definition subscription_of (s : BusinessSubscription) : PbSubscription :=
  MkPbSubscription (sub_id s) (sub_status s) (millis_from_signed_seconds <$> sub_expiration_date s)
    (millis_from_signed_seconds <$> sub_creation_time s).

Definition business_notice_of (u : BusinessStatusUpdate) : PbContactNotice :=
  Business (relay_lib_jid (bs_jid u)) (business_update_type_of (bs_update_type u)) (timestamp_millis (bs_timestamp u))
    (relay_optional_lib_jid (bs_target u)) (bs_hash u) (bs_verified_name u) (bs_product_ids u) (bs_collection_ids u)
    (subscription_of <$> bs_subscriptions u).

(** ** Devices (device_notice.rs) *)

Inductive DeviceListUpdateType : Type := DeviceAdd | DeviceRemove | DeviceUpdate.
Record DeviceNotificationInfo : Type := MkDeviceInfo { dn_device_id : Z; dn_key_index : option Z }.
Record KeyIndexInfo : Type := MkKeyIndex { ki_timestamp : Z; ki_signed_bytes : option bytes }.
Record DeviceListUpdate : Type := MkDeviceList {
  dl_user : LJid; dl_lid_user : option LJid; dl_update_type : DeviceListUpdateType; dl_devices : list DeviceNotificationInfo;
  dl_key_index : option KeyIndexInfo; dl_contact_hash : option string }.
Record IdentityChange : Type := MkIdentityChange { id_user : LJid; id_lid_user : option LJid; id_implicit : bool }.

Record PbDeviceKeyIndex : Type := MkPbDeviceKeyIndex { pdk_device_id : Z; pdk_key_index : option Z }.
Record PbKeyIndexList : Type := MkPbKeyIndexList { pki_timestamp : Z; pki_signed_bytes : option bytes }.
Inductive PbDeviceNotice : Type :=
| DeviceListNotice (user lid_user : option pb.Jid) (update_type : DeviceListUpdateType) (devices : list PbDeviceKeyIndex)
    (key_index : option PbKeyIndexList) (contact_hash : option string)
| IdentityNotice (user lid_user : option pb.Jid) (implicit : bool).

Definition device_list_type_of (kind : DeviceListUpdateType) : DeviceListUpdateType :=
  match kind with DeviceAdd => DeviceAdd | DeviceRemove => DeviceRemove | DeviceUpdate => DeviceUpdate end.
Definition device_key_index_of (d : DeviceNotificationInfo) : PbDeviceKeyIndex := MkPbDeviceKeyIndex (dn_device_id d) (dn_key_index d).
Definition key_index_list_of (i : KeyIndexInfo) : PbKeyIndexList :=
  MkPbKeyIndexList (millis_from_signed_seconds (ki_timestamp i)) (ki_signed_bytes i).

Definition device_list_notice_of (u : DeviceListUpdate) : PbDeviceNotice :=
  DeviceListNotice (relay_lib_jid (dl_user u)) (relay_optional_lib_jid (dl_lid_user u)) (device_list_type_of (dl_update_type u))
    (device_key_index_of <$> dl_devices u) (key_index_list_of <$> dl_key_index u) (dl_contact_hash u).
Definition identity_notice_of (c : IdentityChange) : PbDeviceNotice :=
  IdentityNotice (relay_lib_jid (id_user c)) (relay_optional_lib_jid (id_lid_user c)) (id_implicit c).

(** ** The connection (connection_notice.rs) *)

Record ConnectFailure : Type := MkConnectFailure { cf_reason : wa.ConnectFailureReason; cf_message : option string; cf_raw : option Node }.
Record ClientOutdated : Type := MkClientOutdated { co_raw : option Node }.
Record StreamError : Type := MkStreamError { se_code : string; se_raw : option Node }.
Record AppStateSyncFailed : Type := MkAppStateSyncFailed {
  sf_fatal : list string; sf_retryable : list string; sf_skipped : list string; sf_connected : bool }.
Record ClientExpirationChanged : Type := MkClientExpiration { ce_expires_at : option Z; ce_version : Z * Z * Z; ce_withdrawn : bool }.

Inductive PbConnectionNotice : Type :=
| ConnectFailureNotice (reason : Wire contract.LogoutReason) (reason_code : Z) (message : option string) (stanza : option StanzaNode)
| ClientOutdatedNotice (stanza : option StanzaNode)
| StreamErrorNotice (code : string) (stanza : option StanzaNode)
| StreamReplacedNotice
| AppStateSyncFailedNotice (fatal retryable skipped : list string) (connected : bool)
| ClientExpirationNotice (expires_at : option Z) (primary secondary tertiary : Z) (withdrawn : bool).

Definition connect_failure_notice_of (f : ConnectFailure) : PbConnectionNotice :=
  let '(reason, reason_code) := logout_reason_of (cf_reason f) in
  ConnectFailureNotice reason reason_code (cf_message f) (stanza_node_of <$> cf_raw f).
Definition client_outdated_notice_of (o : ClientOutdated) : PbConnectionNotice := ClientOutdatedNotice (stanza_node_of <$> co_raw o).
Definition stream_error_notice_of (e : StreamError) : PbConnectionNotice := StreamErrorNotice (se_code e) (stanza_node_of <$> se_raw e).
Definition stream_replaced_notice_of : PbConnectionNotice := StreamReplacedNotice.
Definition app_state_sync_failed_notice_of (f : AppStateSyncFailed) : PbConnectionNotice :=
  AppStateSyncFailedNotice (sf_fatal f) (sf_retryable f) (sf_skipped f) (sf_connected f).
Definition client_expiration_notice_of (c : ClientExpirationChanged) : PbConnectionNotice :=
  let '(primary, secondary, tertiary) := ce_version c in
  ClientExpirationNotice (millis_from_signed_seconds <$> ce_expires_at c) primary secondary tertiary (ce_withdrawn c).

(** ** MEX and the reachout timelock (mex_notification.rs, reachout_timelock_update.rs) *)

(** serde_json's value and its text. *)
Context {Value : Type} (to_vec : Value -> bytes).

Record MexNotification : Type := MkMex {
  mex_op_name : string; mex_from : option LJid; mex_stanza_id : option string; mex_offline : option string; mex_payload : Value }.
Record PbMex : Type := MkPbMex {
  pm_op_name : string; pm_from : option pb.Jid; pm_stanza_id : option string; pm_offline : option string; pm_payload_json : bytes }.
Definition mex_notification_of (n : MexNotification) : PbMex :=
  MkPbMex (mex_op_name n) (relay_optional_lib_jid (mex_from n)) (mex_stanza_id n) (mex_offline n) (to_vec (mex_payload n)).

Record ReachoutTimelockUpdate : Type := MkReachout {
  rt_enforcement_type : option string; rt_is_active : option bool; rt_time_enforcement_ends : option string; rt_from : option LJid;
  rt_stanza_id : option string; rt_offline : option string }.
Record PbReachout : Type := MkPbReachout {
  prt_enforcement_type : option string; prt_is_active : option bool; prt_time_enforcement_ends : option string; prt_from : option pb.Jid;
  prt_stanza_id : option string; prt_offline : option string }.
Definition reachout_timelock_update_of (u : ReachoutTimelockUpdate) : PbReachout :=
  MkPbReachout (rt_enforcement_type u) (rt_is_active u) (rt_time_enforcement_ends u) (relay_optional_lib_jid (rt_from u)) (rt_stanza_id u)
    (rt_offline u).

(** ** Pairing (pairing_update.rs) *)

Inductive PairCodeRejection : Type :=
| BadRequest | Forbidden | RateOverlimit | FeatureNotAvailable | PairInternalServerError | PairUnknown (code : Z).

(** The contract's: unspecified, unknown, or one of those. *)
Inductive PbPairRejection : Type := PairUnspecified | PairRejectionUnknown | PairRejection (r : PairCodeRejection).

(** [backoff] in milliseconds, a [u128]. *)
Record PairingCodeError : Type := MkPairingCodeError {
  pce_rejection : option PairCodeRejection; pce_backoff_ms : option Z; pce_error : string }.

Definition pair_code_rejection_of (rejection : option PairCodeRejection) : PbPairRejection * Z :=
  match rejection with
  | None => (PairUnspecified, 0)
  | Some (PairUnknown code) => (PairRejectionUnknown, code)
  | Some r => (PairRejection r, 0)
  end.

Inductive PbPairing : Type :=
| PbQrCode (code : string)
| PbPairCode (code : string)
| PbPaired (jid : option pb.Jid) (business_name : string) (lid : option pb.Jid) (platform : string)
| PbPairError (message : string)
| PbCodeRefresh (force_manual : bool)
| PbCodeError (rejection : PbPairRejection) (rejection_code : Z) (backoff_ms : option Z) (detail : string)
| PbQrCodesExhausted (disconnected : bool).

Definition pairing_code_refresh_of (force_manual : bool) : PbPairing := PbCodeRefresh force_manual.
Definition pairing_code_error_of (e : PairingCodeError) : PbPairing :=
  let '(rejection, rejection_code) := pair_code_rejection_of (pce_rejection e) in
  PbCodeError rejection rejection_code (saturating_i64 <$> pce_backoff_ms e) (pce_error e).
Definition pairing_qr_codes_exhausted_of (disconnected : bool) : PbPairing := PbQrCodesExhausted disconnected.
End notices.
