(* ===== verification/EventMapping.v ===== *)
(** * The library's events on the wire (domain/event_mapping.rs)

    Every kind of event the code names, with the payload its relay reads, and [map_event]: the wire
    events it becomes.  The relays are those of the files before; here are the ones
    event_mapping.rs has itself.  What belongs to a library stays an argument: serde_json, the
    [Debug] text of an event. *)

From S2P Require Import Prelude Errors Wire RequestEnums Jids RelayedEnums MessageProjection Relays AppStateEvents GroupEvents CallEvents NoticeEvents.

(** [pb::ConnectionState]. *)
Inductive ConnState : Type := StateUnspecified | StateDisconnected | StateConnecting | StateConnected | StateLoggedOut | StateBanned.

(** ** The library's payloads *)

Module lib.
Section payloads.
Context `{messages : WaMessages} `{ids : LibIds} `{clock : Clock}.

Record LogoutMessage : Type := MkLogoutMessage { header : option string; subtext : option string; locale : option string }.
Record LoggedOutEvent : Type := MkLoggedOut {
  lo_reason : wa.ConnectFailureReason; logout_message : option LogoutMessage; on_connect : bool; lo_raw : option Node }.
(** [expire] in the whole seconds of its [num_seconds]. *)
Record TemporaryBanEvent : Type := MkTemporaryBan {
  ban_code : wa.TempBanReason; expire : Z; ban_message : option string; ban_url : option string; ban_raw : option Node }.
Record PairSuccessEvent : Type := MkPairSuccess { ps_id : LJid; business_name : string; ps_lid : LJid; platform : string }.
Record MessageInBatch : Type := MkInBatch { message : Message; info : MessageInfo }.
Record ReceiptData : Type := MkReceipt {
  r_chat : LJid; r_sender : LJid; r_message_ids : list string; r_type : wa.ReceiptType; r_timestamp : DateTime }.
Record UndecryptableData : Type := MkUndecryptable { u_chat : LJid; u_sender : LJid; unavailable_type : wa.UnavailableType }.
(** [PresenceStatus], with a case for what this build does not name. *)
Inductive PresenceStatus : Type := Available | Unavailable | StatusUnnamed (variant : Z).
Record PresenceData : Type := MkPresence { pr_from : LJid; pr_status : PresenceStatus; pr_last_seen : option DateTime }.
Record ChatPresenceData : Type := MkChatPresence { cp_sender : LJid; cp_chat : LJid; cp_activity : wa.ChatActivity }.
(** A chunk's handle, its payload by what [decompress] answers of it. *)
Record LazyHistorySync : Type := MkHistory {
  h_sync_type : Z; h_chunk_order : option Z; h_progress : option Z; h_session_id : option string; decompress : result string bytes }.
Record ReactionCount : Type := MkReactionCount { rc_code : string; rc_count : Z }.
Record PollVote : Type := MkPollVote { option_hash : bytes; vote_count : Z }.
Record LiveMessage : Type := MkLiveMessage {
  server_id : Z; reactions : list ReactionCount; votes : list PollVote; forwards_count : option Z }.
Record LiveUpdate : Type := MkLiveUpdate { newsletter_jid : LJid; live_messages : list LiveMessage }.
Record ServerAckData : Type := MkServerAck {
  ack_id : string; ack_class : option string; ack_from : option LJid; ack_timestamp : option DateTime; ack_error : option string }.
Record SyncPreview : Type := MkPreview {
  total : Z; preview_messages : Z; notifications : Z; receipts : Z; calls : Z; statuses : Z; app_data_changes : Z }.

(** [Event]; [OtherEvent] is a kind the code does not name, of a payload [X]; [Value] is
    serde_json's. *)
Context {Value X : Type}.

Inductive Event : Type :=
| Connected | Disconnected | LoggedOut (l : LoggedOutEvent) | TemporaryBan (b : TemporaryBanEvent)
| PairingQrCode (code : string) | PairingCode (code : string) | PairSuccess (p : PairSuccessEvent) | PairError (error : string)
| PairingCodeRefresh (force_manual : bool) | PairingCodeErr (e : PairingCodeError) | PairingQrCodesExhausted (disconnected : bool)
| Messages (batch : list MessageInBatch) | Receipt (r : ReceiptData) | UndecryptableMessage (u : UndecryptableData)
| Presence (p : PresenceData) | ChatPresence (c : ChatPresenceData)
| GroupUpdated (g : LibGroupUpdate) | ContactUpdate (c : LibContactUpdate) | ContactGone (c : ContactRemoved)
| SelfPushName (u : SelfPushNameUpdated) | CallLogSynced (c : CallLogSync) | CallLogBackfill (c : CallLogHistory)
| HistorySync (h : LazyHistorySync)
| Archive (s : ArchiveUpdate) | Pin (s : PinUpdate) | Mute (s : MuteUpdate) | Star (s : StarUpdate) | MarkChatAsRead (s : MarkChatAsReadUpdate)
| DeleteChat (s : DeleteChatUpdate) | LockChat (s : LockChatUpdate) | ClearChat (s : ClearChatUpdate)
| DeleteMessageForMe (s : DeleteMessageForMeUpdate) | UserStatusMute (s : UserStatusMuteUpdate)
| FavoriteSticker (s : FavoriteStickerUpdate) | RemoveRecentSticker (s : RemoveRecentStickerUpdate)
| LabelEdit (u : LabelEditUpdate) | LabelAssociation (u : LabelAssociationUpdate) | MessageLabelAssociation (u : MessageLabelAssociationUpdate)
| QuickReply (u : QuickReplyUpdate) | LabelSublist (u : LabelSublistUpdate) | DisableLinkPreviews (u : DisableLinkPreviewsUpdate)
| StatusPrivacy (u : StatusPrivacyUpdate) | UnarchiveChatsSetting (u : UnarchiveChatsSettingUpdate) | Favorites (f : FavoritesUpdate)
| NewsletterLive (u : LiveUpdate) | Incoming (c : IncomingCall) | Missed (m : MissedCall)
| PictureChange (u : PictureUpdate) | UserAbout (u : UserAboutUpdate) | ContactProfile (u : ContactUpdated)
| ContactNumber (c : ContactNumberChanged) | ContactSync (r : ContactSyncRequested) | DisappearingModeChange (c : DisappearingModeChanged)
| BusinessStatus (u : BusinessStatusUpdate) | DeviceListChange (u : DeviceListUpdate) | Identity (c : IdentityChange)
| MexNotified (n : MexNotification (Value := Value)) | ReachoutTimelock (u : ReachoutTimelockUpdate)
| ServerAck (a : ServerAckData) | OfflineSyncPreview (p : SyncPreview) | OfflineSyncCompleted (count : Z)
| ConnectFailed (f : ConnectFailure) | Outdated (o : ClientOutdated) | StreamFailed (e : StreamError) | StreamReplaced
| AppStateSyncFail (f : AppStateSyncFailed) | ClientExpiration (c : ClientExpirationChanged)
| OfflineSyncInterrupted (total delivered : Z)
| Notification (node : Node) | RawNode (node : Node) | DirtyState
| OtherEvent (x : X).
End payloads.
End lib.

(** ** The wire (events.proto) *)

Module wire.
Record LogoutMessage : Type := MkLogoutMessage { header : option string; subtext : option string; locale : option string }.
Record LoggedOutInfo : Type := MkLoggedOutInfo {
  reason : Wire contract.LogoutReason; reason_code : Z; logout_message : option LogoutMessage; on_connect : bool; stanza : option StanzaNode }.
Record TemporaryBanInfo : Type := MkBanInfo {
  ban_reason : Wire contract.BanReason; ban_reason_code : Z; expire_seconds : Z; message : string; url : string;
  ban_stanza : option StanzaNode }.
Record ConnectionStateChanged : Type := MkConnection {
  state : ConnState; logged_out : option LoggedOutInfo; ban : option TemporaryBanInfo }.
Record ReceiptEvent : Type := MkReceiptEvent {
  chat : option pb.Jid; sender : option pb.Jid; message_ids : list string; type : Wire contract.ReceiptType; type_raw : string;
  timestamp : Z }.
Record UndecryptableEvent : Type := MkUndecryptableEvent {
  u_chat : option pb.Jid; u_sender : option pb.Jid; u_reason : Wire contract.UnavailableReason }.
Record PresenceUpdate : Type := MkPresenceUpdate {
  p_jid : option pb.Jid; online : option bool; last_seen : Z; chat_state : Wire contract.ChatState; p_chat : option pb.Jid }.
Record HistorySyncEvent : Type := MkHistoryEvent {
  sync_type : Z; chunk_order : option Z; progress : option Z; session_id : option string; raw : bytes }.
Record RawEvent : Type := MkRawEvent { kind : string; payload : bytes; note : string }.
Record NewsletterReactionCount : Type := MkReactionCount { code : string; count : Z }.
Record NewsletterPollVote : Type := MkPollVote { option_hash : bytes; vote_count : Z }.
Record NewsletterLiveUpdateMessage : Type := MkLiveMessage {
  server_id : Z; reactions : list NewsletterReactionCount; votes : list NewsletterPollVote; forwards_count : option Z }.
Record NewsletterLiveUpdate : Type := MkLiveUpdate { newsletter : option pb.Jid; messages : list NewsletterLiveUpdateMessage }.
Record ServerAckEvent : Type := MkServerAckEvent { id : string; class : string; from : option pb.Jid; a_timestamp : Z; error : string }.
Record OfflineSyncPreview : Type := MkSyncPreview {
  total : Z; preview_messages : Z; notifications : Z; receipts : Z; calls : Z; statuses : Z; app_data_changes : Z }.

(** [event_envelope::Event], what [map_event] makes of it. *)
Inductive Event : Type :=
| Message (m : ev.InboundMessage) | Receipt (r : ReceiptEvent) | Undecryptable (u : UndecryptableEvent)
| Connection (c : ConnectionStateChanged) | Pairing (update : option PbPairing) | Presence (p : PresenceUpdate)
| Group (g : GroupUpdate) | Contact (c : PbContactUpdate) | History (h : HistorySyncEvent) | AppState (s : AppStateUpdate)
| Call (c : CallEvent) | ServerAck (a : ServerAckEvent) | SyncPreview (p : OfflineSyncPreview) | SyncCompleted (count : Z)
| SyncInterrupted (total delivered : Z) | FavoritesChange (f : FavoritesChanged) | LiveUpdate (u : NewsletterLiveUpdate)
| Sticker (s : StickerUpdate) | Label (l : LabelUpdate) | QuickReply (q : PbQuickReply) | LabelSublist (l : PbLabelSublist)
| AccountSetting (s : AccountSettingUpdate) | ConnectionNotice (n : PbConnectionNotice) | ContactNotice (n : PbContactNotice)
| DeviceNotice (n : PbDeviceNotice) | Mex (m : PbMex) | ReachoutTimelock (r : PbReachout) | SelfPushName (p : PbSelfPushName)
| CallLog (c : CallLogUpdate) | CallLogBackfill (c : PbCallLogHistory) | Raw (r : RawEvent).
End wire.

Section mapping.
Context `{messages : WaMessages} `{ids : LibIds} `{clock : Clock}.
Context (add_mode_try_from : string -> option MemberAddMode) (get_optional_child : Node -> string -> option Node).
Context (parse_group : Node -> option GroupMetadata) (wire_tag : CallAction -> string) (base64_decode : string -> option bytes).
(** serde_json's [to_vec], of a value and of an event the code does not name; [format!("{event:?}")] of one. *)
Context {Value X : Type} (to_vec : Value -> bytes) (event_to_vec : X -> option bytes) (debug : X -> string).

Notation Event := (lib.Event (Value := Value) (X := X)).

Definition connection_with (state : ConnState) (logged_out : option wire.LoggedOutInfo) (ban : option wire.TemporaryBanInfo) : wire.Event :=
  wire.Connection (wire.MkConnection state logged_out ban).
Definition connection (state : ConnState) : wire.Event := connection_with state None None.

Definition logout_message_of (m : lib.LogoutMessage) : wire.LogoutMessage :=
  wire.MkLogoutMessage (lib.header m) (lib.subtext m) (lib.locale m).
Definition logged_out (logout : lib.LoggedOutEvent) : wire.Event :=
  let '(reason, reason_code) := logout_reason_of (lib.lo_reason logout) in
  connection_with StateLoggedOut
    (Some (wire.MkLoggedOutInfo reason reason_code (logout_message_of <$> lib.logout_message logout) (lib.on_connect logout)
             (stanza_node_of <$> lib.lo_raw logout))) None.

Definition temporary_ban (ban : lib.TemporaryBanEvent) : wire.Event :=
  let '(reason, reason_code) := ban_reason_of (lib.ban_code ban) in
  connection_with StateBanned None
    (Some (wire.MkBanInfo reason reason_code (lib.expire ban) (default "" (lib.ban_message ban)) (default "" (lib.ban_url ban))
             (stanza_node_of <$> lib.ban_raw ban))).

Definition pairing (event : PbPairing) : wire.Event := wire.Pairing (Some event).
Definition paired (p : lib.PairSuccessEvent) : PbPairing :=
  PbPaired (relay_lib_jid (lib.ps_id p)) (lib.business_name p) (relay_lib_jid (lib.ps_lid p)) (lib.platform p).

Definition receipt_event (r : lib.ReceiptData) : wire.ReceiptEvent :=
  let '(receipt_type, type_raw) := receipt_type_of (lib.r_type r) in
  wire.MkReceiptEvent (relay_lib_jid (lib.r_chat r)) (relay_lib_jid (lib.r_sender r)) (lib.r_message_ids r) receipt_type type_raw
    (timestamp_millis (lib.r_timestamp r)).

Definition undecryptable (u : lib.UndecryptableData) : wire.UndecryptableEvent :=
  wire.MkUndecryptableEvent (relay_lib_jid (lib.u_chat u)) (relay_lib_jid (lib.u_sender u)) (unavailable_reason_of (lib.unavailable_type u)).

(** A presence has no chat, a chat state no presence. *)
Definition presence (p : lib.PresenceData) : wire.PresenceUpdate :=
  wire.MkPresenceUpdate (relay_lib_jid (lib.pr_from p))
    (Some (negb (match lib.pr_status p with lib.Unavailable => true | _ => false end)))
    (default 0 (timestamp_secs <$> lib.pr_last_seen p)) Unspecified None.
Definition chat_presence (c : lib.ChatPresenceData) : wire.PresenceUpdate :=
  wire.MkPresenceUpdate (relay_lib_jid (lib.cp_sender c)) None 0 (chat_state_of (lib.cp_activity c)) (relay_lib_jid (lib.cp_chat c)).

(** A chunk that does not inflate is the catch-all with the reason, not an empty chunk. *)
Definition history_sync (h : lib.LazyHistorySync) : wire.Event :=
  match lib.decompress h with
  | Ok raw => wire.History (wire.MkHistoryEvent (lib.h_sync_type h) (lib.h_chunk_order h) (lib.h_progress h) (lib.h_session_id h) raw)
  | Err e => wire.Raw (wire.MkRawEvent "HistorySync" [] ("history sync chunk failed to inflate: " +:+ e))
  end.

Definition live_update_message (m : lib.LiveMessage) : wire.NewsletterLiveUpdateMessage :=
  wire.MkLiveMessage (lib.server_id m) ((fun r => wire.MkReactionCount (lib.rc_code r) (lib.rc_count r)) <$> lib.reactions m)
    ((fun v => wire.MkPollVote (lib.option_hash v) (lib.vote_count v)) <$> lib.votes m) (lib.forwards_count m).
Definition newsletter_live_update (u : lib.LiveUpdate) : wire.NewsletterLiveUpdate :=
  wire.MkLiveUpdate (relay_lib_jid (lib.newsletter_jid u)) (live_update_message <$> lib.live_messages u).

Definition server_ack (a : lib.ServerAckData) : wire.ServerAckEvent :=
  wire.MkServerAckEvent (lib.ack_id a) (default "" (lib.ack_class a)) (relay_optional_lib_jid (lib.ack_from a))
    (default 0 (timestamp_millis <$> lib.ack_timestamp a)) (default "" (lib.ack_error a)).

Definition offline_sync_preview (p : lib.SyncPreview) : wire.OfflineSyncPreview :=
  wire.MkSyncPreview (lib.total p) (lib.preview_messages p) (lib.notifications p) (lib.receipts p) (lib.calls p) (lib.statuses p)
    (lib.app_data_changes p).

(** The text before the first of [(], [{] and the space (40, 123 and 32). *)
Definition is_split (c : Ascii.ascii) : bool := let n := Ascii.N_of_ascii c in (n =? 40)%N || (n =? 123)%N || (n =? 32)%N.
Fixpoint before_split (s : string) : string :=
  match s with
  | "" => ""
  | String c rest => if is_split c then "" else String c (before_split rest)
  end.
Definition variant_name (x : X) : string := before_split (debug x).
Definition raw_event_of (x : X) : wire.RawEvent := wire.MkRawEvent (variant_name x) (default [] (event_to_vec x)) "".

Definition one (event : wire.Event) : list wire.Event := [event].

Definition map_event (event : Event) : list wire.Event :=
  match event with
  | lib.Connected => one (connection StateConnected)
  | lib.Disconnected => one (connection StateDisconnected)
  | lib.LoggedOut l => one (logged_out l)
  | lib.TemporaryBan b => one (temporary_ban b)
  | lib.PairingQrCode code => one (pairing (PbQrCode code))
  | lib.PairingCode code => one (pairing (PbPairCode code))
  | lib.PairSuccess p => one (pairing (paired p))
  | lib.PairError error => one (pairing (PbPairError error))
  | lib.PairingCodeRefresh r => one (pairing (pairing_code_refresh_of r))
  | lib.PairingCodeErr e => one (pairing (pairing_code_error_of e))
  | lib.PairingQrCodesExhausted x => one (pairing (pairing_qr_codes_exhausted_of x))
  | lib.Messages batch => (fun m => wire.Message (map_message (lib.message m) (lib.info m))) <$> batch
  | lib.Receipt r => one (wire.Receipt (receipt_event r))
  | lib.UndecryptableMessage u => one (wire.Undecryptable (undecryptable u))
  | lib.Presence p => one (wire.Presence (presence p))
  | lib.ChatPresence c => one (wire.Presence (chat_presence c))
  | lib.GroupUpdated g => one (wire.Group (group_update_of add_mode_try_from get_optional_child parse_group g))
  | lib.ContactUpdate c => one (wire.Contact (contact_update_of c))
  | lib.ContactGone c => one (wire.Contact (contact_removed_of c))
  | lib.SelfPushName u => one (wire.SelfPushName (self_push_name_update_of u))
  | lib.CallLogSynced c => one (wire.CallLog (call_log_update_of c))
  | lib.CallLogBackfill c => one (wire.CallLogBackfill (call_log_history_of c))
  | lib.HistorySync h => one (history_sync h)
  | lib.Archive s => one (wire.AppState (archive_update_of s))
  | lib.Pin s => one (wire.AppState (pin_update_of s))
  | lib.Mute s => one (wire.AppState (mute_update_of s))
  | lib.Star s => one (wire.AppState (star_update_of s))
  | lib.MarkChatAsRead s => one (wire.AppState (mark_read_update_of s))
  | lib.DeleteChat s => one (wire.AppState (delete_chat_update_of s))
  | lib.LockChat s => one (wire.AppState (lock_chat_update_of s))
  | lib.ClearChat s => one (wire.AppState (clear_chat_update_of s))
  | lib.DeleteMessageForMe s => one (wire.AppState (delete_message_for_me_update_of s))
  | lib.UserStatusMute s => one (wire.AppState (user_status_mute_update_of s))
  | lib.FavoriteSticker s => one (wire.Sticker (favorite_sticker_update_of base64_decode s))
  | lib.RemoveRecentSticker s => one (wire.Sticker (remove_recent_sticker_update_of s))
  | lib.LabelEdit u => one (wire.Label (label_edit_update_of u))
  | lib.LabelAssociation u => one (wire.Label (label_association_update_of u))
  | lib.MessageLabelAssociation u => one (wire.Label (message_label_association_update_of u))
  | lib.QuickReply u => one (wire.QuickReply (quick_reply_update_of u))
  | lib.LabelSublist u => one (wire.LabelSublist (label_sublist_update_of u))
  | lib.DisableLinkPreviews u => one (wire.AccountSetting (link_previews_update_of u))
  | lib.StatusPrivacy u => one (wire.AccountSetting (status_privacy_update_of u))
  | lib.UnarchiveChatsSetting u => one (wire.AccountSetting (unarchive_chats_update_of u))
  | lib.Favorites f => one (wire.FavoritesChange (favorites_changed f))
  | lib.NewsletterLive u => one (wire.LiveUpdate (newsletter_live_update u))
  | lib.Incoming c => one (wire.Call (call_event_of wire_tag c))
  | lib.Missed m => one (wire.Call (missed_call_event_of m))
  | lib.PictureChange u => one (wire.ContactNotice (picture_notice_of u))
  | lib.UserAbout u => one (wire.ContactNotice (about_notice_of u))
  | lib.ContactProfile u => one (wire.ContactNotice (profile_notice_of u))
  | lib.ContactNumber c => one (wire.ContactNotice (number_notice_of c))
  | lib.ContactSync r => one (wire.ContactNotice (sync_requested_notice_of r))
  | lib.DisappearingModeChange c => one (wire.ContactNotice (disappearing_mode_notice_of c))
  | lib.BusinessStatus u => one (wire.ContactNotice (business_notice_of u))
  | lib.DeviceListChange u => one (wire.DeviceNotice (device_list_notice_of u))
  | lib.Identity c => one (wire.DeviceNotice (identity_notice_of c))
  | lib.MexNotified n => one (wire.Mex (mex_notification_of to_vec n))
  | lib.ReachoutTimelock u => one (wire.ReachoutTimelock (reachout_timelock_update_of u))
  | lib.ServerAck a => one (wire.ServerAck (server_ack a))
  | lib.OfflineSyncPreview p => one (wire.SyncPreview (offline_sync_preview p))
  | lib.OfflineSyncCompleted count => one (wire.SyncCompleted count)
  | lib.ConnectFailed f => one (wire.ConnectionNotice (connect_failure_notice_of f))
  | lib.Outdated o => one (wire.ConnectionNotice (client_outdated_notice_of o))
  | lib.StreamFailed e => one (wire.ConnectionNotice (stream_error_notice_of e))
  | lib.StreamReplaced => one (wire.ConnectionNotice stream_replaced_notice_of)
  | lib.AppStateSyncFail f => one (wire.ConnectionNotice (app_state_sync_failed_notice_of f))
  | lib.ClientExpiration c => one (wire.ConnectionNotice (client_expiration_notice_of c))
  | lib.OfflineSyncInterrupted total delivered => one (wire.SyncInterrupted total delivered)
  | lib.Notification _ | lib.RawNode _ | lib.DirtyState => []
  | lib.OtherEvent other => one (wire.Raw (raw_event_of other))
  end.
End mapping.
