(* ===== verification/EventFaithful.v ===== *)
(** * Which events a relay loses nothing of

    For each record a relay reads: when what it says survives the wire.  A jid that has a text, an
    instant whole in the unit the wire keeps, an enum this build names, no unset field spelt as
    an empty one.  The relays are [Lossless] on those, one instance each. *)

From S2P Require Import Prelude Errors Wire RequestEnums Jids RelayedEnums MessageProjection Relays AppStateEvents GroupEvents CallEvents NoticeEvents EventMapping.

Section faithful.
Context `{messages : WaMessages} `{ids : LibIds} `{laws : !LibIdsLaws ids} `{clock : Clock} `{clock_laws : !ClockLaws clock}.

#[local] Set Default Proof Using "Type*".
#[local] Arguments relay_lib_jid : simpl never.
#[local] Arguments relay_optional_lib_jid : simpl never.
#[local] Arguments relay_jid : simpl never.
#[local] Arguments millis_from_signed_seconds : simpl never.
#[local] Arguments millis_from_seconds : simpl never.

(** ** What a mutation of the account says *)

Definition key_ok (k : wa.MessageKey) : Prop :=
  opt_ok filled (wa.remote_jid k) /\ opt_ok filled (wa.id k) /\ opt_ok (fun b => b <> false) (wa.from_me k) /\
  opt_ok filled (wa.participant k).

#[global] Instance Lossless_key : Lossless key_ok wa_key_to_proto.
Proof. lossless_record key_ok wa_key_to_proto. Qed.

Definition mutation_ok (m : Mutation) : Prop :=
  real_jid (mu_chat m) /\ whole (mu_timestamp m) /\ opt_ok whole (mu_action_timestamp m).

Definition range_message_ok (m : SyncActionMessage) : Prop := opt_ok key_ok (sam_key m) /\ opt_ok seconds_ok (sam_timestamp m).

#[global] Instance Lossless_range_message : Lossless range_message_ok range_message_of.
Proof. lossless_record range_message_ok range_message_of. Qed.

Definition range_ok (r : SyncActionMessageRange) : Prop :=
  opt_ok seconds_ok (last_message_timestamp r) /\ opt_ok seconds_ok (last_system_message_timestamp r) /\
  Forall range_message_ok (range_messages r).

#[global] Instance Lossless_range : Lossless (opt_ok range_ok) message_range_of.
Proof. unfold message_range_of. apply Lossless_opt. intros [] [] Ha Hb E. unfold range_ok in Ha, Hb. cbn in Ha, Hb. lossless_fields E. Qed.

Lemma app_state_same m1 m2 a1 a2 :
  mutation_ok m1 -> mutation_ok m2 -> app_state_of m1 a1 = app_state_of m2 a2 -> m1 = m2 /\ a1 = a2.
Proof.
  destruct m1, m2. intros Ha Hb E. unfold mutation_ok in Ha, Hb. cbn in Ha, Hb. unfold app_state_of in E. cbn in E.
  injection E. intros. destruct_and?. split; [f_equal; by_field|done].
Qed.

(** A mutation's relay, once the mutations are known to be the same. *)
Tactic Notation "lossless_mutation" reference(ok) reference(f) :=
  intros [] [] Ha Hb E; unfold ok in Ha, Hb; cbn in Ha, Hb; unfold f in E; cbn in E; destruct_and?;
  apply app_state_same in E; [destruct E as [-> E]|done..];
  first [injection E|idtac]; clear E; intros; f_equal; by_field.

Definition archive_ok (u : ArchiveUpdate) : Prop := mutation_ok (ar_mutation u) /\ opt_ok range_ok (ar_range u).
#[global] Instance Lossless_archive : Lossless archive_ok archive_update_of.
Proof. lossless_mutation archive_ok archive_update_of. Qed.

Definition pin_ok (u : PinUpdate) : Prop := mutation_ok (pin_mutation u).
#[global] Instance Lossless_pin : Lossless pin_ok pin_update_of.
Proof. lossless_mutation pin_ok pin_update_of. Qed.

Definition mute_ok (u : MuteUpdate) : Prop := mutation_ok (mute_mutation u).
#[global] Instance Lossless_mute : Lossless mute_ok mute_update_of.
Proof. lossless_mutation mute_ok mute_update_of. Qed.

Definition star_ok (u : StarUpdate) : Prop := mutation_ok (star_mutation u) /\ opt_ok real_jid (star_participant u).
#[global] Instance Lossless_star : Lossless star_ok star_update_of.
Proof. lossless_mutation star_ok star_update_of. Qed.

Definition mark_read_ok (u : MarkChatAsReadUpdate) : Prop := mutation_ok (mr_mutation u) /\ opt_ok range_ok (mr_range u).
#[global] Instance Lossless_mark_read : Lossless mark_read_ok mark_read_update_of.
Proof. lossless_mutation mark_read_ok mark_read_update_of. Qed.

Definition delete_chat_ok (u : DeleteChatUpdate) : Prop := mutation_ok (dc_mutation u) /\ opt_ok range_ok (dc_range u).
#[global] Instance Lossless_delete_chat : Lossless delete_chat_ok delete_chat_update_of.
Proof. lossless_mutation delete_chat_ok delete_chat_update_of. Qed.

Definition lock_ok (u : LockChatUpdate) : Prop := mutation_ok (lock_mutation u).
#[global] Instance Lossless_lock : Lossless lock_ok lock_chat_update_of.
Proof. lossless_mutation lock_ok lock_chat_update_of. Qed.

Definition clear_chat_ok (u : ClearChatUpdate) : Prop := mutation_ok (cc_mutation u) /\ opt_ok range_ok (cc_range u).
#[global] Instance Lossless_clear_chat : Lossless clear_chat_ok clear_chat_update_of.
Proof. lossless_mutation clear_chat_ok clear_chat_update_of. Qed.

Definition delete_for_me_ok (u : DeleteMessageForMeUpdate) : Prop :=
  mutation_ok (df_mutation u) /\ opt_ok real_jid (df_participant u) /\ opt_ok seconds_ok (df_message_timestamp u).
#[global] Instance Lossless_delete_for_me : Lossless delete_for_me_ok delete_message_for_me_update_of.
Proof. lossless_mutation delete_for_me_ok delete_message_for_me_update_of. Qed.

Definition status_mute_ok (u : UserStatusMuteUpdate) : Prop := mutation_ok (um_mutation u).
#[global] Instance Lossless_status_mute : Lossless status_mute_ok user_status_mute_update_of.
Proof. lossless_mutation status_mute_ok user_status_mute_update_of. Qed.

(** ** Contacts, labels and quick replies *)

Definition contact_action_ok (a : LibContactAction) : Prop := opt_ok filled (lid_jid a) /\ opt_ok filled (pn_jid a).
Definition contact_ok (u : LibContactUpdate) : Prop := mutation_ok (lcu_mutation u) /\ contact_action_ok (lcu_action u).
#[global] Instance Lossless_contact : Lossless contact_ok contact_update_of.
Proof.
  unfold contact_ok, mutation_ok, contact_action_ok. intros [[] []] [[] []] Ha Hb E. cbn in Ha, Hb.
  unfold contact_update_of in E. lossless_fields E.
Qed.

Definition contact_removed_ok (u : ContactRemoved) : Prop := mutation_ok (cr_mutation u).
#[global] Instance Lossless_contact_removed : Lossless contact_removed_ok contact_removed_of.
Proof.
  unfold contact_removed_ok, mutation_ok. intros [[]] [[]] Ha Hb E. cbn in Ha, Hb. unfold contact_removed_of in E. lossless_fields E.
Qed.

#[global] Instance Lossless_push_name : Lossless anything self_push_name_update_of.
Proof. intros [] [] _ _ E. unfold self_push_name_update_of in E. lossless_fields E. Qed.

Definition named_list_type (t : ListType) : Prop := match t with LUnnamed _ => False | _ => True end.
#[global] Instance Lossless_list_type : Lossless (opt_ok named_list_type) label_list_type_of.
Proof. intros [[]|] [[]|] Ha Hb; cbn in *; try done; congruence. Qed.

Definition label_edit_ok (a : LabelEditAction) : Prop := opt_ok named_list_type (le_type a).
Definition label_edit_update_ok (u : LabelEditUpdate) : Prop := whole (leu_timestamp u) /\ label_edit_ok (leu_action u).
#[global] Instance Lossless_label_edit : Lossless label_edit_update_ok label_edit_update_of.
Proof.
  unfold label_edit_update_ok, label_edit_ok. intros [? ? ? []] [? ? ? []] Ha Hb E. cbn in Ha, Hb.
  unfold label_edit_update_of, label_update_of in E. lossless_fields E.
Qed.

Definition label_association_ok (u : LabelAssociationUpdate) : Prop := whole (lau_timestamp u) /\ real_jid (lau_chat u).
#[global] Instance Lossless_label_association : Lossless label_association_ok label_association_update_of.
Proof. lossless_record label_association_ok label_association_update_of. Qed.

Definition message_label_ok (u : MessageLabelAssociationUpdate) : Prop := whole (mla_timestamp u) /\ real_jid (mla_chat u).
#[global] Instance Lossless_message_label : Lossless message_label_ok message_label_association_update_of.
Proof. lossless_record message_label_ok message_label_association_update_of. Qed.

Definition named_change (c : LabelSublistChange) : Prop := match c with SublistUnnamed => False | _ => True end.
#[global] Instance Lossless_change : Lossless named_change change_of.
Proof. intros [] [] Ha Hb; cbn in *; try done; congruence. Qed.

Definition sublist_ok (u : LabelSublistUpdate) : Prop :=
  real_jid (ls_chat u) /\ opt_ok whole (ls_action_timestamp u) /\ named_change (ls_change u).
#[global] Instance Lossless_sublist : Lossless sublist_ok label_sublist_update_of.
Proof. lossless_record sublist_ok label_sublist_update_of. Qed.

Definition quick_reply_ok (u : QuickReplyUpdate) : Prop := whole (qr_timestamp u).
#[global] Instance Lossless_quick_reply : Lossless quick_reply_ok quick_reply_update_of.
Proof. lossless_record quick_reply_ok quick_reply_update_of. Qed.

(** ** Stickers *)

Section stickers.
Context (base64_decode : string -> option bytes).

(** It has a path, and no field spelt as the default. *)
Definition sticker_action_ok (a : StickerAction) : Prop :=
  is_Some (sa_direct_path a) /\ opt_ok (fun b => b <> []) (sa_media_key a) /\ opt_ok (fun b => b <> []) (sa_file_enc_sha256 a) /\
  opt_ok (fun n => n <> 0) (sa_file_length a) /\ opt_ok filled (sa_mimetype a).

Definition favorite_sticker_ok (u : FavoriteStickerUpdate) : Prop := whole (fs_timestamp u) /\ sticker_action_ok (fs_action u).
#[global] Instance Lossless_favorite_sticker : Lossless favorite_sticker_ok (favorite_sticker_update_of base64_decode).
Proof.
  intros [? ? ? []] [? ? ? []] Ha Hb E. unfold favorite_sticker_ok, sticker_action_ok in Ha, Hb. cbn in Ha, Hb.
  destruct Ha as (? & [? ->] & Ha), Hb as (? & [? ->] & Hb). unfold favorite_sticker_update_of in E. cbn in E.
  injection E; clear E; intros; destruct_and?. repeat first [by_field|progress f_equal].
Qed.

Definition remove_recent_ok (u : RemoveRecentStickerUpdate) : Prop := whole (rr_timestamp u).
#[global] Instance Lossless_remove_recent : Lossless remove_recent_ok remove_recent_sticker_update_of.
Proof. lossless_record remove_recent_ok remove_recent_sticker_update_of. Qed.
End stickers.

(** ** Account settings and favorites *)

Definition named_mode (m : EnumValue) : Prop := match m with KnownMode (ModeUnnamed _) => False | _ => True end.
#[global] Instance Lossless_audience : Lossless named_mode status_audience_of.
Proof. intros [[]|] [[]|] Ha Hb; cbn in *; try done; congruence. Qed.

#[global] Instance Lossless_jids : Lossless (Forall filled) jids_of.
Proof. apply Lossless_omap; [apply _|]. intros s Hs. by rewrite relay_jid_filled. Qed.

Definition custom_list_ok (l : CustomList) : Prop := Forall filled (cl_user_jid l).
#[global] Instance Lossless_custom_list : Lossless custom_list_ok custom_list_of.
Proof. lossless_record custom_list_ok custom_list_of. Qed.

Definition status_privacy_ok (a : StatusPrivacyAction) : Prop :=
  opt_ok named_mode (sp_mode a) /\ Forall filled (sp_user_jid a) /\ Forall custom_list_ok (sp_custom_lists a) /\
  Forall named_mode (sp_modes a).
Definition status_privacy_update_ok (u : StatusPrivacyUpdate) : Prop :=
  whole (spu_timestamp u) /\ opt_ok whole (spu_action_timestamp u) /\ status_privacy_ok (spu_action u).
#[global] Instance Lossless_status_privacy : Lossless status_privacy_update_ok status_privacy_update_of.
Proof.
  unfold status_privacy_update_ok, status_privacy_ok. intros [? ? ? []] [? ? ? []] Ha Hb E. cbn in Ha, Hb.
  unfold status_privacy_update_of in E. lossless_fields E.
Qed.

Definition link_previews_ok (u : DisableLinkPreviewsUpdate) : Prop := whole (dl_timestamp u).
#[global] Instance Lossless_link_previews : Lossless link_previews_ok link_previews_update_of.
Proof. lossless_record link_previews_ok link_previews_update_of. Qed.

Definition unarchive_ok (u : UnarchiveChatsSettingUpdate) : Prop := whole (uc_timestamp u).
#[global] Instance Lossless_unarchive : Lossless unarchive_ok unarchive_chats_update_of.
Proof. lossless_record unarchive_ok unarchive_chats_update_of. Qed.

Definition present (o : option string) : Prop := exists s, o = Some s /\ filled s.
#[global] Instance Lossless_present : Lossless (Forall present) (omap (M := list) (fun id => id ≫= relay_jid)).
Proof.
  apply Lossless_omap.
  - intros a b (s & -> & Hs) (t & -> & Ht). cbn. rewrite !relay_jid_filled by done. congruence.
  - intros a (s & -> & Hs). cbn. by rewrite relay_jid_filled.
Qed.

Definition favorites_ok (u : FavoritesUpdate) : Prop := whole (fu_timestamp u) /\ Forall present (fu_ids u).
#[global] Instance Lossless_favorites : Lossless favorites_ok favorites_changed.
Proof. lossless_record favorites_ok favorites_changed. Qed.

(** ** The call log *)

Definition named_result (r : CallResult) : Prop := match r with CrUnnamed _ => False | _ => True end.
Definition named_silence (r : SilenceReason) : Prop := match r with SrUnnamed _ => False | _ => True end.
Definition named_call_type (t : CallType) : Prop := match t with CtUnnamed _ => False | _ => True end.

#[global] Instance Lossless_call_result : Lossless (opt_ok named_result) call_result_of.
Proof. intros [[]|] [[]|] Ha Hb; cbn in *; try done; congruence. Qed.
#[global] Instance Lossless_silence : Lossless (opt_ok named_silence) silence_reason_of.
Proof. intros [[]|] [[]|] Ha Hb; cbn in *; try done; congruence. Qed.
#[global] Instance Lossless_call_type : Lossless (opt_ok named_call_type) call_type_of.
Proof. intros [[]|] [[]|] Ha Hb; cbn in *; try done; congruence. Qed.

Definition log_participant_ok (p : ParticipantInfo) : Prop := present (pi_user_jid p) /\ opt_ok named_result (pi_call_result p).
#[global] Instance Lossless_log_participants : Lossless (Forall log_participant_ok) (omap (M := list) participant_of).
Proof.
  apply Lossless_omap.
  - intros [] [] [(s & Hs & Fs) Ha] [(t & Ht & Ft) Hb] E. cbn in *. subst. unfold participant_of in E. cbn in E.
    rewrite !relay_jid_filled in E by done. lossless_fields E.
  - intros [] [(s & Hs & Fs) Ha]. cbn in *. subst. unfold participant_of. cbn. by rewrite relay_jid_filled.
Qed.

Definition record_ok (r : CallLogRecord) : Prop :=
  opt_ok named_result (rec_call_result r) /\ opt_ok named_silence (rec_silence_reason r) /\ opt_ok seconds_ok (rec_start_time r) /\
  opt_ok filled (rec_group_jid r) /\ Forall log_participant_ok (rec_participants r) /\ opt_ok named_call_type (rec_call_type r).

(** A record's own call id is relayed by the history only. *)
Lemma record_same r1 r2 :
  record_ok r1 -> record_ok r2 -> record_fields_of r1 = record_fields_of r2 -> rec_call_id r1 = rec_call_id r2 -> r1 = r2.
Proof.
  destruct r1, r2. unfold record_ok, record_fields_of. cbn. intros Ha Hb E ?. lossless_fields E.
Qed.

Definition call_log_ok (s : CallLogSync) : Prop :=
  real_jid (cls_call_creator s) /\ whole (cls_timestamp s) /\ record_ok (cls_record s) /\
  rec_call_id (cls_record s) = Some (cls_call_id s).
#[global] Instance Lossless_call_log : Lossless call_log_ok call_log_update_of.
Proof.
  intros [] [] Ha Hb E. unfold call_log_ok in Ha, Hb. cbn in Ha, Hb. unfold call_log_update_of in E. cbn -[record_fields_of] in E.
  assert (Er := f_equal clu_fields E). apply record_same in Er; [|by destruct_and?..|].
  - lossless_fields E.
  - assert (Ei := f_equal clu_call_id E). cbn in Ei. destruct_and?. congruence.
Qed.

Definition call_log_history_ok (h : CallLogHistory) : Prop := opt_ok real_jid (clh_call_creator h) /\ record_ok (clh_record h).
#[global] Instance Lossless_call_log_history : Lossless call_log_history_ok call_log_history_of.
Proof.
  intros [] [] Ha Hb E. unfold call_log_history_ok in Ha, Hb. cbn in Ha, Hb. unfold call_log_history_of in E. cbn -[record_fields_of] in E.
  assert (Er := f_equal pch_fields E). apply record_same in Er; [|by destruct_and?..|by apply (f_equal pch_call_id) in E].
  lossless_fields E.
Qed.

End faithful.
