(* ===== verification/NoticeFaithful.v ===== *)
(** * Which notifications, calls and messages a relay loses nothing of

    The conditions of EventFaithful.v for groups, calls, the server's notices, the connection and
    the messages themselves. *)

From S2P Require Import Prelude Errors Wire RequestEnums Jids RelayedEnums MessageProjection Relays AppStateEvents GroupEvents CallEvents NoticeEvents EventMapping EventFaithful.

(** ** Stanzas *)

(** The attributes as a map has them: no key twice, in the map's order. *)
Fixpoint canonical (node : Node) : Prop :=
  match node with
  | MkNode _ attrs content =>
      attrs = map_to_list (collected attrs) /\ match content with Some c => canonical_content c | None => True end
  end
with canonical_content (content : NodeContent) : Prop :=
  match content with
  | Nodes children => fold_right (fun n P => canonical n /\ P) True children
  | _ => True
  end.

Lemma stanza_inj : forall n m, canonical n -> canonical m -> stanza_node_of n = stanza_node_of m -> n = m.
Proof.
  fix IH 1. intros [t a c] [t' a' c'] [Ha Hc] [Ha' Hc'] E. cbn in E. injection E as -> Ec E. rewrite Ha, Ha', Ec. f_equal.
  destruct c as [[b|s|l]|], c' as [[b'|s'|l']|]; try discriminate E; [cbn in E; congruence..| |done].
  cbn in E. injection E as E. do 2 f_equal. cbn in Hc, Hc'. revert l' Hc' E.
  induction l as [|n l IHl]; intros [|m l'] Hc' E; cbn in *; try discriminate E; [done|].
  injection E as E1 E2. destruct Hc as [C1 C2], Hc' as [D1 D2]. f_equal; [by apply IH|by apply IHl].
Qed.

#[global] Instance Lossless_stanza : Lossless canonical stanza_node_of.
Proof. intros n m. apply stanza_inj. Qed.

Section faithful.
Context `{messages : WaMessages} `{ids : LibIds} `{laws : !LibIdsLaws ids} `{clock : Clock} `{clock_laws : !ClockLaws clock}.

#[local] Set Default Proof Using "Type*".
#[local] Arguments relay_lib_jid : simpl never.
#[local] Arguments relay_optional_lib_jid : simpl never.
#[local] Arguments relay_jid : simpl never.
#[local] Arguments millis_from_signed_seconds : simpl never.
#[local] Arguments millis_from_seconds : simpl never.
#[local] Arguments stanza_node_of : simpl never.

(** ** Group notifications *)

(** The enums the library closes cross one to one. *)
#[global] Instance notification_participant_type_inj : Inj (=) (=) notification_participant_type_of.
Proof. injective. Qed.
#[global] Instance history_sent_state_inj : Inj (=) (=) history_sent_state_of.
Proof. injective. Qed.
#[global] Instance membership_request_method_inj : Inj (=) (=) membership_request_method_of.
Proof. injective. Qed.

(** Of an enum that is never the contract's unset, and may be. *)
Lemma Lossless_unset {A B} (f : A -> Wire B) (g : A -> B) (Hg : forall a, f a = Known (g a)) `{!Inj (=) (=) f} o1 o2 :
  default Unspecified (f <$> o1) = default Unspecified (f <$> o2) -> o1 = o2.
Proof. destruct o1, o2; cbn; rewrite ?Hg; try done. rewrite <-!Hg. intros E. f_equal. by apply (inj f). Qed.

Definition join_time_ok (t : option Z) : Prop := opt_ok (fun z => 0 <= z /\ seconds_ok z) t.

Definition group_participant_ok (i : GroupParticipantInfo) : Prop :=
  real_jid (gi_jid i) /\ opt_ok real_jid (gi_phone_number i) /\ opt_ok real_jid (gi_lid i) /\ join_time_ok (gi_join_time i).
#[global] Instance Lossless_group_participant : Lossless group_participant_ok notification_participant.
Proof.
  intros [] [] Ha Hb E. unfold group_participant_ok, join_time_ok in Ha, Hb. cbn in Ha, Hb. unfold notification_participant in E.
  cbn in E. injection E; clear E; intros. destruct_and?.
  f_equal; try by_field.
  - eapply (Lossless_unset notification_participant_type_of); [intros; reflexivity|apply _|eassumption].
  - eapply (Lossless_unset history_sent_state_of); [intros; reflexivity|apply _|eassumption].
Qed.
#[global] Instance Lossless_group_participants : Lossless (Forall group_participant_ok) notification_participants.
Proof. apply (Lossless_list _ notification_participant), _. Qed.

#[global] Instance Lossless_real_jids : Lossless (Forall real_jid) (omap (M := list) relay_lib_jid).
Proof. apply Lossless_omap; [apply _|]. intros j Hj. by rewrite relay_real_jid. Qed.

Definition action_ok (action : LibAction) : Prop :=
  match action with
  | LAdd participants _ | LRemove participants _ | LPromote participants | LDemote participants | LModify participants
  | LLinkedGroupPromote participants | LLinkedGroupDemote participants => Forall group_participant_ok participants
  | LSubject _ owner owner_pn _ time => opt_ok real_jid owner /\ opt_ok real_jid owner_pn /\ join_time_ok time
  | LMembershipApprovalRequest _ parent => opt_ok real_jid parent
  | LCreatedMembershipRequests _ parent requests => opt_ok real_jid parent /\ Forall group_participant_ok requests
  | LRevokedMembershipRequests participants => Forall real_jid participants
  | LCreate raw | LLink _ raw | LUnlink _ _ raw | LCreatedSubGroupSuggestion raw | LRevokedSubGroupSuggestions raw => canonical raw
  | LChangeNumber new_owner suggestions => opt_ok real_jid new_owner /\ Forall real_jid suggestions
  | _ => True
  end.

Section groups.
Context (add_mode_try_from : string -> option MemberAddMode) (get_optional_child : Node -> string -> option Node).
Context (parse_group : Node -> option GroupMetadata).
(** Two tokens are never one mode: the library matches them exactly. *)
Context (exact : forall t u mode, add_mode_try_from t = Some mode -> add_mode_try_from u = Some mode -> t = u).

Lemma add_mode_token_inj : Inj (=) (=) (member_add_mode_token_of add_mode_try_from).
Proof using exact.
  pose proof exact as exact'. intros t u. unfold member_add_mode_token_of, str_is_empty. repeat case_bool_decide; subst; repeat case_match; intros [= ]; subst; try done.
  repeat match goal with m : MemberAddMode |- _ => destruct m end; try done; eauto.
Qed.

Lemma add_mode_change_eq t :
  member_add_mode_change add_mode_try_from t =
  MemberAddModeChange (member_add_mode_token_of add_mode_try_from t).1 (member_add_mode_token_of add_mode_try_from t).2.
Proof. unfold member_add_mode_change. by destruct (member_add_mode_token_of _ _). Qed.

#[local] Arguments member_add_mode_change : simpl never.
#[local] Arguments member_add_mode_token_of : simpl never.
#[local] Arguments membership_request_method_of : simpl never.

Lemma group_action_inj a b :
  action_ok a -> action_ok b ->
  group_action_of add_mode_try_from get_optional_child parse_group a =
  group_action_of add_mode_try_from get_optional_child parse_group b -> a = b.
Proof using Type* exact.
  intros Ha Hb E.
  destruct a, b; cbn in E; rewrite ?add_mode_change_eq in E; try discriminate E; try reflexivity; cbn in Ha, Hb;
    unfold join_time_ok in Ha, Hb; first [injection E|idtac]; clear E; intros; destruct_and?.
  all: try (f_equal; by_field).
  - f_equal; [by destruct request_method, request_method0|by_field].
  - f_equal; [by destruct request_method, request_method0|by_field..].
  - f_equal. by apply add_mode_token_inj, injective_projections.
Qed.

Definition group_update_ok (u : LibGroupUpdate) : Prop :=
  real_jid (gu_group u) /\ opt_ok real_jid (gu_participant u) /\ opt_ok real_jid (gu_participant_pn u) /\ whole (gu_timestamp u) /\
  action_ok (gu_action u).

#[local] Arguments group_action_of : simpl never.
Lemma Lossless_group_update : Lossless group_update_ok (group_update_of add_mode_try_from get_optional_child parse_group).
Proof using Type* exact.
  intros u v Ha Hb E. assert (Hact : gu_action u = gu_action v).
  { destruct Ha as (_ & _ & _ & _ & Ha), Hb as (_ & _ & _ & _ & Hb). apply group_action_inj; [done..|].
    apply (f_equal pgu_action) in E. cbn in E. congruence. }
  destruct u, v. unfold group_update_ok in Ha, Hb. cbn in Ha, Hb, Hact. unfold group_update_of in E. cbn in E. subst.
  injection E; clear E; intros; destruct_and?. f_equal; by_field.
Qed.
End groups.

(** ** Calls *)

Definition device_ok (d : GroupCallDevice) : Prop := real_jid (dev_jid d).
#[global] Instance Lossless_device : Lossless device_ok device_of.
Proof. lossless_record device_ok device_of. Qed.

Definition call_participant_ok (p : GroupCallParticipant) : Prop :=
  real_jid (cp_jid p) /\ opt_ok real_jid (cp_pn p) /\ Forall device_ok (cp_devices p).
#[global] Instance Lossless_call_participant : Lossless call_participant_ok call_participant_of.
Proof. lossless_record call_participant_ok call_participant_of. Qed.

#[global] Instance Lossless_endpoint : Lossless anything relay_endpoint.
Proof. lossless_record anything relay_endpoint. Qed.

#[global] Instance Lossless_call_relay : Lossless anything relay_of.
Proof. lossless_record anything relay_of. Qed.

Definition group_call_ok (u : LibGroupCallUpdate) : Prop :=
  real_jid (gc_call_creator u) /\ opt_ok real_jid (gc_group_jid u) /\ Forall call_participant_ok (gc_participants u).
#[global] Instance Lossless_group_call : Lossless group_call_ok group_call_update.
Proof. lossless_record group_call_ok group_call_update. Qed.

Definition rekey_ok (r : LibEncRekey) : Prop := real_jid (rk_call_creator r).
#[global] Instance Lossless_rekey : Lossless rekey_ok enc_rekey.
Proof. lossless_record rekey_ok enc_rekey. Qed.

Definition room_user_ok (u : LibWaitingRoomUser) : Prop := real_jid (ru_jid u) /\ opt_ok real_jid (ru_pn u).
#[global] Instance Lossless_room_user : Lossless room_user_ok waiting_room_user.
Proof. lossless_record room_user_ok waiting_room_user. Qed.

Definition room_ok (r : LibWaitingRoom) : Prop := real_jid (wr_call_creator r) /\ Forall room_user_ok (wr_users r).
#[global] Instance Lossless_room : Lossless room_ok waiting_room.
Proof.
  intros [] [] Ha Hb E. unfold room_ok in Ha, Hb. cbn in Ha, Hb. unfold waiting_room in E. cbn in E.
  injection E; clear E; intros; destruct_and?. f_equal; try by_field. by destruct wr_media, wr_media0.
Qed.

#[global] Instance Lossless_codecs : Lossless anything codecs.
Proof.
  assert (H : Lossless anything (fun codec => MkCodec (enc codec) (rate codec))) by (by intros [] [] _ _ [= -> ->]).
  intros l k _ _ E. exact (Lossless_list _ _ H l k (anything_all l) (anything_all k) E).
Qed.
(** The variants this build names. *)
Definition call_action_ok (action : CallAction) : Prop :=
  match action with
  | CaOffer caller_pn _ _ _ _ _ group_jid => opt_ok real_jid caller_pn /\ opt_ok real_jid group_jid
  | CaGroupUpdate update => group_call_ok update
  | CaEncRekey rekey => rekey_ok rekey
  | CaWaitingRoomUpdate room => room_ok room
  | CaUnnamed _ => False
  | _ => True
  end.

Section calls.
Context (wire_tag : CallAction -> string).

#[global] Instance video_state_inj : Inj (=) (=) video_state_of.
Proof. injective. Qed.

Lemma Lossless_video s1 o1 d1 s2 o2 d2 : video_state s1 o1 d1 = video_state s2 o2 d2 -> s1 = s2 /\ o1 = o2 /\ d1 = d2.
Proof.
  unfold video_state. intros E. destruct (video_state_of s1) eqn:E1, (video_state_of s2) eqn:E2. injection E as -> -> -> ->.
  split; [apply (inj video_state_of); congruence|done].
Qed.

#[global] Instance Lossless_screen_share : Lossless anything screen_share_payload.
Proof. intros [] [] _ _ E. unfold screen_share_payload in E. cbn in E. injection E; intros. f_equal; try by_field. by destruct ss_state, ss_state0. Qed.

#[local] Arguments group_call_update : simpl never.
#[local] Arguments enc_rekey : simpl never.
#[local] Arguments waiting_room : simpl never.
#[local] Arguments screen_share_payload : simpl never.
#[local] Arguments video_state : simpl never.
#[local] Arguments codecs : simpl never.

#[global] Instance Lossless_call_action : Lossless call_action_ok (call_action_of wire_tag).
Proof.
  intros a b Ha Hb E.
  destruct a; try done; destruct b; try done; cbn in E; try discriminate E; cbn in Ha, Hb.
  - assert (codecs audio = codecs audio0) by congruence. injection E; clear E; intros; destruct_and?. f_equal; by_field.
  - congruence.
  - f_equal. eapply (lossless (f := codecs)); [done..|congruence].
  - f_equal. eapply (lossless (f := codecs)); [done..|congruence].
  - congruence.
  - congruence.
  - congruence.
  - assert (Ev : video_state state orientation dec = video_state state0 orientation0 dec0) by congruence.
    by apply Lossless_video in Ev as (-> & -> & ->).
  - congruence.
  - f_equal. eapply (lossless (f := group_call_update)); [done..|congruence].
  - f_equal. eapply (lossless (f := enc_rekey)); [done..|congruence].
  - f_equal. eapply (lossless (f := waiting_room)); [done..|congruence].
  - f_equal. eapply (lossless (f := screen_share_payload)); [done..|congruence].
Qed.

Definition call_ok (c : IncomingCall) : Prop :=
  real_jid (ic_from c) /\ real_jid (ic_call_creator c) /\ opt_ok real_jid (ic_participant c) /\ opt_ok real_jid (ic_recipient c) /\
  opt_ok (fun t => whole t /\ timestamp_millis t <> 0) (ic_timestamp c) /\ opt_ok group_call_ok (ic_group c) /\
  call_action_ok (ic_action c).

#[local] Arguments call_action_of : simpl never.

(** An instant that may be missing, of the ones that are not the epoch's first. *)
#[global] Instance Lossless_stamp :
  Lossless (opt_ok (fun t => whole t /\ timestamp_millis t <> 0)) (fun o => default 0 (timestamp_millis <$> o)).
Proof.
  intros [a|] [b|] Ha Hb E; cbn in *; [f_equal; destruct Ha, Hb; by apply whole_inj|by destruct Ha as [_ []]|by destruct Hb as [_ []]|done].
Qed.

#[global] Instance Lossless_call : Lossless call_ok (call_event_of wire_tag).
Proof.
  intros a b Ha Hb E.
  assert (Ec := f_equal ce_action E). assert (Et := f_equal ce_timestamp E). cbn in Ec. injection Ec as Ec.
  destruct a, b. unfold call_ok in Ha, Hb. cbn -[call_action_of] in Ha, Hb, Ec. cbn -[default] in Et.
  apply Lossless_call_action in Ec as ->; [|by destruct_and?..]. apply Lossless_stamp in Et as ->; [|by destruct_and?..].
  unfold call_event_of in E. cbn in E. injection E; clear E; intros; destruct_and?. f_equal; by_field.
Qed.

(** No stanza is relayed as a missed call. *)
Lemma call_action_not_missed action reason : call_action_of wire_tag action <> Missed reason.
Proof using Type. by destruct action. Qed.
End calls.

Definition missed_ok (m : MissedCall) : Prop :=
  real_jid (mc_from m) /\ whole (mc_timestamp m) /\ match mc_reason m with MrUnnamed _ => False | _ => True end.
#[global] Instance Lossless_missed : Lossless missed_ok missed_call_event_of.
Proof.
  intros [? ? ? []] [? ? ? []] Ha Hb E; unfold missed_ok in Ha, Hb; cbn in Ha, Hb; destruct_and?; try done;
  unfold missed_call_event_of in E; cbn in E; try discriminate E; lossless_fields E.
Qed.

(** ** The server's notices *)

Definition picture_ok (u : PictureUpdate) : Prop := real_jid (pic_jid u) /\ opt_ok real_jid (pic_author u) /\ whole (pic_timestamp u).
#[global] Instance Lossless_picture : Lossless picture_ok picture_notice_of.
Proof. lossless_record picture_ok picture_notice_of. Qed.

Definition about_ok (u : UserAboutUpdate) : Prop := real_jid (ab_jid u) /\ whole (ab_timestamp u).
#[global] Instance Lossless_about : Lossless about_ok about_notice_of.
Proof. lossless_record about_ok about_notice_of. Qed.

Definition profile_ok (u : ContactUpdated) : Prop := real_jid (cu_jid u) /\ whole (cu_timestamp u).
#[global] Instance Lossless_profile : Lossless profile_ok profile_notice_of.
Proof. lossless_record profile_ok profile_notice_of. Qed.

Definition number_ok (c : ContactNumberChanged) : Prop :=
  real_jid (nc_old_jid c) /\ real_jid (nc_new_jid c) /\ opt_ok real_jid (nc_old_lid c) /\ opt_ok real_jid (nc_new_lid c) /\
  whole (nc_timestamp c).
#[global] Instance Lossless_number : Lossless number_ok number_notice_of.
Proof. lossless_record number_ok number_notice_of. Qed.

Definition sync_requested_ok (r : ContactSyncRequested) : Prop := opt_ok whole (sr_after r) /\ whole (sr_timestamp r).
#[global] Instance Lossless_sync_requested : Lossless sync_requested_ok sync_requested_notice_of.
Proof. lossless_record sync_requested_ok sync_requested_notice_of. Qed.

Definition disappearing_ok (c : DisappearingModeChanged) : Prop := real_jid (dm_from c) /\ whole (dm_setting_timestamp c).
#[global] Instance Lossless_disappearing : Lossless disappearing_ok disappearing_mode_notice_of.
Proof. lossless_record disappearing_ok disappearing_mode_notice_of. Qed.

Definition subscription_ok (s : BusinessSubscription) : Prop :=
  opt_ok seconds_ok (sub_expiration_date s) /\ opt_ok seconds_ok (sub_creation_time s).
#[global] Instance Lossless_subscription : Lossless subscription_ok subscription_of.
Proof. lossless_record subscription_ok subscription_of. Qed.

#[global] Instance Lossless_business_type : Lossless anything business_update_type_of.
Proof. by intros [] [] _ _. Qed.

Definition business_ok (u : BusinessStatusUpdate) : Prop :=
  real_jid (bs_jid u) /\ whole (bs_timestamp u) /\ opt_ok real_jid (bs_target u) /\ Forall subscription_ok (bs_subscriptions u).
#[global] Instance Lossless_business : Lossless business_ok business_notice_of.
Proof. lossless_record business_ok business_notice_of. Qed.

#[global] Instance Lossless_device_type : Lossless anything device_list_type_of.
Proof. by intros [] [] _ _. Qed.
#[global] Instance Lossless_device_key : Lossless anything device_key_index_of.
Proof. lossless_record anything device_key_index_of. Qed.

Definition key_index_ok (i : KeyIndexInfo) : Prop := seconds_ok (ki_timestamp i).
#[global] Instance Lossless_key_index : Lossless key_index_ok key_index_list_of.
Proof. lossless_record key_index_ok key_index_list_of. Qed.

Definition device_list_ok (u : DeviceListUpdate) : Prop :=
  real_jid (dl_user u) /\ opt_ok real_jid (dl_lid_user u) /\ opt_ok key_index_ok (dl_key_index u).
#[global] Instance Lossless_device_list : Lossless device_list_ok device_list_notice_of.
Proof. lossless_record device_list_ok device_list_notice_of. Qed.

Definition identity_ok (c : IdentityChange) : Prop := real_jid (id_user c) /\ opt_ok real_jid (id_lid_user c).
#[global] Instance Lossless_identity : Lossless identity_ok identity_notice_of.
Proof. lossless_record identity_ok identity_notice_of. Qed.

(** ** The connection *)

#[global] Instance logout_reason_inj : Inj (=) (=) logout_reason_of.
Proof. injective. Qed.
#[global] Instance ban_reason_inj : Inj (=) (=) ban_reason_of.
Proof. injective. Qed.

Definition connect_failure_ok (f : ConnectFailure) : Prop := opt_ok canonical (cf_raw f).
#[global] Instance Lossless_connect_failure : Lossless connect_failure_ok connect_failure_notice_of.
Proof.
  intros [] [] Ha Hb E. unfold connect_failure_ok in Ha, Hb. cbn in Ha, Hb. unfold connect_failure_notice_of in E. cbn in E.
  destruct (logout_reason_of cf_reason) eqn:E1, (logout_reason_of cf_reason0) eqn:E2. injection E; clear E; intros; subst.
  f_equal; [apply (inj logout_reason_of); congruence|by_field].
Qed.

Definition outdated_ok (o : ClientOutdated) : Prop := opt_ok canonical (co_raw o).
#[global] Instance Lossless_outdated : Lossless outdated_ok client_outdated_notice_of.
Proof. lossless_record outdated_ok client_outdated_notice_of. Qed.

Definition stream_error_ok (e : StreamError) : Prop := opt_ok canonical (se_raw e).
#[global] Instance Lossless_stream_error : Lossless stream_error_ok stream_error_notice_of.
Proof. lossless_record stream_error_ok stream_error_notice_of. Qed.

#[global] Instance Lossless_sync_failed : Lossless anything app_state_sync_failed_notice_of.
Proof. lossless_record anything app_state_sync_failed_notice_of. Qed.

Definition expiration_ok (c : ClientExpirationChanged) : Prop := opt_ok seconds_ok (ce_expires_at c).
#[global] Instance Lossless_expiration : Lossless expiration_ok client_expiration_notice_of.
Proof.
  intros [? [[] ?] ?] [? [[] ?] ?] Ha Hb E. unfold expiration_ok in Ha, Hb. cbn in Ha, Hb. unfold client_expiration_notice_of in E.
  lossless_fields E.
Qed.

Section mex.
Context {Value : Type} (to_vec : Value -> bytes) `{!Inj (=) (=) to_vec}.

Definition mex_ok (n : MexNotification (Value := Value)) : Prop := opt_ok real_jid (mex_from n).
#[global] Instance Lossless_mex : Lossless mex_ok (mex_notification_of to_vec).
Proof.
  assert (Lossless anything to_vec) by (intros a b _ _; apply (inj to_vec)).
  intros [] [] Ha Hb E. unfold mex_ok in Ha, Hb. cbn in Ha, Hb. unfold mex_notification_of in E. lossless_fields E.
Qed.
End mex.

Definition reachout_ok (u : ReachoutTimelockUpdate) : Prop := opt_ok real_jid (rt_from u).
#[global] Instance Lossless_reachout : Lossless reachout_ok reachout_timelock_update_of.
Proof. lossless_record reachout_ok reachout_timelock_update_of. Qed.

#[global] Instance Lossless_saturating : Lossless (fun z => z <= i64_max) saturating_i64.
Proof. intros a b Ha Hb. unfold saturating_i64. destruct (Z.leb_spec a i64_max), (Z.leb_spec b i64_max); lia. Qed.

Definition code_error_ok (e : PairingCodeError) : Prop := opt_ok (fun z => z <= i64_max) (pce_backoff_ms e).
#[global] Instance Lossless_code_error : Lossless code_error_ok pairing_code_error_of.
Proof.
  intros [r1] [r2] Ha Hb E. unfold code_error_ok in Ha, Hb. cbn in Ha, Hb. unfold pairing_code_error_of in E. cbn in E.
  destruct (pair_code_rejection_of r1) eqn:E1, (pair_code_rejection_of r2) eqn:E2. injection E; clear E; intros; subst.
  f_equal; try by_field. destruct r1 as [[]|], r2 as [[]|]; cbn in *; congruence.
Qed.

End faithful.

(** ** What the mapping of an event keeps

    event_mapping.rs's own relays, and when an event survives the wire. *)

(** A protobuf decodes to what was encoded. *)
Class WaMessagesLaws (messages : WaMessages) : Type := {
  decode_message : bytes -> option Message;
  decode_encode m : decode_message (encode_message m) = Some m;
}.

Section laws.
Context `{messages : WaMessages} `{message_laws : !WaMessagesLaws messages} `{ids : LibIds} `{laws : !LibIdsLaws ids}.
Context `{clock : Clock} `{clock_laws : !ClockLaws clock}.

#[local] Set Default Proof Using "Type*".
#[local] Arguments relay_lib_jid : simpl never.
#[local] Arguments relay_optional_lib_jid : simpl never.
#[local] Arguments relay_jid : simpl never.
#[local] Arguments stanza_node_of : simpl never.

#[global] Instance Lossless_encode : Lossless anything encode_message.
Proof. intros m n _ _ E. apply (f_equal decode_message) in E. rewrite !decode_encode in E. congruence. Qed.

Definition info_ok (i : MessageInfo) : Prop :=
  real_jid (source_chat i) /\ real_jid (source_sender i) /\ opt_ok real_jid (source_sender_alt i) /\
  opt_ok real_jid (source_recipient_alt i) /\ whole (info_timestamp i).

Definition message_ok (m : lib.MessageInBatch) : Prop := info_ok (lib.info m).

(** The whole message is its encoding; what the projection shows of it is beside it. *)
#[global] Instance Lossless_message : Lossless message_ok (fun m => map_message (lib.message m) (lib.info m)).
Proof.
  intros [m i] [n j] Ha Hb E. unfold message_ok, info_ok in Ha, Hb. cbn in Ha, Hb.
  assert (m = n) as -> by (apply Lossless_encode; [done..|exact (f_equal ev.raw_message E)]).
  f_equal. destruct i, j. cbn in Ha, Hb. unfold map_message, with_content in E. cbn -[project_content] in E.
  injection E; clear E; intros; destruct_and?.
  assert (relay_lib_jid source_chat = relay_lib_jid source_chat0) by done.
  assert (relay_lib_jid source_sender = relay_lib_jid source_sender0) by done.
  f_equal; by_field.
Qed.

Definition logged_out_ok (l : lib.LoggedOutEvent) : Prop := opt_ok canonical (lib.lo_raw l).
#[global] Instance Lossless_logout_message : Lossless anything logout_message_of.
Proof. lossless_record anything logout_message_of. Qed.
#[global] Instance Lossless_logged_out : Lossless logged_out_ok logged_out.
Proof.
  intros [] [] Ha Hb E. unfold logged_out_ok in Ha, Hb. cbn in Ha, Hb. unfold logged_out in E. cbn in E.
  destruct (logout_reason_of lo_reason) eqn:E1, (logout_reason_of lo_reason0) eqn:E2. injection E; clear E; intros; subst.
  f_equal; try by_field. apply (inj logout_reason_of); congruence.
Qed.

Definition ban_ok (b : lib.TemporaryBanEvent) : Prop :=
  opt_ok filled (lib.ban_message b) /\ opt_ok filled (lib.ban_url b) /\ opt_ok canonical (lib.ban_raw b).
#[global] Instance Lossless_ban : Lossless ban_ok temporary_ban.
Proof.
  intros [] [] Ha Hb E. unfold ban_ok in Ha, Hb. cbn in Ha, Hb. unfold temporary_ban in E. cbn in E.
  destruct (ban_reason_of ban_code) eqn:E1, (ban_reason_of ban_code0) eqn:E2. injection E; clear E; intros; subst; destruct_and?.
  f_equal; try by_field. apply (inj ban_reason_of); congruence.
Qed.

Definition pair_success_ok (p : lib.PairSuccessEvent) : Prop := real_jid (lib.ps_id p) /\ real_jid (lib.ps_lid p).
#[global] Instance Lossless_paired : Lossless pair_success_ok paired.
Proof. lossless_record pair_success_ok paired. Qed.

(** A type this build does not name has the text of one it keeps as other. *)
Definition receipt_ok (r : lib.ReceiptData) : Prop :=
  real_jid (lib.r_chat r) /\ real_jid (lib.r_sender r) /\ whole (lib.r_timestamp r) /\
  match lib.r_type r with wa.ReceiptUnnamed _ => False | _ => True end.
#[global] Instance Lossless_receipt : Lossless receipt_ok receipt_event.
Proof.
  intros [] [] Ha Hb E. unfold receipt_ok in Ha, Hb. cbn in Ha, Hb. unfold receipt_event in E. cbn in E.
  destruct (receipt_type_of r_type) eqn:E1, (receipt_type_of r_type0) eqn:E2. injection E; clear E; intros; subst; destruct_and?.
  f_equal; try by_field. destruct r_type, r_type0; cbn in *; try done; congruence.
Qed.

Definition undecryptable_ok (u : lib.UndecryptableData) : Prop := real_jid (lib.u_chat u) /\ real_jid (lib.u_sender u).
#[global] Instance Lossless_unavailable : Lossless anything unavailable_reason_of.
Proof. by intros [] [] _ _. Qed.
#[global] Instance Lossless_undecryptable : Lossless undecryptable_ok undecryptable.
Proof. lossless_record undecryptable_ok undecryptable. Qed.

Definition presence_ok (p : lib.PresenceData) : Prop :=
  real_jid (lib.pr_from p) /\ match lib.pr_status p with lib.StatusUnnamed _ => False | _ => True end /\
  opt_ok (fun t => whole_second t /\ timestamp_secs t <> 0) (lib.pr_last_seen p).
#[global] Instance Lossless_presence : Lossless presence_ok presence.
Proof.
  intros [] [] Ha Hb E. unfold presence_ok in Ha, Hb. cbn in Ha, Hb. assert (Et := f_equal wire.last_seen E).
  unfold presence in E. cbn in E, Et. injection E; clear E; intros; destruct_and?. f_equal; try by_field.
  - by destruct pr_status, pr_status0.
  - destruct pr_last_seen, pr_last_seen0; cbn in *; destruct_and?; try done. f_equal. by apply whole_second_inj.
Qed.

Definition chat_presence_ok (c : lib.ChatPresenceData) : Prop := real_jid (lib.cp_sender c) /\ real_jid (lib.cp_chat c).
#[global] Instance Lossless_activity : Lossless anything chat_state_of.
Proof. by intros [] [] _ _. Qed.
#[global] Instance Lossless_chat_presence : Lossless chat_presence_ok chat_presence.
Proof. lossless_record chat_presence_ok chat_presence. Qed.

(** It inflates. *)
Definition history_ok (h : lib.LazyHistorySync) : Prop := exists raw, lib.decompress h = Ok raw.
#[global] Instance Lossless_history : Lossless history_ok history_sync.
Proof.
  intros [] [] [r Hr] [r' Hr'] E. cbn in Hr, Hr'. subst. unfold history_sync in E. lossless_fields E.
Qed.

#[global] Instance Lossless_reaction_count : Lossless anything (fun r => wire.MkReactionCount (lib.rc_code r) (lib.rc_count r)).
Proof. intros [] [] _ _ E. lossless_fields E. Qed.
#[global] Instance Lossless_poll_vote : Lossless anything (fun v => wire.MkPollVote (lib.option_hash v) (lib.vote_count v)).
Proof. intros [] [] _ _ E. lossless_fields E. Qed.
#[global] Instance Lossless_live_message : Lossless anything live_update_message.
Proof. lossless_record anything live_update_message. Qed.

Definition live_update_ok (u : lib.LiveUpdate) : Prop := real_jid (lib.newsletter_jid u).
#[global] Instance Lossless_live_update : Lossless live_update_ok newsletter_live_update.
Proof. lossless_record live_update_ok newsletter_live_update. Qed.

Definition server_ack_ok (a : lib.ServerAckData) : Prop :=
  opt_ok filled (lib.ack_class a) /\ opt_ok real_jid (lib.ack_from a) /\
  opt_ok (fun t => whole t /\ timestamp_millis t <> 0) (lib.ack_timestamp a) /\ opt_ok filled (lib.ack_error a).
#[global] Instance Lossless_server_ack : Lossless server_ack_ok server_ack.
Proof.
  intros [] [] Ha Hb E. unfold server_ack_ok in Ha, Hb. cbn in Ha, Hb. assert (Et := f_equal wire.a_timestamp E). cbn -[default] in Et.
  apply Lossless_stamp in Et as ->; [|by destruct_and?..].
  unfold server_ack in E. cbn in E. injection E; clear E; intros; destruct_and?. f_equal; by_field.
Qed.

#[global] Instance Lossless_preview : Lossless anything offline_sync_preview.
Proof. lossless_record anything offline_sync_preview. Qed.
End laws.
