(* ===== verification/EventMappingProps.v ===== *)
(** * What of the library's events reaches the wire

    Every event becomes one wire event but a batch, one for each message, and the three kinds that
    are dropped; and two events that differ are told apart on the wire. *)

From S2P Require Import Prelude Errors Wire RequestEnums Jids RelayedEnums MessageProjection Relays AppStateEvents GroupEvents CallEvents NoticeEvents EventMapping EventFaithful NoticeFaithful.

Section props.
Context `{messages : WaMessages} `{message_laws : !WaMessagesLaws messages} `{ids : LibIds} `{laws : !LibIdsLaws ids}.
Context `{clock : Clock} `{clock_laws : !ClockLaws clock}.
Context (add_mode_try_from : string -> option MemberAddMode) (get_optional_child : Node -> string -> option Node).
Context (parse_group : Node -> option GroupMetadata) (wire_tag : CallAction -> string) (base64_decode : string -> option bytes).
Context {Value X : Type} (to_vec : Value -> bytes) (event_to_vec : X -> option bytes) (debug : X -> string).

Notation Event := (lib.Event (Value := Value) (X := X)).
Notation map_event := (map_event add_mode_try_from get_optional_child parse_group wire_tag base64_decode to_vec event_to_vec debug).

(** The events the wire says all of what the code reads: those it does not drop, of a kind it
    names, with real jids, whole instants, named enums and canonical stanzas. *)
Definition faithful (e : Event) : Prop :=
  match e with
  | lib.LoggedOut l => logged_out_ok l
  | lib.TemporaryBan b => ban_ok b
  | lib.PairSuccess p => pair_success_ok p
  | lib.PairingCodeErr e => code_error_ok e
  | lib.Messages batch => batch <> [] /\ Forall message_ok batch
  | lib.Receipt r => receipt_ok r
  | lib.UndecryptableMessage u => undecryptable_ok u
  | lib.Presence p => presence_ok p
  | lib.ChatPresence c => chat_presence_ok c
  | lib.GroupUpdated g => group_update_ok g
  | lib.ContactUpdate c => contact_ok c
  | lib.ContactGone c => contact_removed_ok c
  | lib.CallLogSynced c => call_log_ok c
  | lib.CallLogBackfill c => call_log_history_ok c
  | lib.HistorySync h => history_ok h
  | lib.Archive s => archive_ok s
  | lib.Pin s => pin_ok s
  | lib.Mute s => mute_ok s
  | lib.Star s => star_ok s
  | lib.MarkChatAsRead s => mark_read_ok s
  | lib.DeleteChat s => delete_chat_ok s
  | lib.LockChat s => lock_ok s
  | lib.ClearChat s => clear_chat_ok s
  | lib.DeleteMessageForMe s => delete_for_me_ok s
  | lib.UserStatusMute s => status_mute_ok s
  | lib.FavoriteSticker s => favorite_sticker_ok s
  | lib.RemoveRecentSticker s => remove_recent_ok s
  | lib.LabelEdit u => label_edit_update_ok u
  | lib.LabelAssociation u => label_association_ok u
  | lib.MessageLabelAssociation u => message_label_ok u
  | lib.QuickReply u => quick_reply_ok u
  | lib.LabelSublist u => sublist_ok u
  | lib.DisableLinkPreviews u => link_previews_ok u
  | lib.StatusPrivacy u => status_privacy_update_ok u
  | lib.UnarchiveChatsSetting u => unarchive_ok u
  | lib.Favorites f => favorites_ok f
  | lib.NewsletterLive u => live_update_ok u
  | lib.Incoming c => call_ok c
  | lib.Missed m => missed_ok m
  | lib.PictureChange u => picture_ok u
  | lib.UserAbout u => about_ok u
  | lib.ContactProfile u => profile_ok u
  | lib.ContactNumber c => number_ok c
  | lib.ContactSync r => sync_requested_ok r
  | lib.DisappearingModeChange c => disappearing_ok c
  | lib.BusinessStatus u => business_ok u
  | lib.DeviceListChange u => device_list_ok u
  | lib.Identity c => identity_ok c
  | lib.MexNotified n => mex_ok n
  | lib.ReachoutTimelock u => reachout_ok u
  | lib.ServerAck a => server_ack_ok a
  | lib.ConnectFailed f => connect_failure_ok f
  | lib.Outdated o => outdated_ok o
  | lib.StreamFailed e => stream_error_ok e
  | lib.ClientExpiration c => expiration_ok c
  | lib.Notification _ | lib.RawNode _ | lib.DirtyState | lib.OtherEvent _ => False
  | _ => True
  end.

(** What a relay stuck on a pair or a result answers. *)
Lemma logged_out_eq l : exists i, logged_out l = connection_with StateLoggedOut (Some i) None.
Proof. unfold logged_out. destruct (logout_reason_of _). by eexists. Qed.
Lemma temporary_ban_eq b : exists i, temporary_ban b = connection_with StateBanned None (Some i).
Proof. unfold temporary_ban. destruct (ban_reason_of _). by eexists. Qed.
Lemma code_error_eq e : exists r c b d, pairing_code_error_of e = PbCodeError r c b d.
Proof. unfold pairing_code_error_of. destruct (pair_code_rejection_of _). by do 4 eexists. Qed.
Lemma connect_failure_eq f : exists r c m s, connect_failure_notice_of f = ConnectFailureNotice r c m s.
Proof. unfold connect_failure_notice_of. destruct (logout_reason_of _). by do 4 eexists. Qed.
Lemma expiration_eq c : exists e p s t w, client_expiration_notice_of c = ClientExpirationNotice e p s t w.
Proof. unfold client_expiration_notice_of. destruct (ce_version _) as [[]]. by do 5 eexists. Qed.
Lemma history_eq h : history_ok h -> exists i, history_sync h = wire.History i.
Proof. intros [raw E]. unfold history_sync. rewrite E. by eexists. Qed.

Lemma call_not_missed c m : call_event_of wire_tag c <> missed_call_event_of m.
Proof. intros E. apply (f_equal ce_action) in E. cbn in E. injection E as E. by apply call_action_not_missed in E. Qed.

Lemma messages_batch batch1 batch2 :
  Forall message_ok batch1 -> Forall message_ok batch2 ->
  (fun m => wire.Message (map_message (lib.message m) (lib.info m))) <$> batch1 =
  (fun m => wire.Message (map_message (lib.message m) (lib.info m))) <$> batch2 -> batch1 = batch2.
Proof using message_laws laws clock_laws.
  assert (H : Lossless message_ok (fun m => wire.Message (map_message (lib.message m) (lib.info m)))).
  { intros m n Hm Hn E. apply (Lossless_message m n Hm Hn). congruence. }
  exact (Lossless_list _ _ H batch1 batch2).
Qed.

Ltac unstick E :=
  repeat match type of E with
  | context [logged_out ?l] => let i := fresh in let H := fresh in destruct (logged_out_eq l) as [i H]; rewrite H in E; clear H
  | context [temporary_ban ?l] => let i := fresh in let H := fresh in destruct (temporary_ban_eq l) as [i H]; rewrite H in E; clear H
  | context [pairing_code_error_of ?l] =>
      let H := fresh in destruct (code_error_eq l) as (? & ? & ? & ? & H); rewrite H in E; clear H
  | context [connect_failure_notice_of ?l] =>
      let H := fresh in destruct (connect_failure_eq l) as (? & ? & ? & ? & H); rewrite H in E; clear H
  | context [client_expiration_notice_of ?l] =>
      let H := fresh in destruct (expiration_eq l) as (? & ? & ? & ? & ? & H); rewrite H in E; clear H
  end.

(** Two events of one kind. *)
Ltac same_kind E :=
  first
    [ reflexivity
    | solve [injection E; intros; subst; reflexivity]
    | match type of E with
      | [pairing (?f ?x)] = [pairing (?f ?y)] => unfold pairing in E; assert (f x = f y) by congruence
      | [?C (?f ?x)] = [?C (?f ?y)] => assert (f x = f y) by congruence
      | [?f ?x] = [?f ?y] => assert (f x = f y) by congruence
      end; f_equal; by_field ].

(** Two tokens are never one mode, and a JSON text is one value's. *)
Context (exact : forall t u mode, add_mode_try_from t = Some mode -> add_mode_try_from u = Some mode -> t = u).
Context `{to_vec_inj : !Inj (=) (=) to_vec}.

Lemma told_apart a b : faithful a -> faithful b -> map_event a = map_event b -> a = b.
Proof using Type* exact to_vec_inj.
  pose proof (Lossless_group_update _ get_optional_child parse_group exact) as Hg.
  intros Ha Hb E. destruct a; try (by destruct Ha); destruct b; try (by destruct Hb); try discriminate E; cbn [faithful] in Ha, Hb;
    cbn [EventMapping.map_event] in E; unfold one in E; try (unstick E; discriminate E).
  all: try match goal with |- lib.HistorySync _ = lib.HistorySync _ => same_kind E end.
  all: try (destruct (history_eq _ Ha) as [? Hh]; rewrite Hh in E; clear Hh).
  all: try (destruct (history_eq _ Hb) as [? Hh]; rewrite Hh in E; clear Hh).
  all: try (unstick E; discriminate E).
  all: try (destruct Hb as [Hb ?]; destruct batch; [done|unstick E; discriminate E]).
  all: try (destruct Ha as [Ha ?]; destruct batch; [done|unstick E; discriminate E]).
  all: try (f_equal; apply messages_batch; [apply Ha|apply Hb|done]).
  all: try same_kind E.
  - destruct (call_not_missed c m). congruence.
  - destruct (call_not_missed c m). congruence.
Qed.

(** ** A sequence of events *)

Definition is_batch (e : Event) : bool := match e with lib.Messages _ => true | _ => false end.

(** What is shown of an event: a batch message by message, nothing of three kinds. *)
Definition shown_of (e : Event) : list Event :=
  match e with
  | lib.Messages batch => (fun m => lib.Messages [m]) <$> batch
  | lib.Notification _ | lib.RawNode _ | lib.DirtyState => []
  | e => [e]
  end.

Lemma map_event_shown e : map_event e = shown_of e ≫= map_event.
Proof using Type. destruct e; try done. cbn. induction batch as [|m batch IH]; [done|]. cbn. f_equal. exact IH. Qed.

(** What is shown is one event on the wire. *)
Lemma shown_one e : Forall (fun x => exists w, map_event x = [w]) (shown_of e).
Proof using Type.
  destruct e; try (repeat constructor; by eexists). cbn. apply Forall_fmap, Forall_true. intros m. by eexists.
Qed.

Definition wire_of (e : Event) : option wire.Event := head (map_event e).

Lemma stream_relayed es :
  es ≫= map_event = omap wire_of (es ≫= shown_of).
Proof using Type.
  induction es as [|e es IH]; [done|]. cbn. rewrite omap_app, <-IH. f_equal. rewrite map_event_shown.
  pose proof (shown_one e) as H. induction H as [|x l [w Hw] _ IHl]; [done|]. cbn. unfold wire_of. rewrite Hw. cbn. by rewrite IHl.
Qed.

Lemma wire_of_inj : Lossless (fun e => faithful e /\ exists w, map_event e = [w]) wire_of.
Proof using Type* exact to_vec_inj.
  intros a b [Ha [w Hw]] [Hb [v Hv]] E. unfold wire_of in E. rewrite Hw, Hv in E. apply told_apart; [done..|]. cbn in E. congruence.
Qed.

Lemma streams_told_apart es fs :
  Forall faithful (es ≫= shown_of) -> Forall faithful (fs ≫= shown_of) ->
  es ≫= map_event = fs ≫= map_event -> es ≫= shown_of = fs ≫= shown_of.
Proof using Type* exact to_vec_inj.
  intros Hes Hfs E. rewrite !stream_relayed in E.
  assert (Hone : forall l, Forall (fun x => exists w, map_event x = [w]) (l ≫= shown_of)).
  { intros l. induction l as [|e l IH]; [constructor|]. cbn. apply Forall_app. split; [apply shown_one|done]. }
  apply (Lossless_omap _ _ wire_of_inj); [|apply Forall_and; by split..|done].
  intros a [_ [w Hw]]. unfold wire_of. rewrite Hw. by eexists.
Qed.

(** No event is lost: the wire gets one event for each message of a batch, in their order, and
    one for every other event, whatever it holds; only a notification, a raw node and a dirty bit
    give nothing.  A kind the code does not name crosses as the catch-all, named after the text
    before the first bracket or space of its [Debug], and a history chunk that does not inflate
    as the catch-all with the reason, never as an empty chunk. *)
Theorem every_event_relayed (e : Event) :
  Forall2 (fun x w => map_event x = [w]) (shown_of e) (map_event e) /\
  (map_event e = [] <->
     e = lib.Messages [] \/ e = lib.DirtyState \/ exists node, e = lib.Notification node \/ e = lib.RawNode node) /\
  (forall batch i m, e = lib.Messages batch -> batch !! i = Some m ->
     map_event e !! i = Some (wire.Message (map_message (lib.message m) (lib.info m)))) /\
  (forall x, e = lib.OtherEvent x -> exists payload, map_event e = [wire.Raw (wire.MkRawEvent (before_split (debug x)) payload "")]) /\
  (forall h, e = lib.HistorySync h ->
     match lib.decompress h with
     | Ok raw => exists i, map_event e = [wire.History i] /\ wire.raw i = raw
     | Err reason => exists note, map_event e = [wire.Raw (wire.MkRawEvent "HistorySync" [] (note +:+ reason))]
     end).
Proof using Type.
  split_and!.
  - rewrite map_event_shown. pose proof (shown_one e) as H. induction H as [|x l [w Hw] _ IH]; [constructor|].
    cbn. rewrite Hw. cbn. by constructor.
  - split; [|intros [->|[->|[node [->| ->]]]]; done]. destruct e; try done; intros E; eauto 6. left. f_equal. by destruct batch.
  - intros batch i m -> Hi. cbn. by rewrite list_lookup_fmap, Hi.
  - intros x ->. by eexists.
  - intros h ->. cbn. unfold history_sync. destruct (lib.decompress h); [by eexists|by eexists "history sync chunk failed to inflate: "].
Qed.

(** C31.  Two runs of events that an edge sees alike are alike, down to each event and each field
    the code reads, up to where the batches of messages were cut: the relay of every kind of event
    loses nothing and confuses no two, for events with real jids, whole instants, enums this build
    names, stanzas with their attributes in the order of a map, and no unset field spelt as an
    empty one. *)
Theorem events_told_apart es fs :
  Forall faithful (es ≫= shown_of) -> Forall faithful (fs ≫= shown_of) ->
  es ≫= map_event = fs ≫= map_event -> es ≫= shown_of = fs ≫= shown_of.
Proof using Type* exact to_vec_inj. apply streams_told_apart. Qed.
End props.

(** ** A run *)

#[local] Instance plain_messages : WaMessages := {
  Message := bytes; encode_message m := m; conversation _ := None; extended_text_message _ := None; context_info _ := None;
  reaction_message _ := None; protocol_message _ := None; edited_message _ := None; secret_encrypted_message _ := None;
  image_message _ := None; video_message _ := None; audio_message _ := None; document_message _ := None; sticker_message _ := None;
  sticker_pack_message _ := None }.
#[local] Instance plain_messages_laws : WaMessagesLaws plain_messages := { decode_message := Some; decode_encode _ := eq_refl }.
#[local] Instance plain_clock : Clock := { DateTime := Z; timestamp_millis t := t; timestamp_secs t := t }.
#[local] Instance plain_clock_laws : ClockLaws plain_clock := {
  whole _ := True; whole_inj _ _ _ _ E := E; whole_second _ := True; whole_second_inj _ _ _ _ E := E }.
#[local] Instance plain_ids : LibIds := {
  LJid := string; from_str s := if str_is_empty s then Err "empty" else Ok s; jid_display s := s; Server := bool; server _ := true;
  ServerGroup := true; ServerNewsletter := false; LUuid := string; parse_str := Some; uuid_display s := s }.
#[local] Instance plain_ids_laws : LibIdsLaws plain_ids.
Proof. split; cbn; [|intros s j|done]; intros; unfold str_is_empty in *; repeat case_bool_decide; simplify_eq; done. Qed.

Definition plain_event : Type := lib.Event (Value := bytes) (X := False).
Definition plain_message (id : string) : lib.MessageInBatch :=
  lib.MkInBatch (messages := plain_messages) [Byte.x01] (MkMessageInfo id "1@g.us" "2@s" false (Some "3@lid") None 7 "Ann").
Definition plain_group (raw : Node) : plain_event :=
  lib.GroupUpdated (MkLibGroupUpdate "1@g.us" None None None 0 (Some "2@s") None None None 9 true false (LCreate raw)).
Definition plain_node : Node := MkNode "create" [("id", "1")] (Some (Nodes [MkNode "group" [] None])).

(** One batch of two, and two of one: the same to an edge. *)
Definition seen_once : list plain_event :=
  [lib.Connected; lib.Messages [plain_message "A"; plain_message "B"]; lib.RawNode plain_node; plain_group plain_node].
Definition seen_twice : list plain_event :=
  [lib.Connected; lib.Messages [plain_message "A"]; lib.DirtyState; lib.Messages [plain_message "B"]; plain_group plain_node].

Lemma events_told_apart_witness :
  let mapped := map_event (X := False) (fun _ => None) (fun _ _ => None) (fun _ => None) (fun _ => "") (fun _ => None)
    (fun v : bytes => v) (fun _ => None) (fun _ => "") in
  length (seen_once ≫= mapped) = 4%nat /\ seen_once ≫= mapped = seen_twice ≫= mapped /\
  seen_once ≫= shown_of = seen_twice ≫= shown_of.
Proof.
  intros mapped. split_and!; [reflexivity|reflexivity|].
  assert (J : forall s, s <> "" -> real_jid (ids := plain_ids) s).
  { intros s Hs. exists s. cbn. unfold str_is_empty. by rewrite bool_decide_eq_false_2. }
  assert (G : faithful (plain_group plain_node)).
  { cbn. unfold group_update_ok, join_time_ok. cbn. split_and!; try done; try (by apply J); by vm_compute. }
  assert (M : forall id, faithful (Value := bytes) (X := False) (lib.Messages [plain_message id])).
  { intros id. split; [done|]. constructor; [|constructor]. unfold message_ok, info_ok. cbn. split_and!; try done; by apply J. }
  assert (F : Forall faithful [lib.Connected; lib.Messages [plain_message "A"]; lib.Messages [plain_message "B"]; plain_group plain_node]).
  { apply Forall_cons; split; [done|]. apply Forall_cons; split; [apply M|]. apply Forall_cons; split; [apply M|].
    apply Forall_cons; split; [exact G|constructor]. }
  apply (events_told_apart (fun _ => None) (fun _ _ => None) (fun _ => None) (fun _ => "") (fun _ => None)
    (fun v : bytes => v) (fun _ => None) (fun _ => "")); [done|by intros ? ? ?|exact F|exact F|reflexivity].
Defined.
