(* ===== verification/Outgoing.v ===== *)
(** * The messages this daemon builds

    domain/wire_defaults.rs, outgoing_context.rs, and the builders of messaging.rs, send_rich.rs,
    media_transfer.rs and interactive_reply.rs.  A built message is a default one with a single
    field assigned: [Built] says which, and the library's [assemble] makes it a message, of which
    [reads] says what the accessors of MessageProjection.v find. *)

From S2P Require Import Prelude Errors Wire RequestEnums Jids Messaging MessageProjection.

(** ** wire_defaults.rs *)

Definition nonempty_string (value : string) : option string := if str_is_empty value then None else Some value.
Definition nonempty_bytes (value : bytes) : option bytes := if bool_decide (value = []) then None else Some value.
Definition nonzero_u32 (value : Z) : option Z := if 0 <? value then Some value else None.
Definition nonzero_i32 (value : Z) : option Z := if value =? 0 then None else Some value.

(** ** What is built *)

(** A [ContextInfo] of ours; [M] is the library's message. *)
Record OutInfo (M : Type) : Type := MkOutInfo {
  oi_mentioned_jid : list string; oi_stanza_id : option string; oi_participant : option string; oi_remote_jid : option string;
  oi_quoted_message : option M; oi_expiration : option Z }.
Arguments MkOutInfo {M}.
Arguments oi_mentioned_jid {M}.
Arguments oi_stanza_id {M}.
Arguments oi_participant {M}.
Arguments oi_remote_jid {M}.
Arguments oi_quoted_message {M}.
Arguments oi_expiration {M}.

(** [PreviewType] of the number it is. *)
Record ExtendedText (M : Type) : Type := MkExtendedText {
  et_text : option string; et_context : option (OutInfo M); et_matched_text : option string; et_title : option string;
  et_description : option string; et_jpeg_thumbnail : option bytes; et_preview_type : option Z }.
Arguments MkExtendedText {M}.
Arguments et_text {M}.
Arguments et_context {M}.

(** The fields the upload brings to a media message. *)
Record MediaUpload : Type := MkMediaUpload {
  up_url : string; up_direct_path : string; up_media_key : bytes; up_file_sha256 : bytes; up_file_enc_sha256 : bytes;
  up_file_length : Z; up_media_key_timestamp : Z; up_streaming_sidecar : option bytes }.

(** A media sub-message; the fields a kind does not have are [None]. *)
Record SubMessage (M : Type) : Type := MkSubMessage {
  sub_url : option string; sub_file : wa.MediaFile; sub_media_key_timestamp : option Z; sub_context : option (OutInfo M);
  sub_streaming_sidecar : option bytes; sub_ptt : option bool; sub_seconds : option Z; sub_waveform : option bytes;
  sub_file_name : option string }.
Arguments MkSubMessage {M}.
Arguments sub_file {M}.
Arguments sub_context {M}.

(** The fields a default message is assigned. *)
Inductive Built (M : Type) : Type :=
| Conversation (text : string)
| ExtendedTextMessage (e : ExtendedText M)
| ReactionMessage (key : wa.MessageKey) (text : string)
| ContactMessage (display_name vcard : option string) (context : option (OutInfo M))
| ImageMessage (s : SubMessage M) | PtvMessage (s : SubMessage M) | VideoMessage (s : SubMessage M) | AudioMessage (s : SubMessage M)
| DocumentMessage (s : SubMessage M) | StickerMessage (s : SubMessage M)
| ButtonsResponse (selected_id display_text : option string) (context : option (OutInfo M))
| ListResponse (title selected_row_id description : option string) (context : option (OutInfo M))
| TemplateButtonReply (selected_id display_text : option string) (selected_index : Z) (context : option (OutInfo M))
| InteractiveResponse (body name params_json : option string) (version : option Z) (context : option (OutInfo M)).

Arguments Conversation {M}.
Arguments ExtendedTextMessage {M}.
Arguments ReactionMessage {M}.
Arguments ContactMessage {M}.
Arguments ImageMessage {M}.
Arguments PtvMessage {M}.
Arguments VideoMessage {M}.
Arguments AudioMessage {M}.
Arguments DocumentMessage {M}.
Arguments StickerMessage {M}.
Arguments ButtonsResponse {M}.
Arguments ListResponse {M}.
Arguments TemplateButtonReply {M}.
Arguments InteractiveResponse {M}.

(** The library: what it makes of an assigned message, its protobuf decoder and its two closed enums. *)
Class WaBuild (messages : WaMessages) : Type := {
  assemble : Built Message -> Message;
  decode : bytes -> result string Message;
  preview_type_from_i32 : Z -> option Z;
  font_type_from_i32 : Z -> option Z;
}.

Section build.
Context `{messages : WaMessages} `{build : !WaBuild messages} `{ids : LibIds}.

(** ** outgoing_context.rs *)

Definition decode_quoted_message (bytes : bytes) : WamuxResult Message :=
  map_err (fun err => InvalidArgument ("quoted_message is not a serialized wa.Message (" +:+ pretty (length bytes) +:+ " bytes): " +:+ err))
    (decode bytes).

Definition no_info : OutInfo Message := MkOutInfo [] None None None None None.

Definition copy_quote (info : OutInfo Message) (quote : QuotedRef) : WamuxResult (OutInfo Message) :=
  quoted ← (if bool_decide (q_message quote = []) then Ok (oi_quoted_message info)
            else Some <$> decode_quoted_message (q_message quote));
  Ok (MkOutInfo (oi_mentioned_jid info) (Some (id_as_str (q_id quote))) (jid_display ∘ as_lib <$> q_participant quote)
        (jid_display ∘ as_lib <$> q_remote_chat quote) quoted (oi_expiration info)).

(** [info == ContextInfo::default()]. *)
Definition is_default (info : OutInfo Message) : bool :=
  match info with
  | MkOutInfo [] None None None None None => true
  | _ => false
  end.

Definition outgoing_context (context : OutgoingContext) : WamuxResult (option (OutInfo Message)) :=
  let info := MkOutInfo (jid_display ∘ as_lib <$> oc_mentions context) None None None None None in
  info ← (match oc_quote context with Some quote => copy_quote info quote | None => Ok info end);
  let info := MkOutInfo (oi_mentioned_jid info) (oi_stanza_id info) (oi_participant info) (oi_remote_jid info) (oi_quoted_message info)
                (nonzero_u32 (oc_ephemeral_seconds context)) in
  Ok (if is_default info then None else Some info).

(** ** messaging.rs *)

Definition conversation_message (text : string) : Built Message := Conversation text.

Definition unknown_preview (value : Z) : WamuxError :=
  InvalidArgument ("unknown link_preview.preview_type " +:+ pretty value +:+ "; expected a wa PreviewType value").

Definition copy_link_preview (extended : ExtendedText Message) (preview : LinkPreview) : WamuxResult (ExtendedText Message) :=
  preview_type ← (match nonzero_i32 (pr_preview_type preview) with
                  | None => Ok None
                  | Some value => Some <$> ok_or (preview_type_from_i32 value) (unknown_preview value)
                  end);
  Ok (MkExtendedText (et_text extended) (et_context extended) (nonempty_string (pr_matched_text preview))
        (nonempty_string (pr_title preview)) (nonempty_string (pr_description preview)) (nonempty_bytes (pr_jpeg_thumbnail preview))
        preview_type).

Definition extended_text (text : OutgoingText) : WamuxResult (ExtendedText Message) :=
  context ← outgoing_context (ot_context text);
  let extended := MkExtendedText (Some (ot_text text)) context None None None None None in
  match ot_link_preview text with
  | Some preview => copy_link_preview extended preview
  | None => Ok extended
  end.

(** [text.context == OutgoingContext::default()]. *)
Definition is_default_context (context : OutgoingContext) : bool :=
  match context with
  | MkOutgoingContext [] None 0 => true
  | _ => false
  end.

Definition build_text_message (text : OutgoingText) : WamuxResult (Built Message) :=
  if is_default_context (ot_context text) && bool_decide (ot_link_preview text = None) then Ok (conversation_message (ot_text text))
  else ExtendedTextMessage <$> extended_text text.

Definition wa_message_key (target : MessageTarget) : wa.MessageKey :=
  wa.MkMessageKey (Some (jid_display (as_lib (mt_chat target)))) (Some (id_as_str (mt_id target))) (Some (mt_from_me target))
    (jid_display ∘ as_lib <$> mt_participant target).

Definition build_reaction (target : MessageTarget) (emoji : string) : Built Message := ReactionMessage (wa_message_key target) emoji.

(** ** send_rich.rs *)

Definition build_contact_message (card : ContactCard) : WamuxResult (Built Message) :=
  context ← outgoing_context (MkOutgoingContext [] (cc_quote card) 0);
  Ok (ContactMessage (nonempty_string (cc_display_name card)) (nonempty_string (cc_vcard card)) context).

(** ** media_transfer.rs *)

(** [submessage_with_upload!], with the fields of the kind. *)
Definition submessage_with_upload (header : OutgoingMedia) (up : MediaUpload) (context : option (OutInfo Message))
    (caption : option string) (sidecar : option bytes) (ptt : option bool) (seconds : option Z) (waveform : option bytes)
    (file_name : option string) : SubMessage Message :=
  MkSubMessage (Some (up_url up))
    (wa.MkMediaFile (Some (up_direct_path up)) (Some (up_media_key up)) (Some (up_file_enc_sha256 up)) (Some (up_file_sha256 up))
       (Some (up_file_length up)) (nonempty_string (om_mime_type header)) caption)
    (Some (up_media_key_timestamp up)) context sidecar ptt seconds waveform file_name.

Definition image_submessage (header : OutgoingMedia) (up : MediaUpload) (context : option (OutInfo Message)) : SubMessage Message :=
  submessage_with_upload header up context (nonempty_string (om_caption header)) None None None None None.
Definition video_submessage (header : OutgoingMedia) (up : MediaUpload) (context : option (OutInfo Message)) : SubMessage Message :=
  submessage_with_upload header up context (nonempty_string (om_caption header)) (up_streaming_sidecar up) None None None None.
Definition audio_submessage (header : OutgoingMedia) (up : MediaUpload) (context : option (OutInfo Message)) : SubMessage Message :=
  submessage_with_upload header up context None (up_streaming_sidecar up) (if om_ptt header then Some true else None)
    (nonzero_u32 (om_seconds header)) (nonempty_bytes (om_waveform header)) None.
Definition document_submessage (header : OutgoingMedia) (up : MediaUpload) (context : option (OutInfo Message)) : SubMessage Message :=
  submessage_with_upload header up context (nonempty_string (om_caption header)) None None None None (nonempty_string (om_filename header)).
Definition sticker_submessage (header : OutgoingMedia) (up : MediaUpload) (context : option (OutInfo Message)) : SubMessage Message :=
  submessage_with_upload header up context None None None None None None.

Definition build_media_message (header : OutgoingMedia) (up : MediaUpload) : WamuxResult (Built Message) :=
  context ← outgoing_context (om_context header);
  match om_kind header with
  | Image => Ok (ImageMessage (image_submessage header up context))
  | Video =>
      if om_ptv header then Ok (PtvMessage (video_submessage header up context))
      else Ok (VideoMessage (video_submessage header up context))
  | Audio => Ok (AudioMessage (audio_submessage header up context))
  | Document => Ok (DocumentMessage (document_submessage header up context))
  | Sticker => Ok (StickerMessage (sticker_submessage header up context))
  | StickerPack | StickerPackThumbnail => Err (refused_as_sendable (om_kind header))
  end.

(** ** interactive_reply.rs *)

Definition reply_context (reply : InteractiveReply) : WamuxResult (OutInfo Message) :=
  context ← outgoing_context (MkOutgoingContext [] (Some (ir_quote reply)) 0);
  ok_or context (InvalidArgument "quote built no context").

Definition build_button_reply (selected_id display_text : string) (context : OutInfo Message) : Built Message :=
  ButtonsResponse (nonempty_string selected_id) (nonempty_string display_text) (Some context).
Definition build_list_reply (selected_row_id title description : string) (context : OutInfo Message) : Built Message :=
  ListResponse (nonempty_string title) (nonempty_string selected_row_id) (nonempty_string description) (Some context).
(** The index crosses as it is, 0 included. *)
Definition build_template_reply (selected_id display_text : string) (selected_index : Z) (context : OutInfo Message) : Built Message :=
  TemplateButtonReply (nonempty_string selected_id) (nonempty_string display_text) selected_index (Some context).
Definition build_native_flow_reply (name params_json body_text : string) (version : Z) (context : OutInfo Message) : Built Message :=
  InteractiveResponse (nonempty_string body_text) (nonempty_string name) (nonempty_string params_json) (nonzero_i32 version) (Some context).

Definition build_interactive_reply (reply : InteractiveReply) : WamuxResult (Built Message) :=
  context ← reply_context reply;
  Ok (match ir_choice reply with
      | Button selected_id display_text => build_button_reply selected_id display_text context
      | ListRow selected_row_id title description => build_list_reply selected_row_id title description context
      | Template selected_id display_text selected_index => build_template_reply selected_id display_text selected_index context
      | NativeFlow name params_json body_text version => build_native_flow_reply name params_json body_text version context
      end).
End build.
