(* ===== verification/Sending.v ===== *)
(** * The messaging service (services/messaging_service.rs, domain/messaging.rs, chat_actions.rs,
      send_rich.rs, polls.rs, status.rs, interactive_reply.rs, state/send_echo.rs)

    Each call converts its request, resolves the account, asks the library and, when the library
    sent a message, puts the echo of it on the account's bus before it answers.  The library is a
    function of what was done so far: [Effect]s are its calls and the echoes, in order. *)

From S2P Require Import Prelude StoreError Errors Wire RequestEnums Jids Messaging RelayedEnums Engine Registry Spool MediaStream MessageProjection Relays AppStateEvents Outgoing.

(** ** The library *)

Record RecipientFanout : Type := MkFanout {
  addressed : Z; encrypted : Z; skipped_primary : bool; had_unregistered_device : bool }.

Record SendResult {messages : WaMessages} {ids : LibIds} : Type := MkSendResult {
  sent_id : string; sent_to : LJid; sent_message : Message; sent_fanout : option RecipientFanout }.

(** [MessageRef] and [MessageId] are validated by the library, its errors by their [Display]. *)
Class ClientTypes (ids : LibIds) : Type := {
  MessageRef : Type;
  message_ref_new : LJid -> string -> option LJid -> bool -> result string MessageRef;
  lib_message_id_new : string -> result string string;
  status_broadcast : LJid;
  is_newsletter : LJid -> bool;
  PollOptionResult : Type;
  option_name : PollOptionResult -> string;
  option_voters : PollOptionResult -> list string;
}.

Section library.
Context `{messages : WaMessages} `{build : !WaBuild messages} `{ids : LibIds} `{types : !ClientTypes ids} `{mc : MediaCrypto}.

(** The library's calls the service makes. *)
Inductive Call : Type :=
| SendMessage (to : LJid) (message : Message)
| EditMessageRaw (to : LJid) (id : string) (new : Message)
| RevokeMessageRaw (to : LJid) (id : string)
| PollsCreate (to : LJid) (name : string) (options : list string) (selectable_count : Z)
| NewsletterSendPoll (to : LJid) (name : string) (options : list string) (selectable_count : Z)
| PollsVoteRaw (chat : LJid) (poll_id : string) (creator : LJid) (secret : bytes) (options : list string)
| StatusSendText (text : string) (background_argb font : Z) (recipients : list LJid)
| StatusSendImage (upload : MediaUpload) (thumbnail : bytes) (caption : option string) (recipients : list LJid)
| StatusSendVideo (upload : MediaUpload) (thumbnail : bytes) (seconds : Z) (caption : option string) (recipients : list LJid)
| StatusRevokeCall (id : string) (recipients : list LJid)
| UploadStream (staged : StagedUpload) (media_type : wa.MediaType)
| DeleteMessageForMe (message : MessageRef)
| FetchMessageHistory (chat : LJid) (id : string) (from_me : bool) (timestamp_ms count : Z)
| SetAvailable | SetUnavailable
| SendComposing (chat : LJid) | SendRecording (chat : LJid) | SendPaused (chat : LJid)
| MarkAsRead (chat : LJid) (sender : option LJid) (ids : list string)
| MarkChatAsRead (chat : LJid) (read : bool)
| StarMessage (message : MessageRef) | UnstarMessage (message : MessageRef)
| ArchiveChat (chat : LJid) | UnarchiveChat (chat : LJid) | PinChat (chat : LJid) | UnpinChat (chat : LJid)
| MuteChat (chat : LJid) | MuteChatUntil (chat : LJid) (until_ms : Z) | UnmuteChat (chat : LJid)
| DeleteChat (chat : LJid) (delete_media : bool)
| DecryptVoteRaw (voter : LJid) (enc_payload enc_iv secret : bytes) (poll_id : string) (creator : LJid)
| AggregateVotes (options : list string) (votes : list (LJid * (bytes * bytes))) (secret : bytes) (poll_id : string) (creator : LJid).

Definition Reply (call : Call) : Type :=
  match call with
  | SendMessage _ _ | EditMessageRaw _ _ _ | RevokeMessageRaw _ _ | NewsletterSendPoll _ _ _ _ | PollsVoteRaw _ _ _ _ _
  | StatusSendText _ _ _ _ | StatusSendImage _ _ _ _ | StatusSendVideo _ _ _ _ _ | StatusRevokeCall _ _ => SendResult
  | PollsCreate _ _ _ _ => SendResult * bytes            (* and the poll's secret *)
  | UploadStream _ _ => MediaUpload
  | FetchMessageHistory _ _ _ _ _ => string
  | AggregateVotes _ _ _ _ _ => list PollOptionResult
  | _ => unit
  end.

(** What happens, in order: a call on an account's client, an echo on its bus. *)
Inductive Effect : Type :=
| Called (handle : AccountHandle) (call : Call)
| Echoed (handle : AccountHandle) (message : ev.InboundMessage).
End library.

(** ** The wire (messaging.proto) *)

Record PbFanout : Type := MkPbFanout {
  pf_addressed : Z; pf_encrypted : Z; pf_skipped_primary : bool; pf_had_unregistered_device : bool }.
Record PbSendResult : Type := MkPbSendResult {
  ps_key : option pb.MessageKey; ps_server_timestamp : Z; ps_recipient_fanout : option PbFanout }.
Record PbSendPollResult : Type := MkPbSendPollResult {
  pp_key : option pb.MessageKey; pp_message_secret : bytes; pp_recipient_fanout : option PbFanout }.
Record PbPollTally : Type := MkPbPollTally { tally_results : list (string * list pb.Jid); tally_undecryptable : Z }.

Record SendReactionRequest : Type := MkReactionRequest { rr_account : option pb.AccountRef; rr_target : option pb.MessageKey; rr_emoji : string }.
Record EditMessageRequest : Type := MkEditRequest { ed_account : option pb.AccountRef; ed_target : option pb.MessageKey; ed_new_text : string }.
Record DeleteMessageRequest : Type := MkDeleteRequest {
  de_account : option pb.AccountRef; de_target : option pb.MessageKey; de_for_everyone : bool }.
Record FetchHistoryRequest : Type := MkFetchRequest {
  fh_account : option pb.AccountRef; fh_chat : option pb.Jid; fh_oldest_msg_id : string; fh_oldest_msg_from_me : bool;
  fh_oldest_msg_timestamp_ms : Z; fh_count : Z }.
Record SendPresenceRequest : Type := MkPresenceRequest { sp_account' : option pb.AccountRef; sp_chat : option pb.Jid; sp_state : Z }.
Record MarkReadRequest : Type := MkMarkReadRequest {
  mr_account : option pb.AccountRef; mr_chat : option pb.Jid; mr_message_ids : list string; mr_sender : option pb.Jid }.
Record StarMessageRequest : Type := MkStarRequest { st_account : option pb.AccountRef; st_target : option pb.MessageKey; st_starred : bool }.
(** ArchiveChat, PinChat and DeleteChat: a chat and a flag. *)
Record ChatFlagRequest : Type := MkChatFlag { cf_account : option pb.AccountRef; cf_chat : option pb.Jid; cf_flag : bool }.
Record MuteChatRequest : Type := MkMuteRequest {
  mu_account : option pb.AccountRef; mu_chat' : option pb.Jid; mu_muted : bool; mu_until_ms : Z }.

Section service.
Context (metadata_value : string -> bool) `{messages : WaMessages} `{build : !WaBuild messages} `{ids : LibIds} `{types : !ClientTypes ids}.
Context `{mc : MediaCrypto} (max : Z) (others : nat -> Z) (io : nat -> Io) (uuid_text : Uuid -> string) (number : LUuid -> Uuid).
Context {LibClient : Type} (registry : Registry) (client : AccountHandle -> option LibClient) (key : KeyDraw) (media_max_bytes : Z).

(** The account's own phone jid, and the clock in milliseconds. *)
Context (pn : LibClient -> option LJid) (now_millis : list Effect -> Z).

(** The library, on an account, after what was done. *)
Context (library : AccountHandle -> list Effect -> forall call : Call, result AnyError (Reply call)).

#[local] Abbreviation Rpc := (Rpc Effect).
#[local] Abbreviation converted := (converted metadata_value).

(** A call of the library, its error by [client_err]. *)
Definition ask (handle : AccountHandle) (call : Call) : Rpc (Reply call) := fun log =>
  (to_status metadata_value (map_err client_err (library handle log call)), log ++ [Called handle call]).

Definition account_of (account : option pb.AccountRef) : Rpc (AccountHandle * LibClient) :=
  converted (MediaStream.account_of uuid_text number registry client account).
Definition client_of (account : option pb.AccountRef) : Rpc AccountHandle := '(handle, _) ← account_of account; mret handle.
Definition missing_field (name : string) : WamuxError := InvalidArgument ("missing " +:+ name).

(** ** Answers and echoes *)

(** [u32::try_from(n).unwrap_or(u32::MAX)], of a [usize]. *)
Definition u32_or_max (n : Z) : Z := if n <=? 2 ^ 32 - 1 then n else 2 ^ 32 - 1.

Definition recipient_fanout_to_proto (f : RecipientFanout) : PbFanout :=
  MkPbFanout (u32_or_max (addressed f)) (u32_or_max (encrypted f)) (skipped_primary f) (had_unregistered_device f).

Definition sent_message_key (message_id : string) (to : LJid) : pb.MessageKey := pb.MkMessageKey (relay_lib_jid to) message_id true None.

Definition send_result_to_proto (message_id : string) (to : LJid) (fanout : option RecipientFanout) : PbSendResult :=
  MkPbSendResult (Some (sent_message_key message_id to)) 0 (recipient_fanout_to_proto <$> fanout).

Definition own_jid (c : LibClient) : option Jid := MkJid <$> pn c.

(** state/send_echo.rs: the echo is on the bus before this returns. *)
Definition publish_sent (handle : AccountHandle) (message_id : MessageId) (chat : Jid) (sender : option Jid) (message : Message) : Rpc unit :=
  fun log =>
  let key := sent_message_key (id_as_str message_id) (as_lib chat) in
  let sender := default "" (jid_display ∘ as_lib <$> sender) in
  (Ok tt, log ++ [Echoed handle (map_sent key (jid_display (as_lib chat)) sender (now_millis log) message)]).

(** No echo without an id: nobody could tell it from another. *)
Definition echo (handle : AccountHandle) (c : LibClient) (result : SendResult) : Rpc unit :=
  match message_id_new (sent_id result) with
  | Ok message_id => publish_sent handle message_id (MkJid (sent_to result)) (own_jid c) (sent_message result)
  | Err _ => mret tt
  end.

Definition echoed (handle : AccountHandle) (c : LibClient) (result : SendResult) : Rpc PbSendResult :=
  _ ← echo handle c result;
  mret (send_result_to_proto (sent_id result) (sent_to result) (sent_fanout result)).

(** ** domain/messaging.rs, send_rich.rs, polls.rs, status.rs: one send each *)

Definition send_built (handle : AccountHandle) (to : Jid) (message : WamuxResult (Built Message)) : Rpc SendResult :=
  message ← converted message;
  ask handle (SendMessage (as_lib to) (assemble message)).

Definition refuse_status_revoke (target : MessageTarget) (for_everyone : bool) : WamuxResult unit :=
  if negb for_everyone || negb (bool_decide (as_lib (mt_chat target) = status_broadcast)) then Ok tt
  else Err (InvalidArgument ("message " +:+ id_as_str (mt_id target) +:+
              " is a status; revoke it with RevokeStatus, which takes the recipients it was posted to")).

Definition lib_message_id (id : string) : WamuxResult string := map_err InvalidArgument (lib_message_id_new id).

Definition message_ref_of (target : MessageTarget) : WamuxResult MessageRef :=
  id ← lib_message_id (id_as_str (mt_id target));
  map_err InvalidArgument
    (message_ref_new (as_lib (mt_chat target)) id (as_lib <$> mt_participant target) (mt_from_me target)).

Definition delete_message_on (handle : AccountHandle) (target : MessageTarget) (for_everyone : bool) : Rpc (option SendResult) :=
  if for_everyone then
    result ← ask handle (RevokeMessageRaw (as_lib (mt_chat target)) (id_as_str (mt_id target)));
    mret (Some result)
  else
    message_ref ← converted (message_ref_of target);
    _ ← ask handle (DeleteMessageForMe message_ref);
    mret None.

(** A channel's poll goes as plain text and has no secret. *)
Definition send_poll_on (handle : AccountHandle) (to : Jid) (poll : NewPoll) : Rpc (SendResult * bytes) :=
  if is_newsletter (as_lib to) then
    result ← ask handle (NewsletterSendPoll (as_lib to) (np_name poll) (np_options poll) (np_selectable_count poll));
    mret (result, [])
  else ask handle (PollsCreate (as_lib to) (np_name poll) (np_options poll) (np_selectable_count poll)).

Definition send_presence_on (handle : AccountHandle) (chat : Jid) (state : PresenceState) : Rpc unit :=
  match state with
  | Available => ask handle SetAvailable
  | Unavailable => ask handle SetUnavailable
  | Composing => ask handle (SendComposing (as_lib chat))
  | Recording => ask handle (SendRecording (as_lib chat))
  | Paused => ask handle (SendPaused (as_lib chat))
  end.

(** [media_transfer::send_media]: the context is checked before a byte is uploaded. *)
Definition send_media_on (handle : AccountHandle) (to : Jid) (media : OutgoingMedia) (staged : StagedUpload) : Rpc SendResult :=
  _ ← converted (outgoing_context (om_context media));
  upload ← ask handle (UploadStream staged (media_type (om_kind media)));
  send_built handle to (build_media_message media upload).

Definition lib_recipients (recipients : list Jid) : list LJid := as_lib <$> recipients.

Definition unknown_font (font : Z) : WamuxError :=
  InvalidArgument ("unknown status font " +:+ pretty font +:+ "; expected a wa FontType value").

Definition post_status_text_on (handle : AccountHandle) (status : StatusText) : Rpc SendResult :=
  font ← converted (ok_or (font_type_from_i32 (stt_font status)) (unknown_font (stt_font status)));
  ask handle (StatusSendText (stt_text status) (stt_background_argb status) font (lib_recipients (stt_recipients status))).

Definition post_status_media_on (handle : AccountHandle) (status : StatusMedia) (staged : StagedUpload) : Rpc SendResult :=
  upload ← ask handle (UploadStream staged (media_type (sm_kind status)));
  let caption := nonempty_string (sm_caption status) in
  match sm_kind status with
  | Image => ask handle (StatusSendImage upload (sm_thumbnail status) caption (lib_recipients (sm_recipients status)))
  | Video =>
      ask handle (StatusSendVideo upload (sm_thumbnail status) (sm_seconds status) caption (lib_recipients (sm_recipients status)))
  | other => converted (Err (refused_as_status other))
  end.

Definition revoke_status_on (handle : AccountHandle) (revoke : StatusRevoke) : Rpc SendResult :=
  message_id ← converted (lib_message_id (id_as_str (sr_message_id revoke)));
  ask handle (StatusRevokeCall message_id (lib_recipients (sr_recipients revoke))).

(** ** polls.rs: the tally *)

Definition ciphertext_pairs (votes : list EncryptedVote) : list (LJid * (bytes * bytes)) :=
  (fun vote => (as_lib (ev_voter vote), (ev_enc_payload vote, ev_enc_iv vote))) <$> votes.

(** The votes that do not open, asked one by one; [u32] addition. *)
Fixpoint count_undecryptable (handle : AccountHandle) (tally : PollVotesToTally) (votes : list (LJid * (bytes * bytes))) (failed : Z) : Rpc Z :=
  match votes with
  | [] => mret failed
  | (voter, (enc_payload, enc_iv)) :: votes => fun log =>
      let '(opened, log) := ask handle (DecryptVoteRaw voter enc_payload enc_iv (vt_message_secret tally) (id_as_str (vt_poll_id tally))
                              (as_lib (vt_creator tally))) log in
      count_undecryptable handle tally votes (if is_ok opened then failed else failed + 1) log
  end.

Definition tally_to_proto (results : list PollOptionResult) (undecryptable : Z) : PbPollTally :=
  MkPbPollTally ((fun r => (option_name r, omap relay_jid (option_voters r))) <$> results) undecryptable.

Definition aggregate_votes (handle : AccountHandle) (tally : PollVotesToTally) : Rpc PbPollTally :=
  let votes := ciphertext_pairs (vt_votes tally) in
  undecryptable ← count_undecryptable handle tally votes 0;
  results ← ask handle (AggregateVotes (vt_options tally) votes (vt_message_secret tally) (id_as_str (vt_poll_id tally)) (as_lib (vt_creator tally)));
  mret (tally_to_proto results undecryptable).

(** ** The calls that send *)

Definition send_text (req : pb.SendTextRequest) : Rpc PbSendResult :=
  '(handle, c) ← account_of (pb.stx_account req);
  to ← converted (require_typed_jid (pb.stx_to req));
  text ← converted (text_try_from req);
  result ← send_built handle to (build_text_message text);
  echoed handle c result.

Definition send_media (chunks : MediaChunks) : Rpc PbSendResult :=
  '(handle, c, to, media, staged) ←
    (fun log => (MediaStream.send_media metadata_value max others io uuid_text number registry client key media_max_bytes chunks, log));
  result ← send_media_on handle to media staged;
  echoed handle c result.

Definition send_reaction (req : SendReactionRequest) : Rpc PbSendResult :=
  '(handle, c) ← account_of (rr_account req);
  target ← converted (target ← ok_or (rr_target req) (missing_field "target"); target_try_from target);
  result ← send_built handle (mt_chat target) (Ok (build_reaction target (rr_emoji req)));
  echoed handle c result.

(** The answer names the chat as the caller wrote it, the echo as the library addressed it. *)
Definition edit_message (req : EditMessageRequest) : Rpc PbSendResult :=
  '(handle, c) ← account_of (ed_account req);
  raw_key ← converted (ok_or (ed_target req) (missing_field "target"));
  target ← converted (target_try_from raw_key);
  result ← ask handle (EditMessageRaw (as_lib (mt_chat target)) (id_as_str (mt_id target)) (assemble (conversation_message (ed_new_text req))));
  _ ← echo handle c result;
  mret (MkPbSendResult (Some (pb.MkMessageKey (pb.key_chat raw_key) (sent_id result) true None)) 0
          (recipient_fanout_to_proto <$> sent_fanout result)).

(** The key is checked before the account is looked up. *)
Definition delete_target (account : option pb.AccountRef) (key : pb.MessageKey) (for_everyone : bool) :
    Rpc (AccountHandle * LibClient * MessageTarget) :=
  target ← converted (target_try_from key);
  _ ← (if for_everyone then converted (refuse_status_revoke target true) else mret tt);
  '(handle, c) ← account_of account;
  mret (handle, c, target).

Definition delete_message (req : DeleteMessageRequest) : Rpc PbSendResult :=
  raw_key ← converted (ok_or (de_target req) (missing_field "target"));
  '(handle, c, target) ← delete_target (de_account req) raw_key (de_for_everyone req);
  revoke ← delete_message_on handle target (de_for_everyone req);
  _ ← (match revoke with Some result => echo handle c result | None => mret tt end);
  mret (MkPbSendResult (Some raw_key) 0 (recipient_fanout_to_proto <$> (revoke ≫= sent_fanout))).

Definition send_contact (req : pb.SendContactRequest) : Rpc PbSendResult :=
  '(handle, c) ← account_of (pb.sc_account req);
  to ← converted (require_typed_jid (pb.sc_to req));
  card ← converted (contact_try_from req);
  result ← send_built handle to (build_contact_message card);
  echoed handle c result.

Definition send_interactive_reply (req : pb.SendInteractiveReplyRequest) : Rpc PbSendResult :=
  '(handle, c) ← account_of (pb.sir_account req);
  to ← converted (require_typed_jid (pb.sir_to req));
  reply ← converted (interactive_reply_try_from req);
  result ← send_built handle to (build_interactive_reply reply);
  echoed handle c result.

Definition send_poll (req : pb.SendPollRequest) : Rpc PbSendPollResult :=
  '(handle, c) ← account_of (pb.sp_account req);
  to ← converted (require_typed_jid (pb.sp_to req));
  '(result, message_secret) ← send_poll_on handle to (new_poll_from req);
  _ ← echo handle c result;
  mret (MkPbSendPollResult (Some (sent_message_key (sent_id result) (sent_to result))) message_secret
          (recipient_fanout_to_proto <$> sent_fanout result)).

Definition send_poll_vote (req : pb.SendPollVoteRequest) : Rpc PbSendResult :=
  '(handle, c) ← account_of (pb.spv_account req);
  chat ← converted (require_typed_jid (pb.spv_chat req));
  vote ← converted (poll_vote_cast_try_from req);
  result ← ask handle (PollsVoteRaw (as_lib chat) (id_as_str (vc_poll_id vote)) (as_lib (vc_creator vote)) (vc_message_secret vote) (vc_options vote));
  echoed handle c result.

Definition post_status_text (req : pb.PostStatusTextRequest) : Rpc PbSendResult :=
  '(handle, c) ← account_of (pb.pst_account req);
  post ← converted (status_text_try_from req);
  result ← post_status_text_on handle post;
  echoed handle c result.

Definition post_status_media (chunks : MediaChunks) : Rpc PbSendResult :=
  '(handle, c, post, staged) ←
    (fun log => (MediaStream.post_status_media metadata_value max others io uuid_text number registry client key media_max_bytes chunks, log));
  result ← post_status_media_on handle post staged;
  echoed handle c result.

(** Shape first, account second. *)
Definition revoke_status (req : pb.RevokeStatusRequest) : Rpc PbSendResult :=
  revoke ← converted (status_revoke_try_from req);
  '(handle, c) ← account_of (pb.rs_account req);
  result ← revoke_status_on handle revoke;
  echoed handle c result.

(** ** The calls that send nothing *)

Definition fetch_message_history (req : FetchHistoryRequest) : Rpc string :=
  handle ← client_of (fh_account req);
  chat ← converted (require_typed_jid (fh_chat req));
  ask handle (FetchMessageHistory (as_lib chat) (fh_oldest_msg_id req) (fh_oldest_msg_from_me req) (fh_oldest_msg_timestamp_ms req) (fh_count req)).

Definition send_presence (req : SendPresenceRequest) : Rpc unit :=
  handle ← client_of (sp_account' req);
  chat ← converted (require_typed_jid (sp_chat req));
  state ← converted (parse_presence (sp_state req));
  send_presence_on handle chat state.

Definition mark_read (req : MarkReadRequest) : Rpc unit :=
  handle ← client_of (mr_account req);
  chat ← converted (require_typed_jid (mr_chat req));
  sender ← converted (parse_optional (pb.value (pb.jid_or_default (mr_sender req))));
  ask handle (MarkAsRead (as_lib chat) (as_lib <$> sender) (mr_message_ids req)).

Definition mark_chat_read (req : MarkReadRequest) : Rpc unit :=
  handle ← client_of (mr_account req);
  chat ← converted (require_typed_jid (mr_chat req));
  ask handle (MarkChatAsRead (as_lib chat) true).

Definition mark_unread (req : MarkReadRequest) : Rpc unit :=
  handle ← client_of (mr_account req);
  chat ← converted (require_typed_jid (mr_chat req));
  ask handle (MarkChatAsRead (as_lib chat) false).

Definition star_message (req : StarMessageRequest) : Rpc unit :=
  handle ← client_of (st_account req);
  target ← converted (target ← ok_or (st_target req) (missing_field "target"); target_try_from target);
  message_ref ← converted (message_ref_of target);
  if st_starred req then ask handle (StarMessage message_ref) else ask handle (UnstarMessage message_ref).

Definition archive_chat (req : ChatFlagRequest) : Rpc unit :=
  handle ← client_of (cf_account req);
  chat ← converted (require_typed_jid (cf_chat req));
  if cf_flag req then ask handle (ArchiveChat (as_lib chat)) else ask handle (UnarchiveChat (as_lib chat)).

Definition pin_chat (req : ChatFlagRequest) : Rpc unit :=
  handle ← client_of (cf_account req);
  chat ← converted (require_typed_jid (cf_chat req));
  if cf_flag req then ask handle (PinChat (as_lib chat)) else ask handle (UnpinChat (as_lib chat)).

Definition mute_chat (req : MuteChatRequest) : Rpc unit :=
  handle ← client_of (mu_account req);
  chat ← converted (require_typed_jid (mu_chat' req));
  if negb (mu_muted req) then ask handle (UnmuteChat (as_lib chat))
  else if 0 <? mu_until_ms req then ask handle (MuteChatUntil (as_lib chat) (mu_until_ms req))
  else ask handle (MuteChat (as_lib chat)).

Definition delete_chat (req : ChatFlagRequest) : Rpc unit :=
  handle ← client_of (cf_account req);
  chat ← converted (require_typed_jid (cf_chat req));
  ask handle (DeleteChat (as_lib chat) (cf_flag req)).

Definition aggregate_poll_votes (req : pb.AggregatePollVotesRequest) : Rpc PbPollTally :=
  handle ← client_of (pb.ap_account req);
  tally ← converted (votes_to_tally_try_from req);
  aggregate_votes handle tally.

(** A read of the library's device snapshot. *)
Context (audience : AccountHandle -> option StatusPrivacyAction).
Definition get_status_audience (account : pb.AccountRef) : Rpc (option PbStatusPrivacy) :=
  handle ← client_of (Some account);
  mret (status_privacy_of <$> audience handle).
End service.
