(* ===== verification/SendingProps.v ===== *)
(** * What a call of the messaging service did when it answers *)

From S2P Require Import Prelude StoreError Errors Wire RequestEnums Jids Messaging RelayedEnums Engine Registry Spool MediaStream MessageProjection Relays AppStateEvents Outgoing Sending.

Section props.
Context (metadata_value : string -> bool) `{messages : WaMessages} `{build : !WaBuild messages} `{ids : LibIds} `{types : !ClientTypes ids}.
Context `{mc : MediaCrypto} (max : Z) (others : nat -> Z) (io : nat -> Io) (uuid_text : Uuid -> string) (number : LUuid -> Uuid).
Context {LibClient : Type} (registry : Registry) (client : AccountHandle -> option LibClient) (key : KeyDraw) (media_max_bytes : Z).
Context (pn : LibClient -> option LJid) (now_millis : list Effect -> Z).
Context (library : AccountHandle -> list Effect -> forall call : Call, result AnyError (Reply call)).

#[local] Abbreviation Rpc := (Rpc Effect).
Notation status e := (status_of metadata_value e).
Notation account_of := (account_of metadata_value uuid_text number registry client).
Notation echo := (echo pn now_millis).
Notation echoed := (echoed pn now_millis).
Notation ask := (ask metadata_value library).
Notation converted := (converted metadata_value).

(** ** The requests that send *)

Inductive SendRequest : Type :=
| TextRequest (r : pb.SendTextRequest) | MediaRequest (c : MediaChunks) | ReactionRequest (r : SendReactionRequest)
| EditRequest (r : EditMessageRequest) | DeleteRequest (r : DeleteMessageRequest) | ContactRequest (r : pb.SendContactRequest)
| ReplyRequest (r : pb.SendInteractiveReplyRequest) | VoteRequest (r : pb.SendPollVoteRequest)
| StatusTextRequest (r : pb.PostStatusTextRequest) | StatusMediaRequest (c : MediaChunks) | StatusRevokeRequest (r : pb.RevokeStatusRequest)
| PollRequest (r : pb.SendPollRequest).

(** A poll's answer, its secret aside. *)
Definition poll_answer (a : PbSendPollResult) : PbSendResult := MkPbSendResult (pp_key a) 0 (pp_recipient_fanout a).

Definition serve (r : SendRequest) : Rpc PbSendResult :=
  match r with
  | TextRequest r => send_text metadata_value uuid_text number registry client pn now_millis library r
  | MediaRequest c => send_media metadata_value max others io uuid_text number registry client key media_max_bytes pn now_millis library c
  | ReactionRequest r => send_reaction metadata_value uuid_text number registry client pn now_millis library r
  | EditRequest r => edit_message metadata_value uuid_text number registry client pn now_millis library r
  | DeleteRequest r => delete_message metadata_value uuid_text number registry client pn now_millis library r
  | ContactRequest r => send_contact metadata_value uuid_text number registry client pn now_millis library r
  | ReplyRequest r => send_interactive_reply metadata_value uuid_text number registry client pn now_millis library r
  | VoteRequest r => send_poll_vote metadata_value uuid_text number registry client pn now_millis library r
  | StatusTextRequest r => post_status_text metadata_value uuid_text number registry client pn now_millis library r
  | StatusMediaRequest c => post_status_media metadata_value max others io uuid_text number registry client key media_max_bytes pn now_millis library c
  | StatusRevokeRequest r => revoke_status metadata_value uuid_text number registry client pn now_millis library r
  | PollRequest r =>
      a ← send_poll metadata_value uuid_text number registry client pn now_millis library r;
      mret (poll_answer a)
  end.

(** The account a request names; a stream's is in its header. *)
Definition names (r : SendRequest) (h : AccountHandle) (c : LibClient) : Prop :=
  let named account := MediaStream.account_of uuid_text number registry client account = Ok (h, c) in
  match r with
  | TextRequest r => named (pb.stx_account r)
  | MediaRequest chunks => exists to media staged,
      MediaStream.send_media metadata_value max others io uuid_text number registry client key media_max_bytes chunks = Ok (h, c, to, media, staged)
  | ReactionRequest r => named (rr_account r)
  | EditRequest r => named (ed_account r)
  | DeleteRequest r => named (de_account r)
  | ContactRequest r => named (pb.sc_account r)
  | ReplyRequest r => named (pb.sir_account r)
  | VoteRequest r => named (pb.spv_account r)
  | StatusTextRequest r => named (pb.pst_account r)
  | StatusMediaRequest chunks => exists post staged,
      MediaStream.post_status_media metadata_value max others io uuid_text number registry client key media_max_bytes chunks = Ok (h, c, post, staged)
  | StatusRevokeRequest r => named (pb.rs_account r)
  | PollRequest r => named (pb.sp_account r)
  end.

(** What the library answered of a message that went out. *)
Definition sent (call : Call) : Reply call -> option SendResult :=
  match call with
  | SendMessage _ _ | EditMessageRaw _ _ _ | RevokeMessageRaw _ _ | NewsletterSendPoll _ _ _ _ | PollsVoteRaw _ _ _ _ _
  | StatusSendText _ _ _ _ | StatusSendImage _ _ _ _ | StatusSendVideo _ _ _ _ _ | StatusRevokeCall _ _ => Some
  | PollsCreate _ _ _ _ => fun r => Some r.1
  | _ => fun _ => None
  end.

Definition is_upload (e : Effect) : Prop := match e with Called _ (UploadStream _ _) => True | _ => False end.

(** ** Pieces of a call *)

Definition quiet {A} (m : Rpc A) : Prop := forall log, (m log).2 = log.

(** After some uploads, the library refused the last call. *)
Definition refused (h : AccountHandle) (log effects : list Effect) (s : Status) : Prop :=
  exists before call e, effects = before ++ [Called h call] /\ Forall is_upload before /\
    library h (log ++ before) call = Err e /\ s = status (client_err e).

(** After some uploads, one call went out and gave [result]. *)
Definition went_out (h : AccountHandle) (log effects : list Effect) (result : SendResult) : Prop :=
  exists before call reply, effects = before ++ [Called h call] /\ Forall is_upload before /\
    library h (log ++ before) call = Ok reply /\ sent call reply = Some result.

(** The echo of a message that has an id. *)
Definition echo_of (h : AccountHandle) (c : LibClient) (log : list Effect) (result : SendResult) : list Effect :=
  if str_is_empty (sent_id result) then []
  else [Echoed h (map_sent (sent_message_key (sent_id result) (sent_to result)) (jid_display (sent_to result))
          (default "" (jid_display <$> pn c)) (now_millis log) (sent_message result))].

Lemma echo_run h c result log : echo h c result log = (Ok tt, log ++ echo_of h c log result).
Proof.
  unfold Sending.echo, message_id_new, echo_of. destruct (str_is_empty (sent_id result)) eqn:E; cbn.
  - by rewrite app_nil_r.
  - unfold publish_sent, own_jid. cbn. by destruct (pn c).
Qed.

(** The key the answer names. *)
Definition answer_key (r : SendRequest) (result : SendResult) : option pb.MessageKey :=
  match r with
  | EditRequest r => Some (pb.MkMessageKey (ed_target r ≫= pb.key_chat) (sent_id result) true None)
  | DeleteRequest r => de_target r
  | _ => Some (sent_message_key (sent_id result) (sent_to result))
  end.

(** A call that ended well, with a message out and its echo, or with a deletion that sent nothing. *)
Definition answered (r : SendRequest) (h : AccountHandle) (c : LibClient) (log effects : list Effect) (a : PbSendResult) : Prop :=
  (exists result asked, went_out h log asked result /\ effects = asked ++ echo_of h c (log ++ asked) result /\
     ps_key a = answer_key r result /\ ps_recipient_fanout a = recipient_fanout_to_proto <$> sent_fanout result) \/
  (exists d ref, r = DeleteRequest d /\ de_for_everyone d = false /\ effects = [Called h (DeleteMessageForMe ref)] /\
     ps_key a = de_target d /\ ps_recipient_fanout a = None).

Definition done_right (r : SendRequest) (log : list Effect) (x : result Status PbSendResult * list Effect) : Prop :=
  exists effects, x.2 = log ++ effects /\
    match x.1 with
    | Err s => effects = [] \/ exists h c, names r h c /\ refused h log effects s
    | Ok a => exists h c, names r h c /\ answered r h c log effects a
    end.

(** ** How a call ends *)

Lemma refused_early r log s : done_right r log (Err s, log).
Proof. exists []. cbn. rewrite app_nil_r. split; [done|by left]. Qed.

(** One call of the library, then the echo and an answer with [k]. *)
Lemma asked_then_echoed r h c log before call (get : Reply call -> SendResult) (k : SendResult -> PbSendResult) :
  names r h c -> Forall is_upload before -> (forall reply, sent call reply = Some (get reply)) ->
  (forall result, ps_key (k result) = answer_key r result /\ ps_recipient_fanout (k result) = recipient_fanout_to_proto <$> sent_fanout result) ->
  done_right r log ((reply ← ask h call; _ ← echo h c (get reply); mret (k (get reply))) (log ++ before)).
Proof.
  intros Hn Hb Hs Hk. unfold mbind, rpc_bind, Sending.ask. destruct (library h (log ++ before) call) as [reply|e] eqn:E; cbn.
  - rewrite echo_run. exists (before ++ [Called h call] ++ echo_of h c (log ++ before ++ [Called h call]) (get reply)).
    cbn. rewrite <-!app_assoc. split; [done|]. exists h, c. split; [done|]. left.
    exists (get reply), (before ++ [Called h call]). rewrite <-!app_assoc. split_and!; [|done|apply Hk|apply Hk].
    by exists before, call, reply.
  - exists (before ++ [Called h call]). rewrite <-app_assoc. split; [done|]. right. exists h, c. split; [done|].
    by exists before, call, e.
Qed.

Lemma bind_converted {A} (m : WamuxResult A) (k : A -> Rpc PbSendResult) r log :
  (forall a, m = Ok a -> done_right r log (k a log)) -> done_right r log ((converted m ≫= k) log).
Proof. intros H. unfold mbind, rpc_bind, MediaStream.converted. destruct m as [a|e]; cbn; [by apply H|apply refused_early]. Qed.

(** A message that is built and sent, after some uploads. *)
Lemma built_then_echoed r h c log before to m :
  names r h c -> Forall is_upload before -> (before = [] \/ is_ok m = true) ->
  (forall result, answer_key r result = Some (sent_message_key (sent_id result) (sent_to result))) ->
  done_right r log ((result ← send_built metadata_value library h to m; echoed h c result) (log ++ before)).
Proof.
  intros Hn Hb Hm Hk. unfold send_built. rewrite rpc_assoc. unfold mbind at 1, rpc_bind at 1, MediaStream.converted.
  destruct m as [m|e]; cbn -[mbind].
  - by apply (asked_then_echoed r h c log before (SendMessage (as_lib to) (assemble m)) (fun x => x)
                (fun result => send_result_to_proto (sent_id result) (sent_to result) (sent_fanout result))).
  - destruct Hm as [->|Hm]; [|done]. rewrite app_nil_r. apply refused_early.
Qed.

Lemma sent_then_echoed r h c log to m :
  names r h c -> (forall result, answer_key r result = Some (sent_message_key (sent_id result) (sent_to result))) ->
  done_right r log ((result ← send_built metadata_value library h to m; echoed h c result) log).
Proof. intros Hn Hk. rewrite <-(app_nil_r log) at 2. apply built_then_echoed; [done|constructor|by left|done]. Qed.

Lemma asked_once r h c log call (get : Reply call -> SendResult) (k : SendResult -> PbSendResult) :
  names r h c -> (forall reply, sent call reply = Some (get reply)) ->
  (forall result, ps_key (k result) = answer_key r result /\ ps_recipient_fanout (k result) = recipient_fanout_to_proto <$> sent_fanout result) ->
  done_right r log ((reply ← ask h call; _ ← echo h c (get reply); mret (k (get reply))) log).
Proof. intros. rewrite <-(app_nil_r log) at 2. by apply asked_then_echoed. Qed.

(** An answer made of the sent message's own key. *)
Definition plain_answer (result : SendResult) : PbSendResult :=
  send_result_to_proto (sent_id result) (sent_to result) (sent_fanout result).

(** ** Media *)

Ltac not_listed H := exfalso; cbn in H; rewrite !elem_of_cons, elem_of_nil in H; repeat (destruct H as [H|H]; [discriminate H|]); exact H.

Lemma parse_within_in value field subset kind : parse_within value field subset = Ok kind -> kind ∈ subset.
Proof.
  unfold parse_within. destruct (media_from_wire value) as [k|]; cbn; [|done]. case_decide; cbn; [|done]. by intros [= ->].
Qed.

Lemma sendable_built media context upload :
  om_kind media ∈ take 5 ALL_MEDIA -> outgoing_context (om_context media) = Ok context -> is_ok (build_media_message media upload) = true.
Proof.
  intros Hk Hc. unfold build_media_message. rewrite Hc. cbn. destruct (om_kind media); cbn; try done; [by destruct (om_ptv media)|..].
  all: not_listed Hk.
Qed.

(** The media a stream ends in is of a kind that can be sent, or posted. *)
Lemma streamed_sendable chunks h c to media staged :
  MediaStream.send_media metadata_value max others io uuid_text number registry client key media_max_bytes chunks = Ok (h, c, to, media, staged) ->
  om_kind media ∈ take 5 ALL_MEDIA.
Proof.
  unfold MediaStream.send_media. intros E.
  apply result_bind_ok in E as ([header rest] & _ & E). apply result_bind_ok in E as (hd & _ & E).
  apply result_bind_ok in E as ([h' c'] & _ & E). apply result_bind_ok in E as (to' & _ & E).
  apply result_bind_ok in E as (kind & _ & E). apply result_bind_ok in E as (staged' & _ & E).
  apply result_bind_ok in E as (media' & Hm & E). injection E as -> -> -> -> ->.
  unfold to_status, map_err in Hm. destruct (media_try_from hd) as [m|] eqn:Em; [|done]. injection Hm as ->.
  unfold media_try_from in Em. apply result_bind_ok in Em as (k & Hk & Em). apply result_bind_ok in Em as (ctx & _ & Em).
  injection Em as <-. cbn. by eapply parse_within_in.
Qed.

Lemma streamed_postable chunks h c post staged :
  MediaStream.post_status_media metadata_value max others io uuid_text number registry client key media_max_bytes chunks = Ok (h, c, post, staged) ->
  sm_kind post ∈ take 2 ALL_MEDIA.
Proof.
  unfold MediaStream.post_status_media. intros E.
  apply result_bind_ok in E as ([header rest] & _ & E). apply result_bind_ok in E as (hd & _ & E).
  apply result_bind_ok in E as ([h' c'] & _ & E).
  apply result_bind_ok in E as (kind & _ & E). apply result_bind_ok in E as (staged' & _ & E).
  apply result_bind_ok in E as (post' & Hm & E). injection E as -> -> -> ->.
  unfold to_status, map_err in Hm. destruct (status_media_try_from hd) as [m|] eqn:Em; [|done]. injection Hm as ->.
  unfold status_media_try_from in Em. apply result_bind_ok in Em as (k & Hk & Em). apply result_bind_ok in Em as (ctx & _ & Em).
  injection Em as <-. cbn. by eapply parse_within_in.
Qed.

Lemma bind_upload r h c log staged t (k : MediaUpload -> Rpc PbSendResult) :
  names r h c -> (forall upload, done_right r log (k upload (log ++ [Called h (UploadStream staged t)]))) ->
  done_right r log ((ask h (UploadStream staged t) ≫= k) log).
Proof.
  intros Hn Hk. unfold mbind, rpc_bind, Sending.ask. destruct (library h log (UploadStream staged t)) as [u|e] eqn:E; cbn; [apply Hk|].
  exists [Called h (UploadStream staged t)]. split; [done|]. right. exists h, c. split; [done|].
  exists [], (UploadStream staged t), e. rewrite app_nil_r. by split_and!.
Qed.

Ltac convert := apply bind_converted; intros ? ?.
Ltac account c h := apply bind_converted; intros [h c] ?.

(** A poll is one call, to a chat or to a channel, and its echo. *)
Lemma poll_then_echoed r h c to log : names (PollRequest r) h c ->
  done_right (PollRequest r) log
    ((a ← ('(result, message_secret) ← send_poll_on metadata_value library h to (new_poll_from r);
           _ ← echo h c result;
           mret (MkPbSendPollResult (Some (sent_message_key (sent_id result) (sent_to result))) message_secret
                   (recipient_fanout_to_proto <$> sent_fanout result)));
      mret (poll_answer a)) log).
Proof.
  intros Hn. set (k result := MkPbSendResult (Some (sent_message_key (sent_id result) (sent_to result))) 0
    (recipient_fanout_to_proto <$> sent_fanout result)).
  unfold send_poll_on. destruct (is_newsletter (as_lib to)).
  - match goal with |- done_right _ _ ?x => assert (x = (reply ← ask h (NewsletterSendPoll (as_lib to)
      (np_name (new_poll_from r)) (np_options (new_poll_from r)) (np_selectable_count (new_poll_from r))); _ ← echo h c reply; mret (k reply)) log) as -> end.
    { unfold mbind, rpc_bind, Sending.ask. destruct (library h log _); cbn; [|done]. by rewrite echo_run. }
    by apply (asked_once _ h c log (NewsletterSendPoll _ _ _ _) (fun x => x) k).
  - match goal with |- done_right _ _ ?x => assert (x = (reply ← ask h (PollsCreate (as_lib to)
      (np_name (new_poll_from r)) (np_options (new_poll_from r)) (np_selectable_count (new_poll_from r))); _ ← echo h c reply.1; mret (k reply.1)) log) as -> end.
    { unfold mbind, rpc_bind, Sending.ask. destruct (library h log _) as [[]|]; cbn; [|done]. by rewrite echo_run. }
    by apply (asked_once _ h c log (PollsCreate _ _ _ _) fst k).
Qed.

Lemma serve_done_right r log : done_right r log (serve r log).
Proof.
  destruct r; cbn [serve].
  - unfold send_text. account c h. do 2 convert. by apply sent_then_echoed.
  - unfold send_media. unfold mbind at 1, rpc_bind at 1. destruct (MediaStream.send_media _ _ _ _ _ _ _ _ _ _ c)
      as [[[[[h lc] to] media] staged]|e] eqn:E; [|apply refused_early].
    unfold send_media_on. rewrite rpc_assoc. apply bind_converted; intros context Hc. rewrite rpc_assoc.
    assert (Hn : names (MediaRequest c) h lc) by (by exists to, media, staged).
    apply (bind_upload _ h lc); [done|]. intros upload. apply built_then_echoed; [done|by repeat constructor| |done].
    right. eapply sendable_built; [by eapply streamed_sendable|done].
  - unfold send_reaction. account c h. convert. by apply sent_then_echoed.
  - unfold edit_message. account c h. convert. convert. 
    apply (asked_once _ h c log (EditMessageRaw _ _ _) (fun x => x) (fun result => MkPbSendResult
      (Some (pb.MkMessageKey (pb.key_chat a) (sent_id result) true None)) 0 (recipient_fanout_to_proto <$> sent_fanout result))); [done|done|].
    intros result. split; [|done]. cbn. destruct (ed_target r); cbn in *; congruence.
  - unfold delete_message. apply bind_converted; intros raw_key Hkey. unfold delete_target. rewrite rpc_assoc.
    apply bind_converted; intros target _. rewrite rpc_assoc.
    assert (Hk : de_target r = Some raw_key) by (destruct (de_target r); cbn in Hkey; congruence).
    destruct (de_for_everyone r) eqn:Ev.
    + apply bind_converted; intros _ _. rewrite rpc_assoc. account c h. rewrite rpc_ret_bind. unfold delete_message_on. rewrite rpc_assoc.
      apply (asked_once _ h c log (RevokeMessageRaw _ _) (fun x => x)
        (fun result => MkPbSendResult (Some raw_key) 0 (recipient_fanout_to_proto <$> sent_fanout result))); [done|done|].
      intros result. by rewrite <-Hk.
    + rewrite rpc_ret_bind, rpc_assoc. account c h. rewrite rpc_ret_bind. unfold delete_message_on. rewrite rpc_assoc. convert.
      unfold mbind, rpc_bind, Sending.ask. destruct (library h log (DeleteMessageForMe _)) as [u|e] eqn:E; cbn.
      * exists [Called h (DeleteMessageForMe a)]. split; [done|]. exists h, c. split; [done|]. right. by exists r, a.
      * exists [Called h (DeleteMessageForMe a)]. split; [done|]. right. exists h, c. split; [done|].
        exists [], (DeleteMessageForMe a), e. rewrite app_nil_r. by split_and!.
  - unfold send_contact. account c h. do 2 convert. by apply sent_then_echoed.
  - unfold send_interactive_reply. account c h. do 2 convert. by apply sent_then_echoed.
  - unfold send_poll_vote. account c h. do 2 convert. by apply (asked_once _ h c log (PollsVoteRaw _ _ _ _ _) (fun x => x) plain_answer).
  - unfold post_status_text, post_status_text_on. account c h. convert. rewrite rpc_assoc. convert.
    by apply (asked_once _ h c log (StatusSendText _ _ _ _) (fun x => x) plain_answer).
  - unfold post_status_media. unfold mbind at 1, rpc_bind at 1. destruct (MediaStream.post_status_media _ _ _ _ _ _ _ _ _ _ c)
      as [[[[h lc] post] staged]|e] eqn:E; [|apply refused_early].
    assert (Hn : names (StatusMediaRequest c) h lc) by (by exists post, staged).
    unfold post_status_media_on. rewrite rpc_assoc. apply (bind_upload _ h lc); [done|]. intros upload. apply streamed_postable in E.
    destruct (sm_kind post); cbn in E; try not_listed E.
    + apply (asked_then_echoed _ h lc log _ (StatusSendImage _ _ _ _) (fun x => x) plain_answer); [done|by repeat constructor|done|done].
    + apply (asked_then_echoed _ h lc log _ (StatusSendVideo _ _ _ _ _) (fun x => x) plain_answer); [done|by repeat constructor|done|done].
  - unfold revoke_status, revoke_status_on. convert. account c h. rewrite rpc_assoc. convert.
    by apply (asked_once _ h c log (StatusRevokeCall _ _) (fun x => x) plain_answer).
  - unfold send_poll. rewrite rpc_assoc. account c h. rewrite rpc_assoc. convert. by apply poll_then_echoed.
Qed.

(** C32.  A send tells exactly what happened.  It asks for nothing before its request is whole and
    its account is there and connected: an error is a refusal with nothing asked of the library, or
    the library's own error of the last call, of the account the request names, with nothing but
    the upload of its media before it and no echo after it.  An answer means that one message
    went out on that account, by the last call, and that its echo, when the message has an id, was
    put on the account's bus after it and before the answer: under the key the answer names (an
    edit names the chat as the caller wrote it, a revoke the message it revokes), and with the
    message the library sent.  A deletion for this account alone sends and echoes nothing; of a
    poll's answer, the secret it also carries is set aside. *)
Theorem send_answers r log :
  let '(answer, log') := serve r log in
  exists effects, log' = log ++ effects /\
    match answer with
    | Err s => effects = [] \/ exists h c, names r h c /\ refused h log effects s
    | Ok a => exists h c, names r h c /\ answered r h c log effects a
    end.
Proof. pose proof (serve_done_right r log) as H. by destruct (serve r log). Qed.
End props.

(** ** What an echo shows of the message that was asked for *)

(** What the library reads of an assigned message: the field that was assigned, and its context
    for the kinds it is known to look in. *)
Definition out_info {M} (info : OutInfo M) : wa.ContextInfo :=
  wa.MkContextInfo (oi_stanza_id info) (oi_participant info) (oi_remote_jid info) (oi_mentioned_jid info).

Class WaBuildLaws {messages : WaMessages} (build : WaBuild messages) : Prop := {
  read_conversation b : conversation (assemble b) = match b with Conversation t => Some t | _ => None end;
  read_extended b : extended_text_message (assemble b) = match b with ExtendedTextMessage e => Some (et_text e) | _ => None end;
  read_image b : image_message (assemble b) = match b with ImageMessage s => Some (sub_file s) | _ => None end;
  read_video b : video_message (assemble b) = match b with VideoMessage s => Some (sub_file s) | _ => None end;
  read_audio b : audio_message (assemble b) = match b with AudioMessage s => Some (sub_file s) | _ => None end;
  read_document b : document_message (assemble b) = match b with DocumentMessage s => Some (sub_file s) | _ => None end;
  read_sticker b : sticker_message (assemble b) = match b with StickerMessage s => Some (sub_file s) | _ => None end;
  read_pack b : sticker_pack_message (assemble b) = None;
  read_reaction b : reaction_message (assemble b) = match b with
    | ReactionMessage key text => Some (wa.MkReaction (Some text) (Some key))
    | _ => None
    end;
  read_secret b : secret_encrypted_message (assemble b) = None;
  read_protocol b : protocol_message (assemble b) = None;
  read_edited b : edited_message (assemble b) = None;
  read_context b : match b with
    | Conversation _ => context_info (assemble b) = None
    | ExtendedTextMessage e => context_info (assemble b) = out_info <$> et_context e
    | _ => True
    end;
}.

Section echo.
Context `{messages : WaMessages} `{build : !WaBuild messages} `{build_laws : !WaBuildLaws build}.
Context `{ids : LibIds} `{laws : !LibIdsLaws ids}.

(** A wire jid as the library prints it. *)
Definition printed (j : pb.Jid) : Prop := exists l, from_str (pb.value j) = Ok l /\ jid_display l = pb.value j.
Definition printed_opt (j : option pb.Jid) : Prop := match j with Some j => printed j | None => True end.

Lemma printed_filled j : printed j -> pb.value j <> "".
Proof using laws. intros (l & Hl & Hd). rewrite <-Hd. by eapply jid_display_nonempty. Qed.

Lemma jid_parse_printed v j : printed (pb.MkJid v) -> jid_parse v = Ok j -> jid_display (as_lib j) = v.
Proof using laws.
  intros Hp. pose proof (printed_filled _ Hp) as Hf. destruct Hp as (l & Hl & Hd). cbn in *. unfold jid_parse, str_is_empty.
  rewrite bool_decide_eq_false_2 by done. rewrite Hl. cbn. by intros [= <-].
Qed.

Lemma required_printed j o : printed j -> from_required_wire (Some j) = Ok o -> pb.MkJid (jid_display (as_lib o)) = j.
Proof using laws.
  intros Hp. destruct j as [v]. unfold from_required_wire, jid_try_from. cbn. destruct (jid_parse v) as [k|] eqn:E; cbn; [|done].
  intros [= <-]. f_equal. by apply jid_parse_printed.
Qed.

Lemma optional_printed j o :
  printed_opt j -> from_optional_wire j = Ok o -> (pb.MkJid ∘ jid_display ∘ as_lib <$> o) = j.
Proof using laws.
  destruct j as [[v]|]; cbn; [|by intros _ [= <-]]. intros Hp. unfold str_is_empty.
  rewrite bool_decide_eq_false_2 by (exact (printed_filled _ Hp)).
  destruct (jid_parse v) as [k|] eqn:E; cbn; [|done]. intros [= <-]. cbn. do 2 f_equal. by apply jid_parse_printed.
Qed.

(** What an echo shows of a quote the caller gave, the message being shown in [shown_in]: the chat
    the caller named, when it named another than the destination, or the one it is shown in. *)
Definition quote_asked (to : pb.Jid) (shown_in : string) (quote : option pb.QuoteContext) : option pb.QuoteContext :=
  key ← quote ≫= pb.quoted;
  let participant := from_option Some (pb.key_participant key) (quote ≫= pb.quote_participant) in
  let chat := match pb.key_chat key with
    | Some chat => if decide (pb.value chat = pb.value to) then pb.MkJid shown_in else chat
    | None => pb.MkJid shown_in
    end in
  Some (pb.MkQuoteContext (Some (pb.MkMessageKey (Some chat) (pb.key_id key) false participant)) participant).

Definition printed_key (key : pb.MessageKey) : Prop := printed_opt (pb.key_chat key) /\ printed_opt (pb.key_participant key).
Definition printed_quote (quote : option pb.QuoteContext) : Prop :=
  match quote with
  | Some q => printed_opt (pb.quote_participant q) /\ match pb.quoted q with Some key => printed_key key | None => True end
  | None => True
  end.
Definition printed_mention (m : pb.Mention) : Prop := exists j, pb.mention_jid m = Some j /\ printed j.

Lemma relayed_printed j : printed j -> relay_jid (pb.value j) = Some j.
Proof using laws.
  intros Hp%printed_filled. unfold relay_jid, str_is_empty. rewrite bool_decide_eq_false_2 by done. by destruct j.
Qed.

Lemma mentions_asked ms js :
  Forall printed_mention ms -> mapM (fun m => from_required_wire (pb.mention_jid m)) ms = Ok js ->
  (fun jid => pb.MkMention (Some jid)) <$> omap relay_jid (jid_display ∘ as_lib <$> js) = ms.
Proof using laws.
  intros Hp H%mapM_result_ok. induction H as [|m j ms js Hm _ IH]; cbn; [done|].
  apply Forall_cons in Hp as [(p & Ej & Hj) Hp]. rewrite Ej in Hm. apply (required_printed p j Hj) in Hm as Hm'.
  rewrite <-Hm' in Hj. apply relayed_printed in Hj. cbn in *. rewrite Hj, Hm'. cbn. rewrite IH by done. destruct m. by cbn in *; subst.
Qed.

Lemma shown_optional j o :
  printed_opt j -> from_optional_wire j = Ok o -> relay_jid (default "" (jid_display ∘ as_lib <$> o)) = j.
Proof using laws.
  intros Hp Ho%optional_printed; [|done]. destruct o as [k|], j as [j|]; cbn in *; try done.
  injection Ho as Hj. pose proof (relayed_printed j Hp) as Hr. by rewrite <-Hj in Hr |- *.
Qed.

(** The participant of a quote: its own, or else its key's. *)
Lemma participant_asked own key_own o p :
  printed_opt own -> printed_opt key_own -> from_optional_wire own = Ok o ->
  match o with Some o => Ok (Some o) | None => from_optional_wire key_own end = Ok p ->
  relay_jid (default "" (jid_display ∘ as_lib <$> p)) = from_option Some key_own own.
Proof using laws.
  intros Hown Hkey Ho Hp. pose proof (shown_optional own o Hown Ho) as Hs. pose proof (optional_printed own o Hown Ho) as Hd.
  destruct o as [o|], own as [own|]; try done.
  - by injection Hp as <-.
  - by apply shown_optional.
Qed.

(** The chat of a quote: the one named, but the destination's is left to where the message is shown. *)
Lemma chat_asked key to shown_in r :
  printed to -> printed_opt (pb.key_chat key) -> shown_in <> "" -> remote_chat_of key (Some to) = Ok r ->
  relay_jid (default shown_in (jid ← jid_display ∘ as_lib <$> r; if str_is_empty jid then None else Some jid)) =
  Some (match pb.key_chat key with
        | Some chat => if decide (pb.value chat = pb.value to) then pb.MkJid shown_in else chat
        | None => pb.MkJid shown_in
        end).
Proof using laws.
  intros Hto Hc Hshown. unfold remote_chat_of, destination_of.
  assert (Hin : relay_jid shown_in = Some (pb.MkJid shown_in)) by (unfold relay_jid, str_is_empty; by rewrite bool_decide_eq_false_2).
  intros (c & Ec & Er)%result_bind_ok. pose proof (optional_printed _ _ Hc Ec) as Hd.
  destruct c as [c|], (pb.key_chat key) as [chat|]; try done; [|by injection Er as <-]. injection Hd as Hd.
  destruct Hto as (l & Hl & Hdl). assert (Hf : pb.value to <> "") by (apply printed_filled; by exists l).
  cbn [from_optional_wire] in Er. unfold jid_parse, str_is_empty in Er. rewrite !bool_decide_eq_false_2, Hl in Er by done. cbn in Er.
  destruct (decide (Some (MkJid l) = Some c)) as [E|E]; injection Er as <-.
  - injection E as <-. rewrite <-Hd. cbn. by rewrite Hdl, decide_True by done.
  - cbn. apply printed_filled in Hc as Hcf. rewrite <-Hd in Hcf |- *. cbn in Hcf |- *. unfold str_is_empty.
    rewrite bool_decide_eq_false_2 by done. cbn. rewrite decide_False; [|intros E2; apply E].
    + unfold relay_jid, str_is_empty. by rewrite bool_decide_eq_false_2.
    + rewrite <-Hd in Ec. cbn in E2, Ec, Hcf. rewrite E2 in Ec. unfold jid_parse, str_is_empty in Ec.
      rewrite bool_decide_eq_false_2, Hl in Ec by done. by injection Ec as <-.
Qed.

Lemma quote_asked_for to shown_in quote quoted q :
  printed to -> printed_quote quote -> shown_in <> "" ->
  quote_from_proto quote quoted (Some to) = Ok q ->
  match q with
  | Some q =>
      forall mentions, quote_of (wa.MkContextInfo (Some (id_as_str (q_id q))) (jid_display ∘ as_lib <$> q_participant q)
        (jid_display ∘ as_lib <$> q_remote_chat q) mentions) shown_in = quote_asked to shown_in quote
  | None => quote_asked to shown_in quote = None
  end.
Proof using laws.
  intros Hto Hq Hshown. unfold quote_from_proto, quote_asked.
  destruct (quote ≫= pb.quoted) as [key|] eqn:E.
  2: { unfold refuse_orphan_quoted_message. case_bool_decide; [|done]. by intros [= <-]. }
  destruct quote as [[quoted' qp]|]; [|done]. cbn in E, Hq |- *. subst quoted'. destruct Hq as [Hqp [Hc Hkp]].
  destruct (str_is_empty (pb.key_id key)) eqn:Eid; [done|].
  intros (own & Hown & (p & Hp & (id & Hid & (r & Hr & H)%result_bind_ok)%result_bind_ok)%result_bind_ok)%result_bind_ok.
  injection H as <-. intros mentions. unfold quote_of. cbn -[from_optional_wire].
  rewrite (participant_asked qp (pb.key_participant key) own p) by done.
  unfold message_id_new in Hid. rewrite Eid in Hid. injection Hid as <-.
  pose proof (chat_asked key to shown_in r Hto Hc Hshown Hr) as ->. done.
Qed.

Lemma plain_context t : context_info (assemble (Conversation t)) = None.
Proof using build_laws. exact (read_context (Conversation t)). Qed.
Lemma extended_context e : context_info (assemble (ExtendedTextMessage e)) = out_info <$> et_context e.
Proof using build_laws. exact (read_context (ExtendedTextMessage e)). Qed.

(** The context of a message, as an echo shows it. *)
Lemma context_asked ms to shown_in quote quoted seconds ctx o :
  printed to -> Forall printed_mention ms -> printed_quote quote -> shown_in <> "" ->
  context_from_proto ms quote quoted seconds (Some to) = Ok ctx -> outgoing_context ctx = Ok o ->
  match out_info <$> o with
  | Some ci => mentions_of ci = ms /\ quote_of ci shown_in = quote_asked to shown_in quote
  | None => ms = [] /\ quote_asked to shown_in quote = None
  end.
Proof using laws.
  intros Hto Hms Hq Hshown (js & Hjs & (q & Hqq & H)%result_bind_ok)%result_bind_ok. injection H as <-.
  pose proof (mentions_asked ms js Hms Hjs) as Hm. pose proof (quote_asked_for to shown_in quote quoted q Hto Hq Hshown Hqq) as Hquote.
  unfold outgoing_context. cbn [oc_quote oc_mentions oc_ephemeral_seconds].
  intros (info & Hinfo & Ho)%result_bind_ok. destruct q as [q|].
  - apply result_bind_ok in Hinfo as (body & _ & Hi). injection Hi as <-. cbn in Ho.
    destruct js; injection Ho as <-; split; try apply Hquote; exact Hm.
  - injection Hinfo as <-. cbn in Ho. destruct js as [|j js].
    + destruct (nonzero_u32 seconds); injection Ho as <-; cbn; by rewrite <-Hm.
    + injection Ho as <-. split; [exact Hm|]. by rewrite Hquote.
Qed.

(** What is shown of an assigned message. *)
Lemma built_content b shown_in :
  project_content no_content (assemble b) shown_in =
  let ci := context_info (assemble b) in
  MkContent
    (match b with Conversation t => t | ExtendedTextMessage e => default "" (et_text e) | _ => "" end)
    (ci ← ci; quote_of ci shown_in) (from_option mentions_of [] ci)
    (match b with
     | ImageMessage s => Some (media_descriptor (sub_file s) Image) | VideoMessage s => Some (media_descriptor (sub_file s) Video)
     | AudioMessage s => Some (media_descriptor (sub_file s) Audio) | DocumentMessage s => Some (media_descriptor (sub_file s) Document)
     | StickerMessage s => Some (media_descriptor (sub_file s) Sticker) | _ => None
     end)
    (match b with
     | ImageMessage s | VideoMessage s | DocumentMessage s => default "" (wa.m_caption (sub_file s))
     | _ => ""
     end)
    (match b with ReactionMessage _ text => text | _ => "" end)
    (match b with ReactionMessage key _ => Some (wa_key_to_proto key) | _ => None end) false false None None.
Proof using build_laws.
  cbv zeta. unfold project_content, project_text, effective_protocol_message, is_secret_message_edit, extract_media.
  rewrite read_conversation, read_extended, read_image, read_video, read_audio, read_document, read_sticker, read_pack,
    read_protocol, read_edited, read_reaction, read_secret.
  destruct b; cbn; destruct (context_info _); cbn; try done; by destruct (et_text e).
Qed.

Lemma default_nonempty s : default "" (nonempty_string s) = s.
Proof using. unfold nonempty_string, str_is_empty. by case_bool_decide. Qed.

Lemma sendable_number value kind : parse_sendable value = Ok kind -> value = number (media_to_wire kind).
Proof using. intros H. by apply (parse_within_accepts MEDIA_TYPE_FIELD (take 5 ALL_MEDIA)) in H as [_ ?]. Qed.

(** C34. The echo of a media message describes the file that was uploaded: its path, keys, hashes
    and length as the upload gave them, and the type, the mime type and (for the kinds that have
    one) the caption of the request's header.  A video note is the exception: it is sent in a
    field the projection does not read, and its echo shows no media at all. *)
Theorem media_reads_back h media up b chat :
  media_try_from h = Ok media -> build_media_message media up = Ok b ->
  let c := project_content no_content (assemble b) chat in
  if bool_decide (om_kind media = Video) && pb.smh_ptv h then c_media c = None /\ c_caption c = ""
  else c_media c = Some (pb.MkMediaDescriptor (up_direct_path up) (up_media_key up) (up_file_enc_sha256 up) (up_file_sha256 up)
                          (up_file_length up) (pb.smh_mime_type h) (pb.smh_media_type h)) /\
       c_caption c = (if bool_decide (om_kind media ∈ [Audio; Sticker]) then "" else pb.smh_caption h).
Proof using build_laws.
  intros (kind & Hk%sendable_number & (ctx & _ & H)%result_bind_ok)%result_bind_ok (o & _ & Hb)%result_bind_ok.
  injection H as <-. cbv zeta. rewrite built_content, Hk. cbv zeta. cbn [c_media c_caption om_kind] in *.
  destruct kind; cbn in Hb; try done; try (destruct (pb.smh_ptv h)); injection Hb as <-; cbn; unfold media_descriptor; cbn;
    by rewrite ?default_nonempty.
Qed.

(** ** Through the service *)

Context `{types : !ClientTypes ids} `{mc : MediaCrypto} (metadata_value : string -> bool) (uuid_text : Uuid -> string) (number : LUuid -> Uuid).
Context {LibClient : Type} (registry : Registry) (client : AccountHandle -> option LibClient).
Context (pn : LibClient -> option LJid) (now_millis : list Effect -> Z).
Context (library : AccountHandle -> list Effect -> forall call : Call, result AnyError (Reply call)).

(** The message the library returns from a send is the one it was given, to whoever reads it; it
    has an id, and an address. *)
Definition returns_what_it_sends : Prop :=
  forall h log to m result, library h log (SendMessage to m) = Ok result ->
    (forall chat, project_content no_content (sent_message result) chat = project_content no_content m chat) /\
    sent_id result <> "" /\ jid_display (sent_to result) <> "".

(** A send put this on the bus, and answered with the key of it. *)
Definition echoes (shown : string -> Content) (log log' : list Effect) (a : PbSendResult) : Prop :=
  exists h call echo chat, log' = log ++ [Called h call; Echoed h echo] /\ ev.chat echo = Some (pb.MkJid chat) /\
    ps_key a = ev.key echo /\ content_shown echo = shown chat.

Lemma sent_and_echoed h c log to m a log' shown :
  returns_what_it_sends -> (forall b chat, m = Ok b -> chat <> "" -> project_content no_content (assemble b) chat = shown chat) ->
  (result ← send_built metadata_value library h to m; echoed pn now_millis h c result) log = (Ok a, log') -> echoes shown log log' a.
Proof using build_laws.
  intros Hl Hs. unfold send_built. rewrite rpc_assoc. unfold mbind at 1, rpc_bind at 1, converted.
  destruct m as [b|e]; cbn -[mbind]; [|done]. unfold mbind, rpc_bind, ask.
  destruct (library h log (SendMessage (as_lib to) (assemble b))) as [result|e] eqn:E; cbn; [|done].
  unfold echoed, mbind, rpc_bind. rewrite echo_run. intros [= <- <-]. apply Hl in E as (Hm & Hid & Hto).
  unfold echo_of, str_is_empty. rewrite bool_decide_eq_false_2 by done.
  eexists h, _, _, (jid_display (sent_to result)). rewrite <-app_assoc. split; [done|].
  assert (R : relay_jid (jid_display (sent_to result)) = Some (pb.MkJid (jid_display (sent_to result)))).
  { unfold relay_jid, str_is_empty. by rewrite bool_decide_eq_false_2. }
  unfold map_sent. rewrite R. cbn. split_and!; [done|done|]. rewrite Hm, (Hs b) by done. unfold content_shown. cbn. by destruct (shown _).
Qed.

Lemma text_content req to text b chat :
  pb.stx_to req = Some to -> printed to -> Forall printed_mention (pb.stx_mentions req) -> printed_quote (pb.stx_quote req) -> chat <> "" ->
  text_try_from req = Ok text -> build_text_message text = Ok b ->
  project_content no_content (assemble b) chat =
  MkContent (pb.stx_text req) (quote_asked to chat (pb.stx_quote req)) (pb.stx_mentions req) None "" "" None false false None None.
Proof using build_laws laws.
  intros Eto Hto Hms Hq Hchat (ctx & Hctx & H)%result_bind_ok Hb. injection H as <-. rewrite Eto in Hctx.
  rewrite built_content. cbv zeta. revert Hb. unfold build_text_message. cbn [ot_context ot_link_preview ot_text].
  destruct (is_default_context ctx && _) eqn:D.
  - intros [= <-]. apply andb_prop in D as [D _]. destruct ctx as [[] [] []]; try done.
    pose proof (context_asked _ _ _ _ _ _ _ _ Hto Hms Hq Hchat Hctx eq_refl) as [-> ->].
    unfold conversation_message. by rewrite plain_context.
  - destruct (extended_text _) as [e|] eqn:E; [|done]. cbn. intros [= <-]. rewrite extended_context.
    apply result_bind_ok in E as (o & Ho & E). pose proof (context_asked _ _ _ _ _ _ _ _ Hto Hms Hq Hchat Hctx Ho) as Hc.
    assert (et_text e = Some (pb.stx_text req) /\ et_context e = o) as [-> ->].
    { cbn in E. destruct (pb.stx_link_preview req) as [p|]; cbn in E; [|by injection E as <-].
      unfold copy_link_preview in E. by apply result_bind_ok in E as (t & _ & [= <-]). }
    destruct (out_info <$> o); cbn; destruct Hc as [-> ->]; done.
Qed.

(** A reaction's echo, but for the context the library may add to it. *)
Lemma reaction_content key target emoji chat to :
  pb.key_chat key = Some to -> printed to -> printed_opt (pb.key_participant key) -> target_try_from key = Ok target ->
  project_content no_content (assemble (build_reaction target emoji)) chat =
  let ci := context_info (assemble (build_reaction target emoji)) in
  MkContent "" (ci ← ci; quote_of ci chat) (from_option mentions_of [] ci) None "" emoji (Some key) false false None None.
Proof using build_laws laws.
  intros Hc Hto Hp. unfold target_try_from. rewrite Hc.
  intros (o & Ho & (p & Ep & (id & Hid & H)%result_bind_ok)%result_bind_ok)%result_bind_ok. injection H as <-.
  rewrite built_content. cbv zeta. cbn. unfold wa_key_to_proto. cbn. unfold message_id_new in Hid.
  destruct (str_is_empty (pb.key_id key)); [done|]. injection Hid as <-. cbn.
  rewrite (shown_optional (pb.key_participant key) p) by done.
  assert (R : relay_jid (jid_display (as_lib o)) = Some to).
  { pose proof (required_printed to o Hto Ho) as Ht. rewrite <-Ht in Hto |- *. exact (relayed_printed _ Hto). }
  rewrite R. destruct key. cbn in *. by subst.
Qed.

(** C33.  What a send puts on the bus reads as what was asked for.  When the message the library
    returns from a send is the one it was given, the echo of a text shows the request's text, its
    mentions in order, and its quote: the quoted id, the participant of the quote or else of its
    key, and the quoted chat, which is the one named unless it is the destination, or none, when
    it is the chat the echo is shown in.  The echo of a reaction shows the emoji and the very key it
    reacts to.  Neither shows an edit, a deletion or media, and the answer's key is the echo's. *)
Theorem echo_reads_back :
  returns_what_it_sends ->
  (forall req to log a log',
     pb.stx_to req = Some to -> printed to -> Forall printed_mention (pb.stx_mentions req) -> printed_quote (pb.stx_quote req) ->
     send_text metadata_value uuid_text number registry client pn now_millis library req log = (Ok a, log') ->
     echoes (fun chat => MkContent (pb.stx_text req) (quote_asked to chat (pb.stx_quote req)) (pb.stx_mentions req)
               None "" "" None false false None None) log log' a) /\
  (forall req key to log a log',
     rr_target req = Some key -> pb.key_chat key = Some to -> printed to -> printed_opt (pb.key_participant key) ->
     send_reaction metadata_value uuid_text number registry client pn now_millis library req log = (Ok a, log') ->
     exists mentions quote, echoes (fun chat => MkContent "" (quote chat) mentions None "" (rr_emoji req) (Some key) false false None None) log log' a).
Proof using build_laws laws.
  intros Hl. split.
  - intros req to log a log' Eto Hto Hms Hq. unfold send_text.
    intros H. apply converted_ok in H as ([h c] & _ & H). apply converted_ok in H as (jid & _ & H).
    apply converted_ok in H as (text & Ht & H). refine (sent_and_echoed h c log jid _ a log' _ Hl _ H).
    intros b chat Hb Hchat. by apply (text_content req to text b).
  - intros req key to log a log' Ek Hc Hto Hp. unfold send_reaction.
    intros H. apply converted_ok in H as ([h c] & _ & H). apply converted_ok in H as (target & Ht & H). rewrite Ek in Ht. cbn in Ht.
    eexists _, _. refine (sent_and_echoed h c log _ _ a log' _ Hl _ H).
    intros b chat [= <-] Hchat. by apply (reaction_content key target (rr_emoji req) chat to).
Qed.

End echo.

(** ** A send that is read back *)

(** A library whose messages are what was assigned. *)
Inductive kept : Type := Kept (b : Built kept).
Definition assigned (m : kept) : Built kept := let 'Kept b := m in b.
#[local] Instance kept_messages : WaMessages := {
  Message := kept; encode_message _ := [];
  conversation m := match assigned m with Conversation t => Some t | _ => None end;
  extended_text_message m := match assigned m with ExtendedTextMessage e => Some (et_text e) | _ => None end;
  context_info m := match assigned m with ExtendedTextMessage e => out_info <$> et_context e | _ => None end;
  reaction_message m := match assigned m with ReactionMessage key text => Some (wa.MkReaction (Some text) (Some key)) | _ => None end;
  protocol_message _ := None; edited_message _ := None; secret_encrypted_message _ := None;
  image_message m := match assigned m with ImageMessage s => Some (sub_file s) | _ => None end;
  video_message m := match assigned m with VideoMessage s => Some (sub_file s) | _ => None end;
  audio_message m := match assigned m with AudioMessage s => Some (sub_file s) | _ => None end;
  document_message m := match assigned m with DocumentMessage s => Some (sub_file s) | _ => None end;
  sticker_message m := match assigned m with StickerMessage s => Some (sub_file s) | _ => None end;
  sticker_pack_message _ := None }.
#[local] Instance kept_build : WaBuild kept_messages := {
  assemble := Kept; decode _ := Err "not a message"; preview_type_from_i32 := Some; font_type_from_i32 := Some }.
#[local] Instance kept_laws : WaBuildLaws kept_build.
Proof. split; intros []; done. Qed.
#[local] Instance text_ids : LibIds := {
  LJid := string; from_str s := if str_is_empty s then Err "empty" else Ok s; jid_display s := s; Server := bool; server _ := true;
  ServerGroup := true; ServerNewsletter := false; LUuid := string; parse_str := Some; uuid_display s := s }.
#[local] Instance text_ids_laws : LibIdsLaws text_ids.
Proof. split; cbn; [|intros s j|done]; intros; unfold str_is_empty in *; repeat case_bool_decide; simplify_eq; done. Qed.
#[local] Instance text_types : ClientTypes text_ids := {
  MessageRef := string; message_ref_new _ id _ _ := Ok id; lib_message_id_new := Ok; status_broadcast := "status@broadcast";
  is_newsletter _ := false; PollOptionResult := string; option_name s := s; option_voters _ := [] }.
#[local] Instance no_crypto : MediaCrypto := {
  Encryptor := unit; EncryptedMediaInfo := unit; KeyDraw := unit; new_with_sidecar _ _ _ := Ok tt; update_to_writer e b := (e, b);
  finalize_to_writer _ := ([], tt) }.

(** It sends, to the very address when there is one, and does nothing else. *)
Definition sending (h : AccountHandle) (log : list Effect) (call : Call) : result AnyError (Reply call) :=
  match call as call return result AnyError (Reply call) with
  | SendMessage to message =>
      if str_is_empty (jid_display to) then Err (MkAnyError [OtherCause] "no address") else Ok (MkSendResult _ _ "3EB0" to message None)
  | _ => Err (MkAnyError [OtherCause] "not here")
  end.

Definition one_account : Registry := MkRegistry {[7 := MkAccountHandle 7 (Some "ann") 1 None]} {["ann" := 7]}.
Definition ann : option pb.AccountRef := Some (pb.MkAccountRef (Some (pb.ExternalRef "ann"))).
Definition quoting : pb.SendTextRequest :=
  pb.MkSendTextRequest ann (Some (pb.MkJid "5@s")) "hello" [pb.MkMention (Some (pb.MkJid "6@s"))]
    (Some (pb.MkQuoteContext (Some (pb.MkMessageKey (Some (pb.MkJid "9@g.us")) "A1" true (Some (pb.MkJid "8@s")))) None)) None 0 [].

Lemma printed_text s : s <> "" -> printed (pb.MkJid s).
Proof. intros Hs. exists s. cbn. unfold str_is_empty. by rewrite bool_decide_eq_false_2. Qed.

Definition own_number : LJid := "1@s".

Definition send_quoting : result Status PbSendResult * list Effect :=
  send_text (fun _ => true) (fun _ => "") (fun _ => 7) one_account (fun _ => Some tt) (fun _ => Some own_number) (fun _ => 99) sending quoting [].

(** The quoted chat is not the destination, and is shown. *)
Lemma echo_reads_back_witness :
  exists a log', send_quoting = (Ok a, log') /\
    echoes (fun chat => MkContent "hello"
      (Some (pb.MkQuoteContext (Some (pb.MkMessageKey (Some (pb.MkJid "9@g.us")) "A1" false (Some (pb.MkJid "8@s")))) (Some (pb.MkJid "8@s"))))
      [pb.MkMention (Some (pb.MkJid "6@s"))] None "" "" None false false None None) [] log' a.
Proof.
  destruct (send_quoting) as [[a|e] log'] eqn:E; [|by vm_compute in E].
  exists a, log'. split; [done|].
  apply (echo_reads_back (fun _ => true) (fun _ => "") (fun _ => 7) one_account (fun _ => Some tt) (fun _ => Some own_number) (fun _ => 99) sending)
    with (req := quoting) (to := pb.MkJid "5@s").
  - intros h log to m result H. cbn in H. unfold str_is_empty in H. case_bool_decide; [done|]. by injection H as <-.
  - reflexivity.
  - by apply printed_text.
  - repeat constructor. eexists. split; [reflexivity|]. by apply printed_text.
  - split; [done|]. split; by apply printed_text.
  - exact E.
Defined.

Definition uploaded : MediaUpload := MkMediaUpload "https://u" "/v/1" [Byte.x01] [Byte.x02] [Byte.x03] 9 5 None.
Definition video_header (ptv : bool) : pb.SendMediaHeader :=
  pb.MkSendMediaHeader ann (Some (pb.MkJid "5@s")) "video/mp4" "look" [] None (number MediaType.Video) "" false 0 [] 0 ptv [].

Lemma media_reads_back_witness :
  exists media b, media_try_from (video_header false) = Ok media /\ build_media_message media uploaded = Ok b /\
    c_media (project_content no_content (assemble b) "5@s") =
      Some (pb.MkMediaDescriptor "/v/1" [Byte.x01] [Byte.x03] [Byte.x02] 9 "video/mp4" (number MediaType.Video)).
Proof.
  destruct (media_try_from (video_header false)) as [media|] eqn:Em; [|by vm_compute in Em].
  destruct (build_media_message media uploaded) as [b|] eqn:Eb; [|vm_compute in Em; injection Em as <-; by vm_compute in Eb].
  exists media, b. split_and!; [done|done|].
  pose proof (media_reads_back (video_header false) media uploaded b "5@s" Em Eb) as H. cbn [pb.smh_ptv video_header] in H.
  rewrite andb_false_r in H. exact (proj1 H).
Defined.
