(* ===== verification/Groups.v ===== *)
(** * The services that only ask: the library they ask, and the group service

    services/group_service.rs and domain/groups.rs; the library's calls are those of contact_service.rs,
    newsletter_service.rs and call_service.rs as well, whose side is Contacts.v.  Every call of these
    services resolves the account, converts its request, asks the library once (or once per item)
    and answers with a projection of the reply.  None of them touches the bus.  The library is a
    function of what it was asked so far. *)

From S2P Require Import Prelude StoreError Errors Wire RequestEnums Jids Messaging RelayedEnums Engine Registry Spool MediaStream MessageProjection Relays GroupEvents.

(** ** The library *)

(** An error of the library: what [client_err] sees of it, and the refusals the code names. *)
Inductive Refusal : Type :=
| GroupInvalidRequest (message : string)           (* GroupError::InvalidRequest *)
| NewsletterNotFound (jid : string)                (* NewsletterError::NotFound *)
| BlockingInvalidJid (reason : string).            (* BlockingError::InvalidJid *)
Record LibError : Type := MkLibError { named_refusal : option Refusal; any : AnyError }.

Inductive MembershipApprovalMode : Type := On | Off.
Inductive PictureSpec {ids : LibIds} : Type := RemoveGroupPicture (group : LJid) | SetGroupPicture (group : LJid) (image : bytes).
Inductive JoinGroupResult {ids : LibIds} : Type := JoinedGroup (jid : LJid) | JoinPending (jid : LJid).

Record AddRequestInfo : Type := MkAddRequest { ar_code : string; ar_expiration : Z }.
Record ParticipantChangeResponse {ids : LibIds} : Type := MkChange {
  ch_jid : LJid; ch_status : option string; ch_error : option string; ch_phone_number : option LJid; ch_username : option string;
  ch_add_request : option AddRequestInfo }.

(** What the other services read of the library. *)
Record OnWhatsApp {ids : LibIds} : Type := MkOnWhatsApp { ow_jid : LJid; is_registered : bool }.
(** [ProfilePictureLookup::into_found]: the url of a picture freshly found. *)
Record ProfilePictureLookup : Type := MkLookup { found_url : option string }.
Record UserInfo : Type := MkUserInfo { user_status : option string }.
Inductive PushNameOutcome : Type := NameSet | SyncPending (source : string).
Record BlocklistEntry {ids : LibIds} : Type := MkBlocked { bl_jid : LJid; bl_timestamp : option Z }.
Record LidPnEntry : Type := MkLidPnEntry { le_lid : string; le_phone_number : string; le_created_at : Z; le_source : string }.

Record BusinessCategory : Type := MkCategory { category_id : string; category_name : string }.
Record BusinessHoursConfig : Type := MkHoursConfig {
  hc_day : wa.DayOfWeek; hc_mode : wa.BusinessHourMode; hc_open_time : option Z; hc_close_time : option Z }.
Record BusinessHours : Type := MkHours { bh_timezone : option string; bh_config : option (list BusinessHoursConfig) }.
Record BusinessProfile {ids : LibIds} : Type := MkProfile {
  bp_wid : option LJid; bp_description : string; bp_email : option string; bp_website : list string;
  bp_categories : list BusinessCategory; bp_address : option string; bp_hours : BusinessHours }.

Inductive NewsletterState : Type := NlActive | NlSuspended | NlGeosuspended | NlStateOther (raw : string) | NlStateUnnamed (variant : Z).
Inductive NewsletterVerification : Type := NlVerified | NlUnverified | NlVerificationOther (raw : string) | NlVerificationUnnamed (variant : Z).
Inductive NewsletterRole : Type := NlOwner | NlAdmin | NlSubscriber | NlGuest | NlRoleUnnamed (variant : Z).
Record NewsletterMetadata {ids : LibIds} : Type := MkNewsletter {
  nl_jid : LJid; nl_name : string; nl_description : option string; nl_subscriber_count : Z; nl_picture_url : option string;
  nl_preview_url : option string; nl_verification : NewsletterVerification; nl_state : NewsletterState; nl_role : option NewsletterRole;
  nl_creation_time : option Z }.
Record NewsletterMessage {messages : WaMessages} : Type := MkNewsletterMessage {
  nm_message : option Message; nm_message_id : option string; nm_server_id : Z; nm_timestamp : Z; nm_is_sender : bool;
  nm_type_raw : option string; nm_reactions : list (string * Z); nm_votes : list (bytes * Z); nm_forwards_count : option Z;
  nm_poll_type_raw : option string; nm_edit : wa.EditAttribute; nm_original_timestamp : option Z; nm_last_edit_timestamp_ms : option Z }.
Record NewsletterMyAddOns : Type := MkAddOns {
  ao_server_id : Z; ao_reaction : option (string * Z); ao_poll_vote : option (Z * list bytes) }.

Section library.
Context `{messages : WaMessages} `{ids : LibIds}.

Inductive Call : Type :=
| CreateGroup (subject : string) (participants : list LJid)
| AddParticipants (group : LJid) (participants : list LJid) | RemoveParticipants (group : LJid) (participants : list LJid)
| PromoteParticipants (group : LJid) (participants : list LJid) | DemoteParticipants (group : LJid) (participants : list LJid)
| SetSubject (group : LJid) (subject : string)
| SetDescription (group : LJid) (description : option string)          (* PreviousDescription::Resolve *)
| FetchMetadata (group : LJid) | ResolveParticipantAddresses (metadata : GroupMetadata)
| GetInviteLink (group : LJid) (reset : bool) | JoinWithInviteCode (code : string) | Leave (group : LJid)
| GroupParticipating
| SetAnnounce (group : LJid) (announce : bool) | SetLocked (group : LJid) (locked : bool)
| SetMembershipApproval (group : LJid) (mode : MembershipApprovalMode)
| SetMemberAddMode (group : LJid) (mode : MemberAddMode) | SetMemberLinkMode (group : LJid) (mode : MemberLinkMode)
| SetMemberShareHistoryMode (group : LJid) (mode : MemberShareHistoryMode)
| SetEphemeral (group : LJid) (expiration_seconds : Z) | GetInviteInfo (code : string) | SetGroupPhoto (spec : PictureSpec)
| GetMembershipRequests (group : LJid)
| ApproveMembershipRequests (group : LJid) (participants : list LJid) | RejectMembershipRequests (group : LJid) (participants : list LJid)
| IsOnWhatsApp (jids : list LJid) | LookupPicture (contact : LJid) | SetProfilePicture (image : bytes) | RemoveProfilePicture
| SetPushName (name : string) | GetUserInfo (jid : LJid) | SetStatusText (about : string)
| GetBusinessProfile (jid : LJid) | SubscribePresence (jid : LJid) | Block (jid : LJid) | Unblock (jid : LJid) | GetBlocklist
| GetLidPnEntry (jid : LJid)
| ListSubscribed | GetNewsletter (jid : LJid) | JoinNewsletter (jid : LJid) | LeaveNewsletter (jid : LJid)
| SetAdminMute (jid : LJid) (muted : bool) | CreateNewsletter (name : string) (description : option string)
| GetNewsletterMessages (jid : LJid) (count : Z) (before : option Z)
| SendPollVoteRaw (jid : LJid) (server_id : Z) (option_hashes : list bytes) | GetMyAddons (jid : LJid) (limit : Z)
| SubscribeLiveUpdates (jid : LJid)
| RejectCall (call_id : string) (peer call_creator : LJid).

Definition Reply (call : Call) : Type :=
  match call with
  | CreateGroup _ _ | FetchMetadata _ | GetInviteInfo _ => GroupMetadata
  | AddParticipants _ _ | RemoveParticipants _ _ | PromoteParticipants _ _ | DemoteParticipants _ _
  | ApproveMembershipRequests _ _ | RejectMembershipRequests _ _ => list ParticipantChangeResponse
  | GetInviteLink _ _ | SendPollVoteRaw _ _ _ => string
  | JoinWithInviteCode _ => JoinGroupResult
  | GroupParticipating => list GroupMetadata
  | GetMembershipRequests _ => list MembershipRequest
  | IsOnWhatsApp _ => list OnWhatsApp
  | LookupPicture _ => ProfilePictureLookup
  | SetPushName _ => PushNameOutcome
  | GetUserInfo _ => option UserInfo                    (* what the answer holds under the jid *)
  | GetBusinessProfile _ => option BusinessProfile
  | GetBlocklist => list BlocklistEntry
  | GetLidPnEntry _ => option LidPnEntry
  | ListSubscribed => list NewsletterMetadata
  | GetNewsletter _ | CreateNewsletter _ _ => NewsletterMetadata
  | GetNewsletterMessages _ _ _ => list NewsletterMessage
  | GetMyAddons _ _ => list NewsletterMyAddOns
  | SubscribeLiveUpdates _ => Z
  | _ => unit
  end.

(** What was asked, of which account, in order. *)
Definition Asked : Type := list (AccountHandle * Call).
End library.

Section service.
Context (metadata_value : string -> bool) `{messages : WaMessages} `{ids : LibIds}.
Context `{mc : MediaCrypto} (uuid_text : Uuid -> string) (number : LUuid -> Uuid).
Context {LibClient : Type} (registry : Registry) (client : AccountHandle -> option LibClient).

(** The library, on an account, after what was asked; and its backfill of a roster's addresses,
    which does not fail. *)
Context (library : AccountHandle -> Asked -> forall call : Call, result LibError (Reply call)).
Context (resolved : AccountHandle -> Asked -> GroupMetadata -> GroupMetadata).

#[local] Abbreviation Rpc := (Rpc (AccountHandle * Call)).
#[local] Abbreviation converted := (converted metadata_value).

(** A call of the library, its error by [by_error]. *)
Definition ask_by (by_error : LibError -> WamuxError) (handle : AccountHandle) (call : Call) : Rpc (Reply call) := fun log =>
  (map_err (status_of metadata_value) (map_err by_error (library handle log call)), log ++ [(handle, call)]).

Definition usual (err : LibError) : WamuxError := client_err (any err).
Definition ask : forall (handle : AccountHandle) (call : Call), Rpc (Reply call) := ask_by usual.

Definition client_of (account : option pb.AccountRef) : Rpc AccountHandle :=
  '(handle, _) ← converted (MediaStream.account_of uuid_text number registry client account); mret handle.

(** ** domain/groups.rs *)

Definition lib_jids (participants : list Jid) : list LJid := as_lib <$> participants.
Definition lib_group (group : GroupJid) : LJid := as_lib (group_as_jid group).

Definition local_refusal (as_error : string -> WamuxError) (err : LibError) : WamuxError :=
  match named_refusal err with
  | Some (GroupInvalidRequest message) => as_error message
  | _ => client_err (any err)
  end.

Inductive JoinOutcome : Type := JoinUnspecified | Joined | PendingApproval.
Record GroupJidResponse : Type := MkGroupJidResponse {
  gj_group : option pb.Jid; gj_metadata : option PbGroupMetadata; gj_join_outcome : JoinOutcome }.
Record ParticipantChange : Type := MkParticipantChange {
  pc_jid : option pb.Jid; pc_status : string; pc_error : string; pc_phone_number : option pb.Jid; pc_username : string;
  pc_add_request : option AddRequestInfo }.
Record GroupSummary : Type := MkSummary {
  gs_jid : option pb.Jid; gs_subject : string; gs_participants : Z; gs_metadata : option PbGroupMetadata }.

Definition create_group_on (handle : AccountHandle) (subject : string) (participants : list Jid) : Rpc GroupJidResponse :=
  metadata ← ask_by (local_refusal FailedPrecondition) handle (CreateGroup subject (lib_jids participants));
  mret (MkGroupJidResponse (relay_lib_jid (gm_id metadata)) (Some (group_metadata_of metadata)) JoinUnspecified).

Definition participant_change (c : ParticipantChangeResponse) : ParticipantChange :=
  MkParticipantChange (relay_lib_jid (ch_jid c)) (default "" (ch_status c)) (default "" (ch_error c))
    (relay_optional_lib_jid (ch_phone_number c)) (default "" (ch_username c)) (ch_add_request c).
Definition participant_changes (changes : list ParticipantChangeResponse) : list ParticipantChange := participant_change <$> changes.

Definition add_participants_on (handle : AccountHandle) (group : GroupJid) (participants : list Jid) : Rpc (list ParticipantChange) :=
  changes ← ask handle (AddParticipants (lib_group group) (lib_jids participants)); mret (participant_changes changes).
Definition remove_participants_on (handle : AccountHandle) (group : GroupJid) (participants : list Jid) : Rpc (list ParticipantChange) :=
  changes ← ask handle (RemoveParticipants (lib_group group) (lib_jids participants)); mret (participant_changes changes).
Definition promote (handle : AccountHandle) (group : GroupJid) (participants : list Jid) : Rpc (list ParticipantChange) :=
  changes ← ask handle (PromoteParticipants (lib_group group) (lib_jids participants)); mret (participant_changes changes).
Definition demote (handle : AccountHandle) (group : GroupJid) (participants : list Jid) : Rpc (list ParticipantChange) :=
  changes ← ask handle (DemoteParticipants (lib_group group) (lib_jids participants)); mret (participant_changes changes).
Definition approve_membership (handle : AccountHandle) (group : GroupJid) (participants : list Jid) : Rpc (list ParticipantChange) :=
  changes ← ask handle (ApproveMembershipRequests (lib_group group) (lib_jids participants)); mret (participant_changes changes).
Definition reject_membership (handle : AccountHandle) (group : GroupJid) (participants : list Jid) : Rpc (list ParticipantChange) :=
  changes ← ask handle (RejectMembershipRequests (lib_group group) (lib_jids participants)); mret (participant_changes changes).

(** [GroupSubject::new] and [GroupDescription::new]: the text, or the refusal's [Display]. *)
Context (group_subject_new group_description_new : string -> result string string).

Definition set_subject (handle : AccountHandle) (group : GroupJid) (subject : string) : Rpc unit :=
  subject ← converted (map_err InvalidArgument (group_subject_new subject));
  ask handle (SetSubject (lib_group group) subject).
Definition set_description (handle : AccountHandle) (group : GroupJid) (description : string) : Rpc unit :=
  description ← converted (map_err InvalidArgument (group_description_new description));
  ask handle (SetDescription (lib_group group) (Some description)).

(** [resolve_participant_addresses(&mut metadata)]. *)
Definition backfill (handle : AccountHandle) (metadata : GroupMetadata) : Rpc GroupMetadata := fun log =>
  (Ok (resolved handle log metadata), log ++ [(handle, ResolveParticipantAddresses metadata)]).

Definition get_metadata (handle : AccountHandle) (group : GroupJid) : Rpc PbGroupMetadata :=
  metadata ← ask handle (FetchMetadata (lib_group group));
  metadata ← backfill handle metadata;
  mret (group_metadata_of metadata).

Definition invite_link (handle : AccountHandle) (group : GroupJid) (reset : bool) : Rpc string := ask handle (GetInviteLink (lib_group group) reset).

Definition join_with_invite_on (handle : AccountHandle) (code : string) : Rpc GroupJidResponse :=
  result ← ask_by (local_refusal InvalidArgument) handle (JoinWithInviteCode code);
  let '(group_jid, outcome) := match result with JoinedGroup jid => (jid, Joined) | JoinPending jid => (jid, PendingApproval) end in
  mret (MkGroupJidResponse (relay_jid (jid_display group_jid)) None outcome).

Definition leave (handle : AccountHandle) (group : GroupJid) : Rpc unit := ask handle (Leave (lib_group group)).

(** One summary per group. *)
Definition group_summary (m : GroupMetadata) : GroupSummary :=
  MkSummary (relay_lib_jid (gm_id m)) (default "" (gm_subject m)) (as_u32 (Z.of_nat (length (gm_participants m)))) (Some (group_metadata_of m)).

(** [str::cmp]: by bytes. *)
Definition subject_le (a b : GroupSummary) : bool := bytes_le (str_bytes (gs_subject a)) (str_bytes (gs_subject b)).

(** [sort_by], which is stable: an element goes before the first of those after it that is not less. *)
Fixpoint insert_by (x : GroupSummary) (l : list GroupSummary) : list GroupSummary :=
  match l with
  | [] => [x]
  | y :: l' => if subject_le x y then x :: l else y :: insert_by x l'
  end.
Definition sort_by_subject (l : list GroupSummary) : list GroupSummary := foldr insert_by [] l.

Definition group_summaries (groups : list GroupMetadata) : list GroupSummary := sort_by_subject (group_summary <$> groups).

Fixpoint backfill_all (handle : AccountHandle) (metadatas : list GroupMetadata) : Rpc (list GroupMetadata) :=
  match metadatas with
  | [] => mret []
  | m :: ms => m ← backfill handle m; ms ← backfill_all handle ms; mret (m :: ms)
  end.

(** [run_isolated] gives the library's result, its error by [client_err]. *)
Definition list_participating_on (handle : AccountHandle) : Rpc (list GroupSummary) :=
  metadatas ← ask handle GroupParticipating;
  metadatas ← backfill_all handle metadatas;
  mret (group_summaries metadatas).

Definition set_announce (handle : AccountHandle) (group : GroupJid) (announce : bool) : Rpc unit := ask handle (SetAnnounce (lib_group group) announce).
Definition set_locked (handle : AccountHandle) (group : GroupJid) (locked : bool) : Rpc unit := ask handle (SetLocked (lib_group group) locked).
Definition set_membership_approval (handle : AccountHandle) (group : GroupJid) (mode : MembershipApprovalMode) : Rpc unit :=
  ask handle (SetMembershipApproval (lib_group group) mode).
Definition set_member_add_mode (handle : AccountHandle) (group : GroupJid) (mode : MemberAddMode) : Rpc unit :=
  ask handle (SetMemberAddMode (lib_group group) mode).
Definition set_member_link_mode (handle : AccountHandle) (group : GroupJid) (mode : MemberLinkMode) : Rpc unit :=
  ask handle (SetMemberLinkMode (lib_group group) mode).
Definition set_member_share_history_mode (handle : AccountHandle) (group : GroupJid) (mode : MemberShareHistoryMode) : Rpc unit :=
  ask handle (SetMemberShareHistoryMode (lib_group group) mode).
Definition set_ephemeral (handle : AccountHandle) (group : GroupJid) (expiration_seconds : Z) : Rpc unit :=
  ask handle (SetEphemeral (lib_group group) expiration_seconds).

Definition preview_invite_on (handle : AccountHandle) (code : string) : Rpc PbGroupMetadata :=
  metadata ← ask_by (local_refusal InvalidArgument) handle (GetInviteInfo code);
  mret (group_metadata_of metadata).

(** The library panics on an empty picture. *)
Definition set_photo (handle : AccountHandle) (group : GroupJid) (image : bytes) : Rpc unit :=
  let spec := if bool_decide (image = []) then RemoveGroupPicture (lib_group group) else SetGroupPicture (lib_group group) image in
  ask handle (SetGroupPhoto spec).

Definition membership_requests (handle : AccountHandle) (group : GroupJid) : Rpc (list PbMembershipRequest) :=
  requests ← ask handle (GetMembershipRequests (lib_group group));
  mret (membership_request_of <$> requests).

(** ** services/group_service.rs *)

Record CreateGroupRequest : Type := MkCreateGroup { cg_account : option pb.AccountRef; cg_subject : string; cg_participants : list pb.Jid }.
Record ParticipantsRequest : Type := MkParticipants {
  pr_account : option pb.AccountRef; pr_group : option pb.Jid; pr_participants : list pb.Jid }.
Record GroupTextRequest : Type := MkGroupText { gt_account : option pb.AccountRef; gt_group : option pb.Jid; gt_text : string }.
Record GroupRef : Type := MkGroupRef { gr_account : option pb.AccountRef; gr_group : option pb.Jid }.
(** JoinWithInvite and PreviewInvite. *)
Record InviteRequest : Type := MkInvite { iv_account : option pb.AccountRef; iv_code : string }.
Record GroupToggleRequest : Type := MkToggle { to_account : option pb.AccountRef; to_group : option pb.Jid; to_enabled : bool }.
(** A group and a number: a timer, or the mode of a setting. *)
Record GroupNumberRequest : Type := MkGroupNumber { gn_account : option pb.AccountRef; gn_group : option pb.Jid; gn_number : Z }.
Record SetGroupPhotoRequest : Type := MkGroupPhoto { ph_account : option pb.AccountRef; ph_group : option pb.Jid; ph_image : bytes }.

Definition create_group (req : CreateGroupRequest) : Rpc GroupJidResponse :=
  handle ← client_of (cg_account req);
  participants ← converted (from_required_wire_list (cg_participants req));
  create_group_on handle (cg_subject req) participants.

(** The group before the participants. *)
Definition add_participants (req : ParticipantsRequest) : Rpc (list ParticipantChange) :=
  handle ← client_of (pr_account req);
  group ← converted (group_from_required_wire (pr_group req));
  participants ← converted (from_required_wire_list (pr_participants req));
  add_participants_on handle group participants.
Definition remove_participants (req : ParticipantsRequest) : Rpc (list ParticipantChange) :=
  handle ← client_of (pr_account req);
  group ← converted (group_from_required_wire (pr_group req));
  participants ← converted (from_required_wire_list (pr_participants req));
  remove_participants_on handle group participants.
Definition promote_admins (req : ParticipantsRequest) : Rpc (list ParticipantChange) :=
  handle ← client_of (pr_account req);
  group ← converted (group_from_required_wire (pr_group req));
  participants ← converted (from_required_wire_list (pr_participants req));
  promote handle group participants.
Definition demote_admins (req : ParticipantsRequest) : Rpc (list ParticipantChange) :=
  handle ← client_of (pr_account req);
  group ← converted (group_from_required_wire (pr_group req));
  participants ← converted (from_required_wire_list (pr_participants req));
  demote handle group participants.
Definition approve_membership_requests (req : ParticipantsRequest) : Rpc (list ParticipantChange) :=
  handle ← client_of (pr_account req);
  group ← converted (group_from_required_wire (pr_group req));
  participants ← converted (from_required_wire_list (pr_participants req));
  approve_membership handle group participants.
Definition reject_membership_requests (req : ParticipantsRequest) : Rpc (list ParticipantChange) :=
  handle ← client_of (pr_account req);
  group ← converted (group_from_required_wire (pr_group req));
  participants ← converted (from_required_wire_list (pr_participants req));
  reject_membership handle group participants.

Definition set_group_subject (req : GroupTextRequest) : Rpc unit :=
  handle ← client_of (gt_account req);
  group ← converted (group_from_required_wire (gt_group req));
  set_subject handle group (gt_text req).
Definition set_group_description (req : GroupTextRequest) : Rpc unit :=
  handle ← client_of (gt_account req);
  group ← converted (group_from_required_wire (gt_group req));
  set_description handle group (gt_text req).

Definition get_group_metadata (req : GroupRef) : Rpc PbGroupMetadata :=
  handle ← client_of (gr_account req);
  group ← converted (group_from_required_wire (gr_group req));
  get_metadata handle group.
Definition get_invite_link (req : GroupRef) : Rpc string :=
  handle ← client_of (gr_account req);
  group ← converted (group_from_required_wire (gr_group req));
  invite_link handle group false.
Definition revoke_invite_link (req : GroupRef) : Rpc string :=
  handle ← client_of (gr_account req);
  group ← converted (group_from_required_wire (gr_group req));
  invite_link handle group true.
Definition join_with_invite (req : InviteRequest) : Rpc GroupJidResponse :=
  handle ← client_of (iv_account req);
  join_with_invite_on handle (iv_code req).
Definition list_participating (account : pb.AccountRef) : Rpc (list GroupSummary) :=
  handle ← client_of (Some account);
  list_participating_on handle.
Definition leave_group (req : GroupRef) : Rpc unit :=
  handle ← client_of (gr_account req);
  group ← converted (group_from_required_wire (gr_group req));
  leave handle group.

Definition set_group_announce (req : GroupToggleRequest) : Rpc unit :=
  handle ← client_of (to_account req);
  group ← converted (group_from_required_wire (to_group req));
  set_announce handle group (to_enabled req).
Definition set_group_locked (req : GroupToggleRequest) : Rpc unit :=
  handle ← client_of (to_account req);
  group ← converted (group_from_required_wire (to_group req));
  set_locked handle group (to_enabled req).
Definition set_group_membership_approval (req : GroupToggleRequest) : Rpc unit :=
  handle ← client_of (to_account req);
  group ← converted (group_from_required_wire (to_group req));
  set_membership_approval handle group (if to_enabled req then On else Off).

Definition set_group_ephemeral (req : GroupNumberRequest) : Rpc unit :=
  handle ← client_of (gn_account req);
  group ← converted (group_from_required_wire (gn_group req));
  set_ephemeral handle group (gn_number req).
Definition set_group_member_add_mode (req : GroupNumberRequest) : Rpc unit :=
  handle ← client_of (gn_account req);
  group ← converted (group_from_required_wire (gn_group req));
  mode ← converted (parse_member_add_mode (gn_number req));
  set_member_add_mode handle group mode.
Definition set_group_member_link_mode (req : GroupNumberRequest) : Rpc unit :=
  handle ← client_of (gn_account req);
  group ← converted (group_from_required_wire (gn_group req));
  mode ← converted (parse_member_link_mode (gn_number req));
  set_member_link_mode handle group mode.
Definition set_group_member_share_history_mode (req : GroupNumberRequest) : Rpc unit :=
  handle ← client_of (gn_account req);
  group ← converted (group_from_required_wire (gn_group req));
  mode ← converted (parse_member_share_history_mode (gn_number req));
  set_member_share_history_mode handle group mode.

Definition preview_invite (req : InviteRequest) : Rpc PbGroupMetadata :=
  handle ← client_of (iv_account req);
  preview_invite_on handle (iv_code req).
Definition set_group_photo (req : SetGroupPhotoRequest) : Rpc unit :=
  handle ← client_of (ph_account req);
  group ← converted (group_from_required_wire (ph_group req));
  set_photo handle group (ph_image req).
Definition get_membership_requests (req : GroupRef) : Rpc (list PbMembershipRequest) :=
  handle ← client_of (gr_account req);
  group ← converted (group_from_required_wire (gr_group req));
  membership_requests handle group.
End service.
