(* ===== verification/Contacts.v ===== *)
(** * Contacts, channels, calls and the daemon's health

    services/contact_service.rs, newsletter_service.rs, call_service.rs and admin_service.rs, with
    domain/contacts.rs, blocklist.rs, lid_mapping.rs, business_profile.rs, newsletters.rs,
    newsletters/ and calls.rs, over the library of Groups.v. *)

From S2P Require Import Prelude StoreError Errors Wire RequestEnums Jids Messaging RelayedEnums Engine Registry ProtocolStore BincodeUpgrade Spool MediaStream MessageProjection Relays GroupEvents Groups.

(** ** The contract *)

Record CheckResult : Type := MkCheckResult { cr_query : option pb.Jid; cr_is_on_whatsapp : bool; cr_jid : option pb.Jid }.
Record ProfilePictureResponse : Type := MkPictureResponse { pic_url : string; pic_image : bytes }.
Record PbBlocklistEntry : Type := MkPbBlocked { pbl_jid : option pb.Jid; pbl_timestamp : option Z }.
Record LidPnMapping : Type := MkLidPnMapping { lm_lid : option pb.Jid; lm_pn : option pb.Jid; lm_created_at : Z; lm_learning_source : string }.
Record LidPnResult : Type := MkLidPnResult { lr_query : option pb.Jid; lr_found : bool; lr_mapping : option LidPnMapping }.
Record PbHoursConfig : Type := MkPbHoursConfig {
  phc_day : Wire contract.BusinessDayOfWeek; phc_day_raw : string; phc_mode : Wire contract.BusinessHourMode; phc_mode_raw : string;
  phc_open_time : option Z; phc_close_time : option Z }.
Record PbHours : Type := MkPbHours { ph_timezone : option string; ph_config : list PbHoursConfig }.
Record PbBusinessProfile : Type := MkPbProfile {
  pbp_wid : option pb.Jid; pbp_description : string; pbp_email : option string; pbp_website : list string;
  pbp_categories : list BusinessCategory; pbp_address : option string; pbp_hours : option PbHours }.

Inductive PbNewsletterState : Type := StateActive | StateSuspended | StateGeosuspended.
Inductive PbNewsletterVerification : Type := Verified | Unverified.
Inductive PbNewsletterRole : Type := RoleOwner | RoleAdmin | RoleSubscriber | RoleGuest.
Inductive PbNewsletterMessageType : Type := TypeText | TypeMedia | TypePoll.
Record Newsletter : Type := MkPbNewsletter {
  pn_jid : option pb.Jid; pn_name : string; pn_description : string; pn_subscriber_count : Z; pn_picture_url : string;
  pn_verification : Wire PbNewsletterVerification; pn_verification_raw : string; pn_state : Wire PbNewsletterState; pn_state_raw : string;
  pn_role : Wire PbNewsletterRole; pn_creation_time : Z }.
Record PbNewsletterMessage : Type := MkPbNewsletterMessage {
  pnm_message : ev.InboundMessage; pnm_server_id : Z; pnm_type : Wire PbNewsletterMessageType; pnm_type_raw : string;
  pnm_reactions : list (string * Z); pnm_votes : list (bytes * Z); pnm_forwards_count : Z;
  pnm_poll_type : Wire contract.NewsletterPollType; pnm_poll_type_raw : string;
  pnm_edit : Wire contract.EditAttribute; pnm_edit_raw : string; pnm_original_timestamp : Z; pnm_last_edit_timestamp : Z }.
Record PbMyAddOns : Type := MkPbAddOns { pao_server_id : Z; pao_reaction : option (string * Z); pao_poll_vote : option (Z * list bytes) }.

Record JidsRequest : Type := MkJidsRequest { jq_account : option pb.AccountRef; jq_jids : list pb.Jid }.   (* CheckOnWhatsApp, ResolveLidPn *)
Record JidRequest : Type := MkJidRequest { jr_account : option pb.AccountRef; jr_jid : option pb.Jid }.     (* and SubscribePresence *)
Record TextOf : Type := MkTextOf { tx_account : option pb.AccountRef; tx_text : string }.                   (* SetPushName, SetAbout *)
Record SetProfilePictureRequest : Type := MkSetPicture { sp_account : option pb.AccountRef; sp_image : bytes }.
Record NewsletterMuteRequest : Type := MkNewsletterMute { nmu_account : option pb.AccountRef; nmu_jid : option pb.Jid; nmu_muted : bool }.
Record CreateNewsletterRequest : Type := MkCreateNewsletter {
  cn_account : option pb.AccountRef; cn_name : string; cn_description : option string }.
Record RejectCallRequest : Type := MkRejectCall {
  rj_account : option pb.AccountRef; rj_call_id : string; rj_peer : option pb.Jid; rj_call_creator : option pb.Jid }.

(** The library's namespaces and tokens. *)
Inductive NewsletterMessageType : Type := Text | Media | Poll | NeverProduced.
Class ContactIds (ids : LibIds) : Type := {
  is_pn : LJid -> bool;
  is_lid : LJid -> bool;
  lid_server : string;                                  (* [Server::Lid.as_str()] *)
  pn_server : string;
  poll_type_token : string -> option wa.PollType;       (* [PollType::try_from] *)
  message_type_from : string -> NewsletterMessageType;
}.

Section projections.
Context `{messages : WaMessages} `{ids : LibIds} `{contact_ids : !ContactIds ids}.

(** ** blocklist.rs *)

Definition not_a_user (jid : Jid) : WamuxError :=
  InvalidArgument (jid_display (as_lib jid) +:+
    " is not a user jid: block and unblock take a phone number (@s.whatsapp.net) or a LID (@lid)").
Definition require_user_jid (jid : Jid) : WamuxResult unit :=
  if is_pn (as_lib jid) || is_lid (as_lib jid) then Ok tt else Err (not_a_user jid).

Definition blocking_err (err : LibError) : WamuxError :=
  match named_refusal err with
  | Some (BlockingInvalidJid reason) => FailedPrecondition reason
  | _ => client_err (any err)
  end.

(** [i64::try_from], of a [u64]. *)
Definition i64_try_from (t : Z) : option Z := if t <=? i64_max then Some t else None.
Definition blocklist_entry_of (entry : BlocklistEntry) : PbBlocklistEntry :=
  MkPbBlocked (relay_lib_jid (bl_jid entry)) (bl_timestamp entry ≫= i64_try_from).

(** ** lid_mapping.rs *)

Definition side_jid (user server : string) : option pb.Jid :=
  if str_is_empty user then None else relay_jid (user +:+ "@" +:+ server).
Definition lid_pn_mapping (lid phone : string) (created_at : Z) (source : string) : LidPnMapping :=
  MkLidPnMapping (side_jid lid lid_server) (side_jid phone pn_server) created_at source.
Definition lid_pn_result (query : LidPnQuery) (entry : option LidPnEntry) : LidPnResult :=
  MkLidPnResult (relay_jid (lq_query query)) (bool_decide (is_Some entry))
    ((fun e => lid_pn_mapping (le_lid e) (le_phone_number e) (le_created_at e) (le_source e)) <$> entry).
Definition stored_mapping (entry : LidPnMappingEntry) : LidPnMapping :=
  lid_pn_mapping (lid entry) (phone_number entry) (lid_created_at entry) (learning_source entry).

(** ** business_profile.rs *)

Definition hours_config_of (config : BusinessHoursConfig) : PbHoursConfig :=
  let '(day, day_raw) := day_of_week_of (hc_day config) in
  let '(mode, mode_raw) := business_hour_mode_of (hc_mode config) in
  MkPbHoursConfig day day_raw mode mode_raw (hc_open_time config) (hc_close_time config).
Definition hours_of (hours : BusinessHours) : PbHours := MkPbHours (bh_timezone hours) (hours_config_of <$> default [] (bh_config hours)).
Definition category_of (category : BusinessCategory) : BusinessCategory := MkCategory (category_id category) (category_name category).
Definition business_profile_of (p : BusinessProfile) : PbBusinessProfile :=
  MkPbProfile (relay_optional_lib_jid (bp_wid p)) (bp_description p) (bp_email p) (bp_website p) (category_of <$> bp_categories p)
    (bp_address p) (Some (hours_of (bp_hours p))).

(** ** contacts.rs *)

Definition check_result_of (r : OnWhatsApp) : CheckResult := MkCheckResult (relay_lib_jid (ow_jid r)) (is_registered r) (relay_lib_jid (ow_jid r)).
Definition validate_push_name (name : string) : WamuxResult unit :=
  if str_is_empty name then Err (InvalidArgument "push name cannot be empty") else Ok tt.

(** ** newsletters/channel_enums.rs *)

Definition newsletter_state_of (state : NewsletterState) : Wire PbNewsletterState * string :=
  match state with
  | NlActive => (Known StateActive, "")
  | NlSuspended => (Known StateSuspended, "")
  | NlGeosuspended => (Known StateGeosuspended, "")
  | NlStateOther raw => (Unknown, raw)
  | NlStateUnnamed _ => (Unknown, "")
  end.
Definition newsletter_verification_of (verification : NewsletterVerification) : Wire PbNewsletterVerification * string :=
  match verification with
  | NlVerified => (Known Verified, "")
  | NlUnverified => (Known Unverified, "")
  | NlVerificationOther raw => (Unknown, raw)
  | NlVerificationUnnamed _ => (Unknown, "")
  end.
Definition newsletter_role_of (role : option NewsletterRole) : Wire PbNewsletterRole :=
  match role with
  | None => Unspecified
  | Some NlOwner => Known RoleOwner
  | Some NlAdmin => Known RoleAdmin
  | Some NlSubscriber => Known RoleSubscriber
  | Some NlGuest => Known RoleGuest
  | Some (NlRoleUnnamed _) => Unknown
  end.
Definition newsletter_message_type_of (raw : option string) : Wire PbNewsletterMessageType * string :=
  match raw with
  | None => (Unspecified, "")
  | Some token =>
      match message_type_from token with
      | Text => (Known TypeText, "")
      | Media => (Known TypeMedia, "")
      | Poll => (Known TypePoll, "")
      | NeverProduced => (Unknown, token)
      end
  end.

(** ** newsletters.rs *)

Definition newsletter_err (err : LibError) : WamuxError :=
  match named_refusal err with
  | Some (NewsletterNotFound jid) => NotFound ("newsletter " +:+ jid +:+ " not found")
  | _ => client_err (any err)
  end.

Definition metadata_to_proto (meta : NewsletterMetadata) : Newsletter :=
  let '(verification, verification_raw) := newsletter_verification_of (nl_verification meta) in
  let '(state, state_raw) := newsletter_state_of (nl_state meta) in
  MkPbNewsletter (relay_lib_jid (nl_jid meta)) (nl_name meta) (default "" (nl_description meta)) (nl_subscriber_count meta)
    (default "" (match nl_picture_url meta with Some url => Some url | None => nl_preview_url meta end))
    verification verification_raw state state_raw (newsletter_role_of (nl_role meta))
    (from_option saturating_i64 0 (nl_creation_time meta)).

Definition row_to_inbound (row : NewsletterMessage) (chat : Jid) : ev.InboundMessage :=
  let chat_text := jid_display (as_lib chat) in
  let key := pb.MkMessageKey (relay_jid chat_text) (default "" (nm_message_id row)) (nm_is_sender row) None in
  with_content (Some key) (relay_jid chat_text) None (millis_from_seconds (nm_timestamp row)) "" None None
    (from_option encode_message [] (nm_message row))
    (match nm_message row with Some message => project_content no_content message chat_text | None => no_content end).

Definition row_to_proto (row : NewsletterMessage) (chat : Jid) : PbNewsletterMessage :=
  let '(message_type, type_raw) := newsletter_message_type_of (nm_type_raw row) in
  let '(poll_type, poll_type_raw) := poll_type_of poll_type_token (nm_poll_type_raw row) in
  let '(edit, edit_raw) := edit_attribute_of (nm_edit row) in
  MkPbNewsletterMessage (row_to_inbound row chat) (nm_server_id row) message_type type_raw (nm_reactions row) (nm_votes row)
    (default 0 (nm_forwards_count row)) poll_type poll_type_raw edit edit_raw
    (from_option millis_from_seconds 0 (nm_original_timestamp row)) (from_option saturating_i64 0 (nm_last_edit_timestamp_ms row)).

(** ** newsletters/poll_votes.rs *)

Definition my_addons_to_proto (addons : NewsletterMyAddOns) : PbMyAddOns :=
  MkPbAddOns (ao_server_id addons) ((fun r => (r.1, millis_from_seconds r.2)) <$> ao_reaction addons)
    ((fun v => (millis_from_seconds v.1, v.2)) <$> ao_poll_vote addons).
End projections.

Section service.
Context (metadata_value : string -> bool) `{messages : WaMessages} `{ids : LibIds} `{contact_ids : !ContactIds ids}.
Context `{mc : MediaCrypto} (uuid_text : Uuid -> string) (number : LUuid -> Uuid).
Context {LibClient : Type} (registry : Registry) (client : AccountHandle -> option LibClient).
Context (library : AccountHandle -> Asked -> forall call : Call, result LibError (Reply call)).

#[local] Abbreviation Rpc := (Rpc (AccountHandle * Call)).
#[local] Abbreviation converted := (converted metadata_value).
#[local] Abbreviation ask_by := (ask_by metadata_value library).
#[local] Abbreviation ask := (ask metadata_value library).
#[local] Abbreviation client_of := (client_of metadata_value uuid_text number registry client).

(** ** contact_service.rs *)

Definition check_on_whats_app (req : JidsRequest) : Rpc (list CheckResult) :=
  handle ← client_of (jq_account req);
  jids ← converted (from_required_wire_list (jq_jids req));
  results ← ask handle (IsOnWhatsApp (lib_jids jids));
  mret (check_result_of <$> results).

Definition get_profile_picture (req : JidRequest) : Rpc ProfilePictureResponse :=
  handle ← client_of (jr_account req);
  jid ← converted (from_required_wire (jr_jid req));
  lookup ← ask handle (LookupPicture (as_lib jid));
  mret (MkPictureResponse (default "" (found_url lookup)) []).
Definition set_profile_picture (req : SetProfilePictureRequest) : Rpc unit :=
  handle ← client_of (sp_account req);
  ask handle (SetProfilePicture (sp_image req)).
Definition remove_profile_picture (account : pb.AccountRef) : Rpc unit :=
  handle ← client_of (Some account);
  ask handle RemoveProfilePicture.

(** The device snapshot's name. *)
Context (push_name : AccountHandle -> string).
Definition get_push_name (account : pb.AccountRef) : Rpc string := handle ← client_of (Some account); mret (push_name handle).

(** A pending sync is logged, and the name is set. *)
Definition set_push_name (req : TextOf) : Rpc unit :=
  handle ← client_of (tx_account req);
  _ ← converted (validate_push_name (tx_text req));
  outcome ← ask handle (SetPushName (tx_text req));
  match outcome with NameSet | SyncPending _ => mret tt end.

Definition get_about (req : JidRequest) : Rpc string :=
  handle ← client_of (jr_account req);
  jid ← converted (from_required_wire (jr_jid req));
  info ← ask handle (GetUserInfo (as_lib jid));
  mret (default "" (info ≫= user_status)).
Definition set_about (req : TextOf) : Rpc unit :=
  handle ← client_of (tx_account req);
  ask handle (SetStatusText (tx_text req)).

Definition block_contact (req : JidRequest) : Rpc unit :=
  handle ← client_of (jr_account req);
  jid ← converted (from_required_wire (jr_jid req));
  _ ← converted (require_user_jid jid);
  ask_by blocking_err handle (Block (as_lib jid)).
Definition unblock_contact (req : JidRequest) : Rpc unit :=
  handle ← client_of (jr_account req);
  jid ← converted (from_required_wire (jr_jid req));
  _ ← converted (require_user_jid jid);
  ask_by blocking_err handle (Unblock (as_lib jid)).
Definition get_blocklist (account : pb.AccountRef) : Rpc (list PbBlocklistEntry) :=
  handle ← client_of (Some account);
  entries ← ask_by blocking_err handle GetBlocklist;
  mret (blocklist_entry_of <$> entries).

Definition get_business_profile (req : JidRequest) : Rpc (option PbBusinessProfile) :=
  handle ← client_of (jr_account req);
  jid ← converted (from_required_wire (jr_jid req));
  profile ← ask handle (GetBusinessProfile (as_lib jid));
  mret (business_profile_of <$> profile).
Definition subscribe_presence (req : JidRequest) : Rpc unit :=
  handle ← client_of (jr_account req);
  jid ← converted (from_required_wire (jr_jid req));
  ask handle (SubscribePresence (as_lib jid)).

(** One lookup per query, in order, to the first error. *)
Fixpoint resolve_each (handle : AccountHandle) (queries : list LidPnQuery) : Rpc (list LidPnResult) :=
  match queries with
  | [] => mret []
  | query :: queries =>
      entry ← ask handle (GetLidPnEntry (as_lib (lq_jid query)));
      results ← resolve_each handle queries;
      mret (lid_pn_result query entry :: results)
  end.
Definition resolve_lid_pn (req : JidsRequest) : Rpc (list LidPnResult) :=
  handle ← client_of (jq_account req);
  queries ← converted (mapM lid_pn_query_try_from (jq_jids req));
  resolve_each handle queries.

(** Of a known account, connected or not; the rows are the store's ([ProtocolStore.get_all_lid_mappings]). *)
Context (lid_mappings : AccountHandle -> result StoreError (list LidPnMappingEntry)).
Definition list_lid_mappings (account : pb.AccountRef) : Rpc (list LidPnMapping) :=
  handle ← converted (account ← account_from_proto (Some account); resolve uuid_text number account registry);
  entries ← converted (map_err Store (lid_mappings handle));
  mret (stored_mapping <$> entries).

(** ** newsletter_service.rs *)

Definition list_subscribed_newsletters (account : pb.AccountRef) : Rpc (list Newsletter) :=
  handle ← client_of (Some account);
  found ← ask handle ListSubscribed;
  mret (metadata_to_proto <$> found).
Definition get_newsletter_metadata (req : JidRequest) : Rpc Newsletter :=
  handle ← client_of (jr_account req);
  jid ← converted (newsletter_from_required_wire (jr_jid req));
  found ← ask_by newsletter_err handle (GetNewsletter (as_lib (newsletter_as_jid jid)));
  mret (metadata_to_proto found).
Definition get_newsletter_messages (req : pb.GetNewsletterMessagesRequest) : Rpc (list PbNewsletterMessage) :=
  handle ← client_of (pb.gnm_account req);
  query ← converted (history_query_try_from req);
  rows ← ask handle (GetNewsletterMessages (as_lib (newsletter_as_jid (nh_jid query))) (nh_count query) (nh_before query));
  mret ((fun row => row_to_proto row (newsletter_as_jid (nh_jid query))) <$> rows).
Definition send_newsletter_poll_vote (req : pb.SendNewsletterPollVoteRequest) : Rpc string :=
  handle ← client_of (pb.snv_account req);
  vote ← converted (newsletter_vote_try_from req);
  ask handle (SendPollVoteRaw (as_lib (newsletter_as_jid (nv_jid vote))) (nv_server_id vote) (nv_option_hashes vote)).
Definition get_my_newsletter_add_ons (req : pb.GetMyNewsletterAddOnsRequest) : Rpc (list PbMyAddOns) :=
  handle ← client_of (pb.gma_account req);
  query ← converted (add_ons_query_try_from req);
  addons ← ask handle (GetMyAddons (as_lib (newsletter_as_jid (na_jid query))) (na_limit query));
  mret (my_addons_to_proto <$> addons).
Definition subscribe_newsletter_live_updates (req : JidRequest) : Rpc Z :=
  handle ← client_of (jr_account req);
  jid ← converted (newsletter_from_required_wire (jr_jid req));
  ask handle (SubscribeLiveUpdates (as_lib (newsletter_as_jid jid))).
(** The join's answer is dropped. *)
Definition follow_newsletter (req : JidRequest) : Rpc unit :=
  handle ← client_of (jr_account req);
  jid ← converted (newsletter_from_required_wire (jr_jid req));
  ask_by newsletter_err handle (JoinNewsletter (as_lib (newsletter_as_jid jid))).
Definition unfollow_newsletter (req : JidRequest) : Rpc unit :=
  handle ← client_of (jr_account req);
  jid ← converted (newsletter_from_required_wire (jr_jid req));
  ask_by newsletter_err handle (LeaveNewsletter (as_lib (newsletter_as_jid jid))).
Definition mute_newsletter (req : NewsletterMuteRequest) : Rpc unit :=
  handle ← client_of (nmu_account req);
  jid ← converted (newsletter_from_required_wire (nmu_jid req));
  ask_by newsletter_err handle (SetAdminMute (as_lib (newsletter_as_jid jid)) (nmu_muted req)).
Definition create_newsletter (req : CreateNewsletterRequest) : Rpc Newsletter :=
  handle ← client_of (cn_account req);
  _ ← converted (if str_is_empty (cn_name req) then Err (InvalidArgument "missing name") else Ok tt);
  created ← ask_by newsletter_err handle (CreateNewsletter (cn_name req) (cn_description req));
  mret (metadata_to_proto created).

(** ** call_service.rs *)

Definition reject_call (req : RejectCallRequest) : Rpc unit :=
  handle ← client_of (rj_account req);
  peer ← converted (from_required_wire (rj_peer req));
  call_creator ← converted (from_required_wire (rj_call_creator req));
  _ ← converted (if str_is_empty (rj_call_id req) then Err (InvalidArgument "missing call_id") else Ok tt);
  ask handle (RejectCall (rj_call_id req) (as_lib peer) (as_lib call_creator)).
End service.

(** ** admin_service.rs *)

Inductive BlobFormat : Type := FormatUnspecified | FormatBincode | FormatProtobuf.
Record HealthResponse : Type := MkHealth { serving : bool; ready : bool; version : string; blob_format : BlobFormat }.

Definition reported_blob_format {E} (marker : result E StoreBlobFormat) : BlobFormat :=
  match marker with
  | Ok Bincode => FormatBincode
  | Ok Protobuf => FormatProtobuf
  | Err _ => FormatUnspecified
  end.
Definition check {E} (package_version : string) (ping_storage : bool) (marker : result E StoreBlobFormat) : HealthResponse :=
  MkHealth true ping_storage package_version (reported_blob_format marker).

(** [publish_account_gauges]: how many accounts, and how many of them connected. *)
Definition publish_account_gauges (connected : AccountHandle -> bool) (accounts : list AccountHandle) : Z * Z :=
  (Z.of_nat (length accounts), Z.of_nat (length (filter (fun handle => connected handle = true) accounts))).
