(* ===== verification/ServiceProps.v ===== *)
(** * What the services that only ask are good for *)

From stdpp Require Import sorting.
From S2P Require Import Prelude StoreError Errors Wire RequestEnums Jids Messaging MessagingLaws BoundaryProps RelayedEnums Engine Registry ProtocolStore BincodeUpgrade Spool MediaStream MessageProjection Relays GroupEvents Groups Contacts.

Section props.
Context (metadata_value : string -> bool) `{messages : WaMessages} `{ids : LibIds} `{contact_ids : !ContactIds ids}.
Context `{mc : MediaCrypto} (uuid_text : Uuid -> string) (number : LUuid -> Uuid).
Context {LibClient : Type} (registry : Registry) (client : AccountHandle -> option LibClient).
Context (library : AccountHandle -> Asked -> forall call : Call, result LibError (Reply call)).
Context (resolved : AccountHandle -> Asked -> GroupMetadata -> GroupMetadata).
Context (group_subject_new group_description_new : string -> result string string) (push_name : AccountHandle -> string).

#[local] Abbreviation Rpc := (Rpc (AccountHandle * Call)).
#[local] Abbreviation converted := (converted metadata_value).
#[local] Abbreviation ask_by := (ask_by metadata_value library).
#[local] Abbreviation status e := (status_of metadata_value e).

(** ** What may be asked *)

(** A jid the library accepts, a group, a channel, a user. *)
Definition real (j : LJid) : Prop := jid_ok (MkJid j).
Definition a_group (j : LJid) : Prop := real j /\ server j = ServerGroup.
Definition a_channel (j : LJid) : Prop := real j /\ server j = ServerNewsletter.
Definition a_user (j : LJid) : Prop := real j /\ (is_pn j = true \/ is_lid j = true).

Definition well_addressed (call : Call) : Prop :=
  match call with
  | CreateGroup _ participants => Forall real participants
  | AddParticipants group participants | RemoveParticipants group participants | PromoteParticipants group participants
  | DemoteParticipants group participants | ApproveMembershipRequests group participants
  | RejectMembershipRequests group participants => a_group group /\ Forall real participants
  | SetSubject group _ | SetDescription group _ | FetchMetadata group | GetInviteLink group _ | Leave group | SetAnnounce group _
  | SetLocked group _ | SetMembershipApproval group _ | SetMemberAddMode group _ | SetMemberLinkMode group _
  | SetMemberShareHistoryMode group _ | SetEphemeral group _ | GetMembershipRequests group => a_group group
  | SetGroupPhoto (RemoveGroupPicture group) => a_group group
  | SetGroupPhoto (SetGroupPicture group image) => a_group group /\ image <> []
  | IsOnWhatsApp jids => Forall real jids
  | LookupPicture jid | GetUserInfo jid | GetBusinessProfile jid | SubscribePresence jid | GetLidPnEntry jid => real jid
  | SetPushName name => name <> ""
  | Block jid | Unblock jid => a_user jid
  | GetNewsletter jid | JoinNewsletter jid | LeaveNewsletter jid | SetAdminMute jid _ | SubscribeLiveUpdates jid => a_channel jid
  | CreateNewsletter name _ => name <> ""
  | GetNewsletterMessages jid count before => a_channel jid /\ count <> 0 /\ before <> Some 0
  | SendPollVoteRaw jid server_id hashes => a_channel jid /\ server_id <> 0 /\ hashes_ok hashes
  | GetMyAddons jid limit => a_channel jid /\ limit <> 0
  | RejectCall call_id peer call_creator => call_id <> "" /\ real peer /\ real call_creator
  | ResolveParticipantAddresses _ | JoinWithInviteCode _ | GroupParticipating | GetInviteInfo _ | SetProfilePicture _
  | RemoveProfilePicture | SetStatusText _ | GetBlocklist | ListSubscribed => True
  end.

(** The refusals that have an error of their own, by the call they answer. *)
Definition as_error (call : Call) (err : LibError) : WamuxError :=
  match named_refusal err, call with
  | Some (GroupInvalidRequest message), CreateGroup _ _ => FailedPrecondition message
  | Some (GroupInvalidRequest message), (JoinWithInviteCode _ | GetInviteInfo _) => InvalidArgument message
  | Some (BlockingInvalidJid reason), (Block _ | Unblock _ | GetBlocklist) => FailedPrecondition reason
  | Some (NewsletterNotFound jid), (GetNewsletter _ | JoinNewsletter _ | LeaveNewsletter _ | SetAdminMute _ _ | CreateNewsletter _ _) =>
      NotFound ("newsletter " +:+ jid +:+ " not found")
  | _, _ => client_err (any err)
  end.

(** What a call asked of an account, and how that ended: every call well addressed; an error is the
    library's of the last call, and ends the asking. *)
Inductive tells (h : AccountHandle) : Asked -> list Call -> option Status -> Prop :=
| TellsAll log : tells h log [] None
| TellsFailure log call err :
    well_addressed call -> library h log call = Err err -> tells h log [call] (Some (status (as_error call err)))
| TellsReply log call reply calls o :
    well_addressed call -> library h log call = Ok reply -> tells h (log ++ [(h, call)]) calls o -> tells h log (call :: calls) o
| TellsBackfill log metadata calls o :
    tells h (log ++ [(h, ResolveParticipantAddresses metadata)]) calls o -> tells h log (ResolveParticipantAddresses metadata :: calls) o.

Definition error_of {A} (answer : result Status A) : option Status := match answer with Ok _ => None | Err s => Some s end.
Definition asked (h : AccountHandle) (calls : list Call) : Asked := (fun call => (h, call)) <$> calls.

Definition served {A} (h : AccountHandle) (log : Asked) (x : result Status A * Asked) : Prop :=
  exists calls, x.2 = log ++ asked h calls /\ tells h log calls (error_of x.1).

Lemma served_ret {A} h log (a : A) : served h log (Ok a, log).
Proof. exists []. split; [by rewrite app_nil_r|constructor]. Qed.

Lemma served_cons {A} h log call (x : result Status A * Asked) :
  (forall calls, tells h (log ++ [(h, call)]) calls (error_of x.1) -> tells h log (call :: calls) (error_of x.1)) ->
  served h (log ++ [(h, call)]) x -> served h log x.
Proof. intros H (calls & Hl & Ht). exists (call :: calls). split; [by rewrite Hl, <-app_assoc|by apply H]. Qed.

Lemma served_ask {A} by_error h log call (k : Reply call -> Rpc A) :
  well_addressed call -> (forall err, by_error err = as_error call err) ->
  (forall reply log', served h log' (k reply log')) -> served h log ((ask_by by_error h call ≫= k) log).
Proof.
  intros Hw He Hk. unfold mbind, rpc_bind, Groups.ask_by. destruct (library h log call) as [reply|err] eqn:E; cbn.
  - apply (served_cons h log call); [|apply Hk]. intros calls Ht. by eapply TellsReply.
  - exists [call]. split; [done|]. cbn. rewrite He. by constructor.
Qed.

Lemma served_last by_error h log call :
  well_addressed call -> (forall err, by_error err = as_error call err) -> served h log (ask_by by_error h call log).
Proof.
  intros Hw He. pose proof (served_ask by_error h log call (fun r log => (Ok r, log)) Hw He) as H.
  unfold mbind, rpc_bind in H. destruct (ask_by by_error h call log) as [[r|e] log'] eqn:E; apply H; intros; apply served_ret.
Qed.

Lemma served_backfill {A} h log m (k : GroupMetadata -> Rpc A) :
  (forall m log', served h log' (k m log')) -> served h log ((backfill resolved h m ≫= k) log).
Proof.
  intros Hk. unfold mbind, rpc_bind, backfill. apply (served_cons h log (ResolveParticipantAddresses m)); [|apply Hk].
  intros calls Ht. by apply TellsBackfill.
Qed.

(** ** The requests *)

Inductive Request : Type -> Type :=
| ReqCreateGroup (r : CreateGroupRequest) : Request GroupJidResponse
| ReqAdd (r : ParticipantsRequest) : Request (list ParticipantChange) | ReqRemove (r : ParticipantsRequest) : Request (list ParticipantChange)
| ReqPromote (r : ParticipantsRequest) : Request (list ParticipantChange) | ReqDemote (r : ParticipantsRequest) : Request (list ParticipantChange)
| ReqApprove (r : ParticipantsRequest) : Request (list ParticipantChange) | ReqReject (r : ParticipantsRequest) : Request (list ParticipantChange)
| ReqSubject (r : GroupTextRequest) : Request unit | ReqDescription (r : GroupTextRequest) : Request unit
| ReqMetadata (r : GroupRef) : Request PbGroupMetadata | ReqInviteLink (r : GroupRef) : Request string
| ReqRevokeLink (r : GroupRef) : Request string | ReqJoin (r : InviteRequest) : Request GroupJidResponse
| ReqList (r : pb.AccountRef) : Request (list GroupSummary) | ReqLeave (r : GroupRef) : Request unit
| ReqAnnounce (r : GroupToggleRequest) : Request unit | ReqLocked (r : GroupToggleRequest) : Request unit
| ReqApproval (r : GroupToggleRequest) : Request unit | ReqEphemeral (r : GroupNumberRequest) : Request unit
| ReqAddMode (r : GroupNumberRequest) : Request unit | ReqLinkMode (r : GroupNumberRequest) : Request unit
| ReqShareMode (r : GroupNumberRequest) : Request unit | ReqPreview (r : InviteRequest) : Request PbGroupMetadata
| ReqPhoto (r : SetGroupPhotoRequest) : Request unit | ReqMembership (r : GroupRef) : Request (list PbMembershipRequest)
| ReqCheck (r : JidsRequest) : Request (list CheckResult) | ReqGetPicture (r : JidRequest) : Request ProfilePictureResponse
| ReqSetPicture (r : SetProfilePictureRequest) : Request unit | ReqRemovePicture (r : pb.AccountRef) : Request unit
| ReqGetName (r : pb.AccountRef) : Request string | ReqSetName (r : TextOf) : Request unit
| ReqGetAbout (r : JidRequest) : Request string | ReqSetAbout (r : TextOf) : Request unit
| ReqBlock (r : JidRequest) : Request unit | ReqUnblock (r : JidRequest) : Request unit
| ReqBlocklist (r : pb.AccountRef) : Request (list PbBlocklistEntry) | ReqBusiness (r : JidRequest) : Request (option PbBusinessProfile)
| ReqPresence (r : JidRequest) : Request unit | ReqLids (r : JidsRequest) : Request (list LidPnResult)
| ReqSubscribed (r : pb.AccountRef) : Request (list Newsletter) | ReqChannel (r : JidRequest) : Request Newsletter
| ReqHistory (r : pb.GetNewsletterMessagesRequest) : Request (list PbNewsletterMessage)
| ReqVote (r : pb.SendNewsletterPollVoteRequest) : Request string
| ReqAddOns (r : pb.GetMyNewsletterAddOnsRequest) : Request (list PbMyAddOns) | ReqLive (r : JidRequest) : Request Z
| ReqFollow (r : JidRequest) : Request unit | ReqUnfollow (r : JidRequest) : Request unit
| ReqMuteChannel (r : NewsletterMuteRequest) : Request unit | ReqCreateChannel (r : CreateNewsletterRequest) : Request Newsletter
| ReqRejectCall (r : RejectCallRequest) : Request unit.

Definition serve {A} (request : Request A) : Rpc A :=
  match request in Request A return Rpc A with
  | ReqCreateGroup r => create_group metadata_value uuid_text number registry client library r
  | ReqAdd r => add_participants metadata_value uuid_text number registry client library r
  | ReqRemove r => remove_participants metadata_value uuid_text number registry client library r
  | ReqPromote r => promote_admins metadata_value uuid_text number registry client library r
  | ReqDemote r => demote_admins metadata_value uuid_text number registry client library r
  | ReqApprove r => approve_membership_requests metadata_value uuid_text number registry client library r
  | ReqReject r => reject_membership_requests metadata_value uuid_text number registry client library r
  | ReqSubject r => set_group_subject metadata_value uuid_text number registry client library group_subject_new r
  | ReqDescription r => set_group_description metadata_value uuid_text number registry client library group_description_new r
  | ReqMetadata r => get_group_metadata metadata_value uuid_text number registry client library resolved r
  | ReqInviteLink r => get_invite_link metadata_value uuid_text number registry client library r
  | ReqRevokeLink r => revoke_invite_link metadata_value uuid_text number registry client library r
  | ReqJoin r => join_with_invite metadata_value uuid_text number registry client library r
  | ReqList r => list_participating metadata_value uuid_text number registry client library resolved r
  | ReqLeave r => leave_group metadata_value uuid_text number registry client library r
  | ReqAnnounce r => set_group_announce metadata_value uuid_text number registry client library r
  | ReqLocked r => set_group_locked metadata_value uuid_text number registry client library r
  | ReqApproval r => set_group_membership_approval metadata_value uuid_text number registry client library r
  | ReqEphemeral r => set_group_ephemeral metadata_value uuid_text number registry client library r
  | ReqAddMode r => set_group_member_add_mode metadata_value uuid_text number registry client library r
  | ReqLinkMode r => set_group_member_link_mode metadata_value uuid_text number registry client library r
  | ReqShareMode r => set_group_member_share_history_mode metadata_value uuid_text number registry client library r
  | ReqPreview r => preview_invite metadata_value uuid_text number registry client library r
  | ReqPhoto r => set_group_photo metadata_value uuid_text number registry client library r
  | ReqMembership r => get_membership_requests metadata_value uuid_text number registry client library r
  | ReqCheck r => check_on_whats_app metadata_value uuid_text number registry client library r
  | ReqGetPicture r => get_profile_picture metadata_value uuid_text number registry client library r
  | ReqSetPicture r => set_profile_picture metadata_value uuid_text number registry client library r
  | ReqRemovePicture r => remove_profile_picture metadata_value uuid_text number registry client library r
  | ReqGetName r => get_push_name metadata_value uuid_text number registry client push_name r
  | ReqSetName r => set_push_name metadata_value uuid_text number registry client library r
  | ReqGetAbout r => get_about metadata_value uuid_text number registry client library r
  | ReqSetAbout r => set_about metadata_value uuid_text number registry client library r
  | ReqBlock r => block_contact metadata_value uuid_text number registry client library r
  | ReqUnblock r => unblock_contact metadata_value uuid_text number registry client library r
  | ReqBlocklist r => get_blocklist metadata_value uuid_text number registry client library r
  | ReqBusiness r => get_business_profile metadata_value uuid_text number registry client library r
  | ReqPresence r => subscribe_presence metadata_value uuid_text number registry client library r
  | ReqLids r => resolve_lid_pn metadata_value uuid_text number registry client library r
  | ReqSubscribed r => list_subscribed_newsletters metadata_value uuid_text number registry client library r
  | ReqChannel r => get_newsletter_metadata metadata_value uuid_text number registry client library r
  | ReqHistory r => get_newsletter_messages metadata_value uuid_text number registry client library r
  | ReqVote r => send_newsletter_poll_vote metadata_value uuid_text number registry client library r
  | ReqAddOns r => get_my_newsletter_add_ons metadata_value uuid_text number registry client library r
  | ReqLive r => subscribe_newsletter_live_updates metadata_value uuid_text number registry client library r
  | ReqFollow r => follow_newsletter metadata_value uuid_text number registry client library r
  | ReqUnfollow r => unfollow_newsletter metadata_value uuid_text number registry client library r
  | ReqMuteChannel r => mute_newsletter metadata_value uuid_text number registry client library r
  | ReqCreateChannel r => create_newsletter metadata_value uuid_text number registry client library r
  | ReqRejectCall r => reject_call metadata_value uuid_text number registry client library r
  end.

(** The account a request names. *)
Definition account_named {A} (request : Request A) : option pb.AccountRef :=
  match request with
  | ReqCreateGroup r => cg_account r
  | ReqAdd r | ReqRemove r | ReqPromote r | ReqDemote r | ReqApprove r | ReqReject r => pr_account r
  | ReqSubject r | ReqDescription r => gt_account r
  | ReqMetadata r | ReqInviteLink r | ReqRevokeLink r => gr_account r
  | ReqJoin r => iv_account r
  | ReqList r => Some r
  | ReqLeave r => gr_account r
  | ReqAnnounce r | ReqLocked r | ReqApproval r => to_account r
  | ReqEphemeral r | ReqAddMode r | ReqLinkMode r | ReqShareMode r => gn_account r
  | ReqPreview r => iv_account r
  | ReqPhoto r => ph_account r
  | ReqMembership r => gr_account r
  | ReqCheck r => jq_account r
  | ReqGetPicture r => jr_account r
  | ReqSetPicture r => sp_account r
  | ReqRemovePicture r | ReqGetName r => Some r
  | ReqSetName r => tx_account r
  | ReqGetAbout r => jr_account r
  | ReqSetAbout r => tx_account r
  | ReqBlock r | ReqUnblock r => jr_account r
  | ReqBlocklist r => Some r
  | ReqBusiness r | ReqPresence r => jr_account r
  | ReqLids r => jq_account r
  | ReqSubscribed r => Some r
  | ReqChannel r => jr_account r
  | ReqHistory r => pb.gnm_account r
  | ReqVote r => pb.snv_account r
  | ReqAddOns r => pb.gma_account r
  | ReqLive r | ReqFollow r | ReqUnfollow r => jr_account r
  | ReqMuteChannel r => nmu_account r
  | ReqCreateChannel r => cn_account r
  | ReqRejectCall r => rj_account r
  end.

(** Refused with nothing asked, or served. *)
Definition early_or_served {A} (h : AccountHandle) (log : Asked) (x : result Status A * Asked) : Prop :=
  (exists e, x = (Err (status e), log)) \/ served h log x.

Lemma bind_client {A} (request : Request A) account (k : AccountHandle -> Rpc A) log :
  account_named request = account -> (forall h, early_or_served h log (k h log)) ->
  let x := (client_of metadata_value uuid_text number registry client account ≫= k) log in
  (exists e, x = (Err (status e), log)) \/
  (exists h c, MediaStream.account_of uuid_text number registry client (account_named request) = Ok (h, c) /\ served h log x).
Proof.
  intros <- Hk. cbv zeta. unfold client_of. rewrite rpc_assoc.
  destruct (MediaStream.account_of uuid_text number registry client (account_named request)) as [[h c]|e]; [|by left; exists e].
  destruct (Hk h) as [He|Hs]; [by left|right]. by exists h, c.
Qed.

Lemma bind_conversion {A B} (m : WamuxResult A) (P : A -> Prop) (k : A -> Rpc B) h log :
  (forall a, m = Ok a -> P a) -> (forall a, P a -> early_or_served h log (k a log)) -> early_or_served h log ((converted m ≫= k) log).
Proof.
  intros Hm Hk. unfold mbind, rpc_bind, MediaStream.converted. destruct m as [a|e]; cbn; [by apply Hk, Hm|left; by exists e].
Qed.

(** ** What the conversions give *)

Lemma jid_given r : forall j, from_required_wire r = Ok j -> real (as_lib j).
Proof. intros [j] H. by apply required_gives in H. Qed.
Lemma jids_given js : forall l, from_required_wire_list js = Ok l -> Forall real (lib_jids l).
Proof.
  intros l H%mapM_result_ok. unfold lib_jids. induction H as [|j l' js' ls Hj _ IH]; constructor; [|done]. by eapply jid_given.
Qed.
Lemma group_given r : forall g, group_from_required_wire r = Ok g -> a_group (lib_group g).
Proof. intros [[g]] H. by apply group_gives in H. Qed.
Lemma channel_given r : forall n, newsletter_from_required_wire r = Ok n -> a_channel (as_lib (newsletter_as_jid n)).
Proof. intros [[n]] H. by apply newsletter_gives in H. Qed.
Lemma history_given r : forall q, history_query_try_from r = Ok q ->
  a_channel (as_lib (newsletter_as_jid (nh_jid q))) /\ nh_count q <> 0 /\ nh_before q <> Some 0.
Proof. intros [[[j]] c b] H. by apply history_gives in H. Qed.
Lemma vote_given r : forall v, newsletter_vote_try_from r = Ok v ->
  a_channel (as_lib (newsletter_as_jid (nv_jid v))) /\ nv_server_id v <> 0 /\ hashes_ok (nv_option_hashes v).
Proof. intros [[[j]] c b] H. by apply newsletter_vote_gives in H. Qed.
Lemma add_ons_given r : forall q, add_ons_query_try_from r = Ok q -> a_channel (as_lib (newsletter_as_jid (na_jid q))) /\ na_limit q <> 0.
Proof. intros [[[j]] c] H. by apply add_ons_gives in H. Qed.
Lemma lids_given js : forall l, mapM lid_pn_query_try_from js = Ok l -> Forall (fun q => real (as_lib (lq_jid q))) l.
Proof.
  intros l H%mapM_result_ok. induction H as [|j l' js' ls Hj _ IH]; constructor; [|done]. apply lid_gives in Hj. by destruct l' as [q [j']].
Qed.
Lemma user_given j : forall u, require_user_jid j = Ok u -> is_pn (as_lib j) = true \/ is_lid (as_lib j) = true.
Proof. intros u. unfold require_user_jid. destruct (is_pn _), (is_lid _); cbn; naive_solver. Qed.
Lemma filled_given s (e : WamuxError) : forall u : unit, (if str_is_empty s then Err e else Ok tt) = Ok u -> s <> "".
Proof. intros u. unfold str_is_empty. by case_bool_decide. Qed.
Lemma any_given {A} (m : WamuxResult A) : forall a, m = Ok a -> True.
Proof. done. Qed.

Ltac convert :=
  eapply bind_conversion;
    [first [apply group_given|apply jids_given|apply jid_given|apply channel_given|apply history_given|apply vote_given|apply add_ons_given
           |apply lids_given|apply user_given|apply filled_given|apply any_given]|intros ? ?].
Ltac one_ask :=
  unfold Groups.ask;
  match goal with
  | |- served ?h ?log (mbind ?k (Groups.ask_by _ _ ?e _ ?call) _) => refine (served_ask e h log call k _ _ _)
  | |- served ?h ?log (Groups.ask_by _ _ ?e _ ?call _) => refine (served_last e h log call _ _)
  end.
Ltac addressed := cbn; first [done|by split_and?|naive_solver].
Ltac by_error := let err := fresh in intros err; destruct err as [[[]|] ?]; reflexivity.
Ltac asks := right; one_ask; [addressed|by_error|intros; try apply served_ret..].

Lemma resolve_each_served h queries log :
  Forall (fun q => real (as_lib (lq_jid q))) queries -> served h log (resolve_each metadata_value library h queries log).
Proof.
  intros Hq. revert log. induction Hq as [|q queries Hq _ IH]; intros log; cbn; [apply served_ret|].
  one_ask; [done|by_error|]. intros entry log'. specialize (IH log'). unfold mbind, rpc_bind.
  destruct (resolve_each _ _ _ _ log') as [[rs|e] log'']; apply IH.
Qed.

Lemma backfill_all_served {A} h ms (k : list GroupMetadata -> Rpc A) log :
  (forall ms log', served h log' (k ms log')) -> served h log ((backfill_all resolved h ms ≫= k) log).
Proof.
  revert k log. induction ms as [|m ms IH]; intros k log Hk; cbn; [apply Hk|].
  rewrite rpc_assoc. apply served_backfill. intros m' log'. rewrite rpc_assoc. apply IH. intros. apply Hk.
Qed.

(** A handler: the account, the conversions, and what it does over the library. *)
Ltac handler :=
  unfold create_group, add_participants, remove_participants, promote_admins, demote_admins, approve_membership_requests,
    reject_membership_requests, set_group_subject, set_group_description, get_group_metadata, get_invite_link,
    revoke_invite_link, join_with_invite, list_participating, leave_group, set_group_announce, set_group_locked,
    set_group_membership_approval, set_group_ephemeral, set_group_member_add_mode, set_group_member_link_mode,
    set_group_member_share_history_mode, preview_invite, set_group_photo, get_membership_requests, check_on_whats_app,
    get_profile_picture, set_profile_picture, remove_profile_picture, get_push_name, set_push_name, get_about, set_about,
    block_contact, unblock_contact, get_blocklist, get_business_profile, subscribe_presence, resolve_lid_pn,
    list_subscribed_newsletters, get_newsletter_metadata, get_newsletter_messages, send_newsletter_poll_vote,
    get_my_newsletter_add_ons, subscribe_newsletter_live_updates, follow_newsletter, unfollow_newsletter, mute_newsletter,
    create_newsletter, reject_call.
Ltac over_library :=
  unfold create_group_on, add_participants_on, remove_participants_on, promote, demote, approve_membership, reject_membership,
    set_subject, set_description, get_metadata, invite_link, join_with_invite_on, list_participating_on, leave,
    set_announce, set_locked, set_membership_approval, set_member_add_mode, set_member_link_mode,
    set_member_share_history_mode, set_ephemeral, preview_invite_on, set_photo, membership_requests.
Ltac resolves_client := apply bind_client; [done|intros h].
Ltac by_handler := handler; resolves_client; repeat convert; over_library; repeat convert; try solve [asks].

(** C35.  The group, contact, channel and call services ask of an account only what its caller may.
    A call of theirs that is refused, because its account is unknown or not connected or because
    its request does not convert, has asked nothing.  Otherwise it asks only the account it names,
    and every question is well addressed: group questions go to jids on the group server, channel
    ones to jids on the channel server, block and unblock to users, every other jid is one the
    library accepts, a photo that is set is not empty (the library panics on one that is), and
    names, ids, limits and hashes are checked.  It stops at the first question the library does
    not answer, with the status of that error: a refusal of the library's own under the code its
    question calls for, and any other error by the shared classifier. *)
Theorem service_asks {A} (request : Request A) log :
  let x := serve request log in
  (exists e, x = (Err (status e), log)) \/
  (exists h c, MediaStream.account_of uuid_text number registry client (account_named request) = Ok (h, c) /\
     exists calls, x.2 = log ++ asked h calls /\ tells h log calls (error_of x.1)).
Proof.
  destruct request; cbn [serve]; by_handler.
  - right. one_ask; [done|by_error|]. intros m log'. apply served_backfill. intros. apply served_ret.
  - right. one_ask; [done|by_error|]. intros [] log'; apply served_ret.
  - right. one_ask; [done|by_error|]. intros ms log'. apply backfill_all_served. intros. apply served_ret.
  - right. one_ask; [|by_error]. cbn. case_bool_decide; [done|]. by split.
  - right. apply served_ret.
  - right. one_ask; [done|by_error|]. intros [] log'; apply served_ret.
  - right. by apply resolve_each_served.
Qed.

(** ** Lists of groups *)

Definition before (a b : GroupSummary) : Prop := subject_le a b = true.

Lemma insert_by_perm x l : insert_by x l ≡ₚ x :: l.
Proof. induction l as [|y l IH]; cbn; [done|]. destruct (subject_le x y); [done|]. rewrite IH. by constructor. Qed.

Lemma insert_by_sorted x l : StronglySorted before l -> StronglySorted before (insert_by x l).
Proof.
  induction 1 as [|y l Hl IH Hy]; cbn; [by repeat constructor|]. destruct (subject_le x y) eqn:E.
  - constructor; [by constructor|]. constructor; [done|]. eapply Forall_impl; [exact Hy|]. intros z Hz. by eapply bytes_le_trans.
  - constructor; [done|]. rewrite insert_by_perm. constructor; [by apply bytes_le_total|done].
Qed.

(** Of one subject, the inserted summary is the first. *)
Lemma insert_by_stable s x l : StronglySorted before l ->
  filter (fun g => gs_subject g = s) (insert_by x l) = filter (fun g => gs_subject g = s) (x :: l).
Proof.
  induction 1 as [|y l Hl IH Hy]; [done|]. cbn [insert_by]. destruct (subject_le x y) eqn:E; [done|].
  rewrite !filter_cons in *. rewrite IH. destruct (decide (gs_subject x = s)) as [Ex|], (decide (gs_subject y = s)) as [Ey|]; try done.
  exfalso. unfold subject_le in E. rewrite Ex, <-Ey, bytes_le_refl in E. done.
Qed.

Lemma head_before x l y : StronglySorted before (x :: l) -> y ∈ x :: l -> subject_le x y = true.
Proof.
  intros [Hl Hx]%StronglySorted_inv [->|Hy]%elem_of_cons; [apply bytes_le_refl|]. rewrite Forall_forall in Hx. by apply Hx.
Qed.

Lemma sorted_same l k :
  StronglySorted before l -> StronglySorted before k -> l ≡ₚ k ->
  (forall s, filter (fun g => gs_subject g = s) l = filter (fun g => gs_subject g = s) k) -> l = k.
Proof.
  revert k. induction l as [|x l IH]; intros [|y k] Hl Hk Hp Hf; [done|by apply Permutation_nil_l in Hp|by symmetry in Hp; apply Permutation_nil_l in Hp|].
  assert (E : gs_subject x = gs_subject y).
  { apply str_bytes_inj, bytes_le_antisym.
    - apply (head_before x l y Hl). rewrite Hp. by left.
    - apply (head_before y k x Hk). rewrite <-Hp. by left. }
  assert (x = y) as ->.
  { specialize (Hf (gs_subject y)). rewrite !filter_cons, !decide_True in Hf by done. by injection Hf. }
  f_equal. apply IH; [by apply StronglySorted_inv in Hl as [? _]|by apply StronglySorted_inv in Hk as [? _]|by eapply Permutation_cons_inv|].
  intros s. specialize (Hf s). rewrite !filter_cons in Hf. case_decide; [by injection Hf|done].
Qed.

(** A list of groups is the library's, each group summed up (its own metadata, as many
    participants as it has), in the order of the bytes of the subjects; groups of one subject stay
    in the library's order.  There is one such list. *)
Theorem groups_listed groups :
  let summaries := group_summaries groups in
  summaries ≡ₚ group_summary <$> groups /\ StronglySorted before summaries /\
  (forall s, filter (fun g => gs_subject g = s) summaries = filter (fun g => gs_subject g = s) (group_summary <$> groups)) /\
  (forall l, l ≡ₚ group_summary <$> groups -> StronglySorted before l ->
     (forall s, filter (fun g => gs_subject g = s) l = filter (fun g => gs_subject g = s) (group_summary <$> groups)) -> l = summaries).
Proof.
  cbv zeta. unfold group_summaries. set (l0 := group_summary <$> groups). clearbody l0.
  assert (Hp : sort_by_subject l0 ≡ₚ l0) by (induction l0 as [|x l IH]; cbn; [done|]; by rewrite insert_by_perm, IH).
  assert (Hs : StronglySorted before (sort_by_subject l0)) by (clear Hp; induction l0; cbn; [constructor|by apply insert_by_sorted]).
  assert (Hf : forall s, filter (fun g => gs_subject g = s) (sort_by_subject l0) = filter (fun g => gs_subject g = s) l0).
  { intros s. clear Hp Hs. induction l0 as [|x l IH]; [done|]. cbn [sort_by_subject foldr]. rewrite insert_by_stable.
    - rewrite !filter_cons, <-IH. done.
    - clear IH. induction l; cbn; [constructor|by apply insert_by_sorted]. }
  split_and!; [done..|]. intros l Hl Hls Hlf. apply sorted_same; [done..|by rewrite Hl, Hp|]. intros s. by rewrite Hlf, Hf.
Qed.
End props.
