(* ===== verification/Turso.v ===== *)
(** * The Turso family: binding and reading values (storage/turso/placeholders.rs, exec.rs,
      transaction.rs, row_values.rs, turso_error.rs, maintenance_sql.rs)

    The second driver.  Statements are the shared texts, bound by position; rows come back as
    untyped values.  A text's meaning is the function its component gives the sql family, at the
    values the driver gives its numbers.  How the driver binds is a parameter; the law on it is what
    placeholders.rs relies on.  A write is a job of the group commit, as on SQLite, so it is a
    [transaction] here. *)

From S2P Require Import Prelude StoreError Database StoreKey BlobCipher BatchChunks Refinement Backend.

(** ** Values *)

Inductive Value : Type :=
| Null
| Integer (n : Z)        (* an i64 *)
| Real (bits : Z)
| Text (s : string)
| Blob (b : bytes).

#[global] Instance Value_eq_dec : EqDecision Value.
Proof. solve_decision. Defined.

(** [Value::from]. *)
Class ToValue (A : Type) : Type := to_value : A -> Value.
#[global] Instance int_value : ToValue Z := Integer.
#[global] Instance bool_value : ToValue bool := fun b => Integer (Z.b2z b).
#[global] Instance text_value : ToValue string := Text.
#[global] Instance blob_value : ToValue bytes := Blob.
#[global] Instance option_value {A} `{ToValue A} : ToValue (option A) := fun o => from_option to_value Null o.

Abbreviation Binds := (list Value).
Abbreviation Row := (list Value).

(** The macro [binds!]. *)
Notation "'binds!' [ x ; .. ; y ]" := (@cons Value (to_value x) .. (@cons Value (to_value y) (@nil Value)) ..)
  (at level 0, format "binds! [ x ;  .. ;  y ]").

Definition with_list (leading : Binds) (list : list Value) : Binds := leading ++ list.

(** ** Placeholders *)

Definition char_is (n : N) (c : Ascii.ascii) : bool := (Ascii.N_of_ascii c =? n)%N.
Definition digit (c : Ascii.ascii) : option nat :=
  let n := N.to_nat (Ascii.N_of_ascii c) in
  if bool_decide (48 <= n <= 57)%nat then Some (n - 48)%nat else None.

(** [$N] (36) to [?N] (63), throughout a text. *)
Fixpoint turso_placeholders (sql : string) : string :=
  match sql with
  | "" => ""
  | String c sql => String (if char_is 36 c then Ascii.ascii_of_N 63 else c) (turso_placeholders sql)
  end.

(** The placeholders of a text, in order: whether each is a [$], and its number. *)
Definition ended (open : option (bool * nat)) : list (bool * nat) :=
  match open with
  | Some (_, O) | None => []
  | Some p => [p]
  end.
Fixpoint scan (open : option (bool * nat)) (sql : string) : list (bool * nat) :=
  match sql with
  | "" => ended open
  | String c sql =>
      match open, digit c with
      | Some (dollar, n), Some k => scan (Some (dollar, (10 * n + k)%nat)) sql
      | _, _ =>
          ended open ++
          scan (if char_is 36 c then Some (true, 0%nat) else if char_is 63 c then Some (false, 0%nat) else None) sql
      end
  end.

(** How many values a text names. *)
Definition params (sql : string) : nat := foldr (fun p => Nat.max p.2) 0%nat (scan None sql).

(** How the driver binds: the values its numbers take in a text, given positional ones.  What is
    relied on is that a text whose placeholders are all [?N], given as many values as it names,
    takes them by number; nothing is said of [$N]. *)
Class Driver : Type := bound : string -> Binds -> list Value.
Class DriverLaws (driver : Driver) : Prop :=
  bound_by_number : forall sql values,
    Forall (fun p => p.1 = false) (scan None sql) -> params sql = length values -> bound sql values = values.

(** ** Statements *)

(** A text, and what it does at the values of its numbers.  [A] is what comes back: rows, or the
    number of rows a write changed where the code looks at it. *)
Record Statement (D A : Type) : Type := MkStatement {
  sql : string;
  meaning : list Value -> D -> StoreResult A * D;
}.
Arguments MkStatement {D A} _ _.
Arguments sql {D A} _.
Arguments meaning {D A} _ _ _.

(** Values of other types than the text's columns. *)
Definition mistyped {D A} (d : D) : StoreResult A * D := (Err (StoreError.Database "datatype mismatch"), d).

(** A value of a column's type, NULL or not. *)
Definition text_of (v : Value) : option string := match v with Text s => Some s | _ => None end.
Definition int_of (v : Value) : option Z := match v with Integer n => Some n | _ => None end.
Definition blob_of (v : Value) : option bytes := match v with Blob b => Some b | _ => None end.
Definition or_null {A} (f : Value -> option A) (v : Value) : option (option A) :=
  match v with Null => Some None | v => Some <$> f v end.

(** A read. *)
Definition reads {D A} (f : D -> A) (d : D) : StoreResult A * D := (Ok (f d), d).

Section exec.
Context `{driver : Driver} {D : Type}.

Definition prepared {A} (s : Statement D A) (binds : Binds) : D -> StoreResult A * D :=
  meaning s (bound (turso_placeholders (sql s)) binds).

(** On the connection of a job ([TursoTx]). *)
Definition tx_execute {A} (s : Statement D A) (binds : Binds) : Run D A := stmt (prepared s binds).
Definition tx_fetch_all (s : Statement D (list Row)) (binds : Binds) : Run D (list Row) := stmt (prepared s binds).
Definition tx_fetch_optional (s : Statement D (list Row)) (binds : Binds) : Run D (option Row) :=
  rows ← tx_fetch_all s binds;
  mret (head rows).

(** On the shared connection ([TursoConn]): a write is a job of its own, a read is none. *)
Definition execute {A} (s : Statement D A) (binds : Binds) : Run D A := transaction (tx_execute s binds).
Definition write_returning_optional (s : Statement D (list Row)) (binds : Binds) : Run D (option Row) :=
  transaction (tx_fetch_optional s binds).
Definition fetch_all (s : Statement D (list Row)) (binds : Binds) : Run D (list Row) := tx_fetch_all s binds.
Definition fetch_optional (s : Statement D (list Row)) (binds : Binds) : Run D (option Row) := tx_fetch_optional s binds.

(** The loop over the chunks of a batched read. *)
Fixpoint fetch_chunks {T V} (s : Statement D (list Row)) (binds : list T -> Binds)
    (decode : list Row -> StoreResult (list V)) (chunks : list (list T)) (found : list V) : Run D (list V) :=
  match chunks with
  | [] => mret found
  | chunk :: chunks =>
      rows ← fetch_all s (binds chunk);
      read ← of_result (decode rows);
      fetch_chunks s binds decode chunks (found ++ read)
  end.
End exec.

(** ** Errors *)

(** [turso::Error], with how each prints; [db_error] is turso_error.rs's [db]. *)
Inductive TursoError : Type :=
| Busy (message : string)
| BusySnapshot (message : string)
| IoError (message : string)
| OtherError (message : string).

Definition db_error (err : TursoError) : StoreError :=
  match err with
  | Busy m | BusySnapshot m | IoError m => StoreError.Connection m
  | OtherError m => StoreError.Database m
  end.
Definition is_busy (err : TursoError) : bool :=
  match err with Busy _ | BusySnapshot _ => true | _ => false end.

(** [maintenance]: what the checkpoint answered, on a connection outside any transaction. *)
Definition maintenance (autocommit : StoreResult unit) (checkpoint : result TursoError (list Row)) : StoreResult unit :=
  _ ← autocommit;
  match checkpoint with
  | Ok _ => Ok tt
  | Err e => if is_busy e then Ok tt else Err (db_error e)
  end.

(** ** Reading a column *)

Section row_values.
(** How a value prints for debugging, and the driver's error on a column that is not there. *)
Context (debug : Value -> string) (no_column : nat -> TursoError).

Definition get_value (row : Row) (column : nat) : StoreResult Value :=
  map_err db_error (ok_or (row !! column) (no_column column)).

Definition wrong_type (column : nat) (expected : string) (got : Value) : StoreError :=
  StoreError.Database ("column " +:+ pretty column +:+ " is " +:+ debug got +:+ ", expected " +:+ expected).

Definition blob (row : Row) (column : nat) : StoreResult bytes :=
  v ← get_value row column;
  match v with Blob b => Ok b | other => Err (wrong_type column "a blob" other) end.
Definition opt_blob (row : Row) (column : nat) : StoreResult (option bytes) :=
  v ← get_value row column;
  match v with Null => Ok None | Blob b => Ok (Some b) | other => Err (wrong_type column "a blob or NULL" other) end.
Definition text (row : Row) (column : nat) : StoreResult string :=
  v ← get_value row column;
  match v with Text s => Ok s | other => Err (wrong_type column "text" other) end.
Definition opt_text (row : Row) (column : nat) : StoreResult (option string) :=
  v ← get_value row column;
  match v with Null => Ok None | Text s => Ok (Some s) | other => Err (wrong_type column "text or NULL" other) end.
Definition int (row : Row) (column : nat) : StoreResult Z :=
  v ← get_value row column;
  match v with Integer n => Ok n | other => Err (wrong_type column "an integer" other) end.
Definition opt_int (row : Row) (column : nat) : StoreResult (option Z) :=
  v ← get_value row column;
  match v with Null => Ok None | Integer n => Ok (Some n) | other => Err (wrong_type column "an integer or NULL" other) end.

(** [i32::try_from]. *)
Definition i32_try_from (column : nat) (wide : Z) : StoreResult Z :=
  if decide (- 2 ^ 31 <= wide < 2 ^ 31) then Ok wide else Err (wrong_type column "a 32-bit integer" (Integer wide)).
Definition int32 (row : Row) (column : nat) : StoreResult Z := int row column ≫= i32_try_from column.
Definition opt_int32 (row : Row) (column : nat) : StoreResult (option Z) :=
  wide ← opt_int row column;
  transpose (i32_try_from column <$> wide).

(** [Uuid::parse_str]. *)
Definition uuid_text {U} (parse_str : string -> result string U) (row : Row) (column : nat) : StoreResult U :=
  raw ← text row column;
  map_err StoreError.Serialization (parse_str raw).

Definition first_blob (row : option Row) : StoreResult (option bytes) :=
  transpose ((fun row => blob row 0) <$> row).

Lemma i32_reads column n : in_i32 n -> i32_try_from column n = Ok n.
Proof using Type. intros H. unfold i32_try_from. by rewrite decide_True. Qed.
End row_values.

(** ** Numbers after the rewrite *)

Lemma scan_rewritten s o :
  scan ((fun p => (false, p.2)) <$> o) (turso_placeholders s) = (fun p => (false, p.2)) <$> scan o s.
Proof.
  revert o. induction s as [|c s IH]; intros o; cbn [turso_placeholders scan].
  - by destruct o as [[? []]|].
  - assert (Hd : digit (if char_is 36 c then Ascii.ascii_of_N 63 else c) = digit c).
    { destruct (char_is 36 c) eqn:E; [|done]. unfold char_is in E. apply N.eqb_eq in E. unfold digit. by rewrite E. }
    assert (He : ended ((fun p => (false, p.2)) <$> o) = (fun p => (false, p.2)) <$> ended o) by (by destruct o as [[? []]|]).
    set (mark c := if char_is 36 c then Some (true, 0%nat) else if char_is 63 c then Some (false, 0%nat) else None).
    assert (Hm : scan (mark (if char_is 36 c then Ascii.ascii_of_N 63 else c)) (turso_placeholders s) =
      (fun p => (false, p.2)) <$> scan (mark c) s).
    { unfold mark. destruct (char_is 36 c) eqn:E36; [exact (IH (Some (true, 0%nat)))|]. rewrite E36.
      destruct (char_is 63 c); [exact (IH (Some (false, 0%nat)))|exact (IH None)]. }
    unfold mark in Hm. rewrite Hd, He, Hm. destruct o as [[dollar n]|], (digit c) as [k|]; cbn [fmap option_fmap option_map];
      [exact (IH (Some (dollar, (10 * n + k)%nat)))|by rewrite fmap_app..].
Qed.

(** The values go to the numbers, in any text. *)
Lemma bound_rewritten `{laws : DriverLaws} s values :
  params s = length values -> bound (turso_placeholders s) values = values.
Proof.
  intros Hp. pose proof (scan_rewritten s None) as Hs. cbn in Hs. apply bound_by_number.
  - rewrite Hs. by apply Forall_fmap, Forall_true.
  - rewrite <-Hp. unfold params. rewrite Hs. generalize (scan None s). intros l. induction l as [|p l IH]; cbn; congruence.
Qed.

Lemma prepared_by_number `{laws : DriverLaws} {D A} (s : Statement D A) values :
  params (sql s) = length values -> prepared s values = meaning s values.
Proof. intros H. unfold prepared. by rewrite bound_rewritten. Qed.

(** ** Runs that agree with the sql family's *)

Section agree.
Context `{driver : Driver} {D : Type}.

Lemma bind_agree {A B} (m m' : Run D A) (k k' : A -> Run D B) w :
  m w = m' w -> (forall a w', m w = (Ok a, w') -> k a w' = k' a w') -> (m ≫= k) w = (m' ≫= k') w.
Proof using Type.
  intros Hm Hk. unfold mbind, run_bind. rewrite <-Hm. destruct (m w) as [[a|e] w'] eqn:E; [by apply Hk|done].
Qed.

Lemma each_agree {A} (f g : A -> Run D unit) l w : (forall a w', f a w' = g a w') -> each f l w = each g l w.
Proof using Type. intros H. revert w. induction l as [|a l IH]; intros w; cbn [each]; [done|]. by apply bind_agree. Qed.

Lemma stmt_agree {A} (f g : D -> StoreResult A * D) w : (forall d, f d = g d) -> stmt f w = stmt g w.
Proof using Type. intros H. unfold stmt. by rewrite H. Qed.

Lemma transaction_agree {A} (m m' : Run D A) w :
  (forall w', db w' = db w -> m w' = m' w') -> transaction m w = transaction m' w.
Proof using Type.
  intros H. unfold transaction. destruct (stmt _ w) as [[[]|e] w0] eqn:E; [|done]. rewrite H; [done|].
  revert E. unfold stmt. by destruct (faults w) as [|[] ?]; cbn; intros [= <-].
Qed.

Lemma execute_agree {A} (s : Statement D A) binds f w :
  (forall d, prepared s binds d = f d) -> execute s binds w = Database.execute f w.
Proof using Type. intros H. apply transaction_agree. intros w' _. by apply stmt_agree. Qed.

(** A read leaves the database. *)
Lemma read_keeps {A} (f : D -> A) w a w' : stmt (reads f) w = (Ok a, w') -> a = f (db w) /\ db w' = db w.
Proof using Type. unfold stmt, reads. by destruct (faults w) as [|[] ?]; intros [= <- <-]. Qed.

Lemma fetch_all_agree {A B} (s : Statement D (list Row)) binds (g : D -> list Row) (g' : D -> A) (k : list Row -> Run D B) k' w :
  (forall d, prepared s binds d = reads g d) ->
  (forall w', db w' = db w -> k (g (db w)) w' = k' (g' (db w)) w') ->
  (fetch_all s binds ≫= k) w = (query g' ≫= k') w.
Proof using Type.
  intros Hs Hk. unfold mbind, run_bind, fetch_all, tx_fetch_all, query.
  rewrite (stmt_agree _ _ w Hs). unfold stmt, reads. by destruct (faults w) as [|[] ?]; try apply Hk.
Qed.

Lemma fetch_optional_agree {A B} (s : Statement D (list Row)) binds (g : D -> option Row) (g' : D -> A) (k : option Row -> Run D B) k' w :
  (forall d, prepared s binds d = reads (fun d => option_list (g d)) d) ->
  (forall w', db w' = db w -> k (g (db w)) w' = k' (g' (db w)) w') ->
  (fetch_optional s binds ≫= k) w = (query g' ≫= k') w.
Proof using Type.
  intros Hs Hk. unfold mbind, run_bind, fetch_optional, tx_fetch_optional, mbind, run_bind, tx_fetch_all, query.
  rewrite (stmt_agree _ _ w Hs). unfold stmt, reads, mret, run_ret.
  assert (Hh : head (option_list (g (db w))) = g (db w)) by (by destruct (g (db w))).
  by destruct (faults w) as [|[] ?]; rewrite ?Hh; try apply Hk.
Qed.

Lemma fetch_row_agree {A B} (enc : A -> Row) (s : Statement D (list Row)) binds (g : D -> option A) (k : option Row -> Run D B) k' w :
  (forall d, prepared s binds d = reads (fun d => option_list (enc <$> g d)) d) ->
  (forall a w', db w' = db w -> g (db w) = Some a -> k (Some (enc a)) w' = k' (Some a) w') ->
  (forall w', k None w' = k' None w') ->
  (fetch_optional s binds ≫= k) w = (query g ≫= k') w.
Proof using Type.
  intros Hs Hk Hn. apply (fetch_optional_agree _ _ (fun d => enc <$> g d)); [exact Hs|]. intros w' Hw.
  destruct (g (db w)) as [a|] eqn:E; [by apply Hk|apply Hn].
Qed.

Lemma fetch_chunks_agree {T A V X} (s : Statement D (list Row)) binds (decode : list Row -> StoreResult (list X))
    (rows : list T -> D -> list Row) (select : list T -> D -> list A) (decode' : A -> StoreResult (T * V)) (f : T * V -> X)
    chunks found w :
  Forall (fun chunk => forall d, prepared s (binds chunk) d = reads (rows chunk) d) chunks ->
  (forall chunk, decode (rows chunk (db w)) = (fun l => f <$> l) <$> mapM decode' (select chunk (db w))) ->
  fetch_chunks s binds decode chunks (f <$> found) w = (l ← read_chunks select decode' chunks found; mret (f <$> l)) w.
Proof using Type.
  intros Hs. revert found w. induction Hs as [|chunk chunks Hc _ IH]; intros found w Hd; [done|].
  cbn [fetch_chunks read_chunks].
  transitivity ((r ← query (select chunk); l ← (opened ← of_result (mapM decode' r);
    read_chunks select decode' chunks (found ++ opened)); mret (f <$> l)) w).
  - apply (fetch_all_agree _ _ (rows chunk)); [exact Hc|]. intros w' Hw. unfold of_result.
    unfold mbind at 1, run_bind at 1. rewrite Hd.
    unfold mbind at 2, run_bind at 2. destruct (mapM decode' _) as [opened|e]; [|done]. cbn [fmap result_fmap].
    rewrite <-fmap_app. apply IH. by rewrite Hw.
  - unfold mbind, run_bind. by destruct (query (select chunk) w) as [[]].
Qed.

(** Rows decoded one by one. *)
Lemma decode_agree {A X Y} (decode : Row -> StoreResult X) (enc : A -> Row) (decode' : A -> StoreResult Y) (f : Y -> X) l :
  (forall a, a ∈ l -> decode (enc a) = f <$> decode' a) ->
  mapM decode (enc <$> l) = (fun ys => f <$> ys) <$> mapM decode' l.
Proof using Type.
  induction l as [|a l IH]; intros H; [done|]. cbn. rewrite H by left. destruct (decode' a) as [y|e]; [|done]. cbn.
  rewrite IH by (intros; apply H; by right). by destruct (mapM decode' l).
Qed.
Lemma decode_pure {A X} (decode : Row -> StoreResult X) (enc : A -> Row) (f : A -> X) l :
  (forall a, a ∈ l -> decode (enc a) = Ok (f a)) -> mapM decode (enc <$> l) = Ok (f <$> l).
Proof using Type.
  intros H. rewrite (decode_agree _ _ (fun a => Ok (f a)) (fun x => x)) by (intros; by rewrite H).
  rewrite mapM_pure. cbn. by rewrite list_fmap_id.
Qed.

Lemma run_fmap_id {A} (m : Run D (list A)) w : (l ← m; mret ((fun x => x) <$> l)) w = m w.
Proof using Type. unfold mbind, run_bind. destruct (m w) as [[l|e] w']; [|done]. cbn. by rewrite list_fmap_id. Qed.
End agree.

(** The values of a chunk, padded, are as many as the text's numbers. *)
Lemma padded_chunk_length {T} `{EqDecision T} (items : list T) : Forall (fun chunk => length chunk = READ_CHUNK) (padded_chunks items).
Proof.
  apply Forall_forall. intros chunk Hin. unfold padded_chunks in Hin.
  apply list_elem_of_fmap in Hin as (c & -> & [Hne Hlen]%chunks_of_size). by apply length_pad.
Qed.

(** A row of this device, whatever the cipher: statements carry the device id as a value. *)
Definition at_device (device_id : Z) : Backend := MkBackend device_id passthrough.

(** The values of such a chunk after [leading] ones. *)
Lemma prepared_list `{laws : DriverLaws} {D T} (s : Statement D (list Row)) (leading : Binds) (f : T -> Value) chunk :
  params (sql s) = (length leading + READ_CHUNK)%nat -> length chunk = READ_CHUNK ->
  prepared s (with_list leading (f <$> chunk)) = meaning s (leading ++ (f <$> chunk)).
Proof. intros Hp Hl. apply prepared_by_number. unfold with_list. by rewrite Hp, length_app, length_fmap, Hl. Qed.

Lemma texts_of_list (chunk : list string) : omap text_of (to_value <$> chunk) = chunk.
Proof. induction chunk as [|x chunk IH]; [done|]. cbn. by f_equal. Qed.
Lemma blobs_of_list (chunk : list bytes) : omap blob_of (to_value <$> chunk) = chunk.
Proof. induction chunk as [|x chunk IH]; [done|]. cbn. by f_equal. Qed.
Lemma ids_of_list (chunk : list Z) : omap int_of ((fun id => to_value (as_i32 id)) <$> chunk) = as_i32 <$> chunk.
Proof. induction chunk as [|x chunk IH]; [done|]. cbn. by f_equal. Qed.

(** A statement at the values of its numbers, counted by computation. *)
Ltac by_number := intros; rewrite prepared_by_number by (vm_compute; reflexivity); reflexivity.

(** The same computation, statement by statement. *)
Ltac agree :=
  lazymatch goal with
  | |- execute _ _ _ = _ => apply execute_agree; by_number
  | |- tx_execute _ _ _ = _ => apply stmt_agree; by_number
  | |- transaction _ _ = _ => apply transaction_agree; intros ? _; agree
  | |- each _ _ _ = _ => apply each_agree; intros ? ?; repeat case_match; agree
  | |- (if bool_decide ?P then _ else _) _ = _ => destruct (bool_decide P); agree
  | |- (_ ≫= _) _ = (_ ≫= _) _ => apply bind_agree; [agree|intros ? ? _; agree]
  | |- _ => done
  end.
(** A read of one row; what is left is how it decodes. *)
Ltac agree_row enc :=
  apply bind_agree; [|done]; apply (fetch_row_agree enc); [by_number|intros ? ? _ _|done].
