(* ===== verification/TursoSignal.v ===== *)
(** * The Signal store on Turso (storage/turso/signal_store.rs, signal_sql.rs, statements/signal.rs)

    Method for method the sql family's, with positional binds and rows of values.  At the end,
    every call answers and writes as [SignalStore]'s. *)

From S2P Require Import Prelude StoreError Database StoreKey BlobCipher BatchChunks Refinement Backend SignalStore SignalSpec Turso.

Section signal.
Context `{driver : Driver} `{crypto : Crypto}.
(** What the driver answers when the foreign key refuses a row. *)
Context (constraint : StoreError).
Context (debug : Value -> string) (no_column : nat -> TursoError).
Context (backend : Backend).

Let me : Z := backend_device backend.
Let column_blob := blob debug no_column.

(** ** The texts (statements/signal.rs) *)

Definition put_addr_row (t : AddrTable) (v : list Value) : SignalDb -> StoreResult unit * SignalDb :=
  match v with
  | [Text a; Blob b; Integer dev] => SignalStore.PUT_ADDR constraint (at_device dev) t a b
  | _ => mistyped
  end.
Definition get_addr_rows (t : AddrTable) (v : list Value) : SignalDb -> StoreResult (list Row) * SignalDb :=
  match v with
  | [Text a; Integer dev] => reads (fun d => option_list ((fun b => [Blob b]) <$> SignalStore.GET_ADDR (at_device dev) t a d))
  | _ => mistyped
  end.
Definition delete_addr_row (t : AddrTable) (v : list Value) : SignalDb -> StoreResult unit * SignalDb :=
  match v with
  | [Text a; Integer dev] => SignalStore.DELETE_ADDR (at_device dev) t a
  | _ => mistyped
  end.

Definition PUT_IDENTITY : Statement SignalDb unit := MkStatement
  "INSERT INTO identities (address, key, device_id)
     VALUES ($1, $2, $3)
     ON CONFLICT (address, device_id) DO UPDATE SET key = EXCLUDED.key" (put_addr_row Identities).
Definition LOAD_IDENTITY : Statement SignalDb (list Row) := MkStatement
  "SELECT key FROM identities WHERE address = $1 AND device_id = $2" (get_addr_rows Identities).
Definition DELETE_IDENTITY : Statement SignalDb unit := MkStatement
  "DELETE FROM identities WHERE address = $1 AND device_id = $2" (delete_addr_row Identities).

Definition PUT_SESSION : Statement SignalDb unit := MkStatement
  "INSERT INTO sessions (address, record, device_id)
     VALUES ($1, $2, $3)
     ON CONFLICT (address, device_id) DO UPDATE SET record = EXCLUDED.record" (put_addr_row Sessions).
Definition GET_SESSION : Statement SignalDb (list Row) := MkStatement
  "SELECT record FROM sessions WHERE address = $1 AND device_id = $2" (get_addr_rows Sessions).
Definition DELETE_SESSION : Statement SignalDb unit := MkStatement
  "DELETE FROM sessions WHERE address = $1 AND device_id = $2" (delete_addr_row Sessions).

Definition PUT_SENDER_KEY : Statement SignalDb unit := MkStatement
  "INSERT INTO sender_keys (address, record, device_id)
     VALUES ($1, $2, $3)
     ON CONFLICT (address, device_id) DO UPDATE SET record = EXCLUDED.record" (put_addr_row SenderKeys).
Definition GET_SENDER_KEY : Statement SignalDb (list Row) := MkStatement
  "SELECT record FROM sender_keys WHERE address = $1 AND device_id = $2" (get_addr_rows SenderKeys).
Definition DELETE_SENDER_KEY : Statement SignalDb unit := MkStatement
  "DELETE FROM sender_keys WHERE address = $1 AND device_id = $2" (delete_addr_row SenderKeys).

(** [uploaded] is kept as an integer. *)
Definition STORE_PREKEY : Statement SignalDb unit := MkStatement
  "INSERT INTO prekeys (id, key, uploaded, device_id)
     VALUES ($1, $2, $3, $4)
     ON CONFLICT (id, device_id) DO UPDATE
     SET key = EXCLUDED.key, uploaded = EXCLUDED.uploaded"
  (fun v => match v with
    | [Integer id; Blob b; Integer uploaded; Integer dev] =>
        SignalStore.STORE_PREKEY constraint (at_device dev) id b (negb (uploaded =? 0))
    | _ => mistyped
    end).
Definition LOAD_PREKEY : Statement SignalDb (list Row) := MkStatement
  "SELECT key FROM prekeys WHERE id = $1 AND device_id = $2"
  (fun v => match v with
    | [Integer id; Integer dev] => reads (fun d => option_list ((fun b => [Blob b]) <$> SignalStore.LOAD_PREKEY (at_device dev) id d))
    | _ => mistyped
    end).
Definition DELETE_PREKEY : Statement SignalDb unit := MkStatement
  "DELETE FROM prekeys WHERE id = $1 AND device_id = $2"
  (fun v => match v with [Integer id; Integer dev] => SignalStore.DELETE_PREKEY (at_device dev) id | _ => mistyped end).
Definition MAX_PREKEY_ID : Statement SignalDb (list Row) := MkStatement
  "SELECT COALESCE(MAX(id), 0) FROM prekeys WHERE device_id = $1"
  (fun v => match v with
    | [Integer dev] => reads (fun d => option_list (Some [Integer (SignalStore.MAX_PREKEY_ID (at_device dev) d)]))
    | _ => mistyped
    end).
Definition MARK_PREKEY_UPLOADED : Statement SignalDb unit := MkStatement
  "UPDATE prekeys SET uploaded = TRUE WHERE id = $1 AND device_id = $2"
  (fun v => match v with [Integer id; Integer dev] => SignalStore.MARK_PREKEY_UPLOADED (at_device dev) id | _ => mistyped end).

Definition STORE_SIGNED_PREKEY : Statement SignalDb unit := MkStatement
  "INSERT INTO signed_prekeys (id, record, device_id) VALUES ($1, $2, $3)
             ON CONFLICT (id, device_id) DO UPDATE SET record = EXCLUDED.record"
  (fun v => match v with
    | [Integer id; Blob b; Integer dev] => SignalStore.STORE_SIGNED_PREKEY constraint (at_device dev) id b
    | _ => mistyped
    end).
Definition LOAD_SIGNED_PREKEY : Statement SignalDb (list Row) := MkStatement
  "SELECT record FROM signed_prekeys WHERE id = $1 AND device_id = $2"
  (fun v => match v with
    | [Integer id; Integer dev] =>
        reads (fun d => option_list ((fun b => [Blob b]) <$> SignalStore.LOAD_SIGNED_PREKEY (at_device dev) id d))
    | _ => mistyped
    end).
Definition LOAD_ALL_SIGNED_PREKEYS : Statement SignalDb (list Row) := MkStatement
  "SELECT id, record FROM signed_prekeys WHERE device_id = $1"
  (fun v => match v with
    | [Integer dev] => reads (fun d => (fun row => [Integer row.1; Blob row.2]) <$> SignalStore.LOAD_ALL_SIGNED_PREKEYS (at_device dev) d)
    | _ => mistyped
    end).
Definition REMOVE_SIGNED_PREKEY : Statement SignalDb unit := MkStatement
  "DELETE FROM signed_prekeys WHERE id = $1 AND device_id = $2"
  (fun v => match v with [Integer id; Integer dev] => SignalStore.REMOVE_SIGNED_PREKEY (at_device dev) id | _ => mistyped end).

Definition SELECT_SESSIONS : Statement SignalDb (list Row) := MkStatement
  ("SELECT address, record FROM sessions WHERE device_id = $1 AND address IN (" +:+ in_placeholders 2 READ_CHUNK +:+ ")")
  (fun v => match v with
    | Integer dev :: list =>
        reads (fun d => (fun row => [Text row.1; Blob row.2]) <$>
          SignalStore.SELECT_SESSIONS (at_device dev) (omap text_of list) d)
    | _ => mistyped
    end).
Definition SELECT_PREKEYS : Statement SignalDb (list Row) := MkStatement
  ("SELECT id, key FROM prekeys WHERE device_id = $1 AND id IN (" +:+ in_placeholders 2 READ_CHUNK +:+ ")")
  (fun v => match v with
    | Integer dev :: list =>
        reads (fun d => (fun row => [Integer row.1; Blob row.2]) <$>
          SignalStore.SELECT_PREKEYS (at_device dev) (omap int_of list) d)
    | _ => mistyped
    end).

(** ** One row *)

Definition put_identity (draws : Draws) (address : string) (key : bytes) : Run SignalDb unit :=
  sealed ← seal_row backend draws "identities" "key" (str_bytes address) key;
  execute PUT_IDENTITY binds![address; sealed; me].

Definition load_identity (address : string) : Run SignalDb (option bytes) :=
  row ← fetch_optional LOAD_IDENTITY binds![address; me];
  stored ← of_result (first_blob debug no_column row);
  match stored with
  | None => mret None
  | Some stored =>
      plain ← of_result (open_row backend "identities" "key" (str_bytes address) stored);
      if (length plain =? 32)%nat then mret (Some plain)
      else of_result (Err (Validation ("Invalid identity key length: " +:+ pretty (length plain))))
  end.

Definition delete_identity (address : string) : Run SignalDb unit := execute DELETE_IDENTITY binds![address; me].

Definition get_session (address : string) : Run SignalDb (option bytes) :=
  row ← fetch_optional GET_SESSION binds![address; me];
  stored ← of_result (first_blob debug no_column row);
  of_result (transpose (open_row backend "sessions" "record" (str_bytes address) <$> stored)).
Definition put_session (draws : Draws) (address : string) (session : bytes) : Run SignalDb unit :=
  sealed ← seal_row backend draws "sessions" "record" (str_bytes address) session;
  execute PUT_SESSION binds![address; sealed; me].
Definition delete_session (address : string) : Run SignalDb unit := execute DELETE_SESSION binds![address; me].

Definition store_prekey (draws : Draws) (id : Z) (record : bytes) (uploaded : bool) : Run SignalDb unit :=
  sealed ← seal_row backend draws "prekeys" "key" (be4 id) record;
  execute STORE_PREKEY binds![as_i32 id; sealed; uploaded; me].
Definition load_prekey (id : Z) : Run SignalDb (option bytes) :=
  row ← fetch_optional LOAD_PREKEY binds![as_i32 id; me];
  stored ← of_result (first_blob debug no_column row);
  of_result (transpose (open_row backend "prekeys" "key" (be4 id) <$> stored)).
Definition remove_prekey (id : Z) : Run SignalDb unit := execute DELETE_PREKEY binds![as_i32 id; me].

Definition get_max_prekey_id : Run SignalDb Z :=
  row ← fetch_optional MAX_PREKEY_ID binds![me];
  max ← of_result (transpose ((fun row => int debug no_column row 0) <$> row));
  mret (as_u32 (default 0 max)).

Definition store_signed_prekey (draws : Draws) (id : Z) (record : bytes) : Run SignalDb unit :=
  sealed ← seal_row backend draws "signed_prekeys" "record" (be4 id) record;
  execute STORE_SIGNED_PREKEY binds![as_i32 id; sealed; me].
Definition load_signed_prekey (id : Z) : Run SignalDb (option bytes) :=
  row ← fetch_optional LOAD_SIGNED_PREKEY binds![as_i32 id; me];
  stored ← of_result (first_blob debug no_column row);
  of_result (transpose (open_row backend "signed_prekeys" "record" (be4 id) <$> stored)).
Definition load_all_signed_prekeys : Run SignalDb (list (Z * bytes)) :=
  rows ← fetch_all LOAD_ALL_SIGNED_PREKEYS binds![me];
  of_result (mapM (fun row =>
    id ← int32 debug no_column row 0;
    stored ← column_blob row 1;
    record ← open_row backend "signed_prekeys" "record" (be4 id) stored;
    Ok (as_u32 id, record)) rows).
Definition remove_signed_prekey (id : Z) : Run SignalDb unit := execute REMOVE_SIGNED_PREKEY binds![as_i32 id; me].

Definition put_sender_key (draws : Draws) (address : string) (record : bytes) : Run SignalDb unit :=
  sealed ← seal_row backend draws "sender_keys" "record" (str_bytes address) record;
  execute PUT_SENDER_KEY binds![address; sealed; me].
Definition get_sender_key (address : string) : Run SignalDb (option bytes) :=
  row ← fetch_optional GET_SENDER_KEY binds![address; me];
  stored ← of_result (first_blob debug no_column row);
  of_result (transpose (open_row backend "sender_keys" "record" (str_bytes address) <$> stored)).
Definition delete_sender_key (address : string) : Run SignalDb unit := execute DELETE_SENDER_KEY binds![address; me].

(** ** Batches (signal_sql.rs) *)

Definition mark_uploaded (ids : list Z) : Run SignalDb unit :=
  if bool_decide (ids = []) then mret tt
  else transaction (each (fun id => tx_execute MARK_PREKEY_UPLOADED binds![as_i32 id; me]) ids).

(** [SealedColumn]. *)
Record SealedColumn : Type := MkSealedColumn { sc_sql : Statement SignalDb unit; sc_table : string; sc_column : string }.

Definition put_address_records (draws : nat -> Draws) (target : SealedColumn) (records : list (string * bytes)) :
    Run SignalDb unit :=
  if bool_decide (records = []) then mret tt
  else transaction (each (fun '(i, (address, record)) =>
    sealed ← seal_row backend (draws i) (sc_table target) (sc_column target) (str_bytes address) record;
    tx_execute (sc_sql target) binds![address; sealed; me]) (imap pair records)).

Definition delete_by_address (sql : Statement SignalDb unit) (addresses : list string) : Run SignalDb unit :=
  if bool_decide (addresses = []) then mret tt
  else transaction (each (fun address => tx_execute sql binds![address; me]) addresses).

Definition put_identities (draws : nat -> Draws) (identities : list (string * bytes)) : Run SignalDb unit :=
  if bool_decide (identities = []) then mret tt
  else transaction (each (fun '(i, (address, key)) =>
    sealed ← seal_row backend (draws i) "identities" "key" (str_bytes address) key;
    tx_execute PUT_IDENTITY binds![address; sealed; me]) (imap pair identities)).
Definition delete_identities (addresses : list string) := delete_by_address DELETE_IDENTITY addresses.
Definition put_sessions (draws : nat -> Draws) (sessions : list (string * bytes)) :=
  put_address_records draws (MkSealedColumn PUT_SESSION "sessions" "record") sessions.
Definition delete_sessions (addresses : list string) := delete_by_address DELETE_SESSION addresses.
Definition put_sender_keys (draws : nat -> Draws) (sender_keys : list (string * bytes)) :=
  put_address_records draws (MkSealedColumn PUT_SENDER_KEY "sender_keys" "record") sender_keys.
Definition delete_sender_keys (addresses : list string) := delete_by_address DELETE_SENDER_KEY addresses.

Definition store_prekeys (draws : nat -> Draws) (keys : list (Z * bytes)) (uploaded : bool) : Run SignalDb unit :=
  if bool_decide (keys = []) then mret tt
  else transaction (each (fun '(i, (id, record)) =>
    sealed ← seal_row backend (draws i) "prekeys" "key" (be4 id) record;
    tx_execute STORE_PREKEY binds![as_i32 id; sealed; uploaded; me]) (imap pair keys)).
Definition remove_prekeys (ids : list Z) : Run SignalDb unit :=
  if bool_decide (ids = []) then mret tt
  else transaction (each (fun id => tx_execute DELETE_PREKEY binds![as_i32 id; me]) ids).

Definition get_sessions (addresses : list string) : Run SignalDb (list (string * bytes)) :=
  fetch_chunks SELECT_SESSIONS (fun chunk => with_list binds![me] (to_value <$> chunk))
    (mapM (fun row =>
      address ← text debug no_column row 0;
      stored ← column_blob row 1;
      record ← open_row backend "sessions" "record" (str_bytes address) stored;
      Ok (address, record))) (padded_chunks addresses) [].
Definition load_prekeys (ids : list Z) : Run SignalDb (list (Z * bytes)) :=
  fetch_chunks SELECT_PREKEYS (fun chunk => with_list binds![me] ((fun id => to_value (as_i32 id)) <$> chunk))
    (mapM (fun row =>
      id ← int32 debug no_column row 0;
      stored ← column_blob row 1;
      record ← open_row backend "prekeys" "key" (be4 id) stored;
      Ok (as_u32 id, record))) (padded_chunks ids) [].
End signal.

(** ** Every call *)

Create HintDb signal.

Section calls.
Context `{driver : Driver} {laws : DriverLaws driver} `{crypto : Crypto} (constraint : StoreError).
Context (debug : Value -> string) (no_column : nat -> TursoError) (cipher : BlobCipher).

Definition turso_signal_run (call : SignalCall) : Run SignalDb SignalReply :=
  let b := MkBackend (call_device call) cipher in
  let draws := call_draws call in
  match call_op call with
  | OpPut Identities a p => done (put_identity constraint b (draws 0%nat) a p)
  | OpPut Sessions a p => done (put_session constraint b (draws 0%nat) a p)
  | OpPut SenderKeys a p => done (put_sender_key constraint b (draws 0%nat) a p)
  | OpGet Identities a => x ← load_identity debug no_column b a; mret (SignalSpec.Row x)
  | OpGet Sessions a => x ← get_session debug no_column b a; mret (SignalSpec.Row x)
  | OpGet SenderKeys a => x ← get_sender_key debug no_column b a; mret (SignalSpec.Row x)
  | OpDelete Identities a => done (delete_identity b a)
  | OpDelete Sessions a => done (delete_session b a)
  | OpDelete SenderKeys a => done (delete_sender_key b a)
  | OpStorePrekey id r u => done (store_prekey constraint b (draws 0%nat) id r u)
  | OpLoadPrekey id => x ← load_prekey debug no_column b id; mret (SignalSpec.Row x)
  | OpRemovePrekey id => done (remove_prekey b id)
  | OpMaxPrekeyId => n ← get_max_prekey_id debug no_column b; mret (MaxId n)
  | OpStoreSigned id r => done (store_signed_prekey constraint b (draws 0%nat) id r)
  | OpLoadSigned id => x ← load_signed_prekey debug no_column b id; mret (SignalSpec.Row x)
  | OpLoadAllSigned => l ← load_all_signed_prekeys debug no_column b; mret (IdPairs l)
  | OpRemoveSigned id => done (remove_signed_prekey b id)
  | OpPutBatch Identities l => done (put_identities constraint b draws l)
  | OpPutBatch Sessions l => done (put_sessions constraint b draws l)
  | OpPutBatch SenderKeys l => done (put_sender_keys constraint b draws l)
  | OpDeleteBatch Identities l => done (delete_identities b l)
  | OpDeleteBatch Sessions l => done (delete_sessions b l)
  | OpDeleteBatch SenderKeys l => done (delete_sender_keys b l)
  | OpStorePrekeys l u => done (store_prekeys constraint b draws l u)
  | OpRemovePrekeys l => done (remove_prekeys b l)
  | OpMarkUploaded _ l => done (mark_uploaded b l)
  | OpGetSessions l => r ← get_sessions debug no_column b l; mret (Pairs r)
  | OpLoadPrekeys l => r ← load_prekeys debug no_column b l; mret (IdPairs r)
  end.

(** ** As the sql family's on SQLite *)

(** Ids are in the range of an [i32], as every write leaves them. *)
Definition ids_i32 {A} (m : gmap (Z * Z) A) : Prop := map_Forall (fun k _ => in_i32 k.1) m.
Definition signal_i32 (d : SignalDb) : Prop := ids_i32 (prekeys d) /\ ids_i32 (signed_prekeys d).

#[local] Hint Unfold put_identity load_identity delete_identity get_session put_session delete_session store_prekey load_prekey
  remove_prekey get_max_prekey_id store_signed_prekey load_signed_prekey remove_signed_prekey put_sender_key get_sender_key
  delete_sender_key mark_uploaded put_identities delete_identities put_sessions delete_sessions put_sender_keys
  delete_sender_keys put_address_records delete_by_address store_prekeys remove_prekeys SignalSpec.done : signal.
#[local] Hint Unfold SignalStore.put_identity SignalStore.load_identity SignalStore.delete_identity SignalStore.get_session
  SignalStore.put_session SignalStore.delete_session SignalStore.store_prekey SignalStore.load_prekey SignalStore.remove_prekey
  SignalStore.get_max_prekey_id SignalStore.store_signed_prekey SignalStore.load_signed_prekey SignalStore.remove_signed_prekey
  SignalStore.put_sender_key SignalStore.get_sender_key SignalStore.delete_sender_key SignalStore.mark_uploaded mark_uploaded_each
  SignalStore.put_identities SignalStore.delete_identities SignalStore.put_sessions SignalStore.delete_sessions
  SignalStore.put_sender_keys SignalStore.delete_sender_keys put_addr get_addr delete_addr put_addrs
  SignalStore.delete_by_address SignalStore.store_prekeys SignalStore.remove_prekeys : signal.

Lemma get_sessions_twin b l w : get_sessions debug no_column b l w = SignalStore.get_sessions b l w.
Proof using laws.
  unfold get_sessions, SignalStore.get_sessions.
  etransitivity; [|apply run_fmap_id]. change (@nil (string * bytes)) with ((fun x => x) <$> @nil (string * bytes)) at 1.
  apply (fetch_chunks_agree _ _ _ (fun chunk d => (fun row => [Text row.1; Blob row.2]) <$> SignalStore.SELECT_SESSIONS b chunk d)).
  - eapply Forall_impl; [apply padded_chunk_length|]. intros chunk Hl d. rewrite prepared_list by (done || by vm_compute).
    cbn. unfold reads. by rewrite texts_of_list.
  - intros chunk. apply decode_agree. intros [a stored] _. cbn. by destruct (open_row _ _ _ _ _).
Qed.

Lemma load_prekeys_twin b l w :
  ids_i32 (prekeys (db w)) -> load_prekeys debug no_column b l w = SignalStore.load_prekeys b l w.
Proof using laws.
  intros Hw. unfold load_prekeys, SignalStore.load_prekeys.
  etransitivity; [|apply run_fmap_id]. change (@nil (Z * bytes)) with ((fun x => x) <$> @nil (Z * bytes)) at 1.
  apply (fetch_chunks_agree _ _ _ (fun chunk d => (fun row => [Integer row.1; Blob row.2]) <$> SignalStore.SELECT_PREKEYS b (as_i32 <$> chunk) d)).
  - eapply Forall_impl; [apply padded_chunk_length|]. intros chunk Hl d. rewrite prepared_list by (done || by vm_compute).
    cbn. unfold reads. by rewrite ids_of_list.
  - intros chunk. apply decode_agree. intros [i stored] Hin. cbn.
    assert (Hi : in_i32 i).
    { unfold SignalStore.SELECT_PREKEYS in Hin. apply list_elem_of_omap in Hin as ([[j blob] u] & Hin & Hj).
      case_decide; [|done]. injection Hj as <- _. unfold own_prekeys in Hin.
      apply list_elem_of_omap in Hin as ([key row] & Hrow & Hk). case_decide; [|done]. injection Hk as <- _ _.
      apply (Hw key row). by apply elem_of_map_to_list in Hrow. }
    unfold int32. cbn. rewrite i32_reads by done. cbn. by destruct (open_row _ _ _ _ _).
Qed.

Lemma load_all_signed_twin b w :
  ids_i32 (signed_prekeys (db w)) -> load_all_signed_prekeys debug no_column b w = SignalStore.load_all_signed_prekeys b w.
Proof using laws.
  intros Hw. eapply fetch_all_agree; [by_number|]. intros w' _. unfold of_result. f_equal. cbn.
  rewrite (decode_agree _ _ (fun '(id, stored) => record ← open_row b "signed_prekeys" "record" (be4 id) stored; Ok (as_u32 id, record)) (fun x => x)).
  - destruct (mapM _ _); [|done]. cbn. by rewrite list_fmap_id.
  - intros [i stored] Hin. assert (Hi : in_i32 i).
    { apply list_elem_of_omap in Hin as ([key row] & Hrow & Hk). case_decide; [|done]. injection Hk as <- _.
      apply (Hw key row). by apply elem_of_map_to_list in Hrow. }
    unfold int32. cbn. rewrite i32_reads by done. cbn. by destruct (open_row _ _ _ _ _).
Qed.

(** Every call answers, and leaves the database, as the sql family's does on SQLite. *)
Lemma signal_twin call w :
  (forall pg ids, call_op call = OpMarkUploaded pg ids -> pg = false) -> signal_i32 (db w) ->
  turso_signal_run call w = signal_run constraint cipher call w.
Proof using laws.
  destruct call as [device draws op]. intros Hpg [Hp Hs]. unfold turso_signal_run, signal_run. cbn [call_device call_draws call_op] in *.
  destruct op as [t ? ?|t ?|t ?|? ? uploaded|?|?| |? ?|?| |?|t ?|t ?|? uploaded|?|pg ?|?|?]; cbn beta iota.
  - destruct t; autounfold with signal; agree.
  - destruct t; autounfold with signal; by agree_row (fun b => [Blob b]).
  - destruct t; autounfold with signal; agree.
  - destruct uploaded; autounfold with signal; agree.
  - autounfold with signal. by agree_row (fun b => [Blob b]).
  - autounfold with signal; agree.
  - autounfold with signal. apply bind_agree; [|done].
    apply (fetch_optional_agree _ _ (fun d => Some [Integer (SignalStore.MAX_PREKEY_ID (at_device device) d)])); [by_number|done].
  - autounfold with signal; agree.
  - autounfold with signal. by agree_row (fun b => [Blob b]).
  - apply bind_agree; [by apply load_all_signed_twin|done].
  - autounfold with signal; agree.
  - destruct t; autounfold with signal; agree.
  - destruct t; autounfold with signal; agree.
  - destruct uploaded; autounfold with signal; agree.
  - autounfold with signal; agree.
  - rewrite (Hpg _ _ eq_refl). autounfold with signal; agree.
  - apply bind_agree; [by apply get_sessions_twin|done].
  - apply bind_agree; [by apply load_prekeys_twin|done].
Qed.
End calls.
