(* ===== verification/TursoProtocol.v ===== *)
(** * The protocol store on Turso (storage/turso/protocol_store.rs, protocol_batch_sql.rs,
      protocol_decode.rs, tc_token_sql.rs, msg_secret_store.rs)

    Method for method the sql family's, with positional binds and rows of values.  At the end,
    every call answers and writes as [ProtocolStore]'s; taking a sent message opens the blob before
    it deletes the row, where the sql family does it after. *)

From S2P Require Import Prelude StoreError Database StoreKey BlobCipher BatchChunks Refinement Backend ProtocolStore ProtocolSpec Turso.

Section protocol.
Context `{driver : Driver} `{crypto : Crypto} `{lib : Wacore}.
Context (constraint : StoreError).
Context (debug : Value -> string) (no_column : nat -> TursoError).
Context (backend : Backend).

Let me : Z := backend_device backend.

(** ** The texts (statements/protocol.rs) *)

Definition GET_SENDER_KEY_DEVICES : Statement ProtoDb (list Row) := MkStatement
  "SELECT device_jid, has_key FROM sender_key_devices
             WHERE group_jid = $1 AND device_id = $2"
  (fun v => match v with
    | [Text g; Integer dev] =>
        reads (fun d => (fun row => [Text row.1; Integer row.2]) <$> ProtocolStore.GET_SENDER_KEY_DEVICES (at_device dev) g d)
    | _ => mistyped
    end).
Definition SET_SENDER_KEY_STATUS : Statement ProtoDb unit := MkStatement
  "INSERT INTO sender_key_devices (group_jid, device_jid, has_key, device_id, updated_at)
                 VALUES ($1, $2, $3, $4, $5)
                 ON CONFLICT (group_jid, device_jid, device_id)
                 DO UPDATE SET has_key = EXCLUDED.has_key, updated_at = EXCLUDED.updated_at"
  (fun v => match v with
    | [Text g; Text j; Integer has; Integer dev; Integer now] =>
        ProtocolStore.SET_SENDER_KEY_STATUS constraint (at_device dev) g j has now
    | _ => mistyped
    end).
Definition CLEAR_SENDER_KEY_DEVICES : Statement ProtoDb unit := MkStatement
  "DELETE FROM sender_key_devices WHERE group_jid = $1 AND device_id = $2"
  (fun v => match v with [Text g; Integer dev] => ProtocolStore.CLEAR_SENDER_KEY_DEVICES (at_device dev) g | _ => mistyped end).
Definition DELETE_SENDER_KEY_DEVICE_ROW : Statement ProtoDb unit := MkStatement
  "DELETE FROM sender_key_devices WHERE device_jid = $1 AND device_id = $2"
  (fun v => match v with [Text j; Integer dev] => ProtocolStore.DELETE_SENDER_KEY_DEVICE_ROW (at_device dev) j | _ => mistyped end).
Definition CLEAR_ALL_SENDER_KEY_DEVICES : Statement ProtoDb unit := MkStatement
  "DELETE FROM sender_key_devices WHERE device_id = $1"
  (fun v => match v with [Integer dev] => ProtocolStore.CLEAR_ALL_SENDER_KEY_DEVICES (at_device dev) | _ => mistyped end).

Definition lid_values (row : LidMappingRow) : Row :=
  let '(l, phone, created, source, updated) := row in [Text l; Text phone; Integer created; Text source; Integer updated].
Definition GET_LID_MAPPING : Statement ProtoDb (list Row) := MkStatement
  "SELECT lid, phone_number, created_at, learning_source, updated_at
             FROM lid_pn_mapping WHERE lid = $1 AND device_id = $2"
  (fun v => match v with
    | [Text l; Integer dev] => reads (fun d => option_list (lid_values <$> ProtocolStore.GET_LID_MAPPING (at_device dev) l d))
    | _ => mistyped
    end).
Definition GET_PN_MAPPING : Statement ProtoDb (list Row) := MkStatement
  "SELECT lid, phone_number, created_at, learning_source, updated_at
             FROM lid_pn_mapping WHERE phone_number = $1 AND device_id = $2
             ORDER BY updated_at DESC LIMIT 1"
  (fun v => match v with
    | [Text phone; Integer dev] => reads (fun d => option_list (lid_values <$> ProtocolStore.GET_PN_MAPPING (at_device dev) phone d))
    | _ => mistyped
    end).
Definition GET_ALL_LID_MAPPINGS : Statement ProtoDb (list Row) := MkStatement
  "SELECT lid, phone_number, created_at, learning_source, updated_at
             FROM lid_pn_mapping WHERE device_id = $1"
  (fun v => match v with
    | [Integer dev] => reads (fun d => lid_values <$> ProtocolStore.GET_ALL_LID_MAPPINGS (at_device dev) d)
    | _ => mistyped
    end).
Definition PUT_LID_MAPPING : Statement ProtoDb unit := MkStatement
  "INSERT INTO lid_pn_mapping
        (lid, phone_number, created_at, learning_source, updated_at, device_id)
     VALUES ($1, $2, $3, $4, $5, $6)
     ON CONFLICT (lid, device_id) DO UPDATE SET
        phone_number = EXCLUDED.phone_number,
        learning_source = EXCLUDED.learning_source,
        updated_at = EXCLUDED.updated_at"
  (fun v => match v with
    | [Text l; Text phone; Integer created; Text source; Integer updated; Integer dev] =>
        ProtocolStore.PUT_LID_MAPPING constraint (at_device dev) l phone created source updated
    | _ => mistyped
    end).

Definition SAVE_BASE_KEY : Statement ProtoDb unit := MkStatement
  "INSERT INTO base_keys (address, message_id, base_key, device_id, created_at)
             VALUES ($1, $2, $3, $4, $5)
             ON CONFLICT (address, message_id, device_id) DO UPDATE SET base_key = EXCLUDED.base_key"
  (fun v => match v with
    | [Text a; Text m; Blob b; Integer dev; Integer now] => ProtocolStore.SAVE_BASE_KEY constraint (at_device dev) a m b now
    | _ => mistyped
    end).
Definition GET_BASE_KEY : Statement ProtoDb (list Row) := MkStatement
  "SELECT base_key FROM base_keys
             WHERE address = $1 AND message_id = $2 AND device_id = $3"
  (fun v => match v with
    | [Text a; Text m; Integer dev] =>
        reads (fun d => option_list ((fun b => [Blob b]) <$> ProtocolStore.GET_BASE_KEY (at_device dev) a m d))
    | _ => mistyped
    end).
Definition DELETE_BASE_KEY : Statement ProtoDb unit := MkStatement
  "DELETE FROM base_keys WHERE address = $1 AND message_id = $2 AND device_id = $3"
  (fun v => match v with [Text a; Text m; Integer dev] => ProtocolStore.DELETE_BASE_KEY (at_device dev) a m | _ => mistyped end).
Definition DELETE_EXPIRED_BASE_KEYS : Statement ProtoDb Z := MkStatement
  "DELETE FROM base_keys WHERE created_at < $1 AND device_id = $2"
  (fun v => match v with
    | [Integer cutoff; Integer dev] => ProtocolStore.DELETE_EXPIRED_BASE_KEYS (at_device dev) cutoff
    | _ => mistyped
    end).

Definition UPDATE_DEVICE_LIST : Statement ProtoDb unit := MkStatement
  "INSERT INTO device_registry
        (user_id, devices_json, timestamp, phash, device_id, updated_at, raw_id)
     VALUES ($1, $2, $3, $4, $5, $6, $7)
     ON CONFLICT (user_id, device_id) DO UPDATE SET
        devices_json = EXCLUDED.devices_json,
        timestamp = EXCLUDED.timestamp,
        phash = EXCLUDED.phash,
        updated_at = EXCLUDED.updated_at,
        raw_id = EXCLUDED.raw_id"
  (fun v => match v with
    | [Text u; Text json; Integer ts; ph; Integer dev; Integer now; raw] =>
        match or_null text_of ph, or_null int_of raw with
        | Some ph, Some raw => ProtocolStore.UPDATE_DEVICE_LIST constraint (at_device dev) u json ts ph now raw
        | _, _ => mistyped
        end
    | _ => mistyped
    end).
Definition device_values (row : DeviceListRow) : Row :=
  let '(u, json, ts, ph, raw) := row in [Text u; Text json; Integer ts; from_option Text Null ph; from_option Integer Null raw].
Definition GET_DEVICES : Statement ProtoDb (list Row) := MkStatement
  "SELECT user_id, devices_json, timestamp, phash, raw_id
             FROM device_registry WHERE user_id = $1 AND device_id = $2"
  (fun v => match v with
    | [Text u; Integer dev] => reads (fun d => option_list (device_values <$> ProtocolStore.GET_DEVICES (at_device dev) u d))
    | _ => mistyped
    end).
Definition DELETE_DEVICES : Statement ProtoDb unit := MkStatement
  "DELETE FROM device_registry WHERE user_id = $1 AND device_id = $2"
  (fun v => match v with [Text u; Integer dev] => ProtocolStore.DELETE_DEVICES (at_device dev) u | _ => mistyped end).
Definition SELECT_DEVICES : Statement ProtoDb (list Row) := MkStatement
  ("SELECT user_id, devices_json, timestamp, phash, raw_id
         FROM device_registry WHERE device_id = $1 AND user_id IN (" +:+ in_placeholders 2 READ_CHUNK +:+ ")")
  (fun v => match v with
    | Integer dev :: list => reads (fun d => device_values <$> ProtocolStore.SELECT_DEVICES (at_device dev) (omap text_of list) d)
    | _ => mistyped
    end).

Definition tc_values (row : bytes * Z * option Z) : Row :=
  let '(t, ts, st) := row in [Blob t; Integer ts; from_option Integer Null st].
Definition GET_TC_TOKEN : Statement ProtoDb (list Row) := MkStatement
  "SELECT token, token_timestamp, sender_timestamp
             FROM tc_tokens WHERE jid = $1 AND device_id = $2"
  (fun v => match v with
    | [Text j; Integer dev] => reads (fun d => option_list (tc_values <$> ProtocolStore.GET_TC_TOKEN (at_device dev) j d))
    | _ => mistyped
    end).
Definition PUT_TC_TOKEN : Statement ProtoDb unit := MkStatement
  "INSERT INTO tc_tokens
                (jid, token, token_timestamp, sender_timestamp, device_id, updated_at)
             VALUES ($1, $2, $3, $4, $5, $6)
             ON CONFLICT (jid, device_id) DO UPDATE SET
                token = EXCLUDED.token,
                token_timestamp = EXCLUDED.token_timestamp,
                sender_timestamp = EXCLUDED.sender_timestamp,
                updated_at = EXCLUDED.updated_at"
  (fun v => match v with
    | [Text j; Blob t; Integer ts; st; Integer dev; Integer now] =>
        match or_null int_of st with
        | Some st => ProtocolStore.PUT_TC_TOKEN constraint (at_device dev) j t ts st now
        | None => mistyped
        end
    | _ => mistyped
    end).
Definition DELETE_TC_TOKEN : Statement ProtoDb unit := MkStatement
  "DELETE FROM tc_tokens WHERE jid = $1 AND device_id = $2"
  (fun v => match v with [Text j; Integer dev] => ProtocolStore.DELETE_TC_TOKEN (at_device dev) j | _ => mistyped end).
Definition GET_ALL_TC_TOKEN_JIDS : Statement ProtoDb (list Row) := MkStatement
  "SELECT jid FROM tc_tokens WHERE device_id = $1"
  (fun v => match v with
    | [Integer dev] => reads (fun d => (fun j => [Text j]) <$> ProtocolStore.GET_ALL_TC_TOKEN_JIDS (at_device dev) d)
    | _ => mistyped
    end).
Definition DELETE_EXPIRED_TC_TOKENS : Statement ProtoDb Z := MkStatement
  "DELETE FROM tc_tokens
             WHERE (length(token) = 0 OR token_timestamp < $1)
               AND (sender_timestamp IS NULL OR sender_timestamp < $2)
               AND device_id = $3"
  (fun v => match v with
    | [Integer token_cutoff; Integer sender_cutoff; Integer dev] =>
        ProtocolStore.DELETE_EXPIRED_TC_TOKENS (at_device dev) token_cutoff sender_cutoff
    | _ => mistyped
    end).
Definition SELECT_TC_TOKENS : Statement ProtoDb (list Row) := MkStatement
  ("SELECT jid, token, token_timestamp, sender_timestamp
         FROM tc_tokens WHERE device_id = $1 AND jid IN (" +:+ in_placeholders 2 READ_CHUNK +:+ ")")
  (fun v => match v with
    | Integer dev :: list =>
        reads (fun d => (fun row => Text row.1 :: tc_values row.2) <$> ProtocolStore.SELECT_TC_TOKENS (at_device dev) (omap text_of list) d)
    | _ => mistyped
    end).

(** statements/tc_token.rs: repeated and out of order. *)
Definition TOUCH_SENDER_TIMESTAMP : Statement ProtoDb unit := MkStatement
  "INSERT INTO tc_tokens
            (jid, token, token_timestamp, sender_timestamp, device_id, updated_at)
         VALUES ($1, $5, $2, $2, $3, $4)
         ON CONFLICT (jid, device_id) DO UPDATE SET
            sender_timestamp = CASE
                WHEN COALESCE(tc_tokens.sender_timestamp, $2) > $2
                    THEN COALESCE(tc_tokens.sender_timestamp, $2)
                ELSE $2
            END,
            updated_at = EXCLUDED.updated_at"
  (fun v => match v with
    | [Text j; Integer st; Integer dev; Integer now; Blob empty] =>
        ProtocolStore.TOUCH_SENDER_TIMESTAMP constraint (at_device dev) j st now empty
    | _ => mistyped
    end).
Definition STORE_RECEIVED : Statement ProtoDb unit := MkStatement
  "INSERT INTO tc_tokens
            (jid, token, token_timestamp, sender_timestamp, device_id, updated_at)
         VALUES ($1, $2, $3, NULL, $4, $5)
         ON CONFLICT (jid, device_id) DO UPDATE SET
            token = EXCLUDED.token,
            token_timestamp = EXCLUDED.token_timestamp,
            updated_at = EXCLUDED.updated_at
         WHERE length(tc_tokens.token) = 0
            OR EXCLUDED.token_timestamp >= tc_tokens.token_timestamp"
  (fun v => match v with
    | [Text j; Blob t; Integer ts; Integer dev; Integer now] => ProtocolStore.STORE_RECEIVED constraint (at_device dev) j t ts now
    | _ => mistyped
    end).

Definition STORE_SENT_MESSAGE : Statement ProtoDb unit := MkStatement
  "INSERT INTO sent_messages (chat_jid, message_id, payload, device_id, created_at)
             VALUES ($1, $2, $3, $4, $5)
             ON CONFLICT (chat_jid, message_id, device_id)
             DO UPDATE SET payload = EXCLUDED.payload, created_at = EXCLUDED.created_at"
  (fun v => match v with
    | [Text c; Text m; Blob b; Integer dev; Integer now] => ProtocolStore.STORE_SENT_MESSAGE constraint (at_device dev) c m b now
    | _ => mistyped
    end).
Definition GET_SENT_MESSAGE : Statement ProtoDb (list Row) := MkStatement
  "SELECT payload FROM sent_messages
             WHERE chat_jid = $1 AND message_id = $2 AND device_id = $3"
  (fun v => match v with
    | [Text c; Text m; Integer dev] =>
        reads (fun d => option_list ((fun b => [Blob b]) <$> ProtocolStore.GET_SENT_MESSAGE (at_device dev) c m d))
    | _ => mistyped
    end).
Definition DELETE_SENT_MESSAGE : Statement ProtoDb unit := MkStatement
  "DELETE FROM sent_messages
                 WHERE chat_jid = $1 AND message_id = $2 AND device_id = $3"
  (fun v => match v with [Text c; Text m; Integer dev] => ProtocolStore.DELETE_SENT_MESSAGE (at_device dev) c m | _ => mistyped end).
Definition DELETE_EXPIRED_SENT_MESSAGES : Statement ProtoDb Z := MkStatement
  "DELETE FROM sent_messages WHERE created_at < $1 AND device_id = $2"
  (fun v => match v with
    | [Integer cutoff; Integer dev] => ProtocolStore.DELETE_EXPIRED_SENT_MESSAGES (at_device dev) cutoff
    | _ => mistyped
    end).

(** statements/msg_secret.rs. *)
Definition PUT_MSG_SECRET : Statement ProtoDb unit := MkStatement
  "INSERT INTO msg_secrets
                     (chat, sender, msg_id, secret, expires_at, message_ts, device_id)
                 VALUES ($1, $2, $3, $4, $5, $6, $7)
                 ON CONFLICT (chat, sender, msg_id, device_id) DO UPDATE SET
                     secret     = EXCLUDED.secret,
                     expires_at = CASE
                         WHEN msg_secrets.expires_at = 0 OR EXCLUDED.expires_at = 0 THEN 0
                         WHEN msg_secrets.expires_at > EXCLUDED.expires_at
                             THEN msg_secrets.expires_at
                         ELSE EXCLUDED.expires_at
                     END,
                     message_ts = CASE
                         WHEN msg_secrets.message_ts > EXCLUDED.message_ts
                             THEN msg_secrets.message_ts
                         ELSE EXCLUDED.message_ts
                     END"
  (fun v => match v with
    | [Text c; Text s; Text m; Blob b; Integer expires; Integer ts; Integer dev] =>
        ProtocolStore.PUT_MSG_SECRET constraint (at_device dev) c s m b expires ts
    | _ => mistyped
    end).
Definition GET_MSG_SECRET : Statement ProtoDb (list Row) := MkStatement
  "SELECT secret FROM msg_secrets
             WHERE chat = $1 AND sender = $2 AND msg_id = $3 AND device_id = $4"
  (fun v => match v with
    | [Text c; Text s; Text m; Integer dev] =>
        reads (fun d => option_list ((fun b => [Blob b]) <$> ProtocolStore.GET_MSG_SECRET (at_device dev) c s m d))
    | _ => mistyped
    end).
Definition GET_MSG_SECRET_WITH_TS : Statement ProtoDb (list Row) := MkStatement
  "SELECT secret, message_ts FROM msg_secrets
             WHERE chat = $1 AND sender = $2 AND msg_id = $3 AND device_id = $4"
  (fun v => match v with
    | [Text c; Text s; Text m; Integer dev] =>
        reads (fun d => option_list ((fun row => [Blob row.1; Integer row.2]) <$> ProtocolStore.GET_MSG_SECRET_WITH_TS (at_device dev) c s m d))
    | _ => mistyped
    end).
Definition DELETE_EXPIRED_MSG_SECRETS : Statement ProtoDb Z := MkStatement
  "DELETE FROM msg_secrets
             WHERE expires_at <> 0 AND expires_at <= $1 AND device_id = $2"
  (fun v => match v with
    | [Integer cutoff; Integer dev] => ProtocolStore.DELETE_EXPIRED_MSG_SECRETS (at_device dev) cutoff
    | _ => mistyped
    end).

(** ** Rows (protocol_decode.rs) *)

Definition lid_mapping_row (row : Row) : StoreResult LidMappingRow :=
  l ← text debug no_column row 0; phone ← text debug no_column row 1; created ← int debug no_column row 2;
  source ← text debug no_column row 3; updated ← int debug no_column row 4;
  Ok (l, phone, created, source, updated).
Definition device_list_row (row : Row) : StoreResult DeviceListRow :=
  u ← text debug no_column row 0; json ← text debug no_column row 1; ts ← int debug no_column row 2;
  ph ← opt_text debug no_column row 3; raw ← opt_int32 debug no_column row 4;
  Ok (u, json, ts, ph, raw).
(** Its columns from [first] on. *)
Definition tc_token_entry (row : Row) (first : nat) (jid : string) : StoreResult TcTokenEntry :=
  stored ← blob debug no_column row first;
  t ← open_row backend "tc_tokens" "token" (str_bytes jid) stored;
  ts ← int debug no_column row (first + 1);
  st ← opt_int debug no_column row (first + 2);
  Ok (MkTcToken t ts st).
Definition sender_key_device (row : Row) : StoreResult (string * bool) :=
  jid ← text debug no_column row 0;
  has ← int32 debug no_column row 1;
  Ok (jid, negb (has =? 0)).

(** ** Operations (protocol_store.rs, protocol_batch_sql.rs, tc_token_sql.rs, msg_secret_store.rs) *)

Definition execute_count (s : Statement ProtoDb Z) (binds : Binds) : Run ProtoDb Z :=
  deleted ← execute s binds;
  mret (as_u32 deleted).

Definition get_sender_key_devices (group_jid : string) : Run ProtoDb (list (string * bool)) :=
  rows ← fetch_all GET_SENDER_KEY_DEVICES binds![group_jid; me];
  of_result (mapM sender_key_device rows).
Definition set_sender_key_status (now : Z) (group_jid : string) (entries : list (string * bool)) : Run ProtoDb unit :=
  transaction (each (fun '(device_jid, has_key) =>
    tx_execute SET_SENDER_KEY_STATUS binds![group_jid; device_jid; Z.b2z has_key; me; now]) entries).
Definition clear_sender_key_devices (group_jid : string) : Run ProtoDb unit := execute CLEAR_SENDER_KEY_DEVICES binds![group_jid; me].
Definition delete_sender_key_device_rows (device_jids : list string) : Run ProtoDb unit :=
  transaction (each (fun device_jid => tx_execute DELETE_SENDER_KEY_DEVICE_ROW binds![device_jid; me]) device_jids).
Definition clear_all_sender_key_devices : Run ProtoDb unit := execute CLEAR_ALL_SENDER_KEY_DEVICES binds![me].

(** [row.map(|row| lid_mapping_row(&row)).transpose()?.map(lid_entry)]. *)
Definition one_lid (row : option Row) : StoreResult (option LidPnMappingEntry) :=
  match row with
  | None => Ok None
  | Some row => decoded ← lid_mapping_row row; Ok (Some (lid_entry decoded))
  end.
Definition get_lid_mapping (l : string) : Run ProtoDb (option LidPnMappingEntry) :=
  row ← fetch_optional GET_LID_MAPPING binds![l; me];
  of_result (one_lid row).
Definition get_pn_mapping (phone : string) : Run ProtoDb (option LidPnMappingEntry) :=
  row ← fetch_optional GET_PN_MAPPING binds![phone; me];
  of_result (one_lid row).
Definition lid_binds (e : LidPnMappingEntry) : Binds :=
  binds![lid e; phone_number e; lid_created_at e; learning_source e; lid_updated_at e; me].
Definition put_lid_mapping (e : LidPnMappingEntry) : Run ProtoDb unit := execute PUT_LID_MAPPING (lid_binds e).
Definition get_all_lid_mappings : Run ProtoDb (list LidPnMappingEntry) :=
  rows ← fetch_all GET_ALL_LID_MAPPINGS binds![me];
  of_result (mapM (fun row => decoded ← lid_mapping_row row; Ok (lid_entry decoded)) rows).
Definition put_lid_mappings (entries : list LidPnMappingEntry) : Run ProtoDb unit :=
  if bool_decide (entries = []) then mret tt
  else transaction (each (fun e => tx_execute PUT_LID_MAPPING (lid_binds e)) entries).

Definition save_base_key (draws : Draws) (now : Z) (address message_id : string) (base_key : bytes) : Run ProtoDb unit :=
  sealed ← seal_row backend draws "base_keys" "base_key" (joined [address; message_id]) base_key;
  execute SAVE_BASE_KEY binds![address; message_id; sealed; me; now].
Definition has_same_base_key (address message_id : string) (current : bytes) : Run ProtoDb bool :=
  row ← fetch_optional GET_BASE_KEY binds![address; message_id; me];
  stored ← of_result (first_blob debug no_column row);
  stored ← of_result (transpose (open_row backend "base_keys" "base_key" (joined [address; message_id]) <$> stored));
  mret (bool_decide (stored = Some current)).
Definition delete_base_key (address message_id : string) : Run ProtoDb unit := execute DELETE_BASE_KEY binds![address; message_id; me].
Definition delete_expired_base_keys (cutoff : Z) : Run ProtoDb Z := execute_count DELETE_EXPIRED_BASE_KEYS binds![cutoff; me].

Definition device_binds (now : Z) (record : DeviceListRecord) (json : string) : Binds :=
  binds![user record; json; timestamp record; phash record; me; now; as_i32 <$> raw_id record].
Definition update_device_list (now : Z) (record : DeviceListRecord) : Run ProtoDb unit :=
  json ← of_result (devices_json record);
  execute UPDATE_DEVICE_LIST (device_binds now record json).
Definition put_device_list_in (now : Z) (record : DeviceListRecord) : Run ProtoDb unit :=
  json ← of_result (devices_json record);
  tx_execute UPDATE_DEVICE_LIST (device_binds now record json).
Definition update_device_lists (now : Z) (records : list DeviceListRecord) : Run ProtoDb unit :=
  if bool_decide (records = []) then mret tt
  else transaction (each (put_device_list_in now) records).
Definition get_devices (u : string) : Run ProtoDb (option DeviceListRecord) :=
  row ← fetch_optional GET_DEVICES binds![u; me];
  decoded ← of_result (transpose (device_list_row <$> row));
  of_result (transpose (device_list_record <$> decoded)).
Definition get_devices_batch (users : list string) : Run ProtoDb (list DeviceListRecord) :=
  fetch_chunks SELECT_DEVICES (fun chunk => with_list binds![me] (to_value <$> chunk))
    (mapM (fun row => decoded ← device_list_row row; device_list_record decoded)) (padded_chunks users) [].
Definition delete_devices (u : string) : Run ProtoDb unit := execute DELETE_DEVICES binds![u; me].

Definition get_tc_token (jid : string) : Run ProtoDb (option TcTokenEntry) :=
  row ← fetch_optional GET_TC_TOKEN binds![jid; me];
  of_result (transpose ((fun row => tc_token_entry row 0 jid) <$> row)).
Definition put_tc_token (draws : Draws) (now : Z) (jid : string) (entry : TcTokenEntry) : Run ProtoDb unit :=
  sealed ← seal_row backend draws "tc_tokens" "token" (str_bytes jid) (token entry);
  execute PUT_TC_TOKEN binds![jid; sealed; token_timestamp entry; sender_timestamp entry; me; now].
Definition delete_tc_token (jid : string) : Run ProtoDb unit := execute DELETE_TC_TOKEN binds![jid; me].
Definition get_all_tc_token_jids : Run ProtoDb (list string) :=
  rows ← fetch_all GET_ALL_TC_TOKEN_JIDS binds![me];
  of_result (mapM (fun row => text debug no_column row 0) rows).
Definition delete_expired_tc_tokens (token_cutoff sender_cutoff : Z) : Run ProtoDb Z :=
  execute_count DELETE_EXPIRED_TC_TOKENS binds![token_cutoff; sender_cutoff; me].
Definition touch_sender_timestamp (now : Z) (jid : string) (st : Z) : Run ProtoDb unit :=
  execute TOUCH_SENDER_TIMESTAMP binds![jid; st; me; now; @nil byte].
Definition store_received (draws : Draws) (now : Z) (jid : string) (t : bytes) (ts : Z) : Run ProtoDb unit :=
  sealed ← seal_row backend draws "tc_tokens" "token" (str_bytes jid) t;
  execute STORE_RECEIVED binds![jid; sealed; ts; me; now].
Definition get_tc_tokens (jids : list string) : Run ProtoDb (list (option TcTokenEntry)) :=
  found ← fetch_chunks SELECT_TC_TOKENS (fun chunk => with_list binds![me] (to_value <$> chunk))
    (mapM (fun row => jid ← text debug no_column row 0; entry ← tc_token_entry row 1 jid; Ok (jid, entry))) (padded_chunks jids) [];
  let by_jid : gmap string TcTokenEntry := foldl (fun m x => <[x.1 := x.2]> m) ∅ found in
  mret ((fun jid => by_jid !! jid) <$> jids).

Definition store_sent_message (draws : Draws) (now : Z) (c m : string) (payload : bytes) : Run ProtoDb unit :=
  sealed ← seal_row backend draws "sent_messages" "payload" (joined [c; m]) payload;
  execute STORE_SENT_MESSAGE binds![c; m; sealed; me; now].
(** The blob is opened before the row goes. *)
Definition take_sent_message (c m : string) : Run ProtoDb (option bytes) :=
  transaction (
    row ← tx_fetch_optional GET_SENT_MESSAGE binds![c; m; me];
    stored ← of_result (first_blob debug no_column row);
    payload ← of_result (open_sent backend c m stored);
    _ ← (if payload is Some _ then tx_execute DELETE_SENT_MESSAGE binds![c; m; me] else mret tt);
    mret payload).
Definition get_sent_message (c m : string) : Run ProtoDb (option bytes) :=
  row ← fetch_optional GET_SENT_MESSAGE binds![c; m; me];
  stored ← of_result (first_blob debug no_column row);
  of_result (open_sent backend c m stored).
Definition delete_expired_sent_messages (cutoff : Z) : Run ProtoDb Z := execute_count DELETE_EXPIRED_SENT_MESSAGES binds![cutoff; me].

Definition put_msg_secrets (draws : nat -> Draws) (entries : list MsgSecretEntry) : Run ProtoDb nat :=
  if bool_decide (entries = []) then mret 0%nat
  else
    _ ← transaction (each (fun '(i, e) =>
      sealed ← seal_row backend (draws i) "msg_secrets" "secret" (secret_row (chat e) (sender e) (msg_id e)) (secret e);
      tx_execute PUT_MSG_SECRET binds![chat e; sender e; msg_id e; sealed; expires_at e; message_ts e; me]) (imap pair entries));
    mret (length entries).
Definition get_msg_secret (c s m : string) : Run ProtoDb (option bytes) :=
  row ← fetch_optional GET_MSG_SECRET binds![c; s; m; me];
  stored ← of_result (first_blob debug no_column row);
  of_result (transpose (open_row backend "msg_secrets" "secret" (secret_row c s m) <$> stored)).
Definition get_stored_msg_secret (c s m : string) : Run ProtoDb (option StoredMessageSecret) :=
  row ← fetch_optional GET_MSG_SECRET_WITH_TS binds![c; s; m; me];
  of_result (transpose ((fun row =>
    stored ← blob debug no_column row 0;
    plain ← open_row backend "msg_secrets" "secret" (secret_row c s m) stored;
    ts ← int debug no_column row 1;
    from_stored_bytes plain ts) <$> row)).
Definition delete_expired_msg_secrets (cutoff : Z) : Run ProtoDb Z := execute_count DELETE_EXPIRED_MSG_SECRETS binds![cutoff; me].
End protocol.

(** ** Every call *)

Create HintDb protocol.

Section calls.
Context `{driver : Driver} {laws : DriverLaws driver} `{crypto : Crypto} `{lib : Wacore} (constraint : StoreError).
Context (debug : Value -> string) (no_column : nat -> TursoError) (cipher : BlobCipher).

Definition turso_proto_run (call : ProtoCall) : Run ProtoDb ProtoReply :=
  let b := MkBackend (pc_device call) cipher in
  let draws := pc_draws call in
  match pc_op call with
  | GetSkd g => answer RFlags (get_sender_key_devices debug no_column b g)
  | SetSkd now g l => done (set_sender_key_status constraint b now g l)
  | ClearSkd g => done (clear_sender_key_devices b g)
  | DeleteSkdRows l => done (delete_sender_key_device_rows b l)
  | ClearAllSkd => done (clear_all_sender_key_devices b)
  | GetLid l => answer RLid (get_lid_mapping debug no_column b l)
  | GetPn phone => answer RLid (get_pn_mapping debug no_column b phone)
  | PutLid e => done (put_lid_mapping constraint b e)
  | GetAllLid => answer RLids (get_all_lid_mappings debug no_column b)
  | PutLids l => done (put_lid_mappings constraint b l)
  | SaveBase now a m k => done (save_base_key constraint b (draws 0%nat) now a m k)
  | HasSameBase a m k => answer RBool (has_same_base_key debug no_column b a m k)
  | DeleteBase a m => done (delete_base_key b a m)
  | ExpireBase cutoff => answer RCount (delete_expired_base_keys b cutoff)
  | UpdateDevices now r => done (update_device_list constraint b now r)
  | UpdateDeviceLists now l => done (update_device_lists constraint b now l)
  | GetDevices u => answer RDevices (get_devices debug no_column b u)
  | GetDevicesBatch l => answer RDeviceLists (get_devices_batch debug no_column b l)
  | DeleteDevices u => done (delete_devices b u)
  | GetTc j => answer RTc (get_tc_token debug no_column b j)
  | PutTc now j e => done (put_tc_token constraint b (draws 0%nat) now j e)
  | DeleteTc j => done (delete_tc_token b j)
  | AllTcJids => answer RJids (get_all_tc_token_jids debug no_column b)
  | ExpireTc a c => answer RCount (delete_expired_tc_tokens b a c)
  | TouchTc now j st => done (touch_sender_timestamp constraint b now j st)
  | ReceiveTc now j t ts => done (store_received constraint b (draws 0%nat) now j t ts)
  | GetTcs l => answer RTcs (get_tc_tokens debug no_column b l)
  | StoreSent now c m p => done (store_sent_message constraint b (draws 0%nat) now c m p)
  | TakeSent c m => answer RBytes (take_sent_message debug no_column b c m)
  | GetSent c m => answer RBytes (get_sent_message debug no_column b c m)
  | ExpireSent cutoff => answer RCount (delete_expired_sent_messages b cutoff)
  | PutSecrets l => answer (fun n => RCount (Z.of_nat n)) (put_msg_secrets constraint b draws l)
  | GetSecret c s m => answer RBytes (get_msg_secret debug no_column b c s m)
  | GetStoredSecret c s m => answer RSecret (get_stored_msg_secret debug no_column b c s m)
  | ExpireSecrets cutoff => answer RCount (delete_expired_msg_secrets b cutoff)
  end.

(** ** As the sql family's *)

(** The columns that are read as [i32]s hold them, as every write leaves them. *)
Definition proto_i32 (d : ProtoDb) : Prop :=
  map_Forall (fun _ row => in_i32 row.1) (sender_key_devices d) /\
  map_Forall (fun _ row => from_option in_i32 True (dr_raw row)) (device_registry d).

#[local] Hint Unfold set_sender_key_status clear_sender_key_devices delete_sender_key_device_rows clear_all_sender_key_devices
  put_lid_mapping put_lid_mappings lid_binds save_base_key delete_base_key delete_expired_base_keys delete_devices put_tc_token delete_tc_token delete_expired_tc_tokens touch_sender_timestamp store_received
  store_sent_message delete_expired_sent_messages put_msg_secrets delete_expired_msg_secrets execute_count : protocol.
#[local] Hint Unfold ProtocolSpec.done answer ProtocolStore.set_sender_key_status ProtocolStore.clear_sender_key_devices
  ProtocolStore.delete_sender_key_device_rows ProtocolStore.clear_all_sender_key_devices ProtocolStore.put_lid_mapping
  ProtocolStore.put_lid_mappings put_lid_stmt ProtocolStore.save_base_key ProtocolStore.delete_base_key
  ProtocolStore.delete_expired_base_keys ProtocolStore.delete_devices ProtocolStore.put_tc_token ProtocolStore.delete_tc_token
  ProtocolStore.delete_expired_tc_tokens ProtocolStore.touch_sender_timestamp ProtocolStore.store_received
  ProtocolStore.store_sent_message ProtocolStore.delete_expired_sent_messages ProtocolStore.put_msg_secrets
  ProtocolStore.delete_expired_msg_secrets ProtocolStore.execute_count : protocol.
#[local] Hint Unfold get_lid_mapping get_pn_mapping has_same_base_key get_devices get_tc_token get_sent_message get_msg_secret
  get_stored_msg_secret ProtocolStore.get_lid_mapping ProtocolStore.get_pn_mapping ProtocolStore.has_same_base_key
  ProtocolStore.get_devices ProtocolStore.get_tc_token ProtocolStore.get_sent_message ProtocolStore.get_msg_secret
  ProtocolStore.get_stored_msg_secret : protocol.

Lemma lid_values_read row : lid_mapping_row debug no_column (lid_values row) = Ok row.
Proof using laws. by destruct row as [[[[? ?] ?] ?] ?]. Qed.

Lemma device_values_read d u row :
  proto_i32 d -> device_registry d !! u = Some row ->
  device_list_row debug no_column (device_values (device_row u.1 row)) = Ok (device_row u.1 row).
Proof using laws.
  intros [_ Hd] Hr. specialize (Hd u row). destruct row as [json ts ph upd raw]. unfold device_list_row, device_row. cbn.
  destruct ph as [ph|]; cbn; (destruct raw as [raw|]; cbn; [|done]);
    unfold opt_int32; cbn; (rewrite i32_reads; [done|by apply (Hd Hr)]).
Qed.

Lemma get_skd_twin b g w :
  proto_i32 (db w) -> get_sender_key_devices debug no_column b g w = ProtocolStore.get_sender_key_devices b g w.
Proof using laws.
  intros [Hw _]. eapply fetch_all_agree; [by_number|]. intros w' _. unfold of_result.
  rewrite (decode_pure _ _ (fun '(jid, has) => (jid, negb (has =? 0)))); [done|]. intros [j has] Hin.
  apply list_elem_of_omap in Hin as ([[[g' j'] device] row] & Hrow & Hk). case_decide; [|done]. injection Hk as -> <-.
  apply elem_of_map_to_list, Hw in Hrow. unfold sender_key_device, int32. cbn. by rewrite i32_reads.
Qed.

Lemma get_all_lid_twin b w : get_all_lid_mappings debug no_column b w = ProtocolStore.get_all_lid_mappings b w.
Proof using laws.
  eapply fetch_all_agree; [by_number|]. intros w' _. unfold of_result.
  rewrite (decode_pure _ _ lid_entry); [done|]. intros row _. by rewrite lid_values_read.
Qed.

Lemma all_tc_jids_twin b w : get_all_tc_token_jids debug no_column b w = ProtocolStore.get_all_tc_token_jids b w.
Proof using laws.
  transitivity ((l ← ProtocolStore.get_all_tc_token_jids b; mret ((fun x => x) <$> l)) w); [|apply run_fmap_id].
  eapply fetch_all_agree; [by_number|]. intros w' _. unfold of_result. by rewrite (decode_pure _ _ (fun x => x)).
Qed.

Lemma get_devices_batch_twin b l w :
  proto_i32 (db w) -> get_devices_batch debug no_column b l w = ProtocolStore.get_devices_batch b l w.
Proof using laws.
  intros Hw. unfold get_devices_batch, ProtocolStore.get_devices_batch. change (@nil DeviceListRecord) with ((@nil (string * DeviceListRecord)).*2).
  apply (fetch_chunks_agree _ _ _ (fun chunk d => device_values <$> ProtocolStore.SELECT_DEVICES b chunk d)).
  - eapply Forall_impl; [apply padded_chunk_length|]. intros chunk Hl d. rewrite prepared_list by (done || by vm_compute).
    cbn. by rewrite texts_of_list.
  - intros chunk. apply decode_agree. intros row Hin.
    apply list_elem_of_omap in Hin as ([[u device] stored] & Hrow & Hk). case_decide; [|done]. injection Hk as <-.
    apply elem_of_map_to_list in Hrow. cbn [fst snd]. rewrite (device_values_read (db w) (u, device)) by done. cbn.
    by destruct (of_json _).
Qed.

Lemma tc_values_read b first jid row pre :
  length pre = first -> tc_token_entry debug no_column b (pre ++ tc_values row) first jid = tc_entry b jid row.
Proof using laws.
  destruct row as [[t ts] st]. intros Hp. unfold tc_token_entry, tc_entry, blob, int, opt_int, get_value, tc_values.
  rewrite !lookup_app_r by lia. replace (first - length pre)%nat with 0%nat by lia. replace (first + 1 - length pre)%nat with 1%nat by lia.
  replace (first + 2 - length pre)%nat with 2%nat by lia. cbn. destruct (open_row _ _ _ _ _); [|done]. cbn. by destruct st.
Qed.

Lemma get_tc_tokens_twin b l w : get_tc_tokens debug no_column b l w = ProtocolStore.get_tc_tokens b l w.
Proof using laws.
  unfold get_tc_tokens, ProtocolStore.get_tc_tokens. apply bind_agree; [|done].
  etransitivity; [|apply run_fmap_id]. change (@nil (string * TcTokenEntry)) with ((fun x => x) <$> @nil (string * TcTokenEntry)) at 1.
  apply (fetch_chunks_agree _ _ _ (fun chunk d => (fun row => Text row.1 :: tc_values row.2) <$> ProtocolStore.SELECT_TC_TOKENS b chunk d)).
  - eapply Forall_impl; [apply padded_chunk_length|]. intros chunk Hl d. rewrite prepared_list by (done || by vm_compute).
    cbn. by rewrite texts_of_list.
  - intros chunk. apply decode_agree. intros [jid row] _. cbn [fst snd]. unfold text at 1. cbn.
    change (Text jid :: tc_values row) with ([Text jid] ++ tc_values row). rewrite tc_values_read by done. by destruct (tc_entry b jid row).
Qed.

(** What the account's row holds opens, or there is none. *)
Definition sent_opens (b : Backend) (c m : string) (d : ProtoDb) : Prop :=
  is_ok (open_sent b c m (ProtocolStore.GET_SENT_MESSAGE b c m d)) = true.

(** The deletion and what comes after, from a row that opens. *)
Lemma take_body b c m w :
  sent_opens b c m (db w) ->
  (row ← tx_fetch_optional GET_SENT_MESSAGE binds![c; m; backend_device b];
   stored ← of_result (first_blob debug no_column row);
   payload ← of_result (open_sent b c m stored);
   _ ← (if payload is Some _ then tx_execute DELETE_SENT_MESSAGE binds![c; m; backend_device b] else mret tt);
   mret payload) w =
  (payload ← stmt (fun d => (Ok (ProtocolStore.GET_SENT_MESSAGE b c m d), d));
   _ ← (if payload is Some _ then stmt (ProtocolStore.DELETE_SENT_MESSAGE b c m) else mret tt);
   of_result (open_sent b c m payload)) w.
Proof using laws.
  intros Hw. apply (fetch_row_agree (fun stored => [Blob stored])); [by_number| |done].
  intros stored w' _ Hs. unfold sent_opens in Hw. rewrite Hs in Hw. unfold of_result, mbind, run_bind. cbn in *.
  destruct (open_row _ _ _ _ _) as [plain|e]; [|done]. cbn.
  assert (Hd : tx_execute DELETE_SENT_MESSAGE binds![c; m; backend_device b] w' = stmt (ProtocolStore.DELETE_SENT_MESSAGE b c m) w') by agree.
  rewrite Hd. by destruct (stmt _ w') as [[]].
Qed.

Lemma take_sent_twin b c m w :
  faults w = [] \/ sent_opens b c m (db w) ->
  take_sent_message debug no_column b c m w = ProtocolStore.take_sent_message b c m w.
Proof using laws.
  intros Hw. destruct (is_ok (open_sent b c m (ProtocolStore.GET_SENT_MESSAGE b c m (db w)))) eqn:Ho.
  - apply transaction_agree. intros w' Hw'. apply take_body. by rewrite Hw'.
  - destruct Hw as [Hw|Hw]; [|unfold sent_opens in Hw; congruence]. destruct w as [d fs]. cbn in Hw, Ho. subst fs.
    unfold take_sent_message, ProtocolStore.take_sent_message, transaction, stmt at 1, stmt at 1. cbn.
    unfold mbind, run_bind, of_result. unfold tx_fetch_optional, tx_fetch_all, mbind, run_bind, stmt, prepared.
    rewrite bound_rewritten by (vm_compute; reflexivity). cbn.
    destruct (ProtocolStore.GET_SENT_MESSAGE _ _ _ d) as [stored|] eqn:E; [|done].
    change (ProtocolStore.GET_SENT_MESSAGE (at_device (backend_device b)) c m d) with (ProtocolStore.GET_SENT_MESSAGE b c m d) in *.
    cbn in *. destruct (open_row _ _ _ _ _) as [plain|e]; done.
Qed.

(** The device list, NULL columns included. *)
Lemma device_list_twin b now record json d :
  prepared (UPDATE_DEVICE_LIST constraint) (device_binds b now record json) d = device_list_stmt constraint b now record json d.
Proof using laws. destruct record as [u l ts [ph|] [raw|]]; by_number. Qed.

Lemma update_device_lists_twin b now l w : update_device_lists constraint b now l w = ProtocolStore.update_device_lists constraint b now l w.
Proof using laws.
  unfold update_device_lists, ProtocolStore.update_device_lists. destruct (bool_decide _); [done|].
  apply transaction_agree. intros w1 _. apply each_agree. intros record w2. apply bind_agree; [done|]. intros json w3 _.
  apply stmt_agree, device_list_twin.
Qed.

(** Every call answers, and leaves the database, as the sql family's; taking a sent message that
    does not open does when no statement fails. *)
Lemma proto_twin call w :
  proto_i32 (db w) ->
  (forall c m, pc_op call = TakeSent c m -> faults w = [] \/ sent_opens (MkBackend (pc_device call) cipher) c m (db w)) ->
  turso_proto_run call w = proto_run constraint cipher call w.
Proof using laws.
  destruct call as [device draws op]. intros Hw Ht. unfold turso_proto_run, proto_run. cbn [pc_device pc_draws pc_op] in *.
  destruct op; cbn beta iota;
    lazymatch goal with
    | |- answer _ (get_sender_key_devices _ _ _ _) _ = _ => apply bind_agree; [by apply get_skd_twin|done]
    | |- answer _ (get_all_lid_mappings _ _ _) _ = _ => apply bind_agree; [by apply get_all_lid_twin|done]
    | |- answer _ (get_all_tc_token_jids _ _ _) _ = _ => apply bind_agree; [by apply all_tc_jids_twin|done]
    | |- answer _ (get_devices_batch _ _ _ _) _ = _ => apply bind_agree; [by apply get_devices_batch_twin|done]
    | |- answer _ (get_tc_tokens _ _ _ _) _ = _ => apply bind_agree; [by apply get_tc_tokens_twin|done]
    | |- answer _ (take_sent_message _ _ _ _ _) _ = _ => apply bind_agree; [by apply take_sent_twin, Ht|done]
    | |- answer _ (get_lid_mapping _ _ _ _) _ = _ => autounfold with protocol; agree_row lid_values
    | |- answer _ (get_pn_mapping _ _ _ _) _ = _ => autounfold with protocol; agree_row lid_values
    | |- answer _ (get_devices _ _ _ _) _ = _ => autounfold with protocol
    | |- done (update_device_list _ _ _ _) _ = _ =>
        apply bind_agree; [apply bind_agree; [done|intros ? ? _; apply execute_agree, device_list_twin]|done]
    | |- done (update_device_lists _ _ _ _) _ = _ => apply bind_agree; [by apply update_device_lists_twin|done]
    | |- done (put_tc_token _ _ _ _ _ ?e) _ = _ => destruct e as [? ? []]; autounfold with protocol; agree
    | |- answer _ (get_tc_token _ _ _ _) _ = _ => autounfold with protocol; agree_row tc_values
    | |- answer _ (get_stored_msg_secret _ _ _ _ _ _) _ = _ =>
        autounfold with protocol; agree_row (fun row : bytes * Z => [Blob row.1; Integer row.2])
    | |- answer _ (has_same_base_key _ _ _ _ _ _) _ = _ => autounfold with protocol; by agree_row (fun b => [Blob b])
    | |- answer _ (get_sent_message _ _ _ _ _) _ = _ => autounfold with protocol; by agree_row (fun b => [Blob b])
    | |- answer _ (get_msg_secret _ _ _ _ _ _) _ = _ => autounfold with protocol; by agree_row (fun b => [Blob b])
    | |- _ => autounfold with protocol; agree
    end.
  - unfold of_result, one_lid. by rewrite lid_values_read.
  - unfold of_result, one_lid. by rewrite lid_values_read.
  - apply bind_agree; [|done]. apply (fetch_row_agree device_values); [by_number| |done].
    intros row w' _ Hr. unfold ProtocolStore.GET_DEVICES in Hr. apply fmap_Some in Hr as (stored & Hs & ->).
    pose proof (device_values_read (db w) (u, device) stored Hw Hs) as Hv. cbn [fst] in Hv.
    unfold of_result, mbind, run_bind. cbn [fmap option_fmap option_map transpose]. by rewrite Hv.
  - change (tc_values a) with ([] ++ tc_values a). unfold of_result. cbn [fmap option_fmap option_map]. by rewrite tc_values_read.
  - destruct a as [stored ts]. unfold of_result. cbn. by destruct (open_row _ _ _ _ _).
Qed.
End calls.
