(* ===== verification/TursoAppSync.v ===== *)
(** * App state and the device on Turso (storage/turso/app_sync_store.rs, app_sync_sql.rs,
      device_store.rs)

    Method for method the sql family's, with positional binds and rows of values.  At the end,
    every call answers and writes as [AppSyncStore]'s. *)

From S2P Require Import Prelude StoreError Database StoreKey BlobCipher BatchChunks Refinement Backend BlobCodec AppSyncStore AppSyncSpec Turso.

Section app_sync.
Context `{driver : Driver} `{crypto : Crypto} `{keys : Keys} `{!Message DeviceBlob} `{!Message HashStateWire} `{!Message AppStateSyncKeyWire}.
Context (constraint : StoreError).
Context (debug : Value -> string) (no_column : nat -> TursoError).
Context (backend : Backend).

Let me : Z := backend_device backend.

(** ** The texts (statements/app_sync.rs, statements/device.rs) *)

Definition GET_SYNC_KEY : Statement AppDb (list Row) := MkStatement
  "SELECT key_data FROM app_state_keys WHERE key_id = $1 AND device_id = $2"
  (fun v => match v with
    | [Blob id; Integer dev] => reads (fun d => option_list ((fun b => [Blob b]) <$> AppSyncStore.GET_SYNC_KEY (at_device dev) id d))
    | _ => mistyped
    end).
Definition SET_SYNC_KEY : Statement AppDb unit := MkStatement
  "INSERT INTO app_state_keys (key_id, key_data, device_id) VALUES ($1, $2, $3)
             ON CONFLICT (key_id, device_id) DO UPDATE SET key_data = EXCLUDED.key_data"
  (fun v => match v with
    | [Blob id; Blob b; Integer dev] => AppSyncStore.SET_SYNC_KEY constraint (at_device dev) id b
    | _ => mistyped
    end).
Definition LATEST_SYNC_KEY_ID : Statement AppDb (list Row) := MkStatement
  "SELECT key_id FROM app_state_keys WHERE device_id = $1 ORDER BY key_id DESC LIMIT 1"
  (fun v => match v with
    | [Integer dev] => reads (fun d => option_list ((fun b => [Blob b]) <$> AppSyncStore.LATEST_SYNC_KEY_ID (at_device dev) d))
    | _ => mistyped
    end).

Definition GET_VERSION : Statement AppDb (list Row) := MkStatement
  "SELECT state_data FROM app_state_versions WHERE name = $1 AND device_id = $2"
  (fun v => match v with
    | [Text n; Integer dev] => reads (fun d => option_list ((fun b => [Blob b]) <$> AppSyncStore.GET_VERSION (at_device dev) n d))
    | _ => mistyped
    end).
Definition DELETE_VERSION : Statement AppDb unit := MkStatement
  "DELETE FROM app_state_versions WHERE name = $1 AND device_id = $2"
  (fun v => match v with [Text n; Integer dev] => AppSyncStore.DELETE_VERSION (at_device dev) n | _ => mistyped end).
Definition SET_VERSION : Statement AppDb unit := MkStatement
  "INSERT INTO app_state_versions (name, state_data, device_id) VALUES ($1, $2, $3)
     ON CONFLICT (name, device_id) DO UPDATE SET state_data = EXCLUDED.state_data"
  (fun v => match v with
    | [Text n; Blob b; Integer dev] => AppSyncStore.SET_VERSION constraint (at_device dev) n b
    | _ => mistyped
    end).

Definition PUT_MUTATION_MAC : Statement AppDb unit := MkStatement
  "INSERT INTO app_state_mutation_macs (name, version, index_mac, value_mac, device_id)
     VALUES ($1, $2, $3, $4, $5)
     ON CONFLICT (name, index_mac, device_id)
     DO UPDATE SET version = EXCLUDED.version, value_mac = EXCLUDED.value_mac"
  (fun v => match v with
    | [Text n; Integer version; Blob index; Blob value; Integer dev] =>
        AppSyncStore.PUT_MUTATION_MAC constraint (at_device dev) n version index value
    | _ => mistyped
    end).
Definition GET_MUTATION_MAC : Statement AppDb (list Row) := MkStatement
  "SELECT value_mac FROM app_state_mutation_macs
             WHERE name = $1 AND index_mac = $2 AND device_id = $3"
  (fun v => match v with
    | [Text n; Blob index; Integer dev] =>
        reads (fun d => option_list ((fun b => [Blob b]) <$> AppSyncStore.GET_MUTATION_MAC (at_device dev) n index d))
    | _ => mistyped
    end).
Definition DELETE_MUTATION_MAC : Statement AppDb unit := MkStatement
  "DELETE FROM app_state_mutation_macs
     WHERE name = $1 AND index_mac = $2 AND device_id = $3"
  (fun v => match v with [Text n; Blob index; Integer dev] => AppSyncStore.DELETE_MUTATION_MAC (at_device dev) n index | _ => mistyped end).
Definition CLEAR_MUTATION_MACS : Statement AppDb unit := MkStatement
  "DELETE FROM app_state_mutation_macs WHERE name = $1 AND device_id = $2"
  (fun v => match v with [Text n; Integer dev] => AppSyncStore.CLEAR_MUTATION_MACS (at_device dev) n | _ => mistyped end).
Definition SELECT_MUTATION_MACS : Statement AppDb (list Row) := MkStatement
  ("SELECT index_mac, value_mac FROM app_state_mutation_macs
         WHERE name = $1 AND device_id = $2 AND index_mac IN (" +:+ in_placeholders 3 READ_CHUNK +:+ ")")
  (fun v => match v with
    | Text n :: Integer dev :: list =>
        reads (fun d => (fun row => [Blob row.1; Blob row.2]) <$> AppSyncStore.SELECT_MUTATION_MACS (at_device dev) n (omap blob_of list) d)
    | _ => mistyped
    end).

Definition SAVE_DEVICE : Statement AppDb unit := MkStatement
  "INSERT INTO device (device_id, data) VALUES ($1, $2)
     ON CONFLICT (device_id) DO UPDATE SET data = EXCLUDED.data"
  (fun v => match v with [Integer dev; Blob b] => AppSyncStore.SAVE_DEVICE constraint (at_device dev) b | _ => mistyped end).
Definition LOAD_DEVICE : Statement AppDb (list Row) := MkStatement
  "SELECT data FROM device WHERE device_id = $1"
  (fun v => match v with
    | [Integer dev] => reads (fun d => option_list ((fun b => [Blob b]) <$> AppSyncStore.LOAD_DEVICE (at_device dev) d))
    | _ => mistyped
    end).
Definition DEVICE_EXISTS : Statement AppDb (list Row) := MkStatement
  "SELECT EXISTS(SELECT 1 FROM device WHERE device_id = $1)"
  (fun v => match v with
    | [Integer dev] => reads (fun d => option_list (Some [Integer (Z.b2z (AppSyncStore.DEVICE_EXISTS (at_device dev) d))]))
    | _ => mistyped
    end).
Definition CREATE_DEVICE : Statement AppDb unit := MkStatement
  "INSERT INTO device (device_id, data) VALUES ($1, $2)
     ON CONFLICT (device_id) DO NOTHING"
  (fun v => match v with [Integer dev; Blob b] => AppSyncStore.CREATE_DEVICE constraint (at_device dev) b | _ => mistyped end).

(** ** Operations *)

Definition get_sync_key (key_id : bytes) : Run AppDb (option AppStateSyncKey) :=
  row ← fetch_optional GET_SYNC_KEY binds![key_id; me];
  stored ← of_result (first_blob debug no_column row);
  of_result (transpose ((fun stored =>
    plain ← open_row backend "app_state_keys" "key_data" key_id stored;
    decode_app_state_sync_key plain) <$> stored)).
Definition set_sync_key (draws : Draws) (key_id : bytes) (key : AppStateSyncKey) : Run AppDb unit :=
  data ← seal_row backend draws "app_state_keys" "key_data" key_id (encode_app_state_sync_key key);
  execute SET_SYNC_KEY binds![key_id; data; me].
Definition get_latest_sync_key_id : Run AppDb (option bytes) :=
  row ← fetch_optional LATEST_SYNC_KEY_ID binds![me];
  of_result (first_blob debug no_column row).

Definition get_version (name : string) : Run AppDb (option HashState) :=
  row ← fetch_optional GET_VERSION binds![name; me];
  stored ← of_result (first_blob debug no_column row);
  of_result (transpose ((fun stored =>
    plain ← open_row backend "app_state_versions" "state_data" (str_bytes name) stored;
    decode_hash_state plain) <$> stored)).
Definition delete_version (name : string) : Run AppDb unit := execute DELETE_VERSION binds![name; me].
Definition set_version (draws : Draws) (name : string) (state : HashState) : Run AppDb unit :=
  data ← seal_row backend draws "app_state_versions" "state_data" (str_bytes name) (encode_hash_state state);
  execute SET_VERSION binds![name; data; me].

Definition put_macs_in (draws : nat -> Draws) (name : string) (version : Z) (added : list MutationMac) : Run AppDb unit :=
  each (fun '(i, m) =>
    value ← seal_mac backend (draws i) name (index_mac m) (value_mac m);
    tx_execute PUT_MUTATION_MAC binds![name; as_i64 version; index_mac m; value; me]) (imap pair added).
Definition delete_macs_in (name : string) (index_macs : list bytes) : Run AppDb unit :=
  each (fun index => tx_execute DELETE_MUTATION_MAC binds![name; index; me]) index_macs.
Definition put_mutation_macs (draws : nat -> Draws) (name : string) (version : Z) (mutations : list MutationMac) : Run AppDb unit :=
  transaction (put_macs_in draws name version mutations).
Definition get_mutation_mac (name : string) (index : bytes) : Run AppDb (option bytes) :=
  row ← fetch_optional GET_MUTATION_MAC binds![name; index; me];
  stored ← of_result (first_blob debug no_column row);
  of_result (transpose (open_mac backend name index <$> stored)).
Definition delete_mutation_macs (name : string) (index_macs : list bytes) : Run AppDb unit :=
  transaction (delete_macs_in name index_macs).
Definition clear_mutation_macs (name : string) : Run AppDb unit := execute CLEAR_MUTATION_MACS binds![name; me].

(** The rows of a chunk: one whose index is not 32 bytes is passed over. *)
Fixpoint read_macs (name : string) (rows : list Row) : StoreResult (list (bytes * bytes)) :=
  match rows with
  | [] => Ok []
  | row :: rows =>
      index ← blob debug no_column row 0;
      if (length index =? 32)%nat then
        stored ← blob debug no_column row 1;
        mac ← open_mac backend name index stored;
        rest ← read_macs name rows;
        Ok ((index, mac) :: rest)
      else read_macs name rows
  end.
Definition get_mutation_macs (name : string) (index_macs : list bytes) : Run AppDb (gmap bytes bytes) :=
  found ← fetch_chunks SELECT_MUTATION_MACS (fun chunk => with_list binds![name; me] (to_value <$> chunk))
    (read_macs name) (padded_chunks index_macs) [];
  mret (foldl (fun m x => <[x.1 := x.2]> m) ∅ found).

Definition commit_patch (draws : nat -> Draws) (name : string) (state : HashState)
    (removed : list bytes) (added : list MutationMac) : Run AppDb unit :=
  data ← seal_row backend (draws 0%nat) "app_state_versions" "state_data" (str_bytes name) (encode_hash_state state);
  transaction (
    _ ← tx_execute SET_VERSION binds![name; data; me];
    _ ← delete_macs_in name removed;
    put_macs_in (fun i => draws (S i)) name (hs_version state) added).

Definition save (draws : Draws) (device : Device) : Run AppDb unit :=
  data ← seal_row backend draws "device" "data" [] (encode_device device);
  execute SAVE_DEVICE binds![me; data].
Definition load : Run AppDb (option Device) :=
  row ← fetch_optional LOAD_DEVICE binds![me];
  stored ← of_result (first_blob debug no_column row);
  of_result (transpose ((fun stored =>
    plain ← open_row backend "device" "data" [] stored; decode_device plain) <$> stored)).
Definition exists_device : Run AppDb bool :=
  row ← fetch_optional DEVICE_EXISTS binds![me];
  found ← of_result (transpose ((fun row => int debug no_column row 0) <$> row));
  mret (bool_decide (found = Some 1)).
Definition create (draws : Draws) (fresh : Device) : Run AppDb Z :=
  data ← seal_row backend draws "device" "data" [] (encode_device fresh);
  _ ← execute CREATE_DEVICE binds![me; data];
  mret me.
End app_sync.

(** ** Every call *)

Create HintDb app_sync.

Section calls.
Context `{driver : Driver} {laws : DriverLaws driver} `{crypto : Crypto} `{keys : Keys} `{!Message DeviceBlob} `{!Message HashStateWire} `{!Message AppStateSyncKeyWire}.
Context (constraint : StoreError) (debug : Value -> string) (no_column : nat -> TursoError) (cipher : BlobCipher).

Definition turso_app_run (call : AppCall) : Run AppDb AppReply :=
  let b := MkBackend (ac_device call) cipher in
  let draws := ac_draws call in
  match ac_op call with
  | GetSyncKey id => answered AKey (get_sync_key debug no_column b id)
  | SetSyncKey id k => ok_unit (set_sync_key constraint b (draws 0%nat) id k)
  | LatestSyncKeyId => answered ABytes (get_latest_sync_key_id debug no_column b)
  | GetVersion n => answered AState (get_version debug no_column b n)
  | DeleteVersion n => ok_unit (delete_version b n)
  | SetVersion n st => ok_unit (set_version constraint b (draws 0%nat) n st)
  | PutMacs n v l => ok_unit (put_mutation_macs constraint b draws n v l)
  | GetMac n i => answered ABytes (get_mutation_mac debug no_column b n i)
  | DeleteMacs n l => ok_unit (delete_mutation_macs b n l)
  | ClearMacs n => ok_unit (clear_mutation_macs b n)
  | GetMacs n l => answered AMacs (get_mutation_macs debug no_column b n l)
  | CommitPatch n st removed added => ok_unit (commit_patch constraint b draws n st removed added)
  | SaveDevice d => ok_unit (save constraint b (draws 0%nat) d)
  | LoadDevice => answered ADevice (load debug no_column b)
  | DeviceExists => answered ABool (exists_device debug no_column b)
  | CreateDevice d => answered AId (create constraint b (draws 0%nat) d)
  end.

#[local] Hint Unfold get_sync_key set_sync_key get_latest_sync_key_id get_version delete_version set_version put_macs_in delete_macs_in
  put_mutation_macs get_mutation_mac delete_mutation_macs clear_mutation_macs commit_patch save load create answered ok_unit : app_sync.
#[local] Hint Unfold AppSyncStore.get_sync_key AppSyncStore.set_sync_key AppSyncStore.get_latest_sync_key_id AppSyncStore.get_version
  AppSyncStore.delete_version AppSyncStore.set_version AppSyncStore.put_macs_in AppSyncStore.delete_macs_in
  AppSyncStore.put_mutation_macs AppSyncStore.get_mutation_mac AppSyncStore.delete_mutation_macs AppSyncStore.clear_mutation_macs
  AppSyncStore.commit_patch AppSyncStore.save AppSyncStore.load AppSyncStore.create : app_sync.

Lemma read_macs_agree b name rows :
  read_macs debug no_column b name ((fun row : bytes * bytes => [Blob row.1; Blob row.2]) <$> rows) =
  mapM (fun '(index, stored) => mac ← open_mac b name index stored; Ok (index, mac)) (filter (fun row => length row.1 = 32%nat) rows).
Proof using laws.
  induction rows as [|[index stored] rows IH]; [done|]. cbn [fmap list_fmap fst snd read_macs]. rewrite filter_cons. cbn.
  destruct (Nat.eqb_spec (length index) 32) as [E|E]; [rewrite decide_True by done|rewrite decide_False by done; apply IH].
  cbn. destruct (open_mac b name index stored); [|done]. cbn. by rewrite IH.
Qed.

Lemma get_macs_twin b n l w : get_mutation_macs debug no_column b n l w = AppSyncStore.get_mutation_macs b n l w.
Proof using laws.
  unfold get_mutation_macs, AppSyncStore.get_mutation_macs. apply bind_agree; [|done].
  etransitivity; [|apply run_fmap_id]. change (@nil (bytes * bytes)) with ((fun x => x) <$> @nil (bytes * bytes)) at 1.
  apply (fetch_chunks_agree _ _ _ (fun chunk d => (fun row => [Blob row.1; Blob row.2]) <$> AppSyncStore.SELECT_MUTATION_MACS b n chunk d)).
  - eapply Forall_impl; [apply padded_chunk_length|]. intros chunk Hl d. rewrite prepared_list by (done || by vm_compute).
    cbn. by rewrite blobs_of_list.
  - intros chunk. rewrite read_macs_agree. destruct (mapM _ _); [|done]. cbn. by rewrite list_fmap_id.
Qed.

Lemma exists_twin b w : exists_device debug no_column b w = AppSyncStore.exists_device b w.
Proof using laws.
  transitivity ((found ← query (AppSyncStore.DEVICE_EXISTS b); mret found) w).
  - apply (fetch_optional_agree _ _ (fun d => Some [Integer (Z.b2z (AppSyncStore.DEVICE_EXISTS b d))])); [by_number|].
    intros w' _. cbn. unfold of_result, mbind, run_bind. cbn. by destruct (AppSyncStore.DEVICE_EXISTS b (db w)).
  - unfold AppSyncStore.exists_device, mbind, run_bind. by destruct (query _ w) as [[]].
Qed.

Lemma latest_twin b w : get_latest_sync_key_id debug no_column b w = AppSyncStore.get_latest_sync_key_id b w.
Proof using laws.
  transitivity ((found ← query (AppSyncStore.LATEST_SYNC_KEY_ID b); mret found) w).
  - by apply (fetch_row_agree (fun b => [Blob b])); [by_number|..].
  - unfold AppSyncStore.get_latest_sync_key_id, mbind, run_bind. by destruct (query _ w) as [[]].
Qed.

(** Every call answers, and leaves the database, as the sql family's. *)
Lemma app_twin call w : turso_app_run call w = app_run constraint cipher call w.
Proof using laws.
  destruct call as [device draws op]. unfold turso_app_run, app_run. cbn [ac_device ac_draws ac_op].
  destruct op; cbn beta iota;
    lazymatch goal with
    | |- answered _ (get_mutation_macs _ _ _ _ _) _ = _ => apply bind_agree; [by apply get_macs_twin|done]
    | |- answered _ (exists_device _ _ _) _ = _ => apply bind_agree; [by apply exists_twin|done]
    | |- answered _ (get_latest_sync_key_id _ _ _) _ = _ => apply bind_agree; [by apply latest_twin|done]
    | |- answered _ (create _ _ _ _) _ = _ => autounfold with app_sync; agree
    | |- answered _ _ _ = _ => autounfold with app_sync; by agree_row (fun b => [Blob b])
    | |- _ => autounfold with app_sync; agree
    end.
Qed.
End calls.
