(* ===== verification/TursoEngine.v ===== *)
(** * The engine on Turso (storage/turso/accounts.rs, mod.rs, statements/accounts.rs)

    Accounts, and the three stores of the other files, in one database.  At the end, that any
    history of operations is answered and stored as by the sql family's engine on SQLite. *)

From stdpp Require Import sorting.
From S2P Require Import Prelude StoreError Database StoreKey BlobCipher BatchChunks Refinement Backend SignalStore SignalSpec SignalProps ProtocolStore ProtocolSpec ProtocolProps BlobCodec AppSyncStore AppSyncSpec AppSyncProps Frame Engine EngineLaws EngineProps.
From S2P Require Import Turso TursoSignal TursoProtocol TursoAppSync.

(** ** Accounts (accounts.rs) *)

Section accounts.
Context `{driver : Driver} {laws : DriverLaws driver}.
(** [Uuid]'s [Display] and [parse_str]. *)
Context (uuid_to_string : Uuid -> string) (parse_str : string -> result string Uuid).
Hypothesis uuid_reads_back : forall u, parse_str (uuid_to_string u) = Ok u.
Context (constraint : StoreError) (debug : Value -> string) (no_column : nat -> TursoError).

(** A row as its columns hold it. *)
Definition account_values (row : AccountRow) : Row :=
  [ Text (uuid_to_string (row_uuid row)); from_option Text Null (external_ref row); Integer (Engine.device_id row);
    from_option Text Null (push_name row); Integer (created_at row) ].

(** The column's default is the engine's clock. *)
Definition INSERT_ACCOUNT (now : Z) : Statement EngineDb (list Row) := MkStatement
  "INSERT INTO accounts (uuid, external_ref)
     VALUES ($1, $2)
     RETURNING uuid, external_ref, device_id, push_name, created_at"
  (fun v => match v with
    | [Text uuid; external] =>
        match parse_str uuid, or_null text_of external with
        | Ok u, Some external => fun d =>
            let '(inserted, d') := Engine.INSERT_ACCOUNT constraint u external now d in
            ((fun row => [account_values row]) <$> inserted, d')
        | _, _ => mistyped
        end
    | _ => mistyped
    end).
Definition LIST_ACCOUNTS : Statement EngineDb (list Row) := MkStatement
  "SELECT uuid, external_ref, device_id, push_name, created_at
     FROM accounts ORDER BY device_id"
  (fun v => match v with
    | [] => reads (fun d => account_values <$> Engine.LIST_ACCOUNTS d)
    | _ => mistyped
    end).
Definition DELETE_ACCOUNT : Statement EngineDb Z := MkStatement
  "DELETE FROM accounts WHERE uuid = $1"
  (fun v => match v with
    | [Text uuid] => match parse_str uuid with Ok u => Engine.DELETE_ACCOUNT u | Err _ => fun d => (Ok 0, d) end
    | _ => mistyped
    end).

Definition account_row (row : Row) : StoreResult AccountRow :=
  uuid ← uuid_text debug no_column parse_str row 0;
  external ← opt_text debug no_column row 1;
  id ← int32 debug no_column row 2;
  name ← opt_text debug no_column row 3;
  created ← int debug no_column row 4;
  Ok (MkAccountRow uuid external id name created).

Definition create_account (uuid : Uuid) (external_ref : option string) (now : Z) : Run EngineDb AccountRow :=
  row ← write_returning_optional (INSERT_ACCOUNT now) binds![uuid_to_string uuid; external_ref];
  row ← of_result (ok_or row (Validation "the account insert returned no row"));
  of_result (account_row row).
Definition list_accounts : Run EngineDb (list AccountRow) :=
  rows ← fetch_all LIST_ACCOUNTS [];
  of_result (mapM account_row rows).
Definition delete_account (uuid : Uuid) : Run EngineDb bool :=
  deleted ← execute DELETE_ACCOUNT binds![uuid_to_string uuid];
  mret (0 <? deleted).

(** *** As the sql family's *)

(** The ids AUTOINCREMENT handed out fit the column. *)
Definition ids_fit (d : EngineDb) : Prop :=
  0 <= last_device_id d /\ forall k row, accounts d !! k = Some row -> in_i32 (Engine.device_id row).

Lemma account_reads row : in_i32 (Engine.device_id row) -> account_row (account_values row) = Ok row.
Proof using laws uuid_reads_back.
  destruct row as [u external id name created]. cbn. intros Hid. unfold account_row, uuid_text, int32. cbn.
  rewrite uuid_reads_back. cbn. destruct external, name; cbn; by rewrite i32_reads.
Qed.

Lemma insert_inserts u external now d d' row :
  Engine.INSERT_ACCOUNT constraint u external now d = (Ok row, d') -> Engine.device_id row = last_device_id d + 1.
Proof using laws. unfold Engine.INSERT_ACCOUNT. case_bool_decide; [done|]. by intros [= <- _]. Qed.

Lemma create_twin u external now w :
  0 <= last_device_id (db w) < 2 ^ 31 - 1 ->
  create_account u external now w = Engine.create_account constraint u external now w.
Proof using laws uuid_reads_back.
  intros Hlast.
  assert (Hp : forall d, prepared (INSERT_ACCOUNT now) binds![uuid_to_string u; external] d =
    let '(r, d') := Engine.INSERT_ACCOUNT constraint u external now d in ((fun row => [account_values row]) <$> r, d')).
  { intros d. rewrite prepared_by_number by (vm_compute; reflexivity). cbn. rewrite uuid_reads_back. by destruct external. }
  transitivity ((row ← (row ← Engine.create_account constraint u external now; mret (Some (account_values row)));
    row ← of_result (ok_or row (Validation "the account insert returned no row")); of_result (account_row row)) w).
  - apply bind_agree; [|done]. unfold write_returning_optional, Engine.create_account, Database.execute.
    unfold tx_fetch_optional, tx_fetch_all, transaction, mbind, run_bind. destruct (stmt _ w) as [[[]|e] w0]; [|done].
    unfold stmt. destruct (faults w0) as [|[] ?]; rewrite ?Hp;
      destruct (Engine.INSERT_ACCOUNT constraint u external now (db w0)) as [[?|?] ?]; cbn; try done; by repeat case_match.
  - unfold mbind, run_bind. destruct (Engine.create_account _ _ _ _ w) as [[row|e] w'] eqn:E; [|done].
    unfold of_result. cbn -[account_row account_values]. rewrite account_reads; [done|].
    pose proof (execute_cases (Engine.INSERT_ACCOUNT constraint u external now) w) as Hc.
    unfold Engine.create_account in E. rewrite E in Hc. rewrite (insert_inserts _ _ _ _ _ _ Hc). unfold in_i32. lia.
Qed.

Lemma list_twin w : ids_fit (db w) -> list_accounts w = Engine.list_accounts w.
Proof using laws uuid_reads_back.
  intros [_ Hw]. unfold Engine.list_accounts. transitivity ((l ← query Engine.LIST_ACCOUNTS; mret ((fun x => x) <$> l)) w); [|apply run_fmap_id].
  eapply fetch_all_agree; [by_number|]. intros w' _. unfold of_result. rewrite (decode_pure _ _ (fun x => x)); [done|].
  intros row Hin. apply account_reads. unfold Engine.LIST_ACCOUNTS in Hin.
  rewrite merge_sort_Permutation in Hin. apply list_elem_of_fmap in Hin as ([k row'] & -> & Hin).
  apply (Hw k). by apply elem_of_map_to_list in Hin.
Qed.

Lemma delete_twin u w : delete_account u w = Engine.delete_account u w.
Proof using laws uuid_reads_back.
  apply bind_agree; [|done]. apply execute_agree. intros d. rewrite prepared_by_number by (vm_compute; reflexivity). cbn.
  by rewrite uuid_reads_back.
Qed.
End accounts.

(** ** The columns read as 32-bit integers *)

Definition preserves {D} (P : D -> Prop) (d d' : D) : Prop := P d -> P d'.
#[global] Instance preserves_refl {D} (P : D -> Prop) : Reflexive (preserves P).
Proof. intros d H. exact H. Qed.
#[global] Instance preserves_trans {D} (P : D -> Prop) : Transitive (preserves P).
Proof. intros d1 d2 d3 H1 H2 H. by apply H2, H1. Qed.

Lemma forall_filter {K A} `{Countable K} (P : K -> A -> Prop) (Q : K * A -> Prop) `{!forall x, Decision (Q x)} (m : gmap K A) :
  map_Forall P m -> map_Forall P (filter Q m).
Proof. intros Hm k a [Hk _]%map_lookup_filter_Some. by apply Hm. Qed.
Lemma forall_alter {K A} `{Countable K} (P : K -> A -> Prop) f k (m : gmap K A) :
  (forall a, P k a -> P k (f a)) -> map_Forall P m -> map_Forall P (alter f k m).
Proof.
  intros Hf Hm j a Hj. destruct (decide (k = j)) as [<-|Hne].
  - rewrite lookup_alter_eq in Hj. apply fmap_Some in Hj as (b & Hb & ->). by apply Hf, Hm.
  - rewrite lookup_alter_ne in Hj by done. by apply Hm.
Qed.
Lemma forall_imap {K A} `{Countable K} (P : K -> Prop) (f : K -> A -> option A) (m : gmap K A) :
  map_Forall (fun k _ => P k) m -> map_Forall (fun k _ => P k) (map_imap f m).
Proof. intros Hm k a Hk. rewrite map_lookup_imap in Hk. destruct (m !! k) eqn:E; [by eapply Hm|done]. Qed.

Lemma bool_i32 b : in_i32 (Z.b2z b).
Proof. by destruct b. Qed.
Lemma raw_i32 o : from_option in_i32 True (as_i32 <$> o).
Proof. destruct o; [apply as_i32_range|done]. Qed.

(** A statement, on the two tables that matter. *)
Ltac table_i32 :=
  first
    [ done
    | apply map_Forall_insert_2; [first [apply as_i32_range|apply bool_i32|apply raw_i32]|done]
    | by apply map_Forall_delete
    | by apply forall_filter
    | apply forall_alter; [by intros|done]
    | by apply forall_imap ].
Ltac i32_stmt :=
  intros d; cbn [snd];
  repeat first [ match goal with |- _ _ _ (snd ?s) => let h := head_of s in unfold h end | case_decide | case_match ];
  intros [? ?]; split; cbn; repeat case_match; try table_i32.

Lemma signal_keeps_i32 `{crypto : Crypto} constraint cipher (call : SignalCall) :
  moves (preserves signal_i32) (signal_run constraint cipher call).
Proof.
  destruct call as [me draws op]. unfold signal_run, SignalSpec.done. cbn [call_device call_op call_draws].
  destruct op; try (match goal with t : AddrTable |- _ => destruct t end); frame_call; i32_stmt.
Qed.

Lemma proto_keeps_i32 `{crypto : Crypto} `{lib : Wacore} constraint cipher (call : ProtoCall) :
  moves (preserves proto_i32) (proto_run constraint cipher call).
Proof.
  destruct call as [me draws op]. unfold proto_run, ProtocolSpec.done, answer. cbn [pc_device pc_op pc_draws].
  destruct op; frame_call; i32_stmt.
Qed.

(** ** The engine (mod.rs) *)

Section engine.
Context `{driver : Driver} {laws : DriverLaws driver} `{crypto : Crypto} `{lib : Wacore} `{keys : Keys}.
Context `{!Message DeviceBlob} `{!Message HashStateWire} `{!Message AppStateSyncKeyWire}.
Context (uuid_to_string : Uuid -> string) (parse_str : string -> result string Uuid).
Context (constraint : StoreError) (debug : Value -> string) (no_column : nat -> TursoError) (cipher : BlobCipher).

Definition turso_engine_run (op : EngineOp) : Run EngineDb EngineReply :=
  match op with
  | CreateAccount uuid external now =>
      row ← create_account uuid_to_string parse_str constraint debug no_column uuid external now; mret (Created row)
  | ListAccounts => rows ← list_accounts uuid_to_string parse_str debug no_column; mret (Listed rows)
  | DeleteAccount uuid => existed ← delete_account uuid_to_string parse_str uuid; mret (Deleted existed)
  | OnSignal call =>
      r ← within signal_db with_signal (turso_signal_run constraint debug no_column cipher call); mret (SignalReplied r)
  | OnProto call =>
      r ← within proto_db with_proto (turso_proto_run constraint debug no_column cipher call); mret (ProtoReplied r)
  | OnApp call => r ← within app_db with_app (turso_app_run constraint debug no_column cipher call); mret (AppReplied r)
  end.

(** A history on an engine: what each operation answers, and the world it ends in. *)
Fixpoint history (run : EngineOp -> Run EngineDb EngineReply) (ops : list EngineOp) (w : World EngineDb) :
    list (StoreResult EngineReply) * World EngineDb :=
  match ops with
  | [] => ([], w)
  | op :: ops =>
      let '(r, w) := run op w in
      let '(rs, w) := history run ops w in (r :: rs, w)
  end.

(** What the two families have in common: the marking of uploaded prekeys by SQLite's form, and a
    sent message taken where it opens, or where no statement fails. *)
Definition shared (op : EngineOp) (w : World EngineDb) : Prop :=
  match op with
  | OnSignal call => if call_op call is OpMarkUploaded postgres _ then postgres = false else True
  | OnProto call =>
      if pc_op call is TakeSent c m
      then faults w = [] \/ sent_opens (MkBackend (pc_device call) cipher) c m (proto_db (db w)) else True
  | _ => True
  end.
Fixpoint all_shared (ops : list EngineOp) (w : World EngineDb) : Prop :=
  match ops with
  | [] => True
  | op :: ops => shared op w /\ all_shared ops (engine_run constraint cipher op w).2
  end.

(** Every column the driver narrows holds what fits, with room for [n] more accounts. *)
Definition fits (n : nat) (d : EngineDb) : Prop :=
  signal_i32 (signal_db d) /\ proto_i32 (proto_db d) /\ ids_fit d /\ last_device_id d + Z.of_nat n < 2 ^ 31.

Lemma within_agree {D A} (get : EngineDb -> D) set (m m' : Run D A) w :
  (forall w', db w' = get (db w) -> faults w' = faults w -> m w' = m' w') -> within get set m w = within get set m' w.
Proof using laws. intros H. unfold within. by rewrite H. Qed.

Lemma within_moves {D A} (get : EngineDb -> D) set (m : Run D A) (P : D -> Prop) w :
  (forall x d, get (set x d) = x) -> moves (preserves P) m -> P (get (db w)) -> P (get (db (within get set m w).2)).
Proof using laws.
  intros Hg Hm HP. specialize (Hm (MkWorld (get (db w)) (faults w)) HP). unfold within.
  destruct (m _) as [r w']. cbn in *. by rewrite Hg.
Qed.

Lemma within_rest {D A B} (get : EngineDb -> D) set (m : Run D A) (f : EngineDb -> B) w :
  (forall x d, f (set x d) = f d) -> f (db (within get set m w).2) = f (db w).
Proof using laws. intros Hf. unfold within. destruct (m _) as [r w']. cbn. apply Hf. Qed.

Lemma ids_fit_rest d d' : accounts d' = accounts d -> last_device_id d' = last_device_id d -> ids_fit d -> ids_fit d'.
Proof using laws. unfold ids_fit. by intros -> ->. Qed.

Lemma reply_world {A B} (m : Run EngineDb A) (f : A -> B) w : (x ← m; mret (f x)) w = (let '(r, w') := m w in (f <$> r, w')).
Proof using laws. unfold mbind, run_bind. by destruct (m w) as [[a|e] w']. Qed.

Lemma executed {A} (f : EngineDb -> StoreResult A * EngineDb) w :
  db (Database.execute f w).2 = db w \/ db (Database.execute f w).2 = (f (db w)).2.
Proof using laws.
  pose proof (execute_cases f w) as H. destruct (Database.execute f w) as [[a|e] w']; cbn.
  - right. by rewrite H.
  - destruct H as [H|[a H]]; [by left|right; by rewrite H].
Qed.

Lemma fits_inserted n u external now d : fits (S n) d -> fits n (Engine.INSERT_ACCOUNT constraint u external now d).2.
Proof using laws.
  intros (Hs & Hp & (Hl & Ha) & Hn). unfold Engine.INSERT_ACCOUNT. case_bool_decide; cbn.
  - split_and!; [done..|lia].
  - split; [exact Hs|split; [exact Hp|split]].
    + split; cbn; [lia|]. intros k row. destruct (decide (k = last_device_id d + 1)) as [->|Hk].
      * rewrite lookup_insert_eq. intros [= <-]. cbn. unfold in_i32. lia.
      * rewrite lookup_insert_ne by done. apply Ha.
    + cbn. lia.
Qed.

Lemma fits_cascade n dead d : fits n d -> fits n (cascade dead d).
Proof using laws.
  intros ([Hs1 Hs2] & [Hp1 Hp2] & (Hl & Ha) & Hn). split; [|split; [|split; [|done]]].
  - split; by apply forall_filter.
  - split; by apply forall_filter.
  - split; [done|]. intros k row [Hk _]%map_lookup_filter_Some. by eapply Ha.
Qed.

Lemma fits_less n d : fits (S n) d -> fits n d.
Proof using laws. intros (? & ? & ? & ?). split_and!; [done..|lia]. Qed.

(** An operation makes at most one account, and narrows nothing. *)
Lemma fits_run op n w : fits (S n) (db w) -> fits n (db (engine_run constraint cipher op w).2).
Proof using laws.
  intros Hf. assert (Hr : forall {A B} (m : Run EngineDb A) (f : A -> B), db ((x ← m; mret (f x)) w).2 = db (m w).2).
  { intros A B m f. rewrite reply_world. by destruct (m w). }
  destruct op as [u external now| |u|call|call|call]; cbn [engine_run]; rewrite Hr.
  - destruct (executed (Engine.INSERT_ACCOUNT constraint u external now) w) as [E|E];
      unfold Engine.create_account; rewrite E; [by apply fits_less|by apply fits_inserted].
  - unfold Engine.list_accounts. pose proof (moves_query eq Engine.LIST_ACCOUNTS w) as E. rewrite <-E. by apply fits_less.
  - unfold Engine.delete_account. rewrite Hr. apply fits_less in Hf.
    destruct (executed (Engine.DELETE_ACCOUNT u) w) as [E|E]; rewrite E; [done|by apply fits_cascade].
  - destruct (fits_less _ _ Hf) as (Hs & Hp & Ha & Hn). split_and!.
    + by apply within_moves; [|apply signal_keeps_i32|].
    + by rewrite (within_rest _ _ _ proto_db).
    + by eapply ids_fit_rest; [apply within_rest..|].
    + by rewrite (within_rest _ _ _ last_device_id).
  - destruct (fits_less _ _ Hf) as (Hs & Hp & Ha & Hn). split_and!.
    + by rewrite (within_rest _ _ _ signal_db).
    + by apply within_moves; [|apply proto_keeps_i32|].
    + by eapply ids_fit_rest; [apply within_rest..|].
    + by rewrite (within_rest _ _ _ last_device_id).
  - destruct (fits_less _ _ Hf) as (Hs & Hp & Ha & Hn). split_and!.
    + by rewrite (within_rest _ _ _ signal_db).
    + by rewrite (within_rest _ _ _ proto_db).
    + by eapply ids_fit_rest; [apply within_rest..|].
    + by rewrite (within_rest _ _ _ last_device_id).
Qed.

(** One operation. *)
Lemma engine_twin op n w :
  (forall u, parse_str (uuid_to_string u) = Ok u) -> fits (S n) (db w) -> shared op w ->
  turso_engine_run op w = engine_run constraint cipher op w.
Proof using laws.
  intros Hu (Hs & Hp & Ha & Hn) Hop. destruct op as [u external now| |u|call|call|call]; cbn [turso_engine_run engine_run];
    (apply bind_agree; [|done]).
  - apply create_twin; [done|]. destruct Ha as [Hl _]. lia.
  - by apply list_twin.
  - by apply delete_twin.
  - apply within_agree. intros w' Hd Hf. apply signal_twin; [|by rewrite Hd].
    intros pg ids E. cbn in Hop. by rewrite E in Hop.
  - apply within_agree. intros w' Hd Hf. apply proto_twin; [by rewrite Hd|]. intros c m E. cbn in Hop. rewrite E in Hop.
    by rewrite Hd, Hf.
  - apply within_agree. intros w' _ _. apply app_twin.
Qed.

(** C37. Switching a deployment that runs on SQLite to Turso changes nothing it sees: any history of
    operations on accounts and on the three stores, over any database whose narrowed columns fit and whatever
    statements fail, gets the same answers, operation by operation, and leaves the same database.
    The statements go through the texts' [$N] rewritten to [?N] and bound by position, the rows
    come back untyped.  The histories are those [shared] describes: a sent message that does not
    open is taken where no statement fails. *)
Theorem turso_engine_is_sql ops w :
  (forall u, parse_str (uuid_to_string u) = Ok u) -> fits (length ops) (db w) -> all_shared ops w ->
  history turso_engine_run ops w = history (engine_run constraint cipher) ops w.
Proof using laws.
  intros Hu. revert w. induction ops as [|op ops IH]; intros w Hf Hs; [done|]. destruct Hs as [Hop Hs].
  cbn [history]. rewrite (engine_twin op (length ops)) by done. pose proof (fits_run op _ _ Hf) as Hf'.
  destruct (engine_run constraint cipher op w) as [r w']. cbn in *. by rewrite IH.
Qed.
End engine.

(** ** A driver that binds [$N] by appearance *)

(** Which value a placeholder takes, from 1: [?N] the [N]th, and [$N], a name, the next one when it
    first appears. *)
Fixpoint assign (known : list (bool * nat * nat)) (max : nat) (ps : list (bool * nat)) : list (bool * nat * nat) :=
  match ps with
  | [] => known
  | (false, n) :: ps => assign (known ++ [(false, n, n)]) (Nat.max max n) ps
  | (true, n) :: ps =>
      if bool_decide ((true, n) ∈ known.*1) then assign known max ps
      else assign (known ++ [(true, n, S max)]) (S max) ps
  end.

Definition slot (sql : string) (n : nat) : nat :=
  match filter (fun k => k.1.2 = n) (assign [] 0 (scan None sql)) with
  | (_, i) :: _ => i
  | [] => n
  end.

(** A value that is not bound is NULL. *)
#[local] Instance by_appearance : Driver := fun sql values =>
  (fun n => default Null (values !! pred (slot sql n))) <$> seq 1 (params sql).

Lemma assign_by_number ps known max :
  Forall (fun k => k.2 = k.1.2) known -> Forall (fun p => p.1 = false) ps ->
  Forall (fun k => k.2 = k.1.2) (assign known max ps).
Proof.
  intros Hk Hp. revert known max Hk. induction Hp as [|[d n] ps Hd _ IH]; intros known max Hk; cbn; [done|].
  cbn in Hd. subst d. apply IH. apply Forall_app. split; [done|]. by constructor.
Qed.

#[local] Instance by_appearance_laws : DriverLaws by_appearance.
Proof.
  intros s values Hs Hp. assert (Hslot : forall n, slot s n = n).
  { intros n. unfold slot. pose proof (assign_by_number _ [] 0 ltac:(constructor) Hs) as H.
    destruct (filter _ _) as [|[k i] l] eqn:E; [done|].
    assert (Hin : (k, i) ∈ filter (fun k : bool * nat * nat => k.1.2 = n) (assign [] 0 (scan None s))) by (rewrite E; left).
    apply list_elem_of_filter in Hin as [Hn Hin]. rewrite Forall_forall in H. specialize (H _ Hin). cbn in *. congruence. }
  unfold bound, by_appearance. rewrite Hp. apply list_eq. intros i. rewrite list_lookup_fmap.
  destruct (decide (i < length values)%nat) as [Hi|Hi].
  - rewrite lookup_seq_lt by done. cbn. rewrite Hslot. cbn. destruct (values !! i) eqn:E; [done|].
    apply lookup_ge_None in E. lia.
  - rewrite lookup_seq_ge by lia. cbn. symmetry. apply lookup_ge_None. lia.
Qed.

(** As placeholders_tests.rs: out of order, only the rewritten text takes its values by number. *)
Example raw_dollar : bound "SELECT $2, $1" binds!["a"; "b"] = binds!["b"; "a"].
Proof. vm_compute. reflexivity. Qed.
Example rewritten_dollar : bound (turso_placeholders "SELECT $2, $1") binds!["a"; "b"] = binds!["a"; "b"].
Proof. vm_compute. reflexivity. Qed.

(** ** A history *)

(** A number by its bits, for a uuid's text. *)
Fixpoint binary (p : positive) : string :=
  match p with
  | xH => "" | (p~0)%positive => String (Ascii.ascii_of_N 48) (binary p) | (p~1)%positive => String (Ascii.ascii_of_N 49) (binary p)
  end.
Fixpoint of_binary (s : string) : positive :=
  match s with "" => 1%positive | String c s => if char_is 48 c then (of_binary s)~0%positive else (of_binary s)~1%positive end.
Definition toy_uuid (u : Uuid) : string := binary (countable.encode u).
Definition toy_parse (s : string) : result string Uuid := ok_or (countable.decode (of_binary s)) "not a uuid".

Lemma toy_uuid_reads u : toy_parse (toy_uuid u) = Ok u.
Proof.
  unfold toy_parse, toy_uuid. assert (H : forall p, of_binary (binary p) = p) by (induction p as [p IH|p IH|]; [exact (f_equal xI IH)|exact (f_equal xO IH)|done]).
  by rewrite H, countable.decode_encode.
Qed.

(** Two accounts, a prekey, a chat's message stored and taken, the accounts listed, one deleted. *)
Definition toy_history : list EngineOp :=
  two_accounts ++
  [ OnSignal (SignalProps.toy_call 1 (OpStorePrekey 7 (str_bytes "record") true));
    OnSignal (SignalProps.toy_call 1 (OpLoadPrekeys [7; 8]));
    OnProto (toy_proto 2 (TouchTc 5 "jid" 9));
    OnProto (toy_proto 1 (TakeSent "chat" "m")); ListAccounts; DeleteAccount 22; ListAccounts ].

Lemma turso_engine_is_sql_witness :
  history (turso_engine_run (keys := toy_keys) toy_uuid toy_parse engine_error (fun _ => "value") (fun _ => OtherError "no column") (sealing toy_key))
    toy_history (MkWorld empty_store []) =
  history (engine_run (keys := toy_keys) engine_error (sealing toy_key)) toy_history (MkWorld empty_store []) /\
  (history (engine_run (keys := toy_keys) engine_error (sealing toy_key)) toy_history (MkWorld empty_store [])).1 !! 8%nat =
  Some (Ok (Listed [MkAccountRow 11 (Some "alice") 1 None 5; MkAccountRow 22 None 2 None 6])).
Proof.
  split; [|vm_compute; reflexivity].
  apply (turso_engine_is_sql (keys := toy_keys)).
  - apply toy_uuid_reads.
  - split; [split; by intros k v Hk|split; [split; by intros k v Hk|split; [split; [cbn; lia|by intros k v Hk]|cbn; lia]]].
  - cbn -[engine_run]. split_and!; try done. left. vm_compute. reflexivity.
Defined.
