(* ===== verification/TursoConversion.v ===== *)
(** * Conversion, rotation and bincode upgrade on Turso (storage/turso/convert.rs, rotate.rs,
      store_encryption_sql.rs, bincode_upgrade.rs)

    The same walks over the same columns as the sql family, on the one connection: generated texts
    with as many numbers as a column has keys, rows decoded by the kinds of the key columns.  At the
    end, opening, decrypting and rotating a store do what [Conversion]'s do on SQLite, and the
    upgrade leaves what [BincodeUpgrade]'s leaves. *)

From stdpp Require Import sorting.
From S2P Require Import Prelude StoreError Database BlobCodec AppSyncStore BincodeUpgrade TursoEngine StoreKey BlobCipher SealedColumns StoreEncryption Conversion ConversionLaws ConversionProps BatchChunks Refinement Backend Turso.

(** ** Runs that agree from databases of the schema, and stay in it *)

Section agrees.
Context {D : Type} (I : D -> Prop).

Definition agrees {A} (m m' : Run D A) : Prop := forall w, I (db w) -> m w = m' w /\ I (db (m' w).2).

Lemma agrees_ret {A} (a : A) : agrees (mret a) (mret a).
Proof using Type. by intros w Hw. Qed.

Lemma agrees_result {A} (r : StoreResult A) : agrees (of_result r) (of_result r).
Proof using Type. by intros w Hw. Qed.

Lemma agrees_bind {A B} (m m' : Run D A) (k k' : A -> Run D B) :
  agrees m m' -> (forall a, agrees (k a) (k' a)) -> agrees (m ≫= k) (m' ≫= k').
Proof using Type.
  intros Hm Hk w Hw. destruct (Hm w Hw) as [E Hw']. unfold mbind, run_bind. rewrite E.
  destruct (m' w) as [[a|e] w']; [by apply Hk|done].
Qed.

Lemma agrees_stmt {A} (f g : D -> StoreResult A * D) :
  (forall d, I d -> f d = g d) -> (forall d, I d -> I (g d).2) -> agrees (stmt f) (stmt g).
Proof using Type.
  intros Hfg Hg w Hw. specialize (Hg _ Hw). unfold stmt. rewrite (Hfg _ Hw).
  destruct (faults w) as [|[] fs]; try done; by destruct (g (db w)).
Qed.

Lemma agrees_transaction {A} (m m' : Run D A) : agrees m m' -> agrees (transaction m) (transaction m').
Proof using Type.
  intros Hm w Hw. unfold transaction. destruct (stmt _ w) as [[[]|e] w0] eqn:E.
  - assert (Hw0 : I (db w0)) by (revert E; unfold stmt; by destruct (faults w) as [|[] ?]; intros [= <-]).
    destruct (Hm w0 Hw0) as [-> Hw1]. destruct (m' w0) as [[a|e] w1]; [|done]. by destruct (faults w1) as [|[] fs].
  - split; [done|]. revert E. unfold stmt. by destruct (faults w) as [|[] ?]; intros [= _ <-].
Qed.

Lemma agrees_each {A B} (h : A -> B) (f : B -> Run D unit) (g : A -> Run D unit) l :
  (forall a, a ∈ l -> agrees (f (h a)) (g a)) -> agrees (each f (h <$> l)) (each g l).
Proof using Type.
  induction l as [|a l IH]; intros H; [apply agrees_ret|]. cbn.
  apply agrees_bind; [apply H; left|]. intros _. apply IH. intros b Hb. apply H. by right.
Qed.

Lemma agrees_each_same {A} (f g : A -> Run D unit) l :
  (forall a, a ∈ l -> agrees (f a) (g a)) -> agrees (each f l) (each g l).
Proof using Type. intros H. rewrite <-(list_fmap_id l) at 1. by apply agrees_each. Qed.

(** A read, and what follows from what it finds. *)
Lemma agrees_read {A A' B} (f : D -> A) (g : D -> A') (k : A -> Run D B) k' :
  (forall d, I d -> agrees (k (f d)) (k' (g d))) -> agrees (stmt (reads f) ≫= k) (query g ≫= k').
Proof using Type.
  intros Hk w Hw. unfold mbind, run_bind, query, stmt, reads.
  by destruct (faults w) as [|[] fs]; try apply (Hk _ Hw).
Qed.

Context `{driver : Driver}.

Lemma agrees_fetch {A B} (s : Statement D (list Row)) binds (f : D -> list Row) (g : D -> A) (k : list Row -> Run D B) k' :
  (forall d, prepared s binds d = reads f d) -> (forall d, I d -> agrees (k (f d)) (k' (g d))) ->
  agrees (tx_fetch_all s binds ≫= k) (query g ≫= k').
Proof using Type.
  intros Hs Hk w Hw. destruct (agrees_read f g k k' Hk w Hw) as [E Hi]. split; [|done]. rewrite <-E.
  unfold mbind, run_bind, tx_fetch_all. by rewrite (stmt_agree _ _ w Hs).
Qed.

Lemma agrees_fetch_row {A B} (s : Statement D (list Row)) binds (f : D -> option Row) (g : D -> A) (k : option Row -> Run D B) k' :
  (forall d, prepared s binds d = reads (fun d => option_list (f d)) d) -> (forall d, I d -> agrees (k (f d)) (k' (g d))) ->
  agrees (fetch_optional s binds ≫= k) (query g ≫= k').
Proof using Type.
  intros Hs Hk w Hw. destruct (agrees_read f g k k' Hk w Hw) as [E Hi]. split; [|done]. rewrite <-E.
  unfold fetch_optional, tx_fetch_optional, mbind, run_bind, tx_fetch_all, mret, run_ret.
  rewrite (stmt_agree _ _ w Hs). unfold stmt, reads.
  by destruct (faults w) as [|[] fs]; destruct (f (db w)).
Qed.
End agrees.

(** ** Texts of the 13 columns (statements/convert.rs) *)

Definition key_name (key : KeyColumn) : string := match key with KText name | KId name | KBytes name => name end.
Definition key_names (column : SealedColumn) : list string := key_name <$> sc_key column.

Definition select_rows_text (column : SealedColumn) : string :=
  "SELECT " +:+ String.concat ", " (key_names column ++ [sc_column column]) +:+ " FROM " +:+ sc_table column +:+
  " WHERE device_id = $1".

Definition update_row_text (column : SealedColumn) : string :=
  foldl (fun sql '(position, name) => sql +:+ " AND " +:+ name +:+ " = $" +:+ pretty (position + 3)%nat)
    ("UPDATE " +:+ sc_table column +:+ " SET " +:+ sc_column column +:+ " = $1 WHERE device_id = $2")
    (imap pair (key_names column)).

(** ** Rows *)

Definition part_value (part : RowPart) : Value :=
  match part with PText text => Text text | PInt id => Integer id | PBytes b => Blob b end.
Definition part_of (v : Value) : option RowPart :=
  match v with Text s => Some (PText s) | Integer n => Some (PInt n) | Blob b => Some (PBytes b) | _ => None end.

(** A row of a column, as the driver gives it. *)
Definition stored_row (row : list RowPart * bytes) : Row := (part_value <$> row.1) ++ [Blob row.2].

(** A key value of the type its column has. *)
Definition part_typed (k : KeyColumn) (p : RowPart) : Prop :=
  match k, p with KText _, PText _ | KId _, PInt _ | KBytes _, PBytes _ => True | _, _ => False end.

Section rows.
Context (debug : Value -> string) (no_column : nat -> TursoError).

Definition read_part (row : Row) (at_key : nat * KeyColumn) : StoreResult RowPart :=
  match at_key.2 with
  | KText _ => PText <$> text debug no_column row at_key.1
  | KId _ => PInt <$> int debug no_column row at_key.1
  | KBytes _ => PBytes <$> blob debug no_column row at_key.1
  end.

Definition read_row (row : Row) (column : SealedColumn) : StoreResult (list RowPart * bytes) :=
  parts ← mapM (read_part row) (imap pair (sc_key column));
  stored ← blob debug no_column row (length (sc_key column));
  Ok (parts, stored).

Lemma read_parts (before : Row) keys parts (after : Row) :
  Forall2 part_typed keys parts ->
  mapM (read_part (before ++ (part_value <$> parts) ++ after)) (imap (fun i k => ((length before + i)%nat, k)) keys) = Ok parts.
Proof using Type.
  intros H. revert before. induction H as [|k p keys parts Hk _ IH]; intros before; [done|]. cbn [fmap list_fmap imap mapM].
  assert (Hv : read_part (before ++ (part_value p :: (part_value <$> parts)) ++ after) ((length before + 0)%nat, k) = Ok p).
  { unfold read_part, text, int, blob, get_value. cbn [fst snd].
    assert (Hl : (before ++ (part_value p :: (part_value <$> parts)) ++ after) !! (length before + 0)%nat = Some (part_value p))
      by (by rewrite Nat.add_0_r; apply list_lookup_middle).
    rewrite Hl. by destruct k, p. }
  rewrite Hv. cbn. specialize (IH (before ++ [part_value p])). rewrite length_app, <-app_assoc in IH. cbn in IH.
  match goal with |- context [mapM ?f ?l] => assert (mapM f l = Ok parts) as -> end; [|done].
  rewrite <-IH. f_equal. apply imap_ext. intros i x _. cbn. f_equal. lia.
Qed.

Lemma read_stored_row column parts b :
  Forall2 part_typed (sc_key column) parts -> read_row (stored_row (parts, b)) column = Ok (parts, b).
Proof using Type.
  intros H. unfold read_row, stored_row. cbn [fst snd].
  assert (mapM (read_part ((part_value <$> parts) ++ [Blob b])) (imap pair (sc_key column)) = Ok parts) as ->
    by exact (read_parts [] _ _ [Blob b] H).
  cbn.
  unfold blob, get_value. rewrite (Forall2_length _ _ _ H), list_lookup_middle; [done|by rewrite length_fmap].
Qed.
End rows.

Lemma parts_of_values parts : mapM part_of (part_value <$> parts) = Some parts.
Proof. induction parts as [|p parts IH]; [done|]. cbn in *. by destruct p; cbn; rewrite IH. Qed.

(** ** The store *)

Section conversion.
Context `{driver : Driver} `{crypto : Crypto} (draws : Draws) (constraint : StoreError).
Context (debug : Value -> string) (no_column : nat -> TursoError).
(** What the truncating checkpoint answers: whether it was kept from it, the frames of the log, and
    those it moved. *)
Context (busy : bool) (frames moved : Z).

(** ** Statements *)

Definition SELECT_ACCOUNT_IDS : Statement Db (list Row) := MkStatement
  "SELECT device_id FROM accounts ORDER BY device_id"
  (fun v => match v with [] => reads (fun d => (fun id => [Integer id]) <$> Conversion.SELECT_ACCOUNT_IDS d) | _ => mistyped end).
Definition SELECT_PROGRESS : Statement Db (list Row) := MkStatement
  "SELECT device_id FROM store_conversion_progress"
  (fun v => match v with [] => reads (fun d => (fun id => [Integer id]) <$> Conversion.SELECT_PROGRESS d) | _ => mistyped end).
Definition INSERT_PROGRESS : Statement Db unit := MkStatement
  "INSERT INTO store_conversion_progress (device_id) VALUES ($1)"
  (fun v => match v with [Integer dev] => Conversion.INSERT_PROGRESS constraint dev | _ => mistyped end).
Definition CLEAR_PROGRESS : Statement Db unit := MkStatement
  "DELETE FROM store_conversion_progress"
  (fun v => match v with [] => Conversion.CLEAR_PROGRESS | _ => mistyped end).
Definition FINISH_SEALING : Statement Db unit := MkStatement
  "UPDATE store_encryption SET state = 'encrypted' WHERE id = 1 AND state = 'plaintext'"
  (fun v => match v with [] => Conversion.finish_statement DSeal | _ => mistyped end).
Definition FINISH_OPENING : Statement Db unit := MkStatement
  "UPDATE store_encryption
     SET state = 'plaintext', key_id = NULL, verifier = NULL
     WHERE id = 1 AND state = 'encrypted'"
  (fun v => match v with [] => Conversion.finish_statement DOpen | _ => mistyped end).
Definition VACUUM_FILE : Statement Db (list Row) := MkStatement
  "VACUUM" (fun v => match v with [] => reads (fun _ => []) | _ => mistyped end).
Definition WAL_TRUNCATE : Statement Db (list Row) := MkStatement
  "PRAGMA wal_checkpoint(TRUNCATE)"
  (fun v => match v with
    | [] => fun d => (Ok [[Integer (Z.b2z busy); Integer frames; Integer moved]], if busy then d else set_old_bytes ∅ d)
    | _ => mistyped
    end).
Definition select_rows (column : SealedColumn) : Statement Db (list Row) := MkStatement
  (select_rows_text column)
  (fun v => match v with
    | [Integer dev] => reads (fun d => stored_row <$> Conversion.select_rows dev column d)
    | _ => mistyped
    end).
Definition update_row (column : SealedColumn) : Statement Db unit := MkStatement
  (update_row_text column)
  (fun v => match v with
    | Blob turned :: Integer dev :: values =>
        match mapM part_of values with
        | Some parts => Conversion.update_row dev column parts turned
        | None => mistyped
        end
    | _ => mistyped
    end).

Definition SELECT_STATE : Statement Db (list Row) := MkStatement
  "SELECT state, key_id, verifier FROM store_encryption WHERE id = 1"
  (fun v => match v with
    | [] => reads (fun d => option_list ((fun '(state, key_id, verifier) => binds![state; key_id; verifier]) <$> enc_row d))
    | _ => mistyped
    end).
Definition HAS_ACCOUNTS : Statement Db (list Row) := MkStatement
  "SELECT EXISTS(SELECT 1 FROM accounts)"
  (fun v => match v with [] => reads (fun d => option_list (Some binds![Conversion.HAS_ACCOUNTS d])) | _ => mistyped end).
Definition HAS_PROGRESS : Statement Db (list Row) := MkStatement
  "SELECT EXISTS(SELECT 1 FROM store_conversion_progress)"
  (fun v => match v with [] => reads (fun d => option_list (Some binds![Conversion.HAS_PROGRESS d])) | _ => mistyped end).

(** A mark, which answers how many rows it changed. *)
Definition marking (mark : NewMark -> Db -> Z * Db) (v : list Value) : Db -> StoreResult Z * Db :=
  match v with
  | [Blob key_id; Blob verifier] => fun d => let '(n, d') := mark (MkNewMark key_id verifier) d in (Ok n, d')
  | _ => mistyped
  end.
Definition MARK_ENCRYPTED : Statement Db Z := MkStatement
  "UPDATE store_encryption
     SET state = 'encrypted', key_id = $1, verifier = $2
     WHERE id = 1 AND state = 'plaintext' AND NOT EXISTS (SELECT 1 FROM accounts)"
  (marking Conversion.MARK_ENCRYPTED).
Definition MARK_CONVERTING : Statement Db Z := MkStatement
  "UPDATE store_encryption
     SET key_id = $1, verifier = $2
     WHERE id = 1 AND state = 'plaintext' AND verifier IS NULL"
  (marking Conversion.MARK_CONVERTING).
Definition ROTATE_MARK : Statement Db Z := MkStatement
  "UPDATE store_encryption
     SET key_id = $1, verifier = $2
     WHERE id = 1 AND state = 'encrypted'"
  (marking Conversion.ROTATE_MARK).

(** ** One account (convert.rs) *)

Definition device_ids (sql : Statement Db (list Row)) : Run Db (list Z) :=
  rows ← fetch_all sql [];
  of_result (mapM (fun row => int32 debug no_column row 0) rows).

Definition convert_column (turn : Turn) (device : Z) (column : SealedColumn) : Run Db unit :=
  fetched ← tx_fetch_all (select_rows column) binds![device];
  each (fun row =>
    '(parts, stored) ← of_result (read_row debug no_column row column);
    turned ← of_result (turn_blob draws turn device column parts stored);
    tx_execute (update_row column) (binds![turned; device] ++ (part_value <$> parts))) fetched.

Definition finish (direction : Direction) : Run Db unit :=
  _ ← tx_execute (match direction with DSeal => FINISH_SEALING | DOpen => FINISH_OPENING end) [];
  tx_execute CLEAR_PROGRESS [].

Definition convert_account (cipher : BlobCipher) (direction : Direction) (device : Z) (is_last : bool) : Run Db unit :=
  transaction (
    _ ← each (convert_column (turn_of direction cipher) device) SEALED_COLUMNS;
    _ ← tx_execute INSERT_PROGRESS binds![device];
    if is_last then finish direction else mret tt).

Definition finish_alone (direction : Direction) : Run Db unit := transaction (finish direction).

Fixpoint convert_accounts (cipher : BlobCipher) (direction : Direction) (left : list Z) : Run Db unit :=
  match left with
  | [] => mret tt
  | device :: rest =>
      _ ← convert_account cipher direction device (bool_decide (rest = []));
      convert_accounts cipher direction rest
  end.

Definition run (cipher : BlobCipher) (direction : Direction) : Run Db nat :=
  all ← device_ids SELECT_ACCOUNT_IDS;
  done ← device_ids SELECT_PROGRESS;
  let left := accounts_left all done in
  _ ← convert_accounts cipher direction left;
  _ ← (if bool_decide (left = []) then finish_alone direction else mret tt);
  mret (length left).

Definition scrub_old_plaintext : Run Db unit :=
  _ ← stmt (fun d => (Ok tt, d)); (* lock_autocommit *)
  _ ← fetch_all VACUUM_FILE [];
  checkpoint ← fetch_all WAL_TRUNCATE [];
  busy ← of_result (transpose ((fun row => int debug no_column row 0) <$> head checkpoint));
  if default 0 busy =? 0 then mret tt else of_result (Err (Connection WAL_BUSY)).

(** ** Opening, decrypting and rotating a store (store_encryption_sql.rs, rotate.rs) *)

Definition read_stored : Run Db StoredEncryption :=
  row ← fetch_optional SELECT_STATE [];
  row ← of_result (ok_or row (InvalidConfig "store_encryption has no row"));
  of_result (
    state ← text debug no_column row 0;
    key_id ← opt_blob debug no_column row 1;
    verifier ← opt_blob debug no_column row 2;
    from_row state key_id verifier).

Definition exists_row (sql : Statement Db (list Row)) : Run Db bool :=
  row ← fetch_optional sql [];
  found ← of_result (transpose ((fun row => int debug no_column row 0) <$> row));
  mret (bool_decide (found = Some 1)).

Definition write_mark (resolution : Resolution) : Run Db unit :=
  match mark resolution with
  | None => mret tt
  | Some m =>
      marked ← execute (if convert resolution then MARK_CONVERTING else MARK_ENCRYPTED) binds![mark_key_id m; mark_verifier m];
      if marked =? 1 then mret tt
      else of_result (Err (InvalidConfig "the store changed while it was being marked for encryption"))
  end.

Definition open_cipher (key : option StoreKey) : Run Db BlobCipher :=
  stored ← read_stored;
  has_accounts ← exists_row HAS_ACCOUNTS;
  has_progress ← exists_row HAS_PROGRESS;
  resolution ← of_result (resolve draws stored has_accounts has_progress key);
  _ ← write_mark resolution;
  _ ← (if convert resolution then
         _ ← run (cipher resolution) DSeal;
         scrub_old_plaintext
       else mret tt);
  mret (cipher resolution).

Definition decrypt_store (key : StoreKey) : Run Db nat :=
  stored ← read_stored;
  cipher ← of_result (cipher_for_decrypt stored key);
  run cipher DOpen.

Definition swap_mark (rotation : Rotation) : Run Db unit :=
  swapped ← tx_execute ROTATE_MARK binds![mark_key_id (rotate_mark rotation); mark_verifier (rotate_mark rotation)];
  if swapped =? 1 then mret tt
  else of_result (Err (InvalidConfig "the store stopped being encrypted while its key was being rotated")).

(** [rotate::run]: in the order of the ids' statement, without a sort of its own. *)
Definition rotate_run (rotation : Rotation) : Run Db nat :=
  ids ← device_ids SELECT_ACCOUNT_IDS;
  let turn := TRotate (rotate_from rotation) (rotate_to rotation) in
  _ ← transaction (
    _ ← each (fun device => each (convert_column turn device) SEALED_COLUMNS) ids;
    swap_mark rotation);
  _ ← scrub_old_plaintext;
  mret (length ids).

Definition rotate_store (old new : StoreKey) : Run Db nat :=
  stored ← read_stored;
  has_progress ← exists_row HAS_PROGRESS;
  rotation ← of_result (plan_rotation draws stored has_progress old new);
  rotate_run rotation.

(** ** Against the sql family *)

(** The columns' types: ids are i32, the key values of a sealed column as its list says. *)
Definition schema (d : Db) : Prop :=
  (forall device, device ∈ accounts d -> in_i32 device) /\
  (forall device, device ∈ progress d -> in_i32 device) /\
  (forall device column parts, column ∈ SEALED_COLUMNS -> is_Some (cells d !! (device, sc_table column, parts)) ->
     Forall2 part_typed (sc_key column) parts).

Context {laws : DriverLaws driver}.

(** Every text of a column has a number for the account, one for the blob and one per key column. *)
Lemma column_texts column : column ∈ SEALED_COLUMNS ->
  params (select_rows_text column) = 1%nat /\ params (update_row_text column) = (2 + length (sc_key column))%nat.
Proof using Type.
  assert (H : Forall (fun c => params (select_rows_text c) = 1%nat /\ params (update_row_text c) = (2 + length (sc_key c))%nat) SEALED_COLUMNS).
  { unfold SEALED_COLUMNS. repeat (apply List.Forall_cons; [split; vm_compute; reflexivity|]). constructor. }
  rewrite Forall_forall in H. apply H.
Qed.

Lemma update_row_schema device column parts turned d :
  schema d -> schema (Conversion.update_row device column parts turned d).2.
Proof using Type.
  intros (Ha & Hp & Hc). unfold Conversion.update_row. cbn. destruct (cells d !! _) eqn:E; [|done].
  split_and!; [done|done|]. intros device' column' parts' Hin [b Hb]. cbn in Hb. apply (Hc device'); [done|].
  destruct (decide ((device, sc_table column, parts) = (device', sc_table column', parts'))) as [<-|Hne]; [by eexists|].
  rewrite lookup_insert_ne in Hb by done. by eexists.
Qed.

Lemma convert_column_agrees turn device column : column ∈ SEALED_COLUMNS ->
  agrees schema (convert_column turn device column) (Conversion.convert_column draws turn device column).
Proof using laws.
  intros Hin. destruct (column_texts column Hin) as [Hs Hu]. unfold convert_column, Conversion.convert_column.
  apply (agrees_fetch _ _ _ (fun d => stored_row <$> Conversion.select_rows device column d)).
  { intros d. by rewrite prepared_by_number. }
  intros d (_ & _ & Hc). apply agrees_each. intros [parts b] Hrow.
  assert (Ht : Forall2 part_typed (sc_key column) parts).
  { apply (Hc device); [done|]. exists b. by apply select_rows_spec. }
  rewrite read_stored_row by done. unfold of_result at 1, mbind at 1, run_bind at 1.
  apply agrees_bind; [apply agrees_result|]. intros turned. apply agrees_stmt.
  - intros d' _. rewrite prepared_by_number by (rewrite length_app, length_fmap, <-(Forall2_length _ _ _ Ht); exact Hu).
    cbn. by rewrite parts_of_values.
  - intros d' Hd'. by apply update_row_schema.
Qed.

(** The texts without values, and the ones with as many as they name. *)
Ltac by_text := intros; rewrite prepared_by_number by (vm_compute; reflexivity); try reflexivity.

Lemma finish_agrees direction : agrees schema (finish direction) (Conversion.finish direction).
Proof using laws.
  unfold finish, Conversion.finish. apply agrees_bind.
  - apply agrees_stmt; [|done]. destruct direction; by_text.
  - intros _. apply agrees_stmt; [by_text|]. by intros d (Ha & _ & Hc); split_and!.
Qed.

Lemma insert_progress_schema device d : schema d -> schema (Conversion.INSERT_PROGRESS constraint device d).2.
Proof using Type.
  intros (Ha & Hp & Hc). unfold Conversion.INSERT_PROGRESS. case_decide as Hd; [done|]. split_and!; [done| |done].
  cbn. intros device' [->%elem_of_singleton|?]%elem_of_union; [|by apply Hp]. apply Ha.
  destruct (decide (device ∈ accounts d)); [done|]. destruct Hd. by right.
Qed.

Lemma convert_account_agrees cipher direction device is_last :
  agrees schema (convert_account cipher direction device is_last) (Conversion.convert_account draws constraint cipher direction device is_last).
Proof using laws.
  apply agrees_transaction, agrees_bind.
  { apply agrees_each_same. intros column Hin. by apply convert_column_agrees. }
  intros _. apply agrees_bind.
  { apply agrees_stmt; [by_text|]. intros d. apply insert_progress_schema. }
  intros _. destruct is_last; [apply finish_agrees|apply agrees_ret].
Qed.

Lemma device_ids_agrees {A} sql f (k k' : list Z -> Run Db A) :
  (forall d, prepared sql [] d = reads (fun d => (fun id => [Integer id]) <$> f d) d) ->
  (forall d, schema d -> Forall in_i32 (f d)) -> (forall d, schema d -> agrees schema (k (f d)) (k' (f d))) ->
  agrees schema (device_ids sql ≫= k) (query f ≫= k').
Proof using Type.
  intros Hs Hf Hk w Hw.
  assert (E : (device_ids sql ≫= k) w =
    (fetch_all sql [] ≫= fun rows => of_result (mapM (fun row => int32 debug no_column row 0) rows) ≫= k) w).
  { unfold device_ids, mbind, run_bind. by destruct (fetch_all sql [] w) as [[rows|e] w']. }
  rewrite E. apply (agrees_fetch schema sql [] (fun d => (fun id => [Integer id]) <$> f d) f); [done| |done].
  intros d Hd. rewrite (decode_pure _ _ (fun id => id)).
  - rewrite list_fmap_id. by apply Hk.
  - intros id Hin. unfold int32. cbn. apply i32_reads. specialize (Hf d Hd). rewrite Forall_forall in Hf. by apply Hf.
Qed.

Lemma account_ids_i32 d : schema d -> Forall in_i32 (Conversion.SELECT_ACCOUNT_IDS d).
Proof using Type.
  intros (Ha & _). apply Forall_forall. unfold Conversion.SELECT_ACCOUNT_IDS. intros id.
  rewrite merge_sort_Permutation, elem_of_elements. apply Ha.
Qed.
Lemma progress_i32 d : schema d -> Forall in_i32 (Conversion.SELECT_PROGRESS d).
Proof using Type. intros (_ & Hp & _). apply Forall_forall. intros id. unfold Conversion.SELECT_PROGRESS. rewrite elem_of_elements. apply Hp. Qed.

Lemma convert_accounts_agrees cipher direction left :
  agrees schema (convert_accounts cipher direction left) (Conversion.convert_accounts draws constraint cipher direction left).
Proof using laws.
  induction left as [|device rest IH]; [apply agrees_ret|]. cbn. apply agrees_bind; [apply convert_account_agrees|done].
Qed.

Lemma run_agrees cipher direction :
  agrees schema (run cipher direction) (Conversion.run draws constraint cipher direction).
Proof using laws.
  apply device_ids_agrees; [by_text|apply account_ids_i32|]. intros d Hd.
  apply device_ids_agrees; [by_text|apply progress_i32|]. intros d' Hd'. cbv zeta.
  apply agrees_bind; [apply convert_accounts_agrees|]. intros _. apply agrees_bind; [|intros _; apply agrees_ret].
  destruct (bool_decide _); [|apply agrees_ret]. apply agrees_transaction, finish_agrees.
Qed.

Lemma scrub_agrees : agrees schema scrub_old_plaintext (Conversion.scrub_old_plaintext Sqlite busy).
Proof using laws.
  unfold scrub_old_plaintext. cbn [Conversion.scrub_old_plaintext]. unfold Conversion.scrub_sqlite.
  apply agrees_bind; [by apply agrees_stmt|]. intros _.
  apply (agrees_fetch _ _ _ (fun _ => []) (fun _ => tt)); [by_text|]. intros _ _ w Hw.
  unfold mbind, run_bind, fetch_all, tx_fetch_all.
  rewrite (stmt_agree (prepared WAL_TRUNCATE []) (fun d => (Ok [[Integer (Z.b2z busy); Integer frames; Integer moved]],
    if busy then d else set_old_bytes ∅ d))) by by_text.
  unfold stmt. destruct (faults w) as [|[] fs]; cbn; try done; by destruct busy.
Qed.

Lemma read_stored_agrees {A} (k k' : StoredEncryption -> Run Db A) :
  (forall s, agrees schema (k s) (k' s)) -> agrees schema (read_stored ≫= k) (Conversion.read_stored ≫= k').
Proof using laws.
  intros Hk. apply agrees_bind; [|done]. unfold read_stored, Conversion.read_stored.
  apply (agrees_fetch_row _ _ _ (fun d => (fun '(state, key_id, verifier) => binds![state; key_id; verifier]) <$> enc_row d)); [by_text|].
  intros d _. destruct (enc_row d) as [[[state key_id] verifier]|]; cbn; [|by intros w].
  unfold of_result, mbind at 1 2, run_bind. intros w Hw. by destruct key_id, verifier.
Qed.

Lemma exists_agrees {A} sql f (k k' : bool -> Run Db A) :
  (forall d, prepared sql [] d = reads (fun d => option_list (Some binds![f d])) d) ->
  (forall b, agrees schema (k b) (k' b)) -> agrees schema (exists_row sql ≫= k) (query f ≫= k').
Proof using Type.
  intros Hs Hk w Hw.
  assert (E : (exists_row sql ≫= k) w = (fetch_optional sql [] ≫= fun row =>
    of_result (transpose ((fun row => int debug no_column row 0) <$> row)) ≫= fun found => k (bool_decide (found = Some 1))) w).
  { unfold exists_row, mbind, run_bind. destruct (fetch_optional sql [] w) as [[row|e] w']; [|done].
    unfold of_result. by destruct (transpose _). }
  rewrite E. apply (agrees_fetch_row schema sql [] (fun d => Some binds![f d]) f); [done| |done].
  intros d _. unfold of_result, mbind, run_bind. cbn. by destruct (f d).
Qed.

Lemma write_mark_agrees resolution : agrees schema (write_mark resolution) (Conversion.write_mark resolution).
Proof using laws.
  unfold write_mark, Conversion.write_mark. destruct (mark resolution) as [[key_id verifier]|]; [|apply agrees_ret].
  apply agrees_bind; [|by intros marked w; destruct (marked =? 1)].
  apply agrees_transaction, agrees_stmt.
  - destruct (convert resolution); by_text.
  - intros d Hd. unfold Conversion.MARK_CONVERTING, Conversion.MARK_ENCRYPTED.
    destruct (convert resolution); destruct (enc_row d) as [[[state ?] ?]|]; repeat case_decide; done.
Qed.

Lemma sorted_ids d : merge_sort Z.le (Conversion.SELECT_ACCOUNT_IDS d) = Conversion.SELECT_ACCOUNT_IDS d.
Proof using Type.
  apply (Sorted_unique Z.le); [apply Sorted_merge_sort, _..|apply merge_sort_Permutation].
Qed.

Lemma swap_mark_agrees rotation : agrees schema (swap_mark rotation) (Conversion.swap_mark rotation).
Proof using laws.
  unfold swap_mark, Conversion.swap_mark. apply agrees_bind; [|by intros swapped w; destruct (swapped =? 1)].
  apply agrees_stmt; [destruct rotation as [? ? []]; by_text|].
  intros d Hd. unfold Conversion.ROTATE_MARK. destruct (enc_row d) as [[[state ?] ?]|]; [|done]. by case_decide.
Qed.

Lemma rotate_run_agrees rotation : agrees schema (rotate_run rotation) (Conversion.rotate_run draws Sqlite busy rotation).
Proof using laws.
  apply device_ids_agrees; [by_text|apply account_ids_i32|]. intros d Hd. rewrite sorted_ids. cbv zeta.
  apply agrees_bind; [|intros _; apply agrees_bind; [apply scrub_agrees|intros _; apply agrees_ret]].
  apply agrees_transaction, agrees_bind; [|intros _; apply swap_mark_agrees].
  apply agrees_each_same. intros device _. apply agrees_each_same. intros column Hin. by apply convert_column_agrees.
Qed.

Lemma open_cipher_agrees key :
  agrees schema (open_cipher key) (Conversion.open_cipher draws constraint Sqlite busy key).
Proof using laws.
  apply read_stored_agrees. intros stored. apply exists_agrees; [by_text|]. intros has_accounts.
  apply exists_agrees; [by_text|]. intros has_progress. apply agrees_bind; [apply agrees_result|]. intros resolution.
  apply agrees_bind; [apply write_mark_agrees|]. intros _. apply agrees_bind; [|intros _; apply agrees_ret].
  destruct (convert resolution); [|apply agrees_ret]. apply agrees_bind; [apply run_agrees|intros _; apply scrub_agrees].
Qed.

Lemma decrypt_store_agrees key :
  agrees schema (decrypt_store key) (Conversion.decrypt_store draws constraint key).
Proof using laws.
  apply read_stored_agrees. intros stored. apply agrees_bind; [apply agrees_result|]. intros cipher. apply run_agrees.
Qed.

Lemma rotate_store_agrees old new :
  agrees schema (rotate_store old new) (Conversion.rotate_store draws Sqlite busy old new).
Proof using laws.
  apply read_stored_agrees. intros stored. apply exists_agrees; [by_text|]. intros has_progress.
  apply agrees_bind; [apply agrees_result|]. intros rotation. apply rotate_run_agrees.
Qed.

(** Opening a store with a key or none, decrypting it and rotating its key answer on Turso what
    they answer on SQLite, leave the same database and the same old bytes behind, whatever statement
    fails, and keep the store in its schema: the generated texts of the 13 columns name exactly the
    blob, the account and the key columns, every row comes back as the key values its column's list
    says, and the rotation that does not sort its accounts turns them in the same order. *)
Theorem turso_conversion_is_sql (w : World Db) (key : option StoreKey) (old new : StoreKey) :
  schema (db w) ->
  open_cipher key w = Conversion.open_cipher draws constraint Sqlite busy key w /\
  decrypt_store old w = Conversion.decrypt_store draws constraint old w /\
  rotate_store old new w = Conversion.rotate_store draws Sqlite busy old new w /\
  schema (db (open_cipher key w).2) /\ schema (db (decrypt_store old w).2) /\ schema (db (rotate_store old new w).2).
Proof using laws.
  intros Hw. destruct (open_cipher_agrees key w Hw) as [E1 H1], (decrypt_store_agrees old w Hw) as [E2 H2],
    (rotate_store_agrees old new w Hw) as [E3 H3]. rewrite E1, E2, E3. by split_and!.
Qed.
End conversion.

(** ** The bincode upgrade (bincode_upgrade.rs) *)

Section upgrade.
Context `{driver : Driver} `{keys : Keys} `{!Message DeviceBlob} `{!Message HashStateWire} `{!Message AppStateSyncKeyWire}.
Context `{!BincodeOf LegacyDevice} `{!BincodeOf HashState} `{!BincodeOf AppStateSyncKey}.
Context (device_bincode : Device -> result string bytes) (show : StoreError -> string).
Context (debug : Value -> string) (no_column : nat -> TursoError).

Definition SELECT_BLOB_FORMAT : Statement MarkedDb (list Row) := MkStatement
  "SELECT format FROM blob_format WHERE id = 1"
  (fun v => match v with [] => reads (fun d => option_list ((fun marker => [Text marker]) <$> format d)) | _ => mistyped end).
Definition MARK_BLOB_FORMAT : Statement MarkedDb unit := MkStatement
  "UPDATE blob_format SET format = $1 WHERE id = 1"
  (fun v => match v with [Text marker] => fun d => (Ok tt, BincodeUpgrade.MARK_BLOB_FORMAT marker d) | _ => mistyped end).
Definition SELECT_LEGACY_DEVICES : Statement MarkedDb (list Row) := MkStatement
  "SELECT device_id, data FROM device ORDER BY device_id"
  (fun v => match v with
    | [] => reads (fun d => (fun x => binds![x.1; x.2]) <$> BincodeUpgrade.SELECT_LEGACY_DEVICES d)
    | _ => mistyped
    end).
Definition SELECT_LEGACY_VERSIONS : Statement MarkedDb (list Row) := MkStatement
  "SELECT device_id, name, state_data FROM app_state_versions ORDER BY device_id, name"
  (fun v => match v with
    | [] => reads (fun d => (fun x => binds![x.1.2; x.1.1; x.2]) <$> BincodeUpgrade.SELECT_LEGACY_VERSIONS d)
    | _ => mistyped
    end).
Definition SELECT_LEGACY_SYNC_KEYS : Statement MarkedDb (list Row) := MkStatement
  "SELECT device_id, key_id, key_data FROM app_state_keys ORDER BY device_id, key_id"
  (fun v => match v with
    | [] => reads (fun d => (fun x => binds![x.1.2; x.1.1; x.2]) <$> BincodeUpgrade.SELECT_LEGACY_SYNC_KEYS d)
    | _ => mistyped
    end).
Definition UPDATE_DEVICE_BLOB : Statement MarkedDb unit := MkStatement
  "UPDATE device SET data = $1 WHERE device_id = $2"
  (fun v => match v with [Blob b; Integer dev] => fun d => (Ok tt, BincodeUpgrade.UPDATE_DEVICE_BLOB (dev, b) d) | _ => mistyped end).
Definition UPDATE_VERSION_BLOB : Statement MarkedDb unit := MkStatement
  "UPDATE app_state_versions SET state_data = $1 WHERE device_id = $2 AND name = $3"
  (fun v => match v with
    | [Blob b; Integer dev; Text n] => fun d => (Ok tt, BincodeUpgrade.UPDATE_VERSION_BLOB (n, dev, b) d)
    | _ => mistyped
    end).
Definition UPDATE_SYNC_KEY_BLOB : Statement MarkedDb unit := MkStatement
  "UPDATE app_state_keys SET key_data = $1 WHERE device_id = $2 AND key_id = $3"
  (fun v => match v with
    | [Blob b; Integer dev; Blob id] => fun d => (Ok tt, BincodeUpgrade.UPDATE_SYNC_KEY_BLOB (id, dev, b) d)
    | _ => mistyped
    end).

(** [map_err(upgrade_db_error(context))] of a value. *)
Definition upgrade_db_error {A} (context : string) (r : StoreResult A) : Run MarkedDb A :=
  of_result (map_err (fun e => as_migration (DatabaseFailed context (show e))) r).

Definition read_blob_format : Run MarkedDb string :=
  row ← attempt show "reading blob_format" (tx_fetch_optional SELECT_BLOB_FORMAT []);
  row ← of_result (ok_or row (as_migration (UnknownFormat "<no blob_format row>")));
  upgrade_db_error "reading blob_format" (text debug no_column row 0).

Definition read_rows {T} (sql : Statement MarkedDb (list Row)) (context : string) (decode : Row -> StoreResult T) :
    Run MarkedDb (list T) :=
  rows ← attempt show context (tx_fetch_all sql []);
  upgrade_db_error context (mapM decode rows).

Definition legacy_device (r : Row) : StoreResult (Z * bytes) :=
  device ← int32 debug no_column r 0;
  data ← blob debug no_column r 1;
  Ok (device, data).
Definition legacy_version (r : Row) : StoreResult (string * Z * bytes) :=
  device ← int32 debug no_column r 0;
  name ← text debug no_column r 1;
  data ← blob debug no_column r 2;
  Ok (name, device, data).
Definition legacy_sync_key (r : Row) : StoreResult (bytes * Z * bytes) :=
  device ← int32 debug no_column r 0;
  key_id ← blob debug no_column r 1;
  data ← blob debug no_column r 2;
  Ok (key_id, device, data).

Definition read_legacy_rows : Run MarkedDb BlobRows :=
  ds ← read_rows SELECT_LEGACY_DEVICES "reading device" legacy_device;
  vs ← read_rows SELECT_LEGACY_VERSIONS "reading app_state_versions" legacy_version;
  ks ← read_rows SELECT_LEGACY_SYNC_KEYS "reading app_state_keys" legacy_sync_key;
  mret (MkBlobRows ds vs ks).

Definition write_devices (plan : BlobRows) : Run MarkedDb unit :=
  each (fun x => attempt show "updating device" (tx_execute UPDATE_DEVICE_BLOB binds![x.2; x.1])) (devices plan).
Definition write_versions (plan : BlobRows) : Run MarkedDb unit :=
  each (fun x => attempt show "updating app_state_versions" (tx_execute UPDATE_VERSION_BLOB binds![x.2; x.1.2; x.1.1])) (versions plan).
Definition write_sync_keys (plan : BlobRows) : Run MarkedDb unit :=
  each (fun x => attempt show "updating app_state_keys" (tx_execute UPDATE_SYNC_KEY_BLOB binds![x.2; x.1.2; x.1.1])) (sync_keys plan).
Definition write_plan (plan : BlobRows) : Run MarkedDb unit :=
  _ ← write_devices plan;
  _ ← write_versions plan;
  write_sync_keys plan.

Definition mark_protobuf : Run MarkedDb unit :=
  attempt show "updating blob_format" (tx_execute MARK_BLOB_FORMAT binds![BLOB_FORMAT_PROTOBUF]).

(** Whether there was something to convert. *)
Definition plan_and_write : Run MarkedDb bool :=
  marker ← read_blob_format;
  needed ← BincodeUpgrade.convert (needs_bincode_upgrade marker);
  if (needed : bool) then
    rows ← read_legacy_rows;
    plan ← BincodeUpgrade.convert (plan_bincode_upgrade device_bincode show rows);
    _ ← write_plan plan;
    _ ← mark_protobuf;
    mret true
  else mret false.

(** [TursoTx::rollback] answers nothing: a statement of it that fails leaves the batch to be
    discarded by the next user of the connection. *)
Definition rolled_back (found : MarkedDb) (w : World MarkedDb) : World MarkedDb := MkWorld found (tail (faults w)).

Definition upgrade_bincode_blobs : Run MarkedDb unit := fun w =>
  match attempt show "begin" (stmt (fun d => (Ok tt, d))) w with
  | (Err e, w0) => (Err e, w0)
  | (Ok _, w0) =>
      match plan_and_write w0 with
      | (Ok true, w1) =>
          let failed e rest d := (Err (as_migration (DatabaseFailed "commit" (show e))), MkWorld d rest) in
          match faults w1 with
          | Fails e :: rest => failed e rest (db w)
          | FailsAfter e :: rest => failed e rest (db w1)
          | Fine :: rest => (Ok tt, MkWorld (db w1) rest)
          | [] => (Ok tt, w1)
          end
      | (Ok false, w1) => (Ok tt, rolled_back (db w) w1)
      | (Err e, w1) => (Err e, rolled_back (db w) w1)
      end
  end.

(** ** Against the sql family *)

(** The ids are i32 and the marker is there. *)
Definition upgrade_schema (d : MarkedDb) : Prop :=
  is_Some (format d) /\
  (forall k, is_Some (device_rows (app d) !! k) -> in_i32 k) /\
  (forall k, is_Some (app_state_versions (app d) !! k) -> in_i32 k.2) /\
  (forall k, is_Some (app_state_keys (app d) !! k) -> in_i32 k.2).

Context {laws : DriverLaws driver} (row_not_found : StoreError).

Lemma agrees_attempt {A} context (m m' : Run MarkedDb A) :
  agrees upgrade_schema m m' -> agrees upgrade_schema (attempt show context m) (attempt show context m').
Proof using Type.
  intros Hm w Hw. destruct (Hm w Hw) as [E Hi]. unfold attempt. rewrite E. by destruct (m' w) as [r w'].
Qed.

Lemma read_rows_agrees {A B} sql context decode (enc : A -> Row) f (k : list A -> Run MarkedDb B) k' :
  (forall d, prepared sql [] d = reads (fun d => enc <$> f d) d) ->
  (forall d, upgrade_schema d -> Forall (fun a => decode (enc a) = Ok a) (f d)) -> (forall l, agrees upgrade_schema (k l) (k' l)) ->
  agrees upgrade_schema (read_rows sql context decode ≫= k) (attempt show context (query f) ≫= k').
Proof using Type.
  intros Hs Hd Hk w Hw. unfold read_rows, mbind, run_bind, attempt, tx_fetch_all, query. rewrite (stmt_agree _ _ w Hs).
  assert (E : mapM decode (enc <$> f (db w)) = Ok (f (db w))).
  { rewrite (decode_pure _ _ (fun a => a)); [by rewrite list_fmap_id|]. apply Forall_forall, (Hd _ Hw). }
  unfold stmt, reads, upgrade_db_error, of_result.
  by destruct (faults w) as [|[] fs]; cbn; try done; rewrite E; apply Hk.
Qed.

Lemma updates_agree {A} (s : Statement MarkedDb unit) binds context (u : A -> MarkedDb -> MarkedDb) l :
  (forall x d, prepared s (binds x) d = (Ok tt, u x d)) -> (forall x d, upgrade_schema d -> upgrade_schema (u x d)) ->
  agrees upgrade_schema (each (fun x => attempt show context (tx_execute s (binds x))) l) (each (fun x => update show context (u x)) l).
Proof using Type.
  intros Hs Hu. apply agrees_each_same. intros x _. apply agrees_attempt, agrees_stmt; [intros d _; apply Hs|intros d; apply Hu].
Qed.

Lemma read_legacy_rows_agrees {B} (k k' : BlobRows -> Run MarkedDb B) :
  (forall rows, agrees upgrade_schema (k rows) (k' rows)) ->
  agrees upgrade_schema (read_legacy_rows ≫= k) (BincodeUpgrade.read_legacy_rows show ≫= k').
Proof using laws.
  intros Hk. apply agrees_bind; [|done].
  apply (read_rows_agrees _ _ _ (fun x => binds![x.1; x.2])); [by_number| |intros ds].
  { intros d (_ & Hd & _). apply Forall_forall. unfold BincodeUpgrade.SELECT_LEGACY_DEVICES. intros [device b].
    rewrite merge_sort_Permutation, elem_of_map_to_list. intros Hin. unfold legacy_device, int32. cbn.
    by rewrite i32_reads by (by apply Hd; eexists). }
  apply (read_rows_agrees _ _ _ (fun x => binds![x.1.2; x.1.1; x.2])); [by_number| |intros vs].
  { intros d (_ & _ & Hd & _). apply Forall_forall. unfold BincodeUpgrade.SELECT_LEGACY_VERSIONS. intros [[name device] b].
    rewrite merge_sort_Permutation, elem_of_map_to_list. intros Hin. unfold legacy_version, int32. cbn.
    by rewrite i32_reads by (by apply (Hd (name, device)); eexists). }
  apply (read_rows_agrees _ _ _ (fun x => binds![x.1.2; x.1.1; x.2])); [by_number| |intros ks; apply agrees_ret].
  intros d (_ & _ & _ & Hd). apply Forall_forall. unfold BincodeUpgrade.SELECT_LEGACY_SYNC_KEYS. intros [[id device] b].
  rewrite merge_sort_Permutation, elem_of_map_to_list. intros Hin. unfold legacy_sync_key, int32. cbn.
  by rewrite i32_reads by (by apply (Hd (id, device)); eexists).
Qed.

Lemma write_plan_agrees plan : agrees upgrade_schema (write_plan plan) (BincodeUpgrade.write_plan show plan).
Proof using laws.
  apply agrees_bind; [|intros _; apply agrees_bind; [|intros _]]; apply updates_agree; try (intros [? ?]; by_number);
    try (intros [[? ?] ?]; by_number).
  - intros [k b] d (Hf & Hd & Hr). split_and!; [done| |apply Hr..]. intros k'. cbn. rewrite lookup_alter_is_Some. apply Hd.
  - intros [k b] d (Hf & Hd & Hv & Hr). split_and!; [done|done| |apply Hr]. intros k'. cbn. rewrite lookup_alter_is_Some. apply Hv.
  - intros [k b] d (Hf & Hd & Hv & Hr). split_and!; [done|done|done|]. intros k'. cbn. rewrite lookup_alter_is_Some. apply Hr.
Qed.

Lemma plan_and_write_agrees :
  agrees upgrade_schema plan_and_write (upgrade_body device_bincode show row_not_found).
Proof using laws.
  apply agrees_bind.
  - intros w Hw. destruct Hw as [[marker Hm] Hr] eqn:E. clear E. split; [|by unfold BincodeUpgrade.read_blob_format, attempt, stmt;
      destruct (faults w) as [|[] fs]; cbn].
    unfold read_blob_format, BincodeUpgrade.read_blob_format, attempt, tx_fetch_optional, tx_fetch_all, mbind, run_bind.
    rewrite (stmt_agree (prepared SELECT_BLOB_FORMAT []) (reads (fun d => option_list ((fun marker => [Text marker]) <$> format d)))) by by_number.
    unfold stmt, reads. by destruct (faults w) as [|[] fs]; cbn; rewrite ?Hm.
  - intros marker. apply agrees_bind; [apply agrees_result|]. intros needed. destruct needed; [|apply agrees_ret].
    apply read_legacy_rows_agrees. intros rows. apply agrees_bind; [apply agrees_result|]. intros plan.
    apply agrees_bind; [apply write_plan_agrees|]. intros _. apply agrees_bind; [|intros _; apply agrees_ret].
    apply agrees_attempt, agrees_stmt; [by_number|]. intros d ([m Hm] & Hr). split; [|done]. cbn. rewrite Hm. by eexists.
Qed.

(** The upgrade leaves on Turso the database it leaves on SQLite, and answers the same, except that a
    rollback that fails when there was nothing to convert is not an error. *)
Lemma turso_upgrade_is_sql w : upgrade_schema (db w) ->
  let '(r, w1) := upgrade_bincode_blobs w in
  let '(r', w1') := BincodeUpgrade.upgrade_bincode_blobs device_bincode show row_not_found w in
  db w1 = db w1' /\ (r = r' \/ (r = Ok tt /\ exists e, r' = Err (as_migration (DatabaseFailed "rolling back" (show e))))).
Proof using laws.
  intros Hw. unfold upgrade_bincode_blobs, BincodeUpgrade.upgrade_bincode_blobs.
  destruct (attempt show "begin" _ w) as [[[]|e] w0] eqn:E; [|by split; [|left]].
  assert (Hw0 : upgrade_schema (db w0)).
  { revert E. unfold attempt, stmt. by destruct (faults w) as [|[] ?]; intros [= <-]. }
  destruct (plan_and_write_agrees w0 Hw0) as [-> _].
  destruct (upgrade_body device_bincode show row_not_found w0) as [[[]|e] w1]; [| |by split; [|left]];
    destruct (faults w1) as [|[] fs]; cbn; split; try done; try (by left); right; split; try done; by eexists.
Qed.

(** A store without the marker's row is refused under its own name, and left alone. *)
Lemma turso_upgrade_no_row w : faults w = [] -> format (db w) = None ->
  let '(r, w1) := upgrade_bincode_blobs w in
  r = Err (as_migration (UnknownFormat "<no blob_format row>")) /\ db w1 = db w.
Proof using laws.
  destruct w as [d fs]. cbn. intros -> Hf.
  assert (E : tx_fetch_optional SELECT_BLOB_FORMAT [] (MkWorld d []) = (Ok None, MkWorld d [])).
  { unfold tx_fetch_optional, tx_fetch_all, mbind, run_bind.
    rewrite (stmt_agree _ (reads (fun d => option_list ((fun marker => [Text marker]) <$> format d)))) by by_number.
    unfold stmt, reads. cbn. by rewrite Hf. }
  unfold upgrade_bincode_blobs, plan_and_write, read_blob_format, mbind, run_bind, attempt.
  unfold stmt. cbn -[tx_fetch_optional]. by rewrite E.
Qed.
End upgrade.

(** ** A store with one identity key, opened with its key while a reader keeps the log busy *)

#[local] Existing Instances by_appearance by_appearance_laws.

Lemma small_schema : schema small_store.
Proof.
  split_and!.
  - intros device Hd. change (device ∈ ({[4]} : gset Z)) in Hd. by apply elem_of_singleton in Hd as ->.
  - intros device Hd. change (device ∈ (∅ : gset Z)) in Hd. by apply elem_of_empty in Hd.
  - intros device column parts Hin [b Hb].
    change (small_plain !! (device, sc_table column, parts) = Some b) in Hb.
    unfold small_plain in Hb. apply lookup_singleton_Some in Hb as [Hk _]. injection Hk as _ Ht <-.
    assert (H : Forall (fun c => sc_table c = "identities" -> Forall2 part_typed (sc_key c) [PText "alice"]) SEALED_COLUMNS).
    { unfold SEALED_COLUMNS. repeat (apply List.Forall_cons; [intros Hc; first [discriminate Hc|by repeat constructor]|]). constructor. }
    rewrite Forall_forall in H. by apply H.
Qed.

Lemma turso_conversion_is_sql_witness :
  schema small_store /\
  open_cipher toy_draws refused (fun _ => "value") (fun _ => OtherError "no column") true 0 0 (Some toy_key) (MkWorld small_store []) = busy_run /\
  old_bytes sealed_store = {["identities"]}.
Proof.
  destruct (turso_conversion_is_sql (laws := by_appearance_laws) toy_draws refused (fun _ => "value") (fun _ => OtherError "no column")
    true 0 0 (MkWorld small_store []) (Some toy_key) toy_key other_key small_schema) as [E _].
  split; [exact small_schema|]. split; [exact E|vm_compute; reflexivity].
Defined.
