(* ===== verification/Migrations.v ===== *)
(** * Migrations on Turso (storage/turso/migrations.rs)

    The embedded scripts, applied to a store in sqlx's bookkeeping table.  A connection holds what
    is on disk and the transaction it may have open; any statement may fail, before it did anything
    or after, and the process may die at any of them: a connection that is gone leaves what was on
    disk.  What a script does to the rest of the store is a parameter. *)

From stdpp Require Import sorting.
From S2P Require Import Prelude StoreError Turso.

(** ** A connection *)

Inductive MigrationType : Type := Simple | ReversibleUp | ReversibleDown.
Definition is_down_migration (t : MigrationType) : bool := match t with ReversibleDown => true | _ => false end.

Record Migration : Type := MkMigration {
  version : Z;
  description : string;
  migration_type : MigrationType;
  script : string;
  checksum : bytes;
}.

(** A row of [_sqlx_migrations]; the installation time is left out. *)
Record AppliedRow : Type := MkAppliedRow {
  row_description : string;
  success : bool;
  row_checksum : bytes;
  execution_time : Z;
}.

Inductive TursoFault : Type :=
| Works
| FailsFirst (e : TursoError)   (* the statement did nothing *)
| FailsLast (e : TursoError).   (* it was applied *)

Inductive TursoMigrationError : Type :=
| Dirty (version : Z)
| ChecksumMismatch (version : Z)
| VersionMissing (version : Z)
| Script (version : Z) (description : string) (source : TursoError)
| Bookkeeping (source : StoreError).

Section migrations.
Context {D : Type}.
(** [execute_batch]: what a script does to the rest of the store, on an error too. *)
Context (execute_batch : string -> D -> result TursoError unit * D).
(** The embedded migrations, the nanoseconds one took, and the driver's refusals. *)
Context (SQLITE_MIGRATOR : list Migration) (elapsed : Z).
Context (constraint nested no_transaction : TursoError).
(** How a value prints, and the driver's error on a column that is not there. *)
Context (debug : Value -> string) (no_column : nat -> TursoError).

(** The bookkeeping table, when it is there, and the rest. *)
Record MigDb : Type := MkMigDb { table : option (gmap Z AppliedRow); schema : D }.

Record Conn : Type := MkConn {
  stored : MigDb;
  in_transaction : option MigDb;
  upsets : list TursoFault;
}.

Abbreviation Step := (StErr Conn).

(** One statement: what the connection does at it, and whether it is said to have failed. *)
Definition run_step {A} (f : Conn -> result TursoError A * Conn) : Step TursoError A := fun c =>
  match upsets c with
  | FailsFirst e :: rest => (Err e, MkConn (stored c) (in_transaction c) rest)
  | FailsLast e :: rest => (Err e, (f (MkConn (stored c) (in_transaction c) rest)).2)
  | Works :: rest => f (MkConn (stored c) (in_transaction c) rest)
  | [] => f c
  end.

(** On what the connection sees: its transaction, or the file. *)
Definition on_view {A} (f : MigDb -> result TursoError A * MigDb) (c : Conn) : result TursoError A * Conn :=
  match in_transaction c with
  | Some d => let '(r, d') := f d in (r, MkConn (stored c) (Some d') (upsets c))
  | None => let '(r, d') := f (stored c) in (r, MkConn d' None (upsets c))
  end.
Definition statement {A} (f : MigDb -> result TursoError A * MigDb) : Step TursoError A := run_step (on_view f).

Definition BEGIN : Step TursoError unit := run_step (fun c =>
  match in_transaction c with
  | Some _ => (Err nested, c)
  | None => (Ok tt, MkConn (stored c) (Some (stored c)) (upsets c))
  end).
Definition COMMIT : Step TursoError unit := run_step (fun c =>
  match in_transaction c with
  | Some d => (Ok tt, MkConn d None (upsets c))
  | None => (Err no_transaction, c)
  end).
Definition ROLLBACK : Step TursoError unit := run_step (fun c =>
  match in_transaction c with
  | Some _ => (Ok tt, MkConn (stored c) None (upsets c))
  | None => (Err no_transaction, c)
  end).

(** ** The statements *)

Definition rows (d : MigDb) : gmap Z AppliedRow := default ∅ (table d).
Definition CREATE_MIGRATIONS_TABLE : Step TursoError unit := statement (fun d => (Ok tt, MkMigDb (Some (rows d)) (schema d))).

(** A table's rows by version. *)
Definition before_version (a b : Z * AppliedRow) : Prop := a.1 <= b.1.
#[local] Instance before_version_dec a b : Decision (before_version a b).
Proof. unfold before_version. apply _. Defined.
Definition by_version (d : MigDb) : list (Z * AppliedRow) := merge_sort before_version (map_to_list (rows d)).

Definition SELECT_FAILED : Step TursoError (list Row) := statement (fun d =>
  (Ok (take 1 ((fun x => [Integer x.1]) <$> filter (fun x => success x.2 = false) (by_version d))), d)).
Definition SELECT_APPLIED : Step TursoError (list Row) := statement (fun d =>
  (Ok ((fun x => [Integer x.1; Blob (row_checksum x.2)]) <$> by_version d), d)).
Definition INSERT_APPLIED (v : Z) (desc : string) (sum : bytes) : Step TursoError unit := statement (fun d =>
  match rows d !! v with
  | Some _ => (Err constraint, d)
  | None => (Ok tt, MkMigDb (Some (<[v := MkAppliedRow desc true sum (-1)]> (rows d))) (schema d))
  end).
Definition UPDATE_EXECUTION_TIME (nanos v : Z) : Step TursoError unit := statement (fun d =>
  (Ok tt, MkMigDb (alter (fun row => MkAppliedRow (row_description row) (success row) (row_checksum row) nanos) v <$> table d) (schema d))).

(** ** The runner *)

Definition bookkeeping {A} (m : Step StoreError A) : Step TursoMigrationError A := err_as Bookkeeping m.
Definition recorded {A} (m : Step TursoError A) : Step TursoMigrationError A := bookkeeping (err_as db_error m).

Definition reject_failed_row : Step TursoMigrationError unit :=
  failed ← recorded SELECT_FAILED;
  match (fun row => get_value no_column row 0) <$> head failed with
  | Some (Ok (Integer v)) => lift (Err (Dirty v))
  | _ => mret tt
  end.

(** The map is the last of the rows of each version. *)
Definition applied_checksums : Step TursoMigrationError (gmap Z bytes) :=
  rows ← recorded SELECT_APPLIED;
  pairs ← bookkeeping (lift (mapM (fun row =>
    version ← int debug no_column row 0;
    checksum ← blob debug no_column row 1;
    Ok (version, checksum)) rows));
  mret (foldl (fun applied p => <[p.1 := p.2]> applied) ∅ pairs).

Definition known (v : Z) : bool := existsb (fun m => version m =? v) SQLITE_MIGRATOR.
(** The keys in some order. *)
Definition check_known (applied : gmap Z bytes) : result TursoMigrationError unit :=
  match filter (fun v => known v = false) (map_to_list applied).*1 with
  | v :: _ => Err (VersionMissing v)
  | [] => Ok tt
  end.
Definition check_checksum (m : Migration) (sum : bytes) : result TursoMigrationError unit :=
  if bool_decide (checksum m = sum) then Ok tt else Err (ChecksumMismatch (version m)).

Definition run_script_and_record (m : Migration) : Step TursoMigrationError unit :=
  _ ← err_as (Script (version m) (description m)) (statement (fun d =>
    let '(r, s) := execute_batch (script m) (schema d) in (r, MkMigDb (table d) s)));
  recorded (INSERT_APPLIED (version m) (description m) (checksum m)).

(** A failure inside [BEGIN] leaves the transaction open; what the ROLLBACK answers is dropped. *)
Definition or_rollback (m : Step TursoMigrationError unit) : Step TursoMigrationError unit := fun c =>
  match m c with
  | (Err e, c') => (Err e, (ROLLBACK c').2)
  | (Ok _, c') => (Ok tt, c')
  end.

Definition apply_one (m : Migration) : Step TursoMigrationError unit :=
  _ ← recorded BEGIN;
  _ ← or_rollback (run_script_and_record m);
  _ ← recorded COMMIT;
  recorded (UPDATE_EXECUTION_TIME (Z.min elapsed (2 ^ 63 - 1)) (version m)).

Fixpoint apply_each (applied : gmap Z bytes) (ms : list Migration) : Step TursoMigrationError unit :=
  match ms with
  | [] => mret tt
  | m :: ms =>
      if is_down_migration (migration_type m) then apply_each applied ms
      else
        _ ← match applied !! version m with
            | Some sum => lift (check_checksum m sum)
            | None => apply_one m
            end;
        apply_each applied ms
  end.

(** [lock] is what [lock_autocommit] answers. *)
Definition apply_pending (lock : StoreResult unit) : Step TursoMigrationError unit :=
  _ ← bookkeeping (lift lock);
  _ ← recorded CREATE_MIGRATIONS_TABLE;
  _ ← reject_failed_row;
  applied ← applied_checksums;
  _ ← lift (check_known applied);
  apply_each applied SQLITE_MIGRATOR.

(** ** One statement *)

Lemma statement_outside {A} (f : MigDb -> result TursoError A * MigDb) c :
  in_transaction c = None ->
  match statement f c with
  | (Ok a, c') => f (stored c) = (Ok a, stored c') /\ in_transaction c' = None
  | (Err _, c') => (stored c' = stored c \/ stored c' = (f (stored c)).2) /\ in_transaction c' = None
  end.
Proof using Type.
  destruct c as [d o fs]. cbn. intros ->. unfold statement, run_step, on_view. cbn.
  destruct fs as [|[] fs]; cbn; destruct (f d) as [[?|?] ?]; cbn; auto.
Qed.

Lemma statement_inside {A} (f : MigDb -> result TursoError A * MigDb) c d :
  in_transaction c = Some d ->
  let '(r, c') := statement f c in
  stored c' = stored c /\ (forall a, r = Ok a -> exists d', f d = (Ok a, d') /\ in_transaction c' = Some d').
Proof using Type.
  destruct c as [s o fs]. cbn. intros ->. unfold statement, run_step, on_view. cbn.
  destruct fs as [|[] fs]; cbn; destruct (f d) as [r d']; cbn; (split; [done|]); intros a [=]; subst; by eexists.
Qed.

Lemma begin_spec c :
  in_transaction c = None ->
  let '(r, c') := BEGIN c in stored c' = stored c /\ (r = Ok tt -> in_transaction c' = Some (stored c)).
Proof using Type.
  destruct c as [d o fs]. cbn. intros ->. unfold BEGIN, run_step. cbn. by destruct fs as [|[] fs].
Qed.

Lemma commit_spec c d :
  in_transaction c = Some d ->
  match COMMIT c with
  | (Ok _, c') => stored c' = d /\ in_transaction c' = None
  | (Err _, c') => stored c' = stored c \/ stored c' = d
  end.
Proof using Type.
  destruct c as [s o fs]. cbn. intros ->. unfold COMMIT, run_step. cbn. destruct fs as [|[] fs]; cbn; auto.
Qed.

Lemma rollback_keeps c : stored (ROLLBACK c).2 = stored c.
Proof using Type.
  destruct c as [s o fs]. unfold ROLLBACK, run_step. cbn. destruct fs as [|[] fs], o; done.
Qed.

Lemma recorded_run {A} (m : Step TursoError A) c :
  recorded m c = (let '(r, c') := m c in (map_err (fun e => Bookkeeping (db_error e)) r, c')).
Proof using Type. unfold recorded, bookkeeping, err_as. by destruct (m c) as [[] ?]. Qed.

(** ** What is on disk *)

(** The rows but for their times, and the rest. *)
Definition untimed (row : AppliedRow) : AppliedRow :=
  MkAppliedRow (row_description row) (success row) (row_checksum row) (-1).
Definition content (d : MigDb) : gmap Z AppliedRow * D := (untimed <$> rows d, schema d).

(** One migration, whole: its script ran to the end and its row is there. *)
Definition stepped (m : Migration) (x y : gmap Z AppliedRow * D) : Prop :=
  x.1 !! version m = None /\ execute_batch (script m) x.2 = (Ok tt, y.2) /\
  y.1 = <[version m := MkAppliedRow (description m) true (checksum m) (-1)]> x.1.
Fixpoint stepped_all (ms : list Migration) (x y : gmap Z AppliedRow * D) : Prop :=
  match ms with
  | [] => x = y
  | m :: ms => exists z, stepped m x z /\ stepped_all ms z y
  end.

(** What is left to apply. *)
Definition wanting (x : gmap Z AppliedRow * D) (m : Migration) : Prop :=
  is_down_migration (migration_type m) = false /\ x.1 !! version m = None.
#[local] Instance wanting_dec x m : Decision (wanting x m).
Proof. unfold wanting. apply _. Defined.
Definition pending (x : gmap Z AppliedRow * D) : list Migration := filter (wanting x) SQLITE_MIGRATOR.

Lemma timed_content nanos v d :
  content (MkMigDb (alter (fun row => MkAppliedRow (row_description row) (success row) (row_checksum row) nanos) v <$> table d) (schema d)) = content d.
Proof using Type.
  unfold content, rows. cbn. f_equal. destruct (table d) as [t|]; [|done]. cbn. apply map_eq. intros k.
  rewrite !lookup_fmap. destruct (decide (v = k)) as [<-|Hne]; [rewrite lookup_alter_eq|by rewrite lookup_alter_ne].
  by destruct (t !! v).
Qed.

(** A migration that stops before its COMMIT left nothing; one that does after, everything. *)
Definition blames (m : Migration) (e : TursoMigrationError) : Prop :=
  (exists source, e = Script (version m) (description m) source) \/ exists source, e = Bookkeeping source.

(** The statements of the transaction: nothing is on disk before the COMMIT. *)
Lemma body_spec m c d :
  in_transaction c = Some d ->
  let '(r, c') := run_script_and_record m c in
  stored c' = stored c /\
  match r with
  | Ok _ => exists d', in_transaction c' = Some d' /\ stepped m (content d) (content d')
  | Err e => blames m e
  end.
Proof using Type.
  intros Hc. unfold run_script_and_record, mbind, sterr_bind, err_as.
  match goal with |- context [statement ?f c] => pose proof (statement_inside f c _ Hc) as Hr; destruct (statement f c) as [[[]|e] c2] end;
    destruct Hr as [Hs2 Ht2]; cbn [map_err]; [|split; [done|]; left; by eexists].
  destruct (Ht2 tt eq_refl) as (d2 & Hrun & Ht2'). rewrite recorded_run. unfold INSERT_APPLIED.
  match goal with |- context [statement ?f c2] => pose proof (statement_inside f c2 _ Ht2') as Hr; destruct (statement f c2) as [[[]|e] c3] end;
    destruct Hr as [Hs3 Ht3]; cbn [map_err]; (split; [by rewrite Hs3|]); [|right; by eexists].
  destruct (Ht3 tt eq_refl) as (d3 & Hins & Ht3'). exists d3. split; [done|].
  destruct (execute_batch (script m) (schema d)) as [r s] eqn:E. injection Hrun as -> <-. cbn in Hins.
  unfold rows in Hins. cbn in Hins. change (default ∅ (table d)) with (rows d) in Hins.
  destruct (rows d !! version m) eqn:Hrow; [done|]. injection Hins as <-. unfold stepped, content, rows at 2. cbn.
  rewrite lookup_fmap, Hrow. split_and!; [done..|]. by rewrite fmap_insert.
Qed.

Lemma apply_one_spec m c :
  in_transaction c = None ->
  let '(r, c') := apply_one m c in
  (stored c' = stored c /\ exists e, r = Err e /\ blames m e) \/
  (stepped m (content (stored c)) (content (stored c')) /\
   match r with Ok _ => in_transaction c' = None | Err e => exists source, e = Bookkeeping source end).
Proof using Type.
  intros Hc. unfold apply_one. unfold mbind at 1, sterr_bind at 1. rewrite recorded_run.
  pose proof (begin_spec c Hc) as Hb. destruct (BEGIN c) as [[[]|e] c1]; destruct Hb as [Hs1 Ht1]; cbn beta iota delta [map_err];
    [specialize (Ht1 eq_refl)|left; split; [done|]; eexists; split; [done|]; right; by eexists].
  unfold mbind at 1, sterr_bind at 1, or_rollback. pose proof (body_spec m c1 _ Ht1) as Hb.
  destruct (run_script_and_record m c1) as [[[]|e] c2]; destruct Hb as [Hs2 Hb];
    [|left; rewrite rollback_keeps, Hs2; eauto].
  destruct Hb as (d & Ht2 & Hstep). unfold mbind, sterr_bind. rewrite recorded_run.
  pose proof (commit_spec c2 d Ht2) as Hcm. destruct (COMMIT c2) as [[[]|e] c3]; cbn beta iota delta [map_err].
  2: { destruct Hcm as [E|E]; rewrite E; [left|right; split; [done|by eexists]].
       rewrite Hs2. split; [done|]. eexists. split; [done|]. right. by eexists. }
  destruct Hcm as [Hs3 Ht3]. rewrite recorded_run. unfold UPDATE_EXECUTION_TIME. rewrite <-Hs3 in Hstep.
  match goal with |- context [statement ?f c3] => pose proof (statement_outside f c3 Ht3) as Hr; destruct (statement f c3) as [[[]|e] c4] end;
    cbn beta iota delta [map_err].
  - right. destruct Hr as [Hr Ht4]. injection Hr as Hr. split; [|done]. rewrite <-Hr, timed_content. done.
  - right. destruct Hr as [[Hr|Hr] _]; rewrite Hr; (split; [cbn; by rewrite ?timed_content|by eexists]).
Qed.

(** ** The loop *)

Definition up (ms : list Migration) : list Migration := filter (fun m => is_down_migration (migration_type m) = false) ms.

(** Why a run stops, from the content it found and what it had left to apply. *)
Definition refused (x : gmap Z AppliedRow * D) (left : list Migration) (e : TursoMigrationError) : Prop :=
  match e with
  | Dirty v => left = pending x /\ exists row, x.1 !! v = Some row /\ success row = false
  | VersionMissing v => left = pending x /\ is_Some (x.1 !! v) /\ known v = false
  | ChecksumMismatch v =>
      exists m row, m ∈ up SQLITE_MIGRATOR /\ version m = v /\ x.1 !! v = Some row /\ row_checksum row <> checksum m
  | Script v desc _ => exists m rest, left = m :: rest /\ version m = v /\ description m = desc
  | Bookkeeping _ => True
  end.

(** Why the loop does, over [ms]. *)
Definition stopped (x : gmap Z AppliedRow * D) (ms left : list Migration) (e : TursoMigrationError) : Prop :=
  match e with
  | ChecksumMismatch v => exists m row, m ∈ up ms /\ version m = v /\ x.1 !! v = Some row /\ row_checksum row <> checksum m
  | Script v desc _ => exists m rest, left = m :: rest /\ version m = v /\ description m = desc
  | Bookkeeping _ => True
  | Dirty _ | VersionMissing _ => False
  end.

(** What the loop reads is what is on disk, for the migrations to come. *)
Definition read_of (applied : gmap Z bytes) (x : gmap Z AppliedRow * D) (ms : list Migration) : Prop :=
  forall m, m ∈ ms -> is_down_migration (migration_type m) = false -> applied !! version m = row_checksum <$> x.1 !! version m.

Lemma stepped_read applied m ms x y :
  stepped m x y -> (forall m', m' ∈ up ms -> version m' <> version m) ->
  (read_of applied x ms -> read_of applied y ms) /\ filter (wanting y) ms = filter (wanting x) ms.
Proof using Type.
  intros (_ & _ & Hy) Hne.
  assert (Hsame : forall m', m' ∈ ms -> is_down_migration (migration_type m') = false -> y.1 !! version m' = x.1 !! version m').
  { intros m' Hin Hup. rewrite Hy, lookup_insert_ne; [done|]. intros E. apply (Hne m'); [|done]. by apply list_elem_of_filter. }
  split.
  - intros Hr m' Hin Hup. rewrite Hsame by done. by apply Hr.
  - clear -Hsame. induction ms as [|a ms IH]; [done|]. rewrite !filter_cons, IH by (intros; apply Hsame; [by right|done]).
    assert (E : wanting y a <-> wanting x a); [|by repeat case_decide; tauto].
    unfold wanting. split; intros [Hup Hn]; (split; [done|]); [rewrite <-Hsame|rewrite Hsame]; (done || by left).
Qed.

Lemma up_cons m ms : up (m :: ms) = if is_down_migration (migration_type m) then up ms else m :: up ms.
Proof using Type. unfold up. rewrite filter_cons. by destruct (is_down_migration _). Qed.

Lemma stepped_all_keeps l x y k row : stepped_all l x y -> x.1 !! k = Some row -> y.1 !! k = Some row.
Proof using Type.
  revert x. induction l as [|m l IH]; intros x H Hk; cbn in H; [by subst|]. destruct H as (z & (Hn & _ & Hz) & Hl).
  apply (IH z Hl). rewrite Hz, lookup_insert_ne; [done|]. intros <-. congruence.
Qed.

Lemma apply_each_spec applied ms c :
  in_transaction c = None -> NoDup (version <$> up ms) -> read_of applied (content (stored c)) ms ->
  let '(r, c') := apply_each applied ms c in
  exists l1 l2, filter (wanting (content (stored c))) ms = l1 ++ l2 /\ stepped_all l1 (content (stored c)) (content (stored c')) /\
    match r with
    | Ok _ => l2 = [] /\ forall m, m ∈ up ms -> exists row, (content (stored c')).1 !! version m = Some row /\ row_checksum row = checksum m
    | Err e => stopped (content (stored c)) ms l2 e
    end.
Proof using Type.
  revert c. induction ms as [|m ms IH]; intros c Hc Hnd Hr; cbn [apply_each].
  { exists [], []. split_and!; [done..|]. intros m Hin. by inversion Hin. }
  unfold stopped. rewrite up_cons in *. destruct (is_down_migration (migration_type m)) eqn:Hdown.
  { specialize (IH c Hc Hnd ltac:(intros m' Hin; apply Hr; by right)). destruct (apply_each applied ms c) as [r c'].
    destruct IH as (l1 & l2 & Hf & Hrest). exists l1, l2. split; [|done]. rewrite filter_cons_False; [done|].
    intros [Hup _]. congruence. }
  rewrite fmap_cons in Hnd. apply NoDup_cons in Hnd as [Hnew Hnd].
  assert (Hne : forall m', m' ∈ up ms -> version m' <> version m).
  { intros m' Hin E. apply Hnew. rewrite <-E. by apply list_elem_of_fmap_2. }
  pose proof (Hr m ltac:(left) Hdown) as Hm. unfold mbind, sterr_bind.
  destruct (applied !! version m) as [sum|].
  - symmetry in Hm. apply fmap_Some in Hm as (row & Hrow & ->). unfold lift, check_checksum.
    assert (Hf : filter (wanting (content (stored c))) (m :: ms) = filter (wanting (content (stored c))) ms).
    { rewrite filter_cons_False; [done|]. intros [_ Hn]. congruence. }
    rewrite Hf. case_bool_decide as Hsum.
    + specialize (IH c Hc Hnd ltac:(intros m' Hin; apply Hr; by right)).
      destruct (apply_each applied ms c) as [r c']. destruct IH as (l1 & l2 & E & Hl & Hres). exists l1, l2.
      split_and!; [done..|]. destruct r as [|e].
      2: { destruct e; try done. destruct Hres as (m' & row' & Hin & Hres). exists m', row'. split; [by right|done]. }
      destruct Hres as [-> Hall]. split; [done|].
      intros m' [->|Hin]%elem_of_cons; [|by apply Hall]. exists row. split; [by eapply stepped_all_keeps|done].
    + exists [], (filter (wanting (content (stored c))) ms). split_and!; [done..|]. exists m, row.
      split_and!; [by left|done..|by intros E].
  - symmetry in Hm. apply fmap_None in Hm.
    assert (Hf : filter (wanting (content (stored c))) (m :: ms) = m :: filter (wanting (content (stored c))) ms).
    { by rewrite filter_cons_True. }
    rewrite Hf. pose proof (apply_one_spec m c Hc) as H1. destruct (apply_one m c) as [r1 c1]. destruct H1 as [[E (e & -> & He)]|[Hst Hr1]].
    + exists [], (m :: filter (wanting (content (stored c))) ms). rewrite E. split_and!; [done..|].
      destruct He as [[source ->]|[source ->]]; [|done]. by exists m, (filter (wanting (content (stored c))) ms).
    + destruct (stepped_read applied m ms _ _ Hst Hne) as [Hread Hfil].
      destruct r1 as [[]|e].
      * specialize (IH c1 Hr1 Hnd ltac:(apply Hread; intros m' Hin; apply Hr; by right)).
        destruct (apply_each applied ms c1) as [r c']. destruct IH as (l1 & l2 & E & Hl & Hres). exists (m :: l1), l2.
        rewrite <-Hfil, E. split; [done|]. split; [by exists (content (stored c1))|]. destruct r as [[]|e].
        -- destruct Hres as [-> Hall]. split; [done|]. intros m' [->|Hin]%elem_of_cons; [|by apply Hall].
           exists (MkAppliedRow (description m) true (checksum m) (-1)). split; [|done].
           eapply stepped_all_keeps; [exact Hl|]. destruct Hst as (_ & _ & ->). by rewrite lookup_insert_eq.
        -- destruct e; try done. destruct Hres as (m' & row' & Hin & <- & Hrow & Hsum). exists m', row'.
           split_and!; [by right|done| |done]. destruct Hst as (_ & _ & Hy). rewrite Hy, lookup_insert_ne in Hrow; [done|].
           intros E'. by apply (Hne m').
      * destruct Hr1 as [source ->]. exists [m], (filter (wanting (content (stored c))) ms).
        split_and!; [done|by exists (content (stored c1))|done].
Qed.

(** ** What the runner reads first *)

Lemma foldl_lookup (l : list (Z * bytes)) (m : gmap Z bytes) v :
  NoDup l.*1 -> foldl (fun applied p => <[p.1 := p.2]> applied) m l !! v = (list_to_map l : gmap Z bytes) !! v ∪ m !! v.
Proof using Type.
  revert m. induction l as [|[k s] l IH]; intros m Hnd; cbn; [by rewrite lookup_empty, (left_id_L None (∪))|].
  apply NoDup_cons in Hnd as [Hk Hnd]. rewrite IH by done. destruct (decide (k = v)) as [<-|Hne].
  - rewrite !lookup_insert_eq, not_elem_of_list_to_map_1 by done. by rewrite (left_id_L None (∪)), union_Some_l.
  - by rewrite !lookup_insert_ne.
Qed.

Lemma by_version_perm d : by_version d ≡ₚ map_to_list (rows d).
Proof using Type. apply merge_sort_Permutation. Qed.

Lemma applied_checksums_spec c :
  in_transaction c = None ->
  let '(r, c') := applied_checksums c in
  stored c' = stored c /\
  match r with
  | Ok applied => in_transaction c' = None /\ forall v, applied !! v = row_checksum <$> (content (stored c)).1 !! v
  | Err e => exists source, e = Bookkeeping source
  end.
Proof using Type.
  intros Hc. unfold applied_checksums, mbind, sterr_bind. rewrite recorded_run. unfold SELECT_APPLIED.
  match goal with |- context [statement ?f c] => pose proof (statement_outside f c Hc) as Hr; destruct (statement f c) as [[l|e] c1] end;
    cbn beta iota delta [map_err]; [|destruct Hr as [[E|E] _]; (split; [exact E|by eexists])].
  destruct Hr as [[= <- Hs] Ht]. unfold bookkeeping, err_as, lift.
  rewrite (decode_pure _ _ (prod_map id row_checksum)) by done. cbn beta iota delta [map_err mret sterr_ret].
  rewrite <-Hs. split_and!; [done..|]. intros v. rewrite foldl_lookup, lookup_empty, (right_id_L None (∪)).
  2: { rewrite <-list_fmap_compose. rewrite by_version_perm. apply NoDup_fst_map_to_list. }
  rewrite (list_to_map_fmap row_checksum), lookup_fmap. unfold content. cbn. rewrite lookup_fmap.
  rewrite (list_to_map_proper _ (map_to_list (rows (stored c)))), list_to_map_to_list; [by destruct (rows _ !! v)| |apply by_version_perm].
  rewrite by_version_perm. apply NoDup_fst_map_to_list.
Qed.

Lemma reject_failed_spec c :
  in_transaction c = None ->
  let '(r, c') := reject_failed_row c in
  stored c' = stored c /\
  match r with
  | Ok _ => in_transaction c' = None /\ forall v row, (content (stored c)).1 !! v = Some row -> success row = true
  | Err (Dirty v) => exists row, (content (stored c)).1 !! v = Some row /\ success row = false
  | Err e => exists source, e = Bookkeeping source
  end.
Proof using Type.
  intros Hc. unfold reject_failed_row, mbind, sterr_bind. rewrite recorded_run. unfold SELECT_FAILED.
  match goal with |- context [statement ?f c] => pose proof (statement_outside f c Hc) as Hr; destruct (statement f c) as [[l|e] c1] end;
    cbn beta iota delta [map_err]; [|destruct Hr as [[E|E] _]; (split; [exact E|by eexists])].
  destruct Hr as [[= <- Hs] Ht].
  assert (Hin : forall v row, (v, row) ∈ by_version (stored c) <-> rows (stored c) !! v = Some row).
  { intros v row. by rewrite by_version_perm, elem_of_map_to_list. }
  destruct (filter _ (by_version (stored c))) as [|[v row] failed] eqn:E; cbn.
  - split_and!; [done..|]. intros v row Hrow. unfold content in Hrow. cbn in Hrow. rewrite lookup_fmap in Hrow.
    apply fmap_Some in Hrow as (row' & Hrow & ->). cbn. destruct (success row') eqn:Hsu; [done|].
    assert (Hf : (v, row') ∈ filter (fun x : Z * AppliedRow => success x.2 = false) (by_version (stored c)))
      by (apply list_elem_of_filter; split; [done|by apply Hin]). rewrite E in Hf. by inversion Hf.
  - assert (Hf : (v, row) ∈ filter (fun x : Z * AppliedRow => success x.2 = false) (by_version (stored c))) by (rewrite E; left).
    apply list_elem_of_filter in Hf as [Hsu Hf]. apply Hin in Hf. split; [done|]. exists (untimed row). split; [|done].
    unfold content. cbn. by rewrite lookup_fmap, Hf.
Qed.

Lemma check_known_spec applied :
  match check_known applied with
  | Ok _ => forall v, is_Some (applied !! v) -> known v = true
  | Err e => exists v, e = VersionMissing v /\ is_Some (applied !! v) /\ known v = false
  end.
Proof using Type.
  unfold check_known. assert (Hin : forall v, v ∈ (map_to_list applied).*1 <-> is_Some (applied !! v)).
  { intros v. rewrite list_elem_of_fmap. split.
    - intros ([k s] & -> & Hk). apply elem_of_map_to_list in Hk. by eexists.
    - intros [s Hs]. exists (v, s). split; [done|]. by apply elem_of_map_to_list. }
  destruct (filter _ _) as [|v l] eqn:E.
  - intros v Hv. destruct (known v) eqn:Hk; [done|].
    assert (Hf : v ∈ filter (fun v => known v = false) (map_to_list applied).*1) by (apply list_elem_of_filter; split; [done|by apply Hin]).
    rewrite E in Hf. by inversion Hf.
  - assert (Hf : v ∈ filter (fun v => known v = false) (map_to_list applied).*1) by (rewrite E; left).
    apply list_elem_of_filter in Hf as [Hk Hf]. exists v. split; [done|]. split; [by apply Hin|done].
Qed.

(** ** A run *)

(** Every migration is recorded with this build's checksum, and nothing else is. *)
Definition current (x : gmap Z AppliedRow * D) : Prop :=
  (forall m, m ∈ up SQLITE_MIGRATOR -> exists row, x.1 !! version m = Some row /\ row_checksum row = checksum m) /\
  (forall v row, x.1 !! v = Some row -> success row = true /\ known v = true).

Lemma filter_every {A} (P : A -> Prop) `{!forall a, Decision (P a)} (l : list A) : (forall a, a ∈ l -> P a) -> filter P l = l.
Proof using Type.
  induction l as [|a l IH]; intros Hl; [done|]. rewrite filter_cons_True by (apply Hl; left). f_equal. apply IH. intros; apply Hl. by right.
Qed.

Lemma pending_distinct x : NoDup (version <$> up SQLITE_MIGRATOR) -> NoDup (version <$> pending x).
Proof using Type.
  unfold pending, up. induction SQLITE_MIGRATOR as [|m ms IH]; [done|]. rewrite !filter_cons.
  destruct (is_down_migration (migration_type m)) eqn:Hd.
  - rewrite decide_False by done. rewrite (decide_False (P := wanting x m)) by (intros [? _]; congruence). done.
  - rewrite decide_True by done. rewrite fmap_cons, NoDup_cons. intros [Hm Hnd]. case_decide; [|by apply IH].
    rewrite fmap_cons. apply NoDup_cons. split; [|by apply IH]. intros Hin. apply Hm.
    apply list_elem_of_fmap in Hin as (m' & -> & Hin). apply list_elem_of_fmap_2. apply list_elem_of_filter in Hin as [[Hu _] Hin].
    by apply list_elem_of_filter.
Qed.

Lemma stepped_all_pending l1 l2 x y :
  NoDup (version <$> up SQLITE_MIGRATOR) -> pending x = l1 ++ l2 -> stepped_all l1 x y -> pending y = l2.
Proof using Type.
  intros Hnd. revert x. induction l1 as [|m l1 IH]; intros x Hp Hs; cbn in Hs; [by subst|].
  destruct Hs as (z & (Hn & _ & Hz) & Hs). apply (IH z); [|done].
  assert (Hm : filter (fun m' => version m' <> version m) (pending x) = pending z).
  { unfold pending. rewrite list_filter_filter. apply list_filter_iff. intros m'. unfold wanting. rewrite Hz.
    destruct (decide (version m = version m')) as [<-|Hne]; [rewrite lookup_insert_eq|rewrite lookup_insert_ne by done]; naive_solver. }
  pose proof (pending_distinct x Hnd) as Hd. rewrite Hp in Hd. cbn in Hd. apply NoDup_cons in Hd as [Hd _].
  rewrite <-Hm, Hp. change ((m :: l1) ++ l2) with (m :: (l1 ++ l2)). rewrite filter_cons_False by tauto.
  apply filter_every. intros m' Hin E. apply Hd. rewrite <-E. by apply list_elem_of_fmap_2.
Qed.

Lemma stepped_all_from l x y v row :
  stepped_all l x y -> y.1 !! v = Some row -> x.1 !! v = Some row \/
    (success row = true /\ exists m, m ∈ l /\ version m = v /\ row_checksum row = checksum m).
Proof using Type.
  revert x. induction l as [|m l IH]; intros x Hs Hv; cbn in Hs; [subst; by left|].
  destruct Hs as (z & (_ & _ & Hz) & Hs). destruct (IH z Hs Hv) as [Hr|(Hsu & m' & Hin & Hm & Hck)].
  - rewrite Hz in Hr. apply lookup_insert_Some in Hr as [[<- <-]|[_ Hr]]; [|by left]. right. split; [done|]. exists m. split_and!; [by left|done..].
  - right. split; [done|]. exists m'. split_and!; [by right|done..].
Qed.

Lemma known_of m : m ∈ SQLITE_MIGRATOR -> known (version m) = true.
Proof using Type.
  intros Hin. unfold known. apply existsb_exists. exists m. split; [by apply list_elem_of_In|]. apply Z.eqb_refl.
Qed.

Lemma apply_pending_spec lock c :
  in_transaction c = None -> NoDup (version <$> up SQLITE_MIGRATOR) ->
  let '(r, c') := apply_pending lock c in
  exists l1 l2, pending (content (stored c)) = l1 ++ l2 /\ stepped_all l1 (content (stored c)) (content (stored c')) /\
    match r with
    | Ok _ => l2 = [] /\ current (content (stored c'))
    | Err e => refused (content (stored c)) l2 e
    end.
Proof using Type.
  intros Hc Hnd. unfold apply_pending.
  assert (Hstop : forall c1, content (stored c1) = content (stored c) -> forall e, refused (content (stored c)) (pending (content (stored c))) e ->
    exists l1 l2, pending (content (stored c)) = l1 ++ l2 /\ stepped_all l1 (content (stored c)) (content (stored c1)) /\ refused (content (stored c)) l2 e).
  { intros c1 E e He. exists [], (pending (content (stored c))). rewrite E. done. }
  unfold mbind, sterr_bind. unfold bookkeeping at 1, err_as, lift. destruct lock as [[]|e]; cbn [map_err]; [|by apply Hstop].
  rewrite recorded_run. unfold CREATE_MIGRATIONS_TABLE.
  match goal with |- context [statement ?f c] => pose proof (statement_outside f c Hc) as Hr; destruct (statement f c) as [[[]|e] c1] end;
    cbn beta iota delta [map_err].
  2: { apply Hstop; [|done]. destruct Hr as [[E|E] _]; by rewrite E. }
  destruct Hr as [[= Hs1] Hc1]. assert (E1 : content (stored c1) = content (stored c)) by (by rewrite <-Hs1).
  pose proof (reject_failed_spec c1 Hc1) as Hr. destruct (reject_failed_row c1) as [[[]|e] c2]; destruct Hr as [Hs2 Hr].
  2: { apply Hstop; [by rewrite Hs2|]. rewrite <-E1. destruct e; cbn; try done; by destruct Hr as [? [=]]. }
  destruct Hr as [Hc2 Hsuc]. assert (E2 : content (stored c2) = content (stored c)) by (by rewrite Hs2).
  pose proof (applied_checksums_spec c2 Hc2) as Hr. destruct (applied_checksums c2) as [[applied|e] c3]; destruct Hr as [Hs3 Hr].
  2: { apply Hstop; [by rewrite Hs3|]. by destruct Hr as [source ->]. }
  destruct Hr as [Hc3 Hap]. assert (E3 : content (stored c3) = content (stored c)) by (by rewrite Hs3).
  pose proof (check_known_spec applied) as Hk. destruct (check_known applied) as [[]|e].
  2: { apply Hstop; [done|]. destruct Hk as (v & -> & Hv & Hn). rewrite Hap, fmap_is_Some, E2 in Hv. done. }
  pose proof (apply_each_spec applied SQLITE_MIGRATOR c3 Hc3 Hnd) as He.
  specialize (He ltac:(intros m _ _; by rewrite Hap, E2, E3)). destruct (apply_each applied SQLITE_MIGRATOR c3) as [r c4].
  rewrite E3 in He. destruct He as (l1 & l2 & Hp & Hst & Hr). exists l1, l2. split_and!; [done..|].
  destruct r as [[]|e].
  - destruct Hr as [-> Hall]. split_and!; [done..|]. split; [done|]. intros v row Hv.
    destruct (stepped_all_from _ _ _ _ _ Hst Hv) as [Hx|(Hsu & m & Hin & <- & _)].
    + split; [eapply Hsuc; by rewrite E1|]. apply Hk. rewrite Hap, E2, Hx. by eexists.
    + split; [done|]. apply known_of. assert (Hm : m ∈ pending (content (stored c))) by (unfold pending; rewrite Hp; apply elem_of_app; by left).
      by apply list_elem_of_filter in Hm as [_ Hm].
  - by destruct e.
Qed.

(** C39. Whatever statement fails and wherever the process dies, what is on disk after a run is
    what was there with the first so many of the missing migrations applied, each whole: its script
    to the end together with its row.  A run that answers Ok applied all of them, and the store
    is then this build's: every script recorded with its checksum, no row failed or unknown.  A
    refusal says truly why: a failed row or a version this build does not know stops it before
    anything is applied, a changed checksum or a failing script where it stands. *)
Theorem migrations_whole lock c :
  in_transaction c = None -> NoDup (version <$> up SQLITE_MIGRATOR) ->
  let '(r, c') := apply_pending lock c in
  exists l1 l2, pending (content (stored c)) = l1 ++ l2 /\ stepped_all l1 (content (stored c)) (content (stored c')) /\
    pending (content (stored c')) = l2 /\
    match r with
    | Ok _ => l2 = [] /\ current (content (stored c'))
    | Err e => refused (content (stored c)) l2 e
    end.
Proof using Type.
  intros Hc Hnd. pose proof (apply_pending_spec lock c Hc Hnd) as Hw. destruct (apply_pending lock c) as [r c'].
  destruct Hw as (l1 & l2 & Hp & Hs & Hr). exists l1, l2. split_and!; [done..| |done]. by eapply stepped_all_pending.
Qed.

(** ** Runs after one another *)

Lemma stepped_det l x y z : stepped_all l x y -> stepped_all l x z -> y = z.
Proof using Type.
  revert x. induction l as [|m l IH]; intros x; cbn; [by intros <- <-|].
  intros (u & (_ & Hs & Hu) & Hy) (w & (_ & Hs' & Hw) & Hz). apply (IH u); [done|].
  replace u with w; [done|]. destruct u, w. cbn in *. congruence.
Qed.

Lemma stepped_split l1 l2 x y : stepped_all (l1 ++ l2) x y <-> exists z, stepped_all l1 x z /\ stepped_all l2 z y.
Proof using Type. revert x. induction l1 as [|m l1 IH]; intros x; cbn; [|setoid_rewrite IH]; naive_solver. Qed.

(** Nothing recorded is failed, unknown or changed. *)
Definition acceptable (x : gmap Z AppliedRow * D) : Prop :=
  (forall v row, x.1 !! v = Some row -> success row = true /\ known v = true) /\
  (forall m row, m ∈ up SQLITE_MIGRATOR -> x.1 !! version m = Some row -> row_checksum row = checksum m).

Lemma same_version m m' :
  NoDup (version <$> up SQLITE_MIGRATOR) -> m ∈ up SQLITE_MIGRATOR -> m' ∈ up SQLITE_MIGRATOR -> version m = version m' -> m = m'.
Proof using Type.
  intros Hnd [i Hi]%list_elem_of_lookup [j Hj]%list_elem_of_lookup Hv.
  assert (i = j); [|congruence]. eapply NoDup_lookup; [exact Hnd|rewrite list_lookup_fmap, Hi; done|rewrite list_lookup_fmap, Hj; cbn; congruence].
Qed.

Lemma acceptable_stepped l x y :
  NoDup (version <$> up SQLITE_MIGRATOR) -> (forall m, m ∈ l -> m ∈ up SQLITE_MIGRATOR) -> stepped_all l x y -> acceptable x -> acceptable y.
Proof using Type.
  intros Hnd Hl Hs [Ha Hb]. split.
  - intros v row Hv. destruct (stepped_all_from _ _ _ _ _ Hs Hv) as [Hx|(Hsu & m & Hin & <- & _)]; [by eapply Ha|].
    split; [done|]. apply known_of. by apply Hl, list_elem_of_filter in Hin as [_ Hin].
  - intros m row Hm Hv. destruct (stepped_all_from _ _ _ _ _ Hs Hv) as [Hx|(_ & m' & Hin & Hv' & Hc)]; [by eapply Hb|].
    rewrite Hc. f_equal. apply same_version; auto.
Qed.

(** Where nothing fails, every statement answers. *)
Lemma apply_one_calm m d s :
  rows d !! version m = None -> execute_batch (script m) (schema d) = (Ok tt, s) ->
  exists d', apply_one m (MkConn d None []) = (Ok tt, MkConn d' None []).
Proof using Type.
  intros Hrow Hs. unfold apply_one, or_rollback, run_script_and_record, INSERT_APPLIED, statement, BEGIN, COMMIT, UPDATE_EXECUTION_TIME.
  unfold recorded, bookkeeping, err_as, mbind, sterr_bind, run_step, on_view. cbn. rewrite Hs. cbn.
  unfold rows in *. cbn. rewrite Hrow. cbn. by eexists.
Qed.

Lemma reject_calm d : acceptable (content d) -> reject_failed_row (MkConn d None []) = (Ok tt, MkConn d None []).
Proof using Type.
  intros [Ha _]. pose proof (reject_failed_spec (MkConn d None []) eq_refl) as Hr.
  assert (Hc : exists r, reject_failed_row (MkConn d None []) = (r, MkConn d None []) /\ (r = Ok tt \/ exists v, r = Err (Dirty v))).
  { unfold reject_failed_row, mbind, sterr_bind. rewrite recorded_run. cbn. destruct (filter _ (by_version d)) as [|[v row] l]; cbn; eauto. }
  destruct Hc as (r & E & [->|[v ->]]); [done|]. rewrite E in Hr. destruct Hr as (_ & row & Hv & Hs).
  destruct (Ha _ _ Hv). congruence.
Qed.

Lemma checksums_calm d : exists applied, applied_checksums (MkConn d None []) = (Ok applied, MkConn d None []).
Proof using Type.
  unfold applied_checksums, mbind, sterr_bind. rewrite recorded_run. cbn. unfold bookkeeping, err_as, lift.
  rewrite (decode_pure _ _ (prod_map id row_checksum)) by done. cbn. by eexists.
Qed.

Lemma apply_each_calm applied ms d y :
  NoDup (version <$> up ms) -> (forall m, m ∈ ms -> m ∈ SQLITE_MIGRATOR) -> read_of applied (content d) ms -> acceptable (content d) ->
  NoDup (version <$> up SQLITE_MIGRATOR) ->
  stepped_all (filter (wanting (content d)) ms) (content d) y ->
  exists d', apply_each applied ms (MkConn d None []) = (Ok tt, MkConn d' None []).
Proof using Type.
  intros Hnd Hsub Hr Hac Hall. revert d Hr Hac Hnd. induction ms as [|m ms IH]; intros d Hr Hac Hnd Hst; cbn [apply_each]; [by eexists|].
  rewrite up_cons in Hnd. assert (Hsub' : forall m', m' ∈ ms -> m' ∈ SQLITE_MIGRATOR) by (intros; apply Hsub; by right).
  assert (Hr' : read_of applied (content d) ms) by (intros m' Hin; apply Hr; by right).
  rewrite filter_cons in Hst. destruct (is_down_migration (migration_type m)) eqn:Hdown.
  { rewrite decide_False in Hst by (intros [? _]; congruence). by apply IH. }
  rewrite fmap_cons in Hnd. apply NoDup_cons in Hnd as [Hnew Hnd].
  assert (Hup : m ∈ up SQLITE_MIGRATOR) by (apply list_elem_of_filter; split; [done|apply Hsub; left]).
  pose proof (Hr m ltac:(left) Hdown) as Hm. unfold mbind, sterr_bind. destruct (applied !! version m) as [sum|].
  - symmetry in Hm. apply fmap_Some in Hm as (row & Hrow & ->). unfold lift, check_checksum.
    rewrite bool_decide_true by (symmetry; by eapply Hac). rewrite decide_False in Hst by (intros [_ ?]; congruence). by apply IH.
  - symmetry in Hm. apply fmap_None in Hm. rewrite decide_True in Hst by done. destruct Hst as (z & Hz & Hst).
    destruct (apply_one_calm m d z.2) as (d' & E).
    { unfold content in Hm. cbn in Hm. rewrite lookup_fmap in Hm. by apply fmap_None in Hm. }
    { by destruct Hz as (_ & Hz & _). }
    pose proof (apply_one_spec m (MkConn d None []) eq_refl) as H1. rewrite E in *.
    destruct H1 as [(_ & e & [=] & _)|[Hstep _]]. cbn [stored] in Hstep.
    assert (content d' = z) as <-.
    { apply (stepped_det [m] (content d)); [by exists (content d')|by exists z]. }
    assert (Hne : forall m', m' ∈ up ms -> version m' <> version m).
    { intros m' Hin Ev. apply Hnew. rewrite <-Ev. by apply list_elem_of_fmap_2. }
    destruct (stepped_read applied m ms _ _ Hstep Hne) as [Hread Hfil].
    apply IH; [done|by apply Hread| |done|by rewrite Hfil].
    apply (acceptable_stepped [m] (content d)); [done| |by exists (content d')|done].
    intros m' Hin. apply list_elem_of_singleton in Hin as ->. done.
Qed.

Lemma apply_pending_calm d y :
  NoDup (version <$> up SQLITE_MIGRATOR) -> acceptable (content d) -> stepped_all (pending (content d)) (content d) y ->
  exists c', apply_pending (Ok tt) (MkConn d None []) = (Ok tt, c').
Proof using Type.
  intros Hnd Hac Hst. set (d1 := MkMigDb (Some (rows d)) (schema d)).
  assert (E1 : content d1 = content d) by done. rewrite <-E1 in Hac, Hst. unfold apply_pending.
  destruct (checksums_calm d1) as [applied Hap]. pose proof (applied_checksums_spec (MkConn d1 None []) eq_refl) as Hs.
  rewrite Hap in Hs. destruct Hs as (_ & _ & Hs).
  assert (Hk : check_known applied = Ok tt).
  { pose proof (check_known_spec applied) as Hk. destruct (check_known applied) as [[]|e]; [done|].
    destruct Hk as (v & _ & Hv & Hn). rewrite Hs, fmap_is_Some in Hv. destruct Hv as [row Hv]. destruct Hac as [Hac _].
    destruct (Hac _ _ Hv). congruence. }
  destruct (apply_each_calm applied SQLITE_MIGRATOR d1 y) as [d' Hd']; try done.
  { intros m _ _. apply Hs. }
  exists (MkConn d' None []). unfold mbind, sterr_bind. unfold bookkeeping at 1, err_as, lift. cbn [map_err].
  rewrite recorded_run. change (CREATE_MIGRATIONS_TABLE (MkConn d None [])) with (@Ok TursoError unit tt, MkConn d1 None []).
  cbn [map_err]. rewrite reject_calm, Hap, Hk by done. done.
Qed.

(** What is on disk after runs that each end as they may: their locks and their faults. *)
Fixpoint attempts (runs : list (StoreResult unit * list TursoFault)) (d : MigDb) : MigDb :=
  match runs with
  | [] => d
  | (lock, fs) :: runs => attempts runs (stored (apply_pending lock (MkConn d None fs)).2)
  end.

(** C38. A store that can be brought up to date, its recorded scripts this build's and the missing
    ones running to the end, is brought up to date whatever happened before: after any number of
    runs cut short at any statement, one that meets no failure answers Ok and leaves what a single
    run on the original store would have left. *)
Theorem migrations_resume runs d y :
  NoDup (version <$> up SQLITE_MIGRATOR) -> acceptable (content d) -> stepped_all (pending (content d)) (content d) y ->
  exists c', apply_pending (Ok tt) (MkConn (attempts runs d) None []) = (Ok tt, c') /\
    content (stored c') = y /\ current y.
Proof using Type.
  intros Hnd. revert d. induction runs as [|[lock fs] runs IH]; intros d Hac Hst; cbn [attempts].
  - destruct (apply_pending_calm d y Hnd Hac Hst) as [c' Hc]. exists c'. split; [done|].
    pose proof (apply_pending_spec (Ok tt) (MkConn d None []) eq_refl Hnd) as Hs. rewrite Hc in Hs. cbn [stored] in Hs.
    destruct Hs as (l1 & l2 & Hp & Hl & -> & Hcur). rewrite app_nil_r in Hp. rewrite Hp in Hst.
    by rewrite (stepped_det _ _ _ _ Hst Hl).
  - pose proof (apply_pending_spec lock (MkConn d None fs) eq_refl Hnd) as Hs.
    destruct (apply_pending lock (MkConn d None fs)) as [r c1]. cbn [stored snd] in *. destruct Hs as (l1 & l2 & Hp & Hl & _).
    pose proof (stepped_all_pending _ _ _ _ Hnd Hp Hl) as Hp1. rewrite Hp in Hst. apply stepped_split in Hst as (z & Hz & Hst).
    rewrite (stepped_det _ _ _ _ Hz Hl) in Hst. apply IH.
    + apply (acceptable_stepped l1 (content d)); [done| |done..]. intros m Hin.
      assert (Hm : m ∈ pending (content d)) by (rewrite Hp; apply elem_of_app; by left).
      apply list_elem_of_filter in Hm as [[Hu _] Hm]. by apply list_elem_of_filter.
    + by rewrite Hp1.
Qed.
End migrations.

(** ** Witnesses: scripts that append their text, three of them, one down *)

Definition toy_script (s : string) (d : list string) : result TursoError unit * list string :=
  if decide (s = "broken") then (Err (OtherError "near broken"), d ++ ["half"]) else (Ok tt, d ++ [s]).
Definition toy_migrations : list Migration :=
  [ MkMigration 1 "initial" ReversibleUp "accounts" (str_bytes "a"); MkMigration 1 "initial" ReversibleDown "no accounts" (str_bytes "b");
    MkMigration 2 "tokens" Simple "tokens" (str_bytes "c"); MkMigration 3 "secrets" Simple "secrets" (str_bytes "d") ].

Definition toy_pending := apply_pending toy_script toy_migrations 7 (OtherError "constraint") (OtherError "nested") (OtherError "no transaction")
  (fun _ => "value") (fun _ => OtherError "no column").
(** A store of the first release. *)
Definition first_release : MigDb := MkMigDb (Some {[ 1 := MkAppliedRow "initial" true (str_bytes "a") 12 ]}) ["accounts"].

(** The COMMIT of the second script is applied and then fails. *)
Definition cut_short : list TursoFault :=
  [Works; Works; Works; Works; Works; Works; FailsLast (IoError "disk")].

Lemma migrations_whole_witness :
  let '(r, c') := toy_pending (Ok tt) (MkConn first_release None cut_short) in
  schema (stored c') = ["accounts"; "tokens"] /\ r = Err (Bookkeeping (Connection "disk")) /\
  pending toy_migrations (content (stored c')) = [MkMigration 3 "secrets" Simple "secrets" (str_bytes "d")].
Proof.
  pose proof (migrations_whole toy_script toy_migrations 7 (OtherError "constraint") (OtherError "nested") (OtherError "no transaction")
    (fun _ => "value") (fun _ => OtherError "no column") (Ok tt) (MkConn first_release None cut_short) eq_refl) as H.
  assert (Hnd : NoDup (version <$> up toy_migrations)) by (apply (bool_decide_unpack _); vm_compute; exact I).
  specialize (H Hnd). unfold toy_pending. destruct (apply_pending _ _ _ _ _ _ _ _ _ _) as [r c'] eqn:E.
  destruct H as (l1 & l2 & _ & _ & Hp & _). vm_compute in E. injection E as <- <-. rewrite Hp. vm_compute in Hp. subst l2.
  split_and!; vm_compute; reflexivity.
Defined.

Lemma migrations_resume_witness :
  exists c', toy_pending (Ok tt) (MkConn (attempts toy_script toy_migrations 7 (OtherError "constraint") (OtherError "nested")
      (OtherError "no transaction") (fun _ => "value") (fun _ => OtherError "no column")
      [(Ok tt, cut_short); (Err (Connection "gone"), []); (Ok tt, [FailsFirst (Busy "locked")])] first_release) None []) = (Ok tt, c') /\
    (content (stored c')).2 = ["accounts"; "tokens"; "secrets"].
Proof.
  edestruct (migrations_resume toy_script toy_migrations 7 (OtherError "constraint") (OtherError "nested") (OtherError "no transaction")
    (fun _ => "value") (fun _ => OtherError "no column")
    [(Ok tt, cut_short); (Err (Connection "gone"), []); (Ok tt, [FailsFirst (Busy "locked")])] first_release) as (c' & Hc & Hy & _).
  - apply (bool_decide_unpack _). vm_compute. exact I.
  - split.
    + assert (E : (content first_release).1 = {[ 1 := MkAppliedRow "initial" true (str_bytes "a") (-1) ]}) by (vm_compute; reflexivity).
      rewrite E. by intros v row [<- <-]%lookup_singleton_Some.
    + intros m row Hm. apply list_elem_of_filter in Hm as [Hd Hm].
      unfold toy_migrations in Hm.
      repeat (apply elem_of_cons in Hm as [->|Hm]; [intros Hrow; vm_compute in Hd, Hrow; (discriminate || by injection Hrow as <-)|]).
      by inversion Hm.
  - cbn. eexists (_, _). split; [split_and!; reflexivity|]. eexists (_, _). split; [split_and!; reflexivity|]. reflexivity.
  - exists c'. split; [exact Hc|]. by rewrite Hy.
Defined.
