(* ===== verification/Daemon.v ===== *)
(** * The process (main.rs, daemon_runtime.rs, server.rs, transport/shutdown.rs, storage/mod.rs,
      storage/sql/mod.rs, storage/turso/mod.rs, storage/file_mode.rs)

    What the daemon and its one-shot commands do, in which order, and how they end.  Every call out
    of these files is an action, kept in a trace, and answers as its parameter says; the calls that
    have their own file ([StoreKey], [Startup]) are made.  Store files have modes. *)

From Stdlib Require Import Sorting.Sorted.
From S2P Require Import Prelude StoreError StoreKey BlobCipher Startup.

(** ** Store files (file_mode.rs) *)

(** The permission bits of the files that exist. *)
Abbreviation StoreFiles := (gmap string Z).

Definition with_suffix (path suffix : string) : string := path +:+ suffix.
Definition loose_files (path : string) (files : StoreFiles) : list (string * Z) :=
  omap (fun suffix =>
    let file := with_suffix path suffix in
    mode ← (fun mode => Z.land mode 511) <$> files !! file;
    if negb (Z.land mode 63 =? 0) then Some (file, mode) else None) [""; "-wal"; "-shm"].

(** ** Actions *)

Inductive Action : Type :=
| RestrictUmask
| PrintUsageError | PrintUsage
| LoadConfig | BuildRuntime | InitTracing
| ReadKeyFile (path : string)
| ProbeSocket | PrepareSpool
| CreateFile (path : string)
| WarnLoose (path : string) (mode : Z)
| Connect (kind : EngineKind)
| Migrate (kind : EngineKind) | Upgrade (kind : EngineKind)
| OpenCipher (kind : EngineKind) (key : option StoreKey)
| DecryptStore (kind : EngineKind) (key : StoreKey)
| RotateStore (kind : EngineKind) (old new : StoreKey)
| CloseStore (kind : EngineKind)
| LoadExisting | BindSocket | ServeUntilShutdown | WarnGrace
| StopAll | UnlinkSocket
| PrintDone (accounts : nat)
| ShutdownRuntime (bound : Z).

(** The store files and what was done, in order. *)
Record Process : Type := MkProcess { disk : StoreFiles; trace : list Action }.

Abbreviation Does := (StErr Process).

Definition act {E A} (a : Action) (r : result E A) : Does E A := fun p => (r, MkProcess (disk p) (trace p ++ [a])).

(** [anyhow]: what was being done, from the outside in. *)
Abbreviation Chain := (list string).
Definition context {A} (what : string) (m : Does Chain A) : Does Chain A := err_as (cons what) m.

Section process.
(** The modes the process takes away from what it creates. *)
Context (umask : Z).
(** The answers: of the file system and the drivers, *)
Context (create_error : string -> option string) (sqlite_filename : string -> result string string).
Context (connect : EngineKind -> string -> result string unit) (turso_open : string -> StoreResult unit).
Context (migrate : EngineKind -> result string unit) (upgrade : EngineKind -> StoreResult unit).
Context (open_cipher : EngineKind -> option StoreKey -> StoreResult BlobCipher).
Context (decrypt_store : EngineKind -> StoreKey -> StoreResult nat) (rotate_store : EngineKind -> StoreKey -> StoreKey -> StoreResult nat).
Context (close : EngineKind -> StoreResult unit).
(** and how errors print. *)
Context (show : StoreError -> string) (show_key : StoreKeyError -> Chain).
Context (turso_feature : bool).

(** [OpenOptions]: [create_new] with mode 0600 (384). *)
Definition create_private (path : string) : Does string unit := fun p =>
  let p := MkProcess (disk p) (trace p ++ [CreateFile path]) in
  match disk p !! path with
  | Some _ => (Ok tt, p)
  | None =>
      match create_error path with
      | Some e => (Err e, p)
      | None => (Ok tt, MkProcess (<[path := Z.land 384 (Z.lnot umask)]> (disk p)) (trace p))
      end
  end.
Definition warn_if_loose (path : string) : Does StoreError unit := fun p =>
  (Ok tt, MkProcess (disk p) (trace p ++ ((fun f => WarnLoose f.1 f.2) <$> loose_files path (disk p)))).
Definition secure_store_file (path : string) : Does StoreError unit :=
  _ ← err_as StoreError.Io (create_private path);
  warn_if_loose path.

(** ** Opening the sql family (sql/mod.rs) *)

Definition memory_refused (database_url : string) : StoreError :=
  InvalidConfig ("an in-memory SQLite database is not supported (" +:+ database_url +:+
    "): the readers are separate connections and each would see a database of its own; use a file").
Definition mentions (needle s : string) : bool := if String.index 0 needle s is Some _ then true else false.

Definition prepare_sqlite_file (database_url : string) : Does StoreError unit :=
  filename ← lift (map_err Connection (sqlite_filename database_url));
  if mentions ":memory:" database_url || mentions "mode=memory" database_url then lift (Err (memory_refused database_url))
  else secure_store_file filename.

Definition run_migrations (kind : EngineKind) : Does StoreError unit :=
  _ ← act (Migrate kind) (map_err Migration (migrate kind));
  act (Upgrade kind) (map_err (Migration ∘ show) (upgrade kind)).

Definition migrated (kind : EngineKind) (key : option StoreKey) : Does StoreError BlobCipher :=
  _ ← run_migrations kind;
  act (OpenCipher kind key) (open_cipher kind key).

Definition connect_to (kind : EngineKind) (database_url : string) : Does StoreError unit :=
  act (Connect kind) (map_err Connection (connect kind database_url)).

Definition open_postgres_keyed (database_url : string) (key : option StoreKey) : Does StoreError BlobCipher :=
  _ ← connect_to Postgres database_url;
  migrated Postgres key.
Definition open_sqlite_keyed (database_url : string) (key : option StoreKey) : Does StoreError BlobCipher :=
  _ ← prepare_sqlite_file database_url;
  _ ← connect_to Sqlite database_url;
  migrated Sqlite key.

(** A migration that fails returns at once; what comes after it closes the pool. *)
Definition decrypt_pool (kind : EngineKind) (key : StoreKey) : Does StoreError nat :=
  _ ← run_migrations kind;
  decrypted ← settled (act (DecryptStore kind key) (decrypt_store kind key));
  closed ← settled (act (CloseStore kind) (close kind));
  count ← lift decrypted;
  lift ((fun _ => count) <$> closed).
Definition rotate_pool (kind : EngineKind) (old new : StoreKey) : Does StoreError nat :=
  rotated ← settled (_ ← run_migrations kind; act (RotateStore kind old new) (rotate_store kind old new));
  closed ← settled (act (CloseStore kind) (close kind));
  count ← lift rotated;
  lift ((fun _ => count) <$> closed).

Definition decrypt_postgres (database_url : string) (key : StoreKey) : Does StoreError nat :=
  _ ← connect_to Postgres database_url;
  decrypt_pool Postgres key.
Definition decrypt_sqlite (database_url : string) (key : StoreKey) : Does StoreError nat :=
  _ ← prepare_sqlite_file database_url;
  _ ← connect_to Sqlite database_url;
  decrypt_pool Sqlite key.
Definition rotate_postgres (database_url : string) (old new : StoreKey) : Does StoreError nat :=
  _ ← connect_to Postgres database_url;
  rotate_pool Postgres old new.
Definition rotate_sqlite (database_url : string) (old new : StoreKey) : Does StoreError nat :=
  _ ← prepare_sqlite_file database_url;
  _ ← connect_to Sqlite database_url;
  rotate_pool Sqlite old new.

(** ** Opening Turso (turso/mod.rs) *)

Definition open_turso_file (database_url : string) : Does StoreError unit :=
  path ← lift (turso_path database_url);
  _ ← secure_store_file path;
  act (Connect Startup.Turso) (turso_open path).
Definition open_keyed (database_url : string) (key : option StoreKey) : Does StoreError BlobCipher :=
  _ ← open_turso_file database_url;
  migrated Startup.Turso key.

(** [conn.close().await?] comes first: its error hides the command's. *)
Definition closing (m : Does StoreError nat) : Does StoreError nat :=
  answer ← settled m;
  _ ← act (CloseStore Startup.Turso) (close Startup.Turso);
  lift answer.
Definition decrypt_turso (database_url : string) (key : StoreKey) : Does StoreError nat :=
  _ ← open_turso_file database_url;
  closing (_ ← run_migrations Startup.Turso; act (DecryptStore Startup.Turso key) (decrypt_store Startup.Turso key)).
Definition rotate_turso (database_url : string) (old new : StoreKey) : Does StoreError nat :=
  _ ← open_turso_file database_url;
  closing (_ ← run_migrations Startup.Turso; act (RotateStore Startup.Turso old new) (rotate_store Startup.Turso old new)).

(** ** By the scheme (storage/mod.rs) *)

Definition open_engine_keyed (database_url : string) (key : option StoreKey) : Does StoreError BlobCipher :=
  kind ← lift (engine_of turso_feature database_url);
  match kind with
  | Postgres => open_postgres_keyed database_url key
  | Sqlite => open_sqlite_keyed database_url key
  | Startup.Turso => open_keyed database_url key
  end.
Definition decrypt_engine (database_url : string) (key : StoreKey) : Does StoreError nat :=
  kind ← lift (engine_of turso_feature database_url);
  match kind with
  | Postgres => decrypt_postgres database_url key
  | Sqlite => decrypt_sqlite database_url key
  | Startup.Turso => decrypt_turso database_url key
  end.
Definition rotate_engine (database_url : string) (old new : StoreKey) : Does StoreError nat :=
  kind ← lift (engine_of turso_feature database_url);
  match kind with
  | Postgres => rotate_postgres database_url old new
  | Sqlite => rotate_sqlite database_url old new
  | Startup.Turso => rotate_turso database_url old new
  end.

(** ** Draining (transport/shutdown.rs, server.rs) *)

Inductive Drained : Type := Clean | GraceElapsed.

(** [tokio::select!]: when the server ends by itself and how, when the shutdown fires, and which
    branch a tie takes.  [None]: it never ends. *)
Definition drain_or_deadline {A} (serve : option (Z * A)) (fired : option Z) (grace : Z) (tie : bool) : option (Z * option A) :=
  match serve, fired with
  | Some (t, output), Some f =>
      if (t <? f + grace) || (tie && (t =? f + grace)) then Some (t, Some output) else Some (f + grace, None)
  | Some (t, output), None => Some (t, Some output)
  | None, Some f => Some (f + grace, None)
  | None, None => None
  end.
Definition serve_until_shutdown (serve : option (Z * result Chain unit)) (fired : option Z) (grace : Z) (tie : bool) :
    option (Z * result Chain Drained) :=
  (fun x => (x.1, match x.2 with Some served => (fun _ => Clean) <$> served | None => Ok GraceElapsed end)) <$>
    drain_or_deadline serve fired grace tie.

(** ** The runtime (daemon_runtime.rs) *)

Inductive BlockingPoolExit : Type := PoolDrained | Abandoned.
Record BoundedRun (A : Type) : Type := MkBoundedRun { output : result Chain A; blocking_pool : BlockingPoolExit }.

(** The answers of the runtime, [elapsed] how long its shutdown took, and of what main calls. *)
Context (runtime : result Chain unit) (elapsed : Z).
Context (load_config : result Chain Config) (opened : string -> result IoError KeyFile).
Context (served_already : result Chain unit) (spool_ready : result Chain unit).
Context (load_existing : result Chain unit) (bound : result Chain unit) (serving : Z -> result Chain Drained).

Definition block_on_bounded {A} (future : Does Chain A) (blocking_bound : Z) : Does Chain (BoundedRun A) :=
  _ ← act BuildRuntime runtime;
  output ← settled future;
  _ ← act (ShutdownRuntime blocking_bound) (Ok tt);
  mret (MkBoundedRun A output (if blocking_bound <=? elapsed then Abandoned else PoolDrained)).

(** ** main.rs *)

Definition SUCCESS : Z := 0.
Definition FAILURE : Z := 1.
Definition USAGE_ERROR : Z := 2.
Definition ONE_SHOT_BLOCKING_BOUND : Z := 5000.

Definition load_store_key (config : Config) : Does Chain (option StoreKey) :=
  match store_key_file config with
  | None => mret None
  | Some path =>
      key ← context ("loading the store key from " +:+ path) (err_as show_key (act (ReadKeyFile path) (from_file path (opened path))));
      mret (Some key)
  end.

(** The unlink at the end is best effort: an error of it is dropped. *)
Definition serve (config : Config) : Does Chain unit :=
  _ ← act InitTracing (Ok tt);
  store_key ← load_store_key config;
  _ ← context "checking the socket path" (act ProbeSocket served_already);
  _ ← context "preparing the media spool directory" (act PrepareSpool spool_ready);
  engine ← context "opening storage" (err_as (fun e => [show e]) (open_engine_keyed (database_url config) store_key));
  _ ← context "loading existing accounts" (act LoadExisting load_existing);
  _ ← context "binding unix socket" (act BindSocket bound);
  drained ← context "serving" (act ServeUntilShutdown (serving (shutdown_grace_ms config)));
  _ ← (match drained with GraceElapsed => act WarnGrace (Ok tt) | Clean => mret tt end);
  _ ← act StopAll (Ok tt);
  act UnlinkSocket (Ok tt).

Definition NEEDS_YES : string :=
  "`wamux store decrypt` writes the keys of every account to the store in the clear: anyone who can read the database or a backup of it can then impersonate the accounts. Run `wamux store decrypt --yes` to confirm".
Definition DECRYPT_NEEDS_KEY : string :=
  "`wamux store decrypt` needs store_key_file (WAMUX_STORE_KEY_FILE) set to the key that encrypted the store".
Definition ROTATE_NEEDS_KEY : string :=
  "`wamux store rotate-key` needs store_key_file (WAMUX_STORE_KEY_FILE) set to the key the store is encrypted with now".

Definition store_decrypt (yes : bool) : Does Chain unit :=
  if negb yes then lift (Err [NEEDS_YES])
  else
    config ← context "loading config" (act LoadConfig load_config);
    _ ← act InitTracing (Ok tt);
    key ← load_store_key config;
    match key with
    | None => lift (Err [DECRYPT_NEEDS_KEY])
    | Some key =>
        decrypted ← context "decrypting the store" (err_as (fun e => [show e]) (decrypt_engine (database_url config) key));
        act (PrintDone decrypted) (Ok tt)
    end.

Definition store_rotate_key (new_key_file : string) : Does Chain unit :=
  config ← context "loading config" (act LoadConfig load_config);
  _ ← act InitTracing (Ok tt);
  old ← load_store_key config;
  match old with
  | None => lift (Err [ROTATE_NEEDS_KEY])
  | Some old =>
      new ← context ("loading the new store key from " +:+ new_key_file)
        (err_as show_key (act (ReadKeyFile new_key_file) (from_file new_key_file (opened new_key_file))));
      rotated ← context "rotating the store key" (err_as (fun e => [show e]) (rotate_engine (database_url config) old new));
      act (PrintDone rotated) (Ok tt)
  end.

Definition run_serve : Does Chain Z :=
  config ← context "loading config" (act LoadConfig load_config);
  run ← context "building the tokio runtime" (block_on_bounded (serve config) (blocking_shutdown_timeout_ms config));
  _ ← lift (output _ run);
  mret SUCCESS.
Definition run_one_shot (command : Does Chain unit) : Does Chain Z :=
  run ← context "building the tokio runtime" (block_on_bounded command ONE_SHOT_BLOCKING_BOUND);
  _ ← lift (output _ run);
  mret SUCCESS.

Definition main (debug : list string -> string) (USAGE : string) (words : list string) : Does Chain Z :=
  _ ← act RestrictUmask (Ok tt);
  match parse debug USAGE words with
  | Err _ => _ ← act PrintUsageError (Ok tt); mret USAGE_ERROR
  | Ok Help => _ ← act PrintUsage (Ok tt); mret SUCCESS
  | Ok Serve => run_serve
  | Ok (StoreDecrypt yes) => run_one_shot (store_decrypt yes)
  | Ok (StoreRotateKey new_key_file) => run_one_shot (store_rotate_key new_key_file)
  end.

(** What [main] returns, as the code the process exits with. *)
Definition exit_code (r : result Chain Z) : Z := match r with Ok code => code | Err _ => FAILURE end.

(** ** Which action comes when *)

Definition stage (a : Action) : nat :=
  match a with
  | RestrictUmask => 0 | PrintUsageError | PrintUsage => 1 | LoadConfig => 1 | BuildRuntime => 2 | InitTracing => 3
  | ReadKeyFile _ => 4 | ProbeSocket => 5 | PrepareSpool => 6 | CreateFile _ => 7 | WarnLoose _ _ => 8 | Connect _ => 9
  | Migrate _ => 10 | Upgrade _ => 11 | OpenCipher _ _ | DecryptStore _ _ | RotateStore _ _ _ => 12 | CloseStore _ => 13
  | LoadExisting => 14 | BindSocket => 15 | ServeUntilShutdown => 16 | WarnGrace => 17 | StopAll => 18 | UnlinkSocket => 19
  | PrintDone _ => 20 | ShutdownRuntime _ => 21
  end.

(** Files that were there keep their mode; a new one is its owner's alone (63 is 0077). *)
Definition kept_private (files files' : StoreFiles) : Prop := forall path,
  match files !! path with
  | Some mode => files' !! path = Some mode
  | None => forall mode, files' !! path = Some mode -> Z.land mode 63 = 0
  end.

Lemma kept_refl files : kept_private files files.
Proof using Type. intros path. destruct (files !! path) eqn:E; [done|]. intros mode H. congruence. Qed.
Lemma kept_trans f1 f2 f3 : kept_private f1 f2 -> kept_private f2 f3 -> kept_private f1 f3.
Proof using Type.
  intros H1 H2 path. specialize (H1 path). specialize (H2 path). destruct (f1 !! path) as [mode|]; [by rewrite H1 in H2|].
  intros mode Hm. destruct (f2 !! path) as [mode'|]; [|by apply H2]. apply H1. congruence.
Qed.

(** The actions of a computation go by stages, from [lo] to [hi], each of them allowed, an answer
    is one of [K], and store files are kept or private. *)
Definition emits {E A} (lo hi : nat) (N : Action -> Prop) (K : A -> Prop) (m : Does E A) : Prop := forall p,
  exists l, trace (m p).2 = trace p ++ l /\ Forall (fun a => (lo <= stage a <= hi)%nat /\ N a) l /\
    StronglySorted le (stage <$> l) /\ (forall a, (m p).1 = Ok a -> K a) /\ kept_private (disk p) (disk (m p).2).

Section emits.
Context (N : Action -> Prop).

Lemma sorted_app l1 l2 mid :
  StronglySorted le (stage <$> l1) -> StronglySorted le (stage <$> l2) ->
  Forall (fun a => (stage a <= mid)%nat) l1 -> Forall (fun a => (mid <= stage a)%nat) l2 -> StronglySorted le (stage <$> l1 ++ l2).
Proof using Type.
  intros H1 H2 Hl Hr. induction l1 as [|a l1 IH]; [done|]. cbn in *. apply StronglySorted_inv in H1 as [H1 Ha].
  apply Forall_cons in Hl as [Hm Hl]. constructor; [by apply IH|]. rewrite fmap_app. apply Forall_app. split; [done|].
  apply Forall_fmap. eapply Forall_impl; [exact Hr|]. cbn. lia.
Qed.

Lemma emits_bind {E A B} lo mid hi K K' (m : Does E A) (f : A -> Does E B) :
  (lo <= mid <= hi)%nat -> emits lo mid N K m -> (forall a, K a -> emits mid hi N K' (f a)) -> emits lo hi N K' (m ≫= f).
Proof using Type.
  intros Hb Hm Hf p. destruct (Hm p) as (l1 & Ht & Ha & Hs & Hk & Hd). unfold mbind, sterr_bind.
  destruct (m p) as [[a|e] p1]; cbn [fst snd] in *.
  - destruct (Hf a (Hk a eq_refl) p1) as (l2 & Ht2 & Ha2 & Hs2 & Hk2 & Hd2). exists (l1 ++ l2).
    rewrite Ht2, Ht, (assoc_L (++)). split; [done|]. split.
    { apply Forall_app. split; [eapply Forall_impl; [exact Ha|]|eapply Forall_impl; [exact Ha2|]]; cbn; intros x [? ?]; (split; [lia|done]). }
    split; [|split; [done|by eapply kept_trans]]. apply (sorted_app _ _ mid); [done..| |].
    + eapply Forall_impl; [exact Ha|]. cbn. lia.
    + eapply Forall_impl; [exact Ha2|]. cbn. lia.
  - exists l1. split; [done|]. split; [|split; [done|split; [done|done]]]. eapply Forall_impl; [exact Ha|]. cbn. intros x [? ?]. split; [lia|done].
Qed.

Lemma emits_act {E A} a (r : result E A) (K : A -> Prop) lo hi :
  (lo <= stage a <= hi)%nat -> N a -> (forall x, r = Ok x -> K x) -> emits lo hi N K (act a r).
Proof using Type.
  intros Hs Ha Hr p. exists [a]. split; [done|]. split; [by apply Forall_singleton|]. split; [by repeat constructor|split; [done|apply kept_refl]].
Qed.

Lemma emits_lift {E A} (r : result E A) (K : A -> Prop) lo hi : (forall x, r = Ok x -> K x) -> emits lo hi N K (lift r).
Proof using Type. intros Hr p. exists []. cbn. rewrite app_nil_r. split_and!; [done|by constructor|by constructor|done|apply kept_refl]. Qed.

Lemma emits_err_as {E F A} (f : E -> F) (m : Does E A) K lo hi : emits lo hi N K m -> emits lo hi N K (err_as f m).
Proof using Type.
  intros Hm p. destruct (Hm p) as (l & Ht & Ha & Hs & Hk & Hd). exists l. unfold err_as. destruct (m p) as [[a|e] p']; cbn in *; (split_and!; [done..| |done]); intros x [=]; subst; by apply Hk.
Qed.

Lemma emits_settled {E F A} (m : Does E A) (K : A -> Prop) lo hi :
  emits lo hi N K m -> emits (A := result E A) lo hi N (fun r => forall a, r = Ok a -> K a) (settled (F := F) m).
Proof using Type.
  intros Hm p. destruct (Hm p) as (l & Ht & Ha & Hs & Hk & Hd). exists l. unfold settled. destruct (m p) as [r p']; cbn in *.
  split_and!; [done..| |done]. by intros ? [= <-].
Qed.

Lemma emits_conseq {E A} (m : Does E A) (K K' : A -> Prop) lo hi lo' hi' :
  (lo' <= lo)%nat -> (hi <= hi')%nat -> (forall a, K a -> K' a) -> emits lo hi N K m -> emits lo' hi' N K' m.
Proof using Type.
  intros H1 H2 Hk Hm p. destruct (Hm p) as (l & Ht & Ha & Hs & Hr & Hd). exists l. split_and!; [done| |done|auto|done].
  eapply Forall_impl; [exact Ha|]. cbn. intros x [? ?]. split; [lia|done].
Qed.
End emits.

(** ** Serving *)

(** What has to have gone well before the store is touched, *)
Definition ready (c : Config) (key : option StoreKey) : Prop :=
  load_config = Ok c /\
  match store_key_file c with
  | None => key = None
  | Some path => exists k, from_file path (opened path) = Ok k /\ key = Some k
  end /\ served_already = Ok tt /\ spool_ready = Ok tt.
(** and before anyone is served. *)
Definition store_open (c : Config) (key : option StoreKey) : Prop :=
  exists kind cipher, engine_of turso_feature (database_url c) = Ok kind /\
    migrate kind = Ok tt /\ upgrade kind = Ok tt /\ open_cipher kind key = Ok cipher.

(** When the daemon may do what. *)
Definition allowed (a : Action) : Prop :=
  match a with
  | CreateFile _ | WarnLoose _ _ | Connect _ | Migrate _ => exists c key, ready c key
  | Upgrade kind => (exists c key, ready c key) /\ migrate kind = Ok tt
  | OpenCipher kind key => (exists c, ready c key) /\ migrate kind = Ok tt /\ upgrade kind = Ok tt
  | LoadExisting => exists c key, ready c key /\ store_open c key
  | BindSocket => exists c key, ready c key /\ store_open c key /\ load_existing = Ok tt
  | ServeUntilShutdown => exists c key, ready c key /\ store_open c key /\ load_existing = Ok tt /\ bound = Ok tt
  | WarnGrace => exists c, load_config = Ok c /\ serving (shutdown_grace_ms c) = Ok GraceElapsed
  | StopAll | UnlinkSocket => exists c drained, load_config = Ok c /\ serving (shutdown_grace_ms c) = Ok drained
  | DecryptStore _ _ | RotateStore _ _ _ | CloseStore _ | PrintDone _ | PrintUsage | PrintUsageError => False
  | RestrictUmask | LoadConfig | BuildRuntime | InitTracing | ReadKeyFile _ | ProbeSocket | PrepareSpool | ShutdownRuntime _ => True
  end.

(** 0600 less anything is nobody else's. *)
Lemma mode_private : Z.land (Z.land 384 (Z.lnot umask)) 63 = 0.
Proof using Type.
  rewrite (Z.land_comm 384), <-Z.land_assoc. replace (Z.land 384 63) with 0 by done. apply Z.land_0_r.
Qed.

Lemma map_err_ok {E F A} (f : E -> F) (r : result E A) x : map_err f r = Ok x -> r = Ok x.
Proof using Type. by destruct r as [a|e]; cbn; intros [=]; subst. Qed.

Lemma secure_emits (N : Action -> Prop) path :
  (forall path, N (CreateFile path)) -> (forall path mode, N (WarnLoose path mode)) ->
  emits 7 8 N (fun _ => True) (secure_store_file path).
Proof using Type.
  intros Hcreate Hwarn.
  unfold secure_store_file. apply (emits_bind _ 7 7 8 (fun _ => True)); [lia| |intros _ _].
  - apply emits_err_as. intros p. exists [CreateFile path]. unfold create_private.
    split; [by repeat case_match|]. split; [apply Forall_singleton; split; [cbn; lia|apply Hcreate]|].
    split; [by repeat constructor|split; [done|]]. cbn [disk trace]. destruct (disk p !! path) eqn:E; [apply kept_refl|].
    destruct (create_error path); [apply kept_refl|]. intros q. cbn. destruct (decide (path = q)) as [<-|Hne].
    + rewrite E, lookup_insert_eq. intros mode [= <-]. apply mode_private.
    + rewrite lookup_insert_ne by done. apply (kept_refl (disk p) q).
  - intros p. exists ((fun f => WarnLoose f.1 f.2) <$> loose_files path (disk p)). split; [done|].
    induction (loose_files path (disk p)) as [|f l IH]; [split_and!; [by constructor|by constructor|done|apply kept_refl]|]. destruct IH as (Hf & Hs & Hk & Hd). split_and!; [| |done|done].
    + apply Forall_cons. split; [split; [cbn; lia|apply Hwarn]|done].
    + cbn. constructor; [exact Hs|]. clear. induction l; constructor; [cbn; lia|done].
Qed.

Lemma prepare_emits (N : Action -> Prop) url :
  (forall path, N (CreateFile path)) -> (forall path mode, N (WarnLoose path mode)) ->
  emits 7 8 N (fun _ => True) (prepare_sqlite_file url).
Proof using Type.
  intros Hcreate Hwarn. unfold prepare_sqlite_file. apply (emits_bind _ 7 7 8 (fun _ => True)); [lia|by apply emits_lift|].
  intros file _. case_match; [by apply emits_lift|by apply secure_emits].
Qed.

Section opening.
Context (c : Config) (key : option StoreKey).
Hypothesis is_ready : ready c key.

Lemma is_ready' : exists c key, ready c key.
Proof using is_ready. by exists c, key. Qed.

Lemma connect_emits kind url : emits 9 9 allowed (fun _ => True) (connect_to kind url).
Proof using is_ready. apply emits_act; [cbn; lia|exact is_ready'|done]. Qed.

Lemma migrated_emits kind :
  emits 10 12 allowed (fun cipher => migrate kind = Ok tt /\ upgrade kind = Ok tt /\ open_cipher kind key = Ok cipher) (migrated kind key).
Proof using is_ready.
  unfold migrated. apply (emits_bind _ 10 11 12 (fun _ => migrate kind = Ok tt /\ upgrade kind = Ok tt)); [lia| |].
  - apply (emits_bind _ 10 10 11 (fun _ => migrate kind = Ok tt)); [lia| |].
    + apply emits_act; [cbn; lia|exact is_ready'|]. intros [] H. by apply map_err_ok in H.
    + intros _ Hm. apply emits_act; [cbn; lia|by split; [exact is_ready'|]|]. intros [] H. split; [done|]. by apply map_err_ok in H.
  - intros _ [Hm Hu]. apply emits_act; [cbn; lia|by split; [exists c|]|]. done.
Qed.

Lemma engine_emits :
  emits 7 12 allowed (fun _ => store_open c key) (open_engine_keyed (database_url c) key).
Proof using is_ready.
  unfold open_engine_keyed. apply (emits_bind _ 7 7 12 (fun kind => engine_of turso_feature (database_url c) = Ok kind)); [lia|by apply emits_lift|].
  intros kind Hk.
  assert (Hm : emits 9 12 allowed (fun _ => store_open c key) (migrated kind key)).
  { eapply emits_conseq; [| | |apply migrated_emits]; [lia|lia|]. intros cipher (H1 & H2 & H3). by exists kind, cipher. }
  destruct kind.
  - unfold open_postgres_keyed. apply (emits_bind _ 7 9 12 (fun _ => True)); [lia| |done].
    eapply emits_conseq; [| | |apply connect_emits]; (lia || done).
  - unfold open_sqlite_keyed. apply (emits_bind _ 7 8 12 (fun _ => True)); [lia| |intros _ _].
    + apply prepare_emits; intros; exact is_ready'.
    + apply (emits_bind _ 8 9 12 (fun _ => True)); [lia| |done]. eapply emits_conseq; [| | |apply connect_emits]; (lia || done).
  - unfold open_keyed, open_turso_file. apply (emits_bind _ 7 9 12 (fun _ => True)); [lia| |done].
    apply (emits_bind _ 7 7 9 (fun _ => True)); [lia|by apply emits_lift|]. intros path _.
    apply (emits_bind _ 7 8 9 (fun _ => True)); [lia|apply secure_emits; intros; exact is_ready'|]. intros _ _.
    apply emits_act; [cbn; lia|exact is_ready'|done].
Qed.
End opening.

Lemma serve_emits c : load_config = Ok c ->
  emits 3 19 allowed (fun _ => exists key drained, ready c key /\ store_open c key /\ load_existing = Ok tt /\ bound = Ok tt /\
    serving (shutdown_grace_ms c) = Ok drained) (serve c).
Proof using Type.
  intros Hc. unfold serve. apply (emits_bind _ 3 3 19 (fun _ => True)); [lia|by apply emits_act; [cbn; lia|..]|]. intros _ _.
  apply (emits_bind _ 3 4 19 (fun key => match store_key_file c with None => key = None | Some path => exists k, from_file path (opened path) = Ok k /\ key = Some k end)); [lia| |].
  { unfold load_store_key. destruct (store_key_file c) as [path|]; [|by apply emits_lift; intros x [= <-]].
    apply (emits_bind _ 3 4 4 (fun k => from_file path (opened path) = Ok k)); [lia| |].
    - apply emits_err_as, emits_err_as, emits_act; [cbn; lia|done|done].
    - intros k Hk. apply emits_lift. intros x [= <-]. by exists k. }
  intros key Hkey. apply (emits_bind _ 4 5 19 (fun _ => served_already = Ok tt)); [lia| |].
  { apply emits_err_as, emits_act; [cbn; lia|done|]. by intros []. }
  intros _ Hp. apply (emits_bind _ 5 6 19 (fun _ => spool_ready = Ok tt)); [lia| |].
  { apply emits_err_as, emits_act; [cbn; lia|done|]. by intros []. }
  intros _ Hs. assert (Hr : ready c key) by done. apply (emits_bind _ 6 12 19 (fun _ => store_open c key)); [lia| |].
  { apply emits_err_as, emits_err_as. eapply emits_conseq; [| | |by apply engine_emits]; (lia || done). }
  intros _ Ho. apply (emits_bind _ 12 14 19 (fun _ => load_existing = Ok tt)); [lia| |].
  { apply emits_err_as, emits_act; [cbn; lia|by exists c, key|]. by intros []. }
  intros _ Hl. apply (emits_bind _ 14 15 19 (fun _ => bound = Ok tt)); [lia| |].
  { apply emits_err_as, emits_act; [cbn; lia|by exists c, key|]. by intros []. }
  intros _ Hb. apply (emits_bind _ 15 16 19 (fun drained => serving (shutdown_grace_ms c) = Ok drained)); [lia| |].
  { apply emits_err_as, emits_act; [cbn; lia|by exists c, key|done]. }
  intros drained Hd. apply (emits_bind _ 16 17 19 (fun _ => True)); [lia| |].
  { destruct drained; [by apply emits_lift|]. apply emits_act; [cbn; lia|by exists c|done]. }
  intros _ _. apply (emits_bind _ 17 18 19 (fun _ => True)); [lia| |].
  { apply emits_act; [cbn; lia|by exists c, drained|done]. }
  intros _ _. apply emits_act; [cbn; lia|by exists c, drained|]. intros _ _. by exists key, drained.
Qed.

Definition ends_with {E A} (s : list Action) (m : Does E A) : Prop := forall p a, (m p).1 = Ok a -> exists l, trace (m p).2 = l ++ s.

Lemma ending_bind {E A B} s (m : Does E A) (f : A -> Does E B) : (forall a, ends_with s (f a)) -> ends_with s (m ≫= f).
Proof using Type. intros Hf p b. unfold mbind, sterr_bind. destruct (m p) as [[a|e] p']; [apply Hf|done]. Qed.

Lemma serve_ends c : ends_with [StopAll; UnlinkSocket] (serve c).
Proof using Type.
  unfold serve. do 9 (apply ending_bind; intros ?). intros p x _. exists (trace p). unfold mbind, sterr_bind, act. cbn. by rewrite <-app_assoc.
Qed.

(** What a daemon that was served to its end went through. *)
Definition served_through (c : Config) : Prop :=
  exists key drained, ready c key /\ store_open c key /\ load_existing = Ok tt /\ bound = Ok tt /\
    serving (shutdown_grace_ms c) = Ok drained.

Lemma main_emits debug USAGE :
  emits 0 21 allowed (fun code => code = SUCCESS /\ exists c, served_through c) (main debug USAGE []).
Proof using Type.
  unfold main. cbn [parse]. apply (emits_bind _ 0 0 21 (fun _ => True)); [lia|by apply emits_act; [cbn; lia|..]|]. intros _ _.
  unfold run_serve. apply (emits_bind _ 0 1 21 (fun c => load_config = Ok c)); [lia| |].
  { apply emits_err_as, emits_act; [cbn; lia|done|done]. }
  intros c Hc.
  apply (emits_bind _ 1 21 21 (fun run => forall a, output unit run = Ok a -> exists c, served_through c)); [lia| |].
  - apply emits_err_as. unfold block_on_bounded. apply (emits_bind _ 1 2 21 (fun _ => True)); [lia|by apply emits_act; [cbn; lia|..]|].
    intros _ _. apply (emits_bind _ 2 19 21 (fun out : result Chain unit => forall a, out = Ok a -> exists c, served_through c)); [lia| |].
    + apply emits_settled. eapply emits_conseq; [| | |by apply serve_emits]; [lia|lia|]. intros ? ?. by exists c.
    + intros out Hout. apply (emits_bind _ 19 21 21 (fun _ => True)); [lia|by apply emits_act; [cbn; lia|..]|]. intros _ _.
      apply emits_lift. by intros x [= <-].
  - intros run Hrun. apply (emits_bind _ 21 21 21 (fun _ => exists c, served_through c)); [lia| |].
    + apply emits_lift. intros x Hx. by eapply Hrun.
    + intros _ Hc'. apply emits_lift. by intros x [= <-].
Qed.

(** The socket is withdrawn before the runtime goes, where the process answers that all went well. *)
Lemma main_ends debug USAGE p code :
  (main debug USAGE [] p).1 = Ok code -> exists l c, load_config = Ok c /\
  trace (main debug USAGE [] p).2 = l ++ [StopAll; UnlinkSocket; ShutdownRuntime (blocking_shutdown_timeout_ms c)].
Proof using Type.
  unfold main, run_serve, block_on_bounded, context, err_as, settled, lift, mbind, sterr_bind. cbn [parse act disk trace].
  destruct load_config as [c|e]; [|done]. cbn. destruct runtime as [[]|e]; [|done]. cbn.
  match goal with |- context [serve c ?q] => pose proof (serve_ends c q) as Hs; destruct (serve c q) as [[[]|e] p'] end; cbn; [|done].
  intros _. destruct (Hs tt eq_refl) as [l Hl]. cbn in Hl. exists l, c. split; [done|]. by rewrite Hl, <-app_assoc.
Qed.

(** C40. [wamux] with no arguments goes through its stages in order and never does a thing before what
    it rests on went well: the store is not touched before the configuration was read, the key file
    accepted, the socket path found unserved and the spool prepared; the key the store is opened
    with is the one of the file; nobody is served before the migrations, the upgrade and the key
    were accepted, the accounts loaded and the socket bound; the accounts are stopped and the socket
    withdrawn only after serving ended.  Store files that were there keep their mode and new ones
    are the owner's alone, whatever the umask.  The process answers 0 only when all of it went well
    and the unlink of the socket was tried, best effort as main.rs has it, and 1 otherwise. *)
Theorem startup_in_order debug USAGE files :
  let '(r, p) := main debug USAGE [] (MkProcess files []) in
  StronglySorted le (stage <$> trace p) /\ Forall allowed (trace p) /\ kept_private files (disk p) /\
  (exit_code r = SUCCESS -> exists l c, served_through c /\
     trace p = l ++ [StopAll; UnlinkSocket; ShutdownRuntime (blocking_shutdown_timeout_ms c)]) /\
  (exit_code r <> SUCCESS -> exit_code r = FAILURE).
Proof using Type.
  destruct (main_emits debug USAGE (MkProcess files [])) as (l & Ht & Ha & Hs & Hk & Hd).
  pose proof (main_ends debug USAGE (MkProcess files [])) as He.
  destruct (main debug USAGE [] (MkProcess files [])) as [r p]. cbn [fst snd disk trace app] in *. rewrite Ht in *.
  split_and!; [done|by eapply Forall_impl; [exact Ha|intros x [_ Hx]]|done| |].
  - destruct r as [code|e]; [|done]. intros _. destruct (He code eq_refl) as (l' & c & Hc & Hl).
    destruct (Hk code eq_refl) as (_ & c' & Hsv). exists l', c. split; [|done].
    destruct Hsv as (key & drained & Hr & Hsv). pose proof Hr as [Hc' _]. assert (c' = c) as -> by congruence. by exists key, drained.
  - destruct r as [code|e]; [|done]. destruct (Hk code eq_refl) as [-> _]. done.
Qed.

(** ** The one-shot commands *)

(** A connection that was made. *)
Definition connected (kind : EngineKind) (url : string) : Prop :=
  match kind with
  | Startup.Turso => exists path, turso_path url = Ok path /\ turso_open path = Ok tt
  | kind => connect kind url = Ok tt
  end.
Definition migrations_run (kind : EngineKind) : bool := is_ok (migrate kind) && is_ok (upgrade kind).

(** What was connected is closed, unless [left] excuses it. *)
Definition released (url : string) (excused : EngineKind -> Prop) (l : list Action) : Prop :=
  forall kind, Connect kind ∈ l -> connected kind url -> CloseStore kind ∈ l \/ excused kind.

Definition on_files (a : Action) : Prop := match a with CreateFile _ | WarnLoose _ _ => True | _ => False end.

Lemma file_step {A} (m : Does StoreError A) p : emits 7 8 on_files (fun _ => True) m ->
  exists l, trace (m p).2 = trace p ++ l /\ forall kind, Connect kind ∉ l.
Proof using Type.
  intros Hm. destruct (Hm p) as (l & Ht & Ha & _). exists l. split; [done|]. intros kind Hin.
  rewrite Forall_forall in Ha. by destruct (Ha _ Hin) as [_ []].
Qed.

Definition releases (url : string) (excused : EngineKind -> Prop) (m : Does StoreError nat) : Prop := forall p,
  exists l, trace (m p).2 = trace p ++ l /\ released url excused l.
(** What comes after a connection was made: it connects nothing, and closes that one. *)
Definition closes (kind : EngineKind) (excused : EngineKind -> Prop) (m : Does StoreError nat) : Prop := forall p,
  exists l, trace (m p).2 = trace p ++ l /\ (forall k, Connect k ∉ l) /\ (CloseStore kind ∈ l \/ excused kind).

Lemma releases_file {A} url excused (m : Does StoreError A) (f : A -> Does StoreError nat) :
  emits 7 8 on_files (fun _ => True) m -> (forall a, releases url excused (f a)) -> releases url excused (m ≫= f).
Proof using Type.
  intros Hm Hf p. destruct (file_step m p Hm) as (l & Ht & Hl). unfold mbind, sterr_bind. destruct (m p) as [[a|e] p']; cbn [snd] in *.
  - destruct (Hf a p') as (l' & Ht' & Hr). exists (l ++ l'). rewrite Ht', Ht, <-app_assoc. split; [done|].
    intros k [Hin|Hin]%elem_of_app Hk; [by apply Hl in Hin|]. rewrite elem_of_app. destruct (Hr k Hin Hk); auto.
  - exists l. split; [done|]. intros k Hin. by apply Hl in Hin.
Qed.

Lemma releases_connect url excused kind (r : StoreResult unit) (m : Does StoreError nat) :
  (connected kind url -> r = Ok tt) -> closes kind excused m -> releases url excused (_ ← act (Connect kind) r; m).
Proof using Type.
  intros Hr Hm p. unfold mbind, sterr_bind, act. destruct r as [[]|e].
  - destruct (Hm (MkProcess (disk p) (trace p ++ [Connect kind]))) as (l & Ht & Hc & Hcl). exists (Connect kind :: l).
    cbn [trace] in Ht. rewrite Ht, <-app_assoc. split; [done|]. intros k [[= ->]|Hin]%elem_of_cons _; [|by apply Hc in Hin].
    destruct Hcl; [left; by right|by right].
  - exists [Connect kind]. split; [done|]. intros k [= ->]%list_elem_of_singleton Hk. by apply Hr in Hk.
Qed.

Ltac in_list := solve [repeat (first [left; reflexivity|right])].
Ltac not_in := intros k Hin; repeat (apply elem_of_cons in Hin as [Hin|Hin]; [first [discriminate Hin|match goal with H : forall k, _ <> Connect k |- _ => destruct (H k); by symmetry end]|]); by inversion Hin.

(** Every answer there is: the trace, what it does not hold, what it does. *)
Ltac all_answers m u r c :=
  destruct m as [[]|]; cbn; [destruct u as [[]|]; cbn; [destruct r|]|]; destruct c; cbn; eexists;
  (split; [rewrite <-?app_assoc; cbn [app]; reflexivity|]);
  (split; [not_in|first [left; in_list|right; done]]).

Lemma rotate_closes kind old new excused : closes kind excused (rotate_pool kind old new).
Proof using Type.
  intros p. unfold rotate_pool, run_migrations, settled, lift, act, mbind, sterr_bind. cbn.
  all_answers (migrate kind) (upgrade kind) (rotate_store kind old new) (close kind).
Qed.

Lemma decrypt_closes kind key : closes kind (fun k => migrations_run k = false) (decrypt_pool kind key).
Proof using Type.
  intros p. unfold decrypt_pool, run_migrations, migrations_run, settled, lift, act, mbind, sterr_bind. cbn.
  all_answers (migrate kind) (upgrade kind) (decrypt_store kind key) (close kind).
Qed.

Lemma closing_closes (r : StoreResult nat) a excused :
  (forall k, a <> Connect k) ->
  closes Startup.Turso excused (closing (_ ← run_migrations Startup.Turso; act a r)).
Proof using Type.
  intros Ha p. unfold closing, run_migrations, settled, lift, act, mbind, sterr_bind. cbn.
  all_answers (migrate Startup.Turso) (upgrade Startup.Turso) r (close Startup.Turso).
Qed.

Lemma releases_ext url excused (m m' : Does StoreError nat) : (forall p, m p = m' p) -> releases url excused m' -> releases url excused m.
Proof using Type. intros He Hm p. rewrite He. apply Hm. Qed.

Lemma releases_turso url excused (m : Does StoreError nat) :
  closes Startup.Turso excused m -> releases url excused (_ ← open_turso_file url; m).
Proof using Type.
  intros Hm. destruct (turso_path url) as [path|e] eqn:Hpath.
  - apply (releases_ext _ _ _ (_ ← secure_store_file path; _ ← act (Connect Startup.Turso) (turso_open path); m)).
    { intros p. unfold open_turso_file, mbind, sterr_bind, lift. rewrite Hpath. by destruct (secure_store_file path p) as [[]]. }
    apply releases_file; [by apply secure_emits|]. intros _. apply releases_connect; [|done].
    intros (path' & Hp & Ho). congruence.
  - intros p. exists []. unfold open_turso_file, mbind, sterr_bind, lift. rewrite Hpath, app_nil_r. split; [done|].
    intros k Hin. by inversion Hin.
Qed.

Lemma releases_sql kind url excused (m : Does StoreError nat) :
  kind <> Startup.Turso -> closes kind excused m -> releases url excused (_ ← connect_to kind url; m).
Proof using Type. intros Hk Hm. apply releases_connect; [|done]. by destruct kind; [intros ->|intros ->|]. Qed.

Lemma releases_engine url excused (f : EngineKind -> Does StoreError nat) :
  (forall kind, releases url excused (f kind)) -> releases url excused (kind ← lift (engine_of turso_feature url); f kind).
Proof using Type.
  intros Hf p. unfold mbind, sterr_bind, lift. destruct (engine_of turso_feature url) as [kind|e]; [apply Hf|].
  exists []. rewrite app_nil_r. split; [done|]. intros k Hin. by inversion Hin.
Qed.

Lemma decrypt_releases url key :
  releases url (fun k => k <> Startup.Turso /\ migrations_run k = false) (decrypt_engine url key).
Proof using Type.
  apply releases_engine. intros kind.
  assert (Hc : kind <> Startup.Turso -> closes kind (fun k => k <> Startup.Turso /\ migrations_run k = false) (decrypt_pool kind key)).
  { intros Hk p. destruct (decrypt_closes kind key p) as (l & Ht & Hn & Hcl). exists l. split_and!; [done..|]. by destruct Hcl; [left|right]. }
  destruct kind.
  - by apply releases_sql; [|apply Hc].
  - apply releases_file; [by apply prepare_emits|]. intros _. by apply releases_sql; [|apply Hc].
  - by apply releases_turso, closing_closes.
Qed.

Lemma rotate_releases url old new : releases url (fun _ => False) (rotate_engine url old new).
Proof using Type.
  apply releases_engine. intros [].
  - apply releases_sql; [done|apply rotate_closes].
  - apply releases_file; [by apply prepare_emits|]. intros _. apply releases_sql; [done|apply rotate_closes].
  - by apply releases_turso, closing_closes.
Qed.

Lemma released_around url excused pre l post :
  released url excused l -> (forall k, Connect k ∉ pre) -> (forall k, Connect k ∉ post) -> released url excused (pre ++ l ++ post).
Proof using Type.
  intros Hl Hpre Hpost k Hin Hk. rewrite !elem_of_app in *. destruct Hin as [Hin|[Hin|Hin]].
  - by apply Hpre in Hin.
  - destruct (Hl k Hin Hk); auto.
  - by apply Hpost in Hin.
Qed.

(** A command: its future over an empty trace, [engine] the part that works on the store. *)
Definition command_ends (excused : EngineKind -> Prop) (future : Does Chain unit) : Prop := forall p,
  (forall k, Connect k ∉ trace p) ->
  let '(r, p') := future p in
  (forall c, load_config = Ok c -> released (database_url c) excused (trace p')) /\
  (r = Ok tt -> exists n, PrintDone n ∈ trace p').

Lemma released_nothing url excused l : (forall k, Connect k ∉ l) -> released url excused l.
Proof using Type. intros Hl k Hin. by apply Hl in Hin. Qed.

(** Neither the configuration nor a key connects. *)
Ltac no_connect_in Hin :=
  lazymatch type of Hin with
  | _ ∈ _ ++ _ => apply elem_of_app in Hin as [Hin|Hin]; no_connect_in Hin
  | _ ∈ _ :: _ => apply elem_of_cons in Hin as [Hin|Hin]; [discriminate Hin|no_connect_in Hin]
  | _ ∈ [] => by inversion Hin
  | _ => match goal with H : forall k, Connect k ∉ _ |- _ => by apply H in Hin end
  end.
Ltac no_connect := let Hin := fresh in intros ? Hin; no_connect_in Hin.

Lemma engine_ends excused (m : Does StoreError nat) url what p :
  (forall k, Connect k ∉ trace p) -> releases url excused m ->
  let '(r, p') := (n ← context what (err_as (fun e => [show e]) m); act (PrintDone n) (Ok tt)) p in
  released url excused (trace p') /\ (r = Ok tt -> exists n, PrintDone n ∈ trace p').
Proof using Type.
  intros Hp Hm. destruct (Hm p) as (l & Ht & Hr). unfold mbind, sterr_bind, context, err_as, act.
  destruct (m p) as [[n|e] p']; cbn [fst snd map_err trace] in *; rewrite Ht.
  - rewrite <-app_assoc. split; [apply released_around; [done|done|]|].
    + no_connect.
    + intros _. exists n. rewrite !elem_of_app. right. right. left.
  - split; [|done]. rewrite <-(app_nil_r l). apply released_around; [done|done|no_connect].
Qed.

Lemma decrypt_ends : command_ends (fun k => k <> Startup.Turso /\ migrations_run k = false) (store_decrypt true).
Proof using Type.
  intros p Hp. unfold store_decrypt, load_store_key, mbind, sterr_bind, context, err_as, act, lift. cbn [negb].
  destruct load_config as [c|e]; cbn [map_err]; [|done].
  destruct (store_key_file c) as [path|]; [destruct (from_file path (opened path)) as [key|e]|]; cbn -[decrypt_engine].
  2,3: split; [|done]; intros c' _; apply released_nothing; no_connect.
  set (q := MkProcess _ _). assert (Hq : forall k, Connect k ∉ trace q) by (subst q; cbn; no_connect).
  pose proof (engine_ends _ _ _ "decrypting the store" q Hq (decrypt_releases (database_url c) key)) as He.
  unfold mbind, sterr_bind, context, err_as, act in He.
  destruct (decrypt_engine (database_url c) key q) as [[n|e] p']; cbn in *; destruct He as [He Hd];
    (split; [by intros c' [= <-]|exact Hd]).
Qed.

Lemma rotate_ends path : command_ends (fun _ => False) (store_rotate_key path).
Proof using Type.
  intros p Hp. unfold store_rotate_key, load_store_key, mbind, sterr_bind, context, err_as, act, lift.
  destruct load_config as [c|e]; cbn [map_err]; [|done].
  destruct (store_key_file c) as [file|]; [destruct (from_file file (opened file)) as [old|e]|]; cbn -[rotate_engine].
  2,3: split; [|done]; intros c' _; apply released_nothing; no_connect.
  destruct (from_file path (opened path)) as [new|e]; cbn -[rotate_engine].
  2: split; [|done]; intros c' _; apply released_nothing; no_connect.
  set (q := MkProcess _ _). assert (Hq : forall k, Connect k ∉ trace q) by (subst q; cbn; no_connect).
  pose proof (engine_ends _ _ _ "rotating the store key" q Hq (rotate_releases (database_url c) old new)) as He.
  unfold mbind, sterr_bind, context, err_as, act in He.
  destruct (rotate_engine (database_url c) old new q) as [[n|e] p']; cbn in *; destruct He as [He Hd];
    (split; [by intros c' [= <-]|exact Hd]).
Qed.

Lemma one_shot_ends excused future p :
  (forall k, Connect k ∉ trace p) -> command_ends excused future ->
  let '(r, p') := run_one_shot future p in
  (forall c, load_config = Ok c -> released (database_url c) excused (trace p')) /\
  (exit_code r = SUCCESS -> exists n, PrintDone n ∈ trace p') /\ (exit_code r <> SUCCESS -> exit_code r = FAILURE).
Proof using Type.
  intros Hp Hf. unfold run_one_shot, block_on_bounded, mbind, sterr_bind, context, err_as, act, settled, lift.
  destruct runtime as [[]|e]; cbn [map_err].
  2: { split_and!; [|done|done]. intros c _. apply released_nothing. cbn. no_connect. }
  set (q := MkProcess _ _). assert (Hq : forall k, Connect k ∉ trace q) by (subst q; cbn; no_connect).
  specialize (Hf q Hq). destruct (future q) as [r p']. destruct Hf as [Hr Hd].
  assert (Hc : forall c, load_config = Ok c -> released (database_url c) excused (trace p' ++ [ShutdownRuntime ONE_SHOT_BLOCKING_BOUND])).
  { intros c Hc. apply (released_around _ _ [] (trace p')); [by apply Hr|no_connect|no_connect]. }
  destruct r as [[]|e]; cbn; (split_and!; [done| |done]); [|done].
  intros _. destruct (Hd eq_refl) as [n Hn]. exists n. rewrite elem_of_app. by left.
Qed.

(** The store commands.  Without [--yes], [wamux store decrypt] reads nothing and touches
    nothing, and says so.  Otherwise, and for [wamux store rotate-key], whatever fails the connection
    that was made to the configured store is closed before the process ends, so that the file and
    its lock are free: a migration that fails under [store decrypt] of the sql family is the one
    exception.  The process answers 0 only when the work was done, and 1 on any error. *)
Theorem store_commands_release debug USAGE files (rotating : option string) :
  let command := match rotating with None => ["store"; "decrypt"; "--yes"] | Some path => ["store"; "rotate-key"; "--new-key-file"; path] end in
  let '(r, p) := main debug USAGE command (MkProcess files []) in
  let '(r0, p0) := main debug USAGE ["store"; "decrypt"] (MkProcess files []) in
  (forall c, load_config = Ok c ->
     released (database_url c) (fun k => rotating = None /\ k <> Startup.Turso /\ migrations_run k = false) (trace p)) /\
  (exit_code r <> SUCCESS -> exit_code r = FAILURE) /\
  (exit_code r = SUCCESS -> exists n, PrintDone n ∈ trace p) /\
  (runtime = Ok tt -> r0 = Err [NEEDS_YES] /\ trace p0 = [RestrictUmask; BuildRuntime; ShutdownRuntime ONE_SHOT_BLOCKING_BOUND]) /\
  disk p0 = files.
Proof using Type.
  cbv zeta. set (start := MkProcess files []).
  assert (H1 : forall k, Connect k ∉ trace (MkProcess files [RestrictUmask])) by (cbn; no_connect).
  assert (H0 : let '(r0, p0) := main debug USAGE ["store"; "decrypt"] start in
    (runtime = Ok tt -> r0 = Err [NEEDS_YES] /\ trace p0 = [RestrictUmask; BuildRuntime; ShutdownRuntime ONE_SHOT_BLOCKING_BOUND]) /\ disk p0 = files).
  { unfold main, run_one_shot, block_on_bounded, mbind, sterr_bind, context, err_as, act, settled, lift. cbn. by destruct runtime as [[]|e]; cbn. }
  destruct rotating as [path|].
  - pose proof (one_shot_ends _ _ _ H1 (rotate_ends path)) as H.
    change (main debug USAGE ["store"; "rotate-key"; "--new-key-file"; path] start)
      with (run_one_shot (store_rotate_key path) (MkProcess files [RestrictUmask])).
    destruct (run_one_shot _ _) as [r p]. destruct (main debug USAGE ["store"; "decrypt"] start) as [r0 p0].
    destruct H as (Hr & Hs & Hf), H0 as [H0 Hd]. split_and!; [|done..]. intros c Hc k Hin Hk. destruct (Hr c Hc k Hin Hk); [by left|done].
  - pose proof (one_shot_ends _ _ _ H1 decrypt_ends) as H.
    change (main debug USAGE ["store"; "decrypt"; "--yes"] start)
      with (run_one_shot (store_decrypt true) (MkProcess files [RestrictUmask])).
    destruct (run_one_shot _ _) as [r p]. destruct (main debug USAGE ["store"; "decrypt"] start) as [r0 p0].
    destruct H as (Hr & Hs & Hf), H0 as [H0 Hd]. split_and!; [|done..]. intros c Hc k Hin Hk. destruct (Hr c Hc k Hin Hk); [by left|by right].
Qed.
(** That exception: the pool is dropped, not closed. *)
Lemma decrypt_unclosed kind key p e :
  migrate kind = Err e -> trace (decrypt_pool kind key p).2 = trace p ++ [Migrate kind].
Proof using Type. intros He. unfold decrypt_pool, run_migrations, mbind, sterr_bind, act. by rewrite He. Qed.

(** The server ends by itself, or at the end of the grace that follows the signal. *)
Lemma drain_bounded serve f grace tie :
  exists t r, serve_until_shutdown serve (Some f) grace tie = Some (t, r) /\ t <= f + grace /\
    (r = Ok GraceElapsed -> t = f + grace) /\ (forall answer, serve = Some (t, answer) -> t < f + grace -> r = (fun _ => Clean) <$> answer).
Proof using Type.
  unfold serve_until_shutdown, drain_or_deadline. destruct serve as [[t answer]|]; cbn.
  - destruct (t <? f + grace) eqn:E; [|destruct (tie && (t =? f + grace)) eqn:E']; cbn; eexists _, _; (split; [done|]).
    + split_and!; [lia| |by intros ? [= <-]]. by destruct answer.
    + split_and!; [lia| |intros ? [= <-]; lia]. by destruct answer.
    + split_and!; [lia|done|]. intros ? [= -> <-]. lia.
  - eexists _, _. split; [done|]. split_and!; [lia|done|done].
Qed.
End process.

(** ** A run where all goes well, ended by the grace *)

Definition toy_main (words : list string) : Does Chain Z :=
  main 63%Z (fun _ => None) (fun _ => Ok "wamux.db") (fun _ _ => Ok tt) (fun _ => Ok tt) (fun _ => Ok tt) (fun _ => Ok tt)
    (fun _ _ => Ok passthrough) (fun _ _ => Ok 1%nat) (fun _ _ _ => Ok 1%nat) (fun _ => Ok tt) (fun _ => "error") (fun _ => [])
    false (Ok tt) 7 (Ok (default_config "linux")) (fun _ => Err InvalidData) (Ok tt) (Ok tt) (Ok tt) (Ok tt) (fun _ => Ok GraceElapsed)
    (fun _ => "[]") "usage" words.

Lemma startup_in_order_witness :
  let '(r, p) := toy_main [] (MkProcess ∅ []) in
  r = Ok SUCCESS /\ StronglySorted le (stage <$> trace p) /\
  trace p = [RestrictUmask; LoadConfig; BuildRuntime; InitTracing; ProbeSocket; PrepareSpool; Connect Postgres; Migrate Postgres;
    Upgrade Postgres; OpenCipher Postgres None; LoadExisting; BindSocket; ServeUntilShutdown; WarnGrace; StopAll; UnlinkSocket;
    ShutdownRuntime 5000].
Proof.
  pose proof (startup_in_order 63 (fun _ => None) (fun _ => Ok "wamux.db") (fun _ _ => Ok tt) (fun _ => Ok tt) (fun _ => Ok tt) (fun _ => Ok tt)
    (fun _ _ => Ok passthrough) (fun _ _ => Ok 1%nat) (fun _ _ _ => Ok 1%nat) (fun _ => Ok tt) (fun _ => "error") (fun _ => [])
    false (Ok tt) 7 (Ok (default_config "linux")) (fun _ => Err InvalidData) (Ok tt) (Ok tt) (Ok tt) (Ok tt) (fun _ => Ok GraceElapsed)
    (fun _ => "[]") "usage" ∅) as H.
  unfold toy_main. destruct (main _ _ _ _ _ _ _ _ _ _ _ _ _ _ _ _ _ _ _ _ _ _ _ _ _ _ _) as [r p] eqn:E.
  destruct H as (Hs & _). split; [|split; [exact Hs|]]; vm_compute in E; injection E as <- <-; reflexivity.
Defined.
